(* ===== verification/_CoqProject ===== *)
-Q . S2P
Prelude.v
GoFloat.v
GoStrings.v
Api.v
GoRuntime.v
GoHeap.v
DeepCopy.v
Mutx.v
Exec.v
ExecTimeout.v
Utils.v
Config.v
NodeService.v
Scheduler.v
SchedulerTheorems.v
ExamplePlugin.v
HostPath.v
Kube.v
LogicVolumeService.v
NodeController.v
NodeControllerTheorems.v
CsiController.v
CsiControllerTheorems.v
LvmParse.v
Lvmd.v
Bcache.v
Partition.v
PartitionCorrect.v
PartitionTheorems.v
Volume.v
Reconciler.v
Capacity.v
Filesystem.v
CsiNode.v
PodIO.v
Hook.v
Health.v
Programs.v
CertGen.v
DeviceCheck.v
TroubleShoot.v
LvmSpec.v
VolumeCorrect.v
ReconcilerCorrect.v
DeviceCheckCorrect.v
LvmTools.v
FilesystemCorrect.v
PodIOTheorems.v
LvmSim.v
NodeSim.v
CsiNodeTheorems.v
NodeExpand.v
VolumeTheorems.v
VolumeHistory.v
DebugServer.v
Relay.v
ReconcilerTheorems.v
TroubleShootTheorems.v
CapacityCorrect.v
Reporter.v
Metrics.v
DeviceCheckTheorems.v
EndToEnd.v
Provision.v
GrpcRunner.v
