(* ===== verification/Prelude.v ===== *)
(** * Carina: a verification of the storage driver

    Carina provisions local storage for Kubernetes.  On every node an agent
    manages volume groups, partitions and directories; a controller turns CSI
    calls into [LogicVolume] objects that the agents carry out; a scheduler
    plugin places pods by the space the agents report.  This library models
    those programs function by function and proves what they promise to each
    other.

    ** How the code is represented

    A Go function with effects is a computation [M S A := S -> outcome A * S]:
    it returns or panics, and passes the state on.  A Go [error] is an
    [option error], a pair of value and error a [res A].  Loops are [range],
    [for_each] and [for_acc]; [wp m Q s] says that [m] returns from [s], without
    a panic, with [Q].  Machine integers are [Z] with [u64], [i64] and the
    wrapping operations written out.  A map of the program is a [gmap]; the
    order of a [range] over it and the result of [sort.Slice] come from the
    class [GoRuntime], and the theorems hold for every order its laws allow.

    Programs and services outside the repository are classes without
    implementation ([OS], [Disko], [FileSys], [CgroupSys], [KubeClient] and the
    like) with their documented behaviour as laws in a second class.
    Simulators implement the classes and their laws ([LvmSim], [NodeSim], and
    small ones beside the theorems), so that the hypotheses are satisfiable and
    the models run on concrete inputs.

    ** The files and what they model (paths under src/)

    - [Prelude], [GoStrings], [GoFloat], [GoRuntime]: this file; strings and
      numbers of the Go library with their round trips; double precision and
      where it is exact; the order of maps and sorting.
    - [GoHeap], [DeepCopy]: memory with pointers, slices and maps, and the
      generated deep copies of the API types, zz_generated.deepcopy.go of api/v1
      and api/v1beta1.  [Den] says what value an address stands for.
    - [Api], [Utils], [Exec], [ExecTimeout], [Mutx]: constants.go, api/,
      utils/utils.go, utils/exec, utils/mutx.  [Mutx] also has the interleavings
      of the callers of the named locks as a step relation.
    - [Config]: pkg/configuration, scheduler/configuration and
      pkg/csidriver/driver/util, with a matcher for the regular expressions of
      [validate].
    - [LvmParse], [Lvmd], [Bcache]: pkg/devicemanager/lvmd and bcache, the
      command lines and the parsers of their reports.
    - [Volume]: pkg/devicemanager/volume.  [LvmSpec] is the abstract state of
      lvm2 and the contract of each operation, [VolumeCorrect] proves the
      operations against the interface [Lvm2Laws], [LvmTools] discharges the
      interface for the command lines over any tools that print conforming
      reports, [LvmSim] is such a set of tools, [VolumeTheorems] states the
      refinements, and [VolumeHistory] composes them to sequences of calls.
    - [Partition], [PartitionCorrect], [PartitionTheorems]:
      pkg/devicemanager/partition, raw disks and the lsblk report.
    - [HostPath], [Filesystem], [FilesystemCorrect]: pkg/devicemanager/hostpath
      and pkg/csidriver/filesystem.
    - [Reconciler], [ReconcilerCorrect], [ReconcilerTheorems]:
      controllers/logicvolume_controller.go.
    - [NodeController], [NodeControllerTheorems]: controllers/node_controller.go.
    - [PodIO], [PodIOTheorems]: controllers/pod_io_controller.go and
      utils/iolimit.
    - [Hook]: hook/mutate_pod.go.
    - [Kube], [LogicVolumeService], [NodeService]: getter/ and
      pkg/csidriver/driver/k8s, the reads and writes of the API server.
    - [CsiController], [CsiControllerTheorems], [CsiNode], [NodeSim],
      [CsiNodeTheorems], [NodeExpand]: pkg/csidriver/driver/controller.go and
      node.go.
    - [DeviceCheck], [DeviceCheckCorrect], [DeviceCheckTheorems],
      [TroubleShoot], [TroubleShootTheorems], [Capacity], [CapacityCorrect]:
      runners/devicecheck.go, troubleshoot.go and nodestorageresource.go.
    - [Reporter]: the event loop of nodestorageresource.go and the notices of
      pkg/devicemanager/manager.go as a step relation.
    - [Health], [GrpcRunner], [Programs]: runners/readinessCheck.go with
      pkg/csidriver/driver/identity.go, the runner of the gRPC server of
      runners/grpc.go, and the set-up of the programs of cmd/.
    - [Metrics]: pkg/metrics, the two Prometheus collectors.
    - [Scheduler], [SchedulerTheorems]:
      scheduler/schedulerplugin/localstorage/storage-plugins.go.
    - [ExamplePlugin]: scheduler/schedulerplugin/example.
    - [CertGen]: kube-webhook-certgen, the certificate of the webhook.
    - [DebugServer], [Relay]: debug/, the HTTP server over the volume manager,
      and the two proxies of the CSI socket as a step relation.
    - [EndToEnd], [Provision]: scheduler, reporter, controller and volume manager
      together; controller, reconciler and node service together.

    ** What the theorems show

    - Volumes: creation, deletion, resizing and the changes of a group refine
      their contracts on every branch; locks are given back; the text reports
      are read back exactly; the unsigned reservation check wraps around.  Over
      any sequence of calls the lvm state stays well formed and no volume is
      lost, made or resized but by a call that names it.
    - Raw disks: partitions never overlap or change when one is created or
      deleted.
    - The agent: what the reconciler writes to the API server is true of the
      node; the scans and the orphan checks remove only what they may; the
      reported capacity is current when an event is acknowledged.  The events
      of the reporter are handled once and in order in every interleaving, and
      its loop can wait for itself.  A probe is answered by the last check.
    - Commands: one with a time limit returns however its process behaves; a
      temporary file is removed.
    - Metrics: the samples read back as the numbers of lvm2 as far as a double
      precision number holds them, and no series is sent twice.
    - Certificates: the patch command patches what it is asked for, in order,
      and touches nothing else.
    - CSI: creation and expansion answer with sizes and nodes that hold;
      publishing and unpublishing keep the contents of every file system; a
      publish that succeeds leaves the right device at the target, and after an
      unpublish the mount table is as before and the data as the pod left it; an
      expansion grows the file system of the volume it was asked for and runs
      no other command that changes the node.
    - Pods: the webhook marks exactly the pods that use Carina's volumes; the
      limits of a pod reach its own control group and are read back exactly.
    - Scheduling: a node that passes the filter can hold the requests, node
      selection is optimal for its strategy, and a scheduled volume passes the
      reservation check of its node.
    - From request to pod: once the node has reported success for the object the
      controller made, the group holds a volume of at least the requested bytes,
      and a publication of the reported id mounts the device of that volume.
    - Objects in memory: the copy of a [LogicVolume] or of a list of them is
      equal and shares nothing with the original; the copy of a
      [NodeStorageResource] shares the physical volumes of its groups.
    - Debug tools: every answer of the HTTP server is what the contract of the
      volume manager allows, over any sequence of requests; what arrives
      through a proxy is what was sent, in order.  The gRPC server runs only
      with its socket bound.
    - Defects: theorems that follow a mistake of the code to its consequence,
      with a concrete run as witness (a lookup that returns another volume, a
      claim that hides another, a node that is lost, panics on a token volume
      or on the deletion of a node, a volume that is erased, a volume that is
      never limited, a loop that waits for itself, a copy that is not one).

    ** Bounds and fuel

    [UntilMaxRetry] recurses on its number of attempts.  The waiting loops of
    the controller recurse on the ticks before the deadline of the context, an
    arbitrary number.  The retries after an interrupted system call take a fuel
    argument; the theorems ask for more fuel than the interruptions the laws
    allow, and then the result is the one of the call.  The loop that waits for
    a command has no bound in the source and takes fuel as well; two rounds are
    enough, as a theorem shows, and more change nothing.  Formatting a number has
    one step for each binary digit, which bounds the decimal ones.

    ** Not modelled

    Logging (utils/log only sets options of a library, and nothing reads a log),
    flags and schemes of the programs, [Fill] of utils/utils.go (reflection),
    [ToUnstructured] and the dynamic client of the scheduler (library calls),
    the constructors that only store their arguments, and the tests: they
    compute nothing the driver decides on, or only call libraries.  The
    libraries themselves (gRPC, echo, Prometheus, disko, the clients of the API
    server) are parameters.  Concurrency is modelled where
    the code relies on it, in the named locks, the channel of the reporter, the
    readiness flag, the collectors and the proxies; a pass of a controller is otherwise a
    sequence of reads and writes between which the API server may change
    arbitrarily.  The texts of errors that are built only for logs are
    abbreviated. *)

From stdpp Require Export base gmap sets list strings sorting.
From Stdlib Require Export ZArith Lia Ascii.
From Stdlib Require Import Permutation.

#[global] Open Scope Z_scope.

(** ** Automation shared by the development *)

(** [go_db] resolves the side conditions every component meets (lock
    preservation, machine ranges); [go_simpl] holds the rewrite rules that
    compute one step of a Go computation. *)
Create HintDb go_db.
Create HintDb go_simpl.

(** Case analysis on the first [match] or [if] of the goal or of a hypothesis. *)
Ltac split_match :=
  match goal with
  | |- context [match ?x with _ => _ end] => destruct x eqn:?
  | H : context [match ?x with _ => _ end] |- _ => destruct x eqn:?
  end.

Ltac break := repeat (split_match; simplify_eq/=; try done).

(** ** Machine integers

    A Go [uint64] is a [Z] in [0, 2^64); the operations wrap.  An [int64] is
    a [Z] in [-2^63, 2^63). *)

Definition is_u64 (z : Z) : Prop := 0 <= z < 2^64.
Definition is_i64 (z : Z) : Prop := - 2^63 <= z < 2^63.

Definition u64 (z : Z) : Z := z mod 2^64.
Definition u32 (z : Z) : Z := z mod 2^32.
Definition u64_add (a b : Z) : Z := u64 (a + b).
Definition u64_sub (a b : Z) : Z := u64 (a - b).
Definition u64_mul (a b : Z) : Z := u64 (a * b).
Definition i64 (z : Z) : Z := (z + 2^63) mod 2^64 - 2^63.

(** [x >> 30] and [x << 30] of the source: bytes to GiB and back. *)
Definition GiB : Z := 2^30.

Lemma u64_range z : is_u64 (u64 z).
Proof. unfold is_u64, u64. apply Z.mod_pos_bound. lia. Qed.

Lemma u64_id z : is_u64 z → u64 z = z.
Proof. unfold is_u64, u64. apply Z.mod_small. Qed.

Lemma u64_sub_fits a b : is_u64 a → 0 <= b <= a → u64_sub a b = a - b.
Proof. unfold u64_sub, is_u64. intros. apply u64_id. unfold is_u64. lia. Qed.

Lemma u64_sub_wraps a b : is_u64 a → is_u64 b → a < b → u64_sub a b = a - b + 2^64.
Proof.
  unfold u64_sub, u64, is_u64. intros.
  rewrite <- (Z.mod_add _ 1) by lia. rewrite Z.mod_small; lia.
Qed.

Lemma i64_id z : is_i64 z → i64 z = z.
Proof. unfold is_i64, i64. intros. rewrite Z.mod_small; lia. Qed.

Lemma i64_add_l a b : i64 (i64 a + b) = i64 (a + b).
Proof.
  unfold i64. f_equal. replace ((a + 2^63) mod 2^64 - 2^63 + b + 2^63) with ((a + 2^63) mod 2^64 + b) by lia.
  rewrite Zplus_mod_idemp_l. f_equal. lia.
Qed.

Lemma i64_range z : is_i64 (i64 z).
Proof.
  unfold is_i64, i64. pose proof (Z.mod_pos_bound (z + 2^63) (2^64)). lia.
Qed.

Lemma shiftr30_spec z : Z.shiftr z 30 * GiB <= z < (Z.shiftr z 30 + 1) * GiB.
Proof.
  rewrite Z.shiftr_div_pow2 by lia. unfold GiB.
  pose proof (Z.div_mod z (2^30)). pose proof (Z.mod_pos_bound z (2^30)). lia.
Qed.

Lemma shiftl30_spec z : Z.shiftl z 30 = z * GiB.
Proof. apply Z.shiftl_mul_pow2. lia. Qed.

#[export] Hint Resolve u64_range i64_range : go_db.

(** ** Go computations

    A computation over the state [S] either returns a value or panics; a
    panic keeps the state reached, because deferred calls still run on it.
    Go's [error] results are values of the returned tuples, not outcomes. *)

Inductive outcome (A : Type) : Type :=
| Done (a : A)
| Panic (msg : string).
Arguments Done {A} a.
Arguments Panic {A} msg.

#[export] Instance outcome_ret : MRet outcome := λ A a, Done a.
#[export] Instance outcome_bind : MBind outcome := λ A B f m,
  match m with Done a => f a | Panic e => Panic e end.

Definition M (S A : Type) : Type := S → outcome A * S.

#[export] Instance M_ret S : MRet (M S) := λ A a s, (Done a, s).
#[export] Instance M_bind S : MBind (M S) := λ A B f m s,
  match m s with
  | (Done a, s') => f a s'
  | (Panic e, s') => (Panic e, s')
  end.

Definition panic {S A} (msg : string) : M S A := λ s, (Panic msg, s).
Definition get_state {S} : M S S := λ s, (Done s, s).
Definition put_state {S} (s : S) : M S unit := λ _, (Done (), s).
Definition modify {S} (f : S → S) : M S unit := λ s, (Done (), f s).
Definition lift_outcome {S A} (o : outcome A) : M S A := λ s, (o, s).

(** The message of a nil dereference. *)
Definition nil_deref : string := "invalid memory address or nil pointer dereference".

(** [defer d] around the rest of a function body: [d] runs on every exit,
    the panicking one included. *)
Definition defer {S A} (d : M S unit) (m : M S A) : M S A := λ s,
  match m s with
  | (o, s') =>
      match d s' with
      | (Done _, s'') => (o, s'')
      | (Panic e, s'') => (Panic e, s'')
      end
  end.

(** A computation on one half of the state. *)
Definition on_fst {S T A} (m : M S A) : M (S * T) A := λ st,
  let '(o, s) := m st.1 in (o, (s, st.2)).
Definition on_snd {S T A} (m : M T A) : M (S * T) A := λ st,
  let '(o, t) := m st.2 in (o, (st.1, t)).

(** A [for _, x := range l] body continues with a new accumulator, breaks out
    of the loop, or returns from the enclosing function. *)
Inductive ctl (A R : Type) : Type :=
| Next (a : A)
| Break (a : A)
| Return (r : R).
Arguments Next {A R} a.
Arguments Break {A R} a.
Arguments Return {A R} r.

Fixpoint range {S X A R} (l : list X) (a : A) (body : X → A → M S (ctl A R)) : M S (A + R) :=
  match l with
  | [] => mret (inl a)
  | x :: l' =>
      c ← body x a;
      match c with
      | Next a' => range l' a' body
      | Break a' => mret (inl a')
      | Return r => mret (inr r)
      end
  end.

(** A loop whose body neither breaks nor returns. *)
Fixpoint for_each {S X} (l : list X) (body : X → M S unit) : M S unit :=
  match l with
  | [] => mret ()
  | x :: l' => body x ;; for_each l' body
  end.

(** A loop with an accumulator whose body neither breaks nor returns. *)
Fixpoint for_acc {S X A} (l : list X) (a : A) (body : X → A → M S A) : M S A :=
  match l with
  | [] => mret a
  | x :: l' => a' ← body x a; for_acc l' a' body
  end.

(** A loop over a pure accumulator whose body may panic. *)
Fixpoint foldM {A B} (f : A → B → outcome A) (a : A) (l : list B) : outcome A :=
  match l with
  | [] => Done a
  | x :: l' => a' ← f a x; foldM f a' l'
  end.

Section monad_laws.
Context {S : Type}.

Lemma bind_done {A B} (f : A → M S B) (m : M S A) s a s' :
  m s = (Done a, s') → (m ≫= f) s = f a s'.
Proof. intros H. unfold mbind, M_bind. by rewrite H. Qed.

Lemma bind_panic {A B} (f : A → M S B) (m : M S A) s e s' :
  m s = (Panic e, s') → (m ≫= f) s = (Panic e, s').
Proof. intros H. unfold mbind, M_bind. by rewrite H. Qed.

(** A panic of the first part, or of the second. *)
Lemma bind_panics {A B} (f : A → M S B) (m : M S A) s e :
  (m s).1 = Panic e → ((m ≫= f) s).1 = Panic e.
Proof. unfold mbind, M_bind. destruct (m s) as [[a|e'] s']; simpl; congruence. Qed.

Lemma bind_run_panics {A B} (f : A → M S B) (m : M S A) s a s' e :
  m s = (Done a, s') → (f a s').1 = Panic e → ((m ≫= f) s).1 = Panic e.
Proof. intros H. by rewrite (bind_done _ _ _ _ _ H). Qed.

Lemma bind_ret_l {A B} (a : A) (f : A → M S B) s : (mret a ≫= f) s = f a s.
Proof. done. Qed.

Lemma bind_assoc {A B C} (m : M S A) (f : A → M S B) (g : B → M S C) s :
  ((m ≫= f) ≫= g) s = (m ≫= (λ a, f a ≫= g)) s.
Proof. unfold mbind, M_bind. by destruct (m s) as [[] ?]. Qed.
End monad_laws.

(** ** Total correctness

    [wp m Q s]: run from [s], [m] returns (it does not panic) and its result
    and final state satisfy [Q]. *)

Definition wp {S A} (m : M S A) (Q : A → S → Prop) (s : S) : Prop :=
  match m s with
  | (Done a, s') => Q a s'
  | (Panic _, _) => False
  end.

Section wp.
Context {S : Type}.

Lemma wp_ret {A} (a : A) (Q : A → S → Prop) s : Q a s → wp (mret a) Q s.
Proof. done. Qed.

Lemma wp_bind {A B} (m : M S A) (f : A → M S B) (Q : B → S → Prop) s :
  wp m (λ a s', wp (f a) Q s') s → wp (m ≫= f) Q s.
Proof. unfold wp, mbind, M_bind. by destruct (m s) as [[] ?]. Qed.

Lemma wp_bind_run {A B} (m : M S A) (f : A → M S B) (Q : B → S → Prop) s a s' :
  m s = (Done a, s') → wp (f a) Q s' → wp (m ≫= f) Q s.
Proof. intros Hm HQ. unfold wp. by rewrite (bind_done _ _ _ _ _ Hm). Qed.

Lemma wp_assoc {A B C} (m : M S A) (f : A → M S B) (g : B → M S C) (Q : C → S → Prop) s :
  wp ((m ≫= f) ≫= g) Q s → wp (m ≫= (λ a, f a ≫= g)) Q s.
Proof. unfold wp. by rewrite bind_assoc. Qed.

Lemma wp_mono {A} (m : M S A) (Q Q' : A → S → Prop) s :
  wp m Q s → (∀ a s', Q a s' → Q' a s') → wp m Q' s.
Proof. unfold wp. destruct (m s) as [[] ?]; auto. Qed.

Lemma wp_and {A} (m : M S A) (Q Q' : A → S → Prop) s :
  wp m Q s → wp m Q' s → wp m (λ a s', Q a s' ∧ Q' a s') s.
Proof. unfold wp. destruct (m s) as [[] ?]; auto. Qed.

Lemma wp_run {A} (m : M S A) (Q : A → S → Prop) s a s' :
  wp m Q s → m s = (Done a, s') → Q a s'.
Proof. unfold wp. intros H E. by rewrite E in H. Qed.

Lemma wp_exists {A} (m : M S A) (Q : A → S → Prop) s :
  wp m Q s ↔ ∃ a s', m s = (Done a, s') ∧ Q a s'.
Proof.
  unfold wp. destruct (m s) as [[a|e] s'] eqn:E; split; try naive_solver.
Qed.

Lemma wp_on_fst {T A} (m : M S A) (Q : A → S * T → Prop) st :
  wp m (λ a s, Q a (s, st.2)) st.1 → wp (on_fst m) Q st.
Proof. unfold wp, on_fst. by destruct (m st.1) as [[] ?]. Qed.

Lemma wp_on_snd {T A} (m : M T A) (Q : A → S * T → Prop) st :
  wp m (λ a t, Q a (st.1, t)) st.2 → wp (on_snd m) Q st.
Proof. unfold wp, on_snd. by destruct (m st.2) as [[] ?]. Qed.

(** An invariant of a loop whose body may break or return. *)
Lemma wp_range {X A R} (l : list X) (a : A) (body : X → A → M S (ctl A R))
    (I : list X → A → S → Prop) (Q : A + R → S → Prop) s :
  I l a s →
  (∀ x l' a s, I (x :: l') a s →
    wp (body x a) (λ c s', match c with
                           | Next a' => I l' a' s'
                           | Break a' => Q (inl a') s'
                           | Return r => Q (inr r) s'
                           end) s) →
  (∀ a s, I [] a s → Q (inl a) s) →
  wp (range l a body) Q s.
Proof.
  intros HI Hb HQ. revert a s HI. induction l as [|x l IH]; intros a s HI; simpl.
  { apply wp_ret. auto. }
  apply wp_bind. eapply wp_mono; [apply Hb, HI|]. intros [a'|a'|r] s' Hc; auto.
Qed.

Lemma wp_for_each {X} (l : list X) (body : X → M S unit) (I : list X → S → Prop) s :
  I l s → (∀ x l' s, I (x :: l') s → wp (body x) (λ _, I l') s) →
  wp (for_each l body) (λ _, I []) s.
Proof.
  intros HI Hb. revert s HI. induction l as [|x l IH]; intros s HI; simpl; [done|].
  apply wp_bind. eapply wp_mono; [apply Hb, HI|]. simpl. auto.
Qed.

(** Invariants that do not mention the elements to come. *)
Lemma wp_for_acc {X A} (l : list X) (a : A) (body : X → A → M S A) (I : A → S → Prop) s :
  I a s → (∀ x a s, x ∈ l → I a s → wp (body x a) I s) → wp (for_acc l a body) I s.
Proof.
  intros HI Hb. revert a s HI Hb. induction l as [|x l IH]; intros a s HI Hb; simpl; [done|].
  apply wp_bind. eapply wp_mono; [apply Hb; [left|done]|]. simpl. intros a' s' HI'.
  apply IH; [done|]. intros y b t Hy. apply Hb. by right.
Qed.

Lemma wp_for_acc_rest {X A} (l : list X) (a : A) (body : X → A → M S A) (I : list X → A → S → Prop) s :
  I l a s → (∀ x l' a s, I (x :: l') a s → wp (body x a) (I l') s) → wp (for_acc l a body) (I []) s.
Proof.
  intros HI Hb. revert a s HI. induction l as [|x l IH]; intros a s HI; simpl; [done|].
  apply wp_bind. eapply wp_mono; [apply Hb, HI|]. simpl. auto.
Qed.

Lemma wp_for_each_elem {X} (l : list X) (body : X → M S unit) (I : S → Prop) s :
  I s → (∀ x s, x ∈ l → I s → wp (body x) (λ _, I) s) → wp (for_each l body) (λ _, I) s.
Proof.
  intros HI Hb. revert s HI Hb. induction l as [|x l IH]; intros s HI Hb; simpl; [done|].
  apply wp_bind. eapply wp_mono; [apply Hb; [left|done]|]. simpl. intros _ s' HI'.
  apply IH; [done|]. intros y t Hy. apply Hb. by right.
Qed.
End wp.

(** Decompose an equation [(x ← m; k) s = r] into the run of [m] and the run
    of [k]. *)
Ltac step_bind :=
  match goal with
  | H : mbind ?f ?m ?s = _ |- _ =>
      let o := fresh "o" in let s' := fresh "s" in let E := fresh "Erun" in
      unfold mbind at 1, M_bind at 1 in H;
      destruct (m s) as [[o|o] s'] eqn:E
  end.

(** ** Step relations *)

(** What every step preserves holds in every reachable state. *)
Lemma rtc_invariant {A} (R : relation A) (I : A → Prop) a b :
  (∀ x y, R x y → I x → I y) → rtc R a b → I a → I b.
Proof. intros HR. induction 1; eauto. Qed.

(** ** Lists *)

Lemma mapM_Done {A B} (f : A → outcome B) (g : A → B) (l : list A) :
  Forall (λ x, f x = Done (g x)) l → mapM f l = Done (g <$> l).
Proof. induction 1 as [|x l Hx _ IH]; simpl; [done|]. by rewrite Hx, IH. Qed.

Lemma Forall_filter {A} (P : A → Prop) `{∀ x, Decision (P x)} (l : list A) :
  Forall P (filter P l).
Proof. apply Forall_forall. intros x Hx. by apply list_elem_of_filter in Hx as [? _]. Qed.

Lemma filter_all {A} (P : A → Prop) `{∀ x, Decision (P x)} (l : list A) : Forall P l → filter P l = l.
Proof. induction 1 as [|x l Hx _ IH]; [done|]. by rewrite filter_cons_True, IH. Qed.

#[export] Instance list_filter_perm {A} (p : A → bool) : Proper ((≡ₚ) ==> (≡ₚ)) (List.filter p).
Proof.
  intros l k Hlk. induction Hlk as [|x l k _ IH|x y l|l k m _ IH1 _ IH2]; simpl; [done| | |by etrans].
  - destruct (p x); [by constructor|done].
  - destruct (p x), (p y); [by constructor|done..].
Qed.

Definition sumZ (l : list Z) : Z := foldr Z.add 0 l.

Lemma sumZ_app l1 l2 : sumZ (l1 ++ l2) = sumZ l1 + sumZ l2.
Proof. induction l1; simpl in *; lia. Qed.

Lemma sumZ_cons x l : sumZ (x :: l) = x + sumZ l.
Proof. done. Qed.

Lemma sumZ_fmap_nonneg {A} (f : A → Z) l : Forall (λ x, 0 <= f x) l → 0 <= sumZ (f <$> l).
Proof. induction 1; [done|]. rewrite fmap_cons, sumZ_cons. lia. Qed.

Lemma sumZ_perm l1 l2 : l1 ≡ₚ l2 → sumZ l1 = sumZ l2.
Proof. induction 1; simpl in *; lia. Qed.

#[export] Instance sumZ_proper : Proper ((≡ₚ) ==> eq) sumZ.
Proof. intros ???. by apply sumZ_perm. Qed.

Lemma sumZ_insert l i x y : l !! i = Some x → sumZ (<[i:=y]> l) = sumZ l - x + y.
Proof.
  revert i. induction l as [|z l IH]; intros [|i] Hi; simplify_eq/=; try lia.
  rewrite (IH _ Hi). unfold sumZ at 1. simpl. fold (sumZ l). lia.
Qed.

Lemma last_snoc_elem {A} (l : list A) (x : A) : last l = Some x → ∃ k, l = k ++ [x].
Proof. intros. by apply last_Some. Qed.

Lemma existsb_elem {A} (p : A → bool) (l : list A) : existsb p l = true ↔ ∃ x, x ∈ l ∧ p x = true.
Proof.
  rewrite existsb_exists. split; intros (x & Hx & Hp); exists x; by rewrite list_elem_of_In in *.
Qed.

Lemma Forall2_elem_r {A B} (P : A → B → Prop) l k y :
  Forall2 P l k → y ∈ k → ∃ x, x ∈ l ∧ P x y.
Proof.
  intros Hlk [i Hi]%list_elem_of_lookup.
  destruct (Forall2_lookup_r _ _ _ _ _ Hlk Hi) as (x & Hx & HP).
  exists x. split; [|done]. by eapply list_elem_of_lookup_2.
Qed.

Lemma Forall2_elem_l {A B} (P : A → B → Prop) l k x :
  Forall2 P l k → x ∈ l → ∃ y, y ∈ k ∧ P x y.
Proof.
  intros Hlk [i Hi]%list_elem_of_lookup.
  destruct (Forall2_lookup_l _ _ _ _ _ Hlk Hi) as (y & Hy & HP).
  exists y. split; [|done]. by eapply list_elem_of_lookup_2.
Qed.
