(* ===== verification/GoFloat.v ===== *)
(** * [float64]

    Double precision numbers as the standard library specifies them, the
    conversions from and to [int64], and where they are exact. *)

From S2P Require Import Prelude.
From Stdlib Require Export SpecFloat.

#[local] Open Scope Z_scope.

Abbreviation float64 := spec_float.
Definition f_prec : Z := 53.
Definition f_emax : Z := 1024.
Definition float_of_int (z : Z) : float64 := binary_normalize f_prec f_emax z 0 false.
Definition f_add : float64 → float64 → float64 := SFadd f_prec f_emax.
Definition f_sub : float64 → float64 → float64 := SFsub f_prec f_emax.
Definition f_mul : float64 → float64 → float64 := SFmul f_prec f_emax.
Definition f_div : float64 → float64 → float64 := SFdiv f_prec f_emax.

(** [int64(x)]: towards zero; [None] where the language leaves the result to
    the implementation. *)
Definition int_of_float (x : float64) : option Z :=
  match x with
  | S754_zero _ => Some 0
  | S754_finite s m e =>
      let n := if 0 <=? e then Zpos m * 2 ^ e else Zpos m / 2 ^ (- e) in
      let z := if s then - n else n in
      if (- 2^63 <=? z) && (z <? 2^63) then Some z else None
  | _ => None
  end.

(** ** The size of a mantissa *)

Lemma digits2_pos_size p : digits2_pos p = Pos.size p.
Proof. induction p; cbn; congruence. Qed.

Lemma Zdigits2_bounds m k : 2 ^ (k - 1) <= Zpos m < 2 ^ k → Zdigits2 (Zpos m) = k.
Proof.
  intros [Hl Hu]. cbn. rewrite digits2_pos_size.
  pose proof (Pos2Z.pos_lt_pos _ _ (Pos.size_gt m)) as Hg. pose proof (Pos.size_le m) as Hs.
  rewrite Pos2Z.inj_pow in Hg. apply Pos2Z.pos_le_pos in Hs. rewrite Pos2Z.inj_pow, (Pos2Z.inj_xO m) in Hs.
  assert (0 < k). { destruct (Z.lt_decidable 0 k); [done|]. rewrite (Z.pow_neg_r 2 (k - 1)) in Hl by lia.
    destruct (decide (k = 0)) as [->|]; [lia|]. rewrite Z.pow_neg_r in Hu by lia. lia. }
  assert (k - 1 < Zpos (Pos.size m)). { apply (Z.pow_lt_mono_r_iff 2); lia. }
  assert (Zpos (Pos.size m) < k + 1).
  { apply (Z.pow_lt_mono_r_iff 2); [lia..|]. rewrite Z.pow_add_r by lia. lia. }
  lia.
Qed.

Lemma pos_pow_double p : (2 ^ p~0 = 2 ^ p * 2 ^ p)%positive.
Proof.
  apply Pos2Z.inj. rewrite Pos2Z.inj_mul, !Pos2Z.inj_pow, <- Z.pow_add_r by lia. f_equal. lia.
Qed.

(** Bits shifted out of a multiple are zero. *)
Lemma shr_exact p : ∀ m, iter_pos shr_1 p (Build_shr_record (Zpos (m * 2 ^ p)) false false) =
  Build_shr_record (Zpos m) false false.
Proof.
  assert (∀ m, shr_1 (Build_shr_record (Zpos (2 * m)) false false) = Build_shr_record (Zpos m) false false) as H1 by done.
  induction p as [p IH|p IH|]; intros m; cbn [iter_pos].
  - replace (m * 2 ^ p~1)%positive with (2 * (m * 2 ^ p * 2 ^ p))%positive; [by rewrite H1, !IH|].
    rewrite Pos.xI_succ_xO, Pos.pow_succ_r, pos_pow_double. lia.
  - replace (m * 2 ^ p~0)%positive with (m * 2 ^ p * 2 ^ p)%positive; [by rewrite !IH|].
    rewrite pos_pow_double. lia.
  - replace (m * 2 ^ 1)%positive with (2 * m)%positive by lia. apply H1.
Qed.

(** ** Rounding where nothing is lost *)

(** A mantissa of 53 bits and [k] zeros. *)
Lemma round_aux_exact s m k e :
  2 ^ 52 <= Zpos m < 2 ^ 53 → 0 <= k → -1074 <= e + k <= 971 →
  binary_round_aux f_prec f_emax s (Zpos m * 2 ^ k) e loc_Exact = S754_finite s m (e + k).
Proof.
  intros Hm Hk He. unfold binary_round_aux, shr_fexp, fexp, emin, f_prec, f_emax.
  assert (∃ m', Zpos m' = Zpos m * 2 ^ k ∧ 2 ^ (53 + k - 1) <= Zpos m' < 2 ^ (53 + k)) as (m' & Em & Hm').
  { exists (Z.to_pos (Zpos m * 2 ^ k)).
    assert (0 < 2 ^ k) by lia. rewrite Z2Pos.id by nia. split; [done|].
    replace (53 + k - 1) with (52 + k) by lia. rewrite !Z.pow_add_r by lia. nia. }
  rewrite <- Em, (Zdigits2_bounds m' (53 + k)) by done.
  replace (Z.max (53 + k + e - 53) (3 - 1024 - 53) - e) with k by lia.
  assert (shr (shr_record_of_loc (Zpos m') loc_Exact) e k = (Build_shr_record (Zpos m) false false, e + k)) as ->.
  { destruct k as [|k|]; [|..|lia]; cbn [shr shr_record_of_loc].
    - rewrite Z.mul_1_r in Em. by rewrite Em, Z.add_0_r.
    - rewrite <- (shr_exact k m). do 3 f_equal. rewrite <- Pos2Z.inj_pow in Em. lia. }
  cbn [shr_m loc_of_shr_record round_nearest_even]. rewrite (Zdigits2_bounds m 53) by done.
  replace (Z.max (53 + (e + k) - 53) (3 - 1024 - 53) - (e + k)) with 0 by lia.
  cbn [shr shr_record_of_loc shr_m]. destruct (Z.leb_spec (e + k) (1024 - 53)); [done|lia].
Qed.

(** A positive integer below [2^53] keeps its bits. *)
Lemma float_of_int_finite z :
  0 < z < 2 ^ 53 →
  ∃ m e, float_of_int z = S754_finite false m e ∧ -52 <= e <= 0 ∧ Zpos m = z * 2 ^ (- e) ∧ 2 ^ 52 <= Zpos m < 2 ^ 53.
Proof.
  intros Hz. destruct z as [|p|]; [lia| |lia]. unfold float_of_int, binary_normalize, binary_round, fexp, emin.
  set (d := Zpos (digits2_pos p)).
  assert (2 ^ (d - 1) <= Zpos p < 2 ^ d) as Hd.
  { subst d. rewrite digits2_pos_size. pose proof (Pos2Z.pos_lt_pos _ _ (Pos.size_gt p)) as Hg.
    pose proof (Pos.size_le p) as Hs. rewrite Pos2Z.inj_pow in Hg. apply Pos2Z.pos_le_pos in Hs.
    rewrite Pos2Z.inj_pow, (Pos2Z.inj_xO p) in Hs. split; [|done].
    replace (2 ^ Zpos (Pos.size p)) with (2 * 2 ^ (Zpos (Pos.size p) - 1)) in Hs; [lia|].
    rewrite <- Z.pow_succ_r by lia. f_equal. lia. }
  assert (1 <= d <= 53).
  { split; [lia|]. apply Z.lt_succ_r, Z.nle_gt. intros Hc.
    assert (2 ^ 53 <= 2 ^ (d - 1)) by (apply Z.pow_le_mono_r; lia). lia. }
  change f_prec with 53. change f_emax with 1024. rewrite Z.add_0_r.
  replace (Z.max (d - 53) (3 - 1024 - 53)) with (d - 53) by lia.
  assert (∃ m, shl_align p 0 (d - 53) = (m, d - 53) ∧ Zpos m = Zpos p * 2 ^ (53 - d)) as (m & -> & Em).
  { unfold shl_align. rewrite Z.sub_0_r. destruct (d - 53) as [|q|q] eqn:Eq; [|lia|].
    - exists p. split; [done|]. replace (53 - d) with 0 by lia. lia.
    - eexists. split; [done|]. replace (53 - d) with (Zpos q) by lia.
      rewrite <- Pos2Z.inj_pow, <- Pos2Z.inj_mul. f_equal. clear. induction q using Pos.peano_ind; [cbn; lia|].
      rewrite Pos.iter_succ, Pos.pow_succ_r. lia. }
  exists m, (d - 53).
  assert (2 ^ 52 <= Zpos m < 2 ^ 53) as Hm.
  { rewrite Em. replace (2 ^ 52) with (2 ^ (d - 1) * 2 ^ (53 - d)) by (rewrite <- Z.pow_add_r by lia; f_equal; lia).
    replace (2 ^ 53) with (2 ^ d * 2 ^ (53 - d)) by (rewrite <- Z.pow_add_r by lia; f_equal; lia).
    assert (0 < 2 ^ (53 - d)) by lia. nia. }
  pose proof (round_aux_exact false m 0 (d - 53) Hm) as Hr. rewrite Z.mul_1_r, Z.add_0_r in Hr.
  split_and!; [apply Hr; lia|lia|lia| |apply Hm..]. rewrite Em. do 2 f_equal. lia.
Qed.

(** The value of a finite number that is an integer. *)
Lemma int_of_float_finite m e z :
  Zpos m * 2 ^ Z.max 0 e = z * 2 ^ Z.max 0 (- e) → 0 <= z < 2 ^ 63 → int_of_float (S754_finite false m e) = Some z.
Proof.
  intros Hv Hz. cbn [int_of_float].
  assert ((if 0 <=? e then Zpos m * 2 ^ e else Zpos m / 2 ^ (- e)) = z) as ->.
  { destruct (Z.leb_spec 0 e).
    - rewrite (Z.max_r 0 e), (Z.max_l 0 (- e)) in Hv by lia. lia.
    - rewrite (Z.max_l 0 e), (Z.max_r 0 (- e)) in Hv by lia. rewrite Z.mul_1_r in Hv.
      rewrite Hv. apply Z.div_mul. lia. }
  rewrite (proj2 (Z.leb_le _ _)), (proj2 (Z.ltb_lt _ _)) by lia. done.
Qed.

(** Integers below [2^53] survive the conversion. *)
Lemma float_of_int_exact z : 0 <= z < 2 ^ 53 → int_of_float (float_of_int z) = Some z.
Proof.
  intros Hz. destruct (decide (z = 0)) as [->|]; [done|].
  destruct (float_of_int_finite z) as (m & e & -> & He & Em & _); [lia|].
  apply int_of_float_finite; [|lia]. rewrite (Z.max_l 0 e), (Z.max_r 0 (- e)) by lia. lia.
Qed.

(** A count of sectors times 512 is exact as well. *)
Lemma f_mul_512_exact z : 0 <= z < 2 ^ 53 →
  int_of_float (f_mul (float_of_int z) (float_of_int 512)) = Some (512 * z).
Proof.
  intros Hz. destruct (decide (z = 0)) as [->|]; [done|].
  destruct (float_of_int_finite z) as (m & e & -> & He & Em & Hm); [lia|].
  change (float_of_int 512) with (S754_finite false 4503599627370496 (-43)).
  unfold f_mul, SFmul. cbn [xorb].
  change (Zpos (m * 4503599627370496)) with (Zpos m * 2 ^ 52).
  rewrite round_aux_exact by (done || lia). apply int_of_float_finite; [|lia].
  rewrite Em. destruct (Z.leb_spec 0 (e + -43 + 52)).
  - rewrite (Z.max_r 0 (e + -43 + 52)), (Z.max_l 0 (- (e + -43 + 52))) by lia.
    rewrite <- Z.mul_assoc, <- Z.pow_add_r by lia. replace (- e + (e + -43 + 52)) with 9 by lia. lia.
  - rewrite (Z.max_l 0 (e + -43 + 52)), (Z.max_r 0 (- (e + -43 + 52))) by lia.
    replace (- e) with (9 + - (e + -43 + 52)) by lia. rewrite Z.pow_add_r by lia. lia.
Qed.
