(* ===== verification/GoStrings.v ===== *)
(** * Go's [strings] and [strconv] packages, as far as the source uses them

    Strings are byte strings ([String.string]).  [ToLower], [TrimSpace] and
    [Fields] are the ASCII ones: every string the source passes to them is a
    device name, a policy or the output of a system tool. *)

From S2P Require Import Prelude.

#[local] Open Scope string_scope.
#[local] Open Scope list_scope.
#[local] Open Scope Z_scope.

(** ** Splitting and joining *)

(** [strings.Split(s, sep)] for a one-byte separator. *)
Fixpoint Split (s : string) (sep : ascii) : list string :=
  match s with
  | "" => [""]
  | String c s' =>
      if Ascii.eqb c sep then "" :: Split s' sep
      else match Split s' sep with
           | [] => [String c ""]
           | h :: t => String c h :: t
           end
  end.

(** [strings.Join(l, sep)]. *)
Fixpoint Join (l : list string) (sep : string) : string :=
  match l with
  | [] => ""
  | [x] => x
  | x :: l' => x +:+ sep +:+ Join l' sep
  end.

(** ** Searching and replacing *)

Definition HasPrefix (s p : string) : bool := String.prefix p s.

Fixpoint Contains (s sub : string) : bool :=
  String.prefix sub s ||
  match s with
  | "" => false
  | String _ s' => Contains s' sub
  end.

Fixpoint sdrop (n : nat) (s : string) : string :=
  match n, s with
  | O, _ => s
  | S n', "" => ""
  | S n', String _ s' => sdrop n' s'
  end.

Fixpoint stake (n : nat) (s : string) : string :=
  match n, s with
  | O, _ => ""
  | S n', "" => ""
  | S n', String c s' => String c (stake n' s')
  end.

Definition TrimPrefix (s p : string) : string :=
  if HasPrefix s p then sdrop (String.length p) s else s.

Definition HasSuffix (s p : string) : bool :=
  let k := (String.length s - String.length p)%nat in
  bool_decide (String.length p ≤ String.length s)%nat && String.eqb (sdrop k s) p.

Definition TrimSuffix (s p : string) : string :=
  if HasSuffix s p then stake (String.length s - String.length p) s else s.

(** [strings.ReplaceAll(s, old, new)] for a non-empty [old]: left to right,
    non overlapping; [skip] counts the bytes of the match still to drop. *)
Fixpoint replace_go (old new : string) (skip : nat) (s : string) : string :=
  match s with
  | "" => ""
  | String c s' =>
      match skip with
      | S k => replace_go old new k s'
      | O =>
          if String.prefix old s
          then new +:+ replace_go old new (String.length old - 1) s'
          else String c (replace_go old new O s')
      end
  end.

Definition ReplaceAll (s old new : string) : string := replace_go old new O s.

(** ** Case and blanks *)

Definition lower (c : ascii) : ascii :=
  let n := nat_of_ascii c in
  if (65 <=? n)%nat && (n <=? 90)%nat then ascii_of_nat (n + 32) else c.

Fixpoint ToLower (s : string) : string :=
  match s with
  | "" => ""
  | String c s' => String (lower c) (ToLower s')
  end.

(** '\t', '\n', '\v', '\f', '\r' and ' '. *)
Definition is_space (c : ascii) : bool :=
  let n := nat_of_ascii c in
  ((9 <=? n)%nat && (n <=? 13)%nat) || (n =? 32)%nat.

Fixpoint trim_left (s : string) : string :=
  match s with
  | "" => ""
  | String c s' => if is_space c then trim_left s' else s
  end.

Fixpoint trim_right (s : string) : string :=
  match s with
  | "" => ""
  | String c s' =>
      match trim_right s' with
      | "" => if is_space c then "" else String c ""
      | t => String c t
      end
  end.

Definition TrimSpace (s : string) : string := trim_right (trim_left s).

(** [strings.Fields]: the maximal runs of non-blank bytes. *)
Fixpoint fields_go (s cur : string) : list string :=
  match s with
  | "" => if String.eqb cur "" then [] else [cur]
  | String c s' =>
      if is_space c
      then (if String.eqb cur "" then fields_go s' "" else cur :: fields_go s' "")
      else fields_go s' (cur +:+ String c "")
  end.

Definition Fields (s : string) : list string := fields_go s "".

(** ** Numbers *)

Definition digit (d : Z) : ascii := ascii_of_nat (48 + Z.to_nat d).

Definition digit_val (c : ascii) : option Z :=
  let n := nat_of_ascii c in
  if (48 <=? n)%nat && (n <=? 57)%nat then Some (Z.of_nat (n - 48)) else None.

Fixpoint format_go (fuel : nat) (n : Z) (acc : string) : string :=
  match fuel with
  | O => acc
  | S f =>
      let acc' := String (digit (n mod 10)) acc in
      if n <? 10 then acc' else format_go f (n / 10) acc'
  end.

(** [strconv.FormatUint(n, 10)] and [fmt.Sprintf("%d", n)]: [Z.log2 n + 1]
    binary digits bound the number of decimal digits. *)
Definition FormatUint (n : Z) : string := format_go (S (Z.to_nat (Z.log2 n))) n "".

Definition FormatInt (n : Z) : string :=
  if n <? 0 then String "-" (FormatUint (- n)) else FormatUint n.

Inductive num_error := ErrSyntax | ErrRange.

Fixpoint parse_uint_go (max n : Z) (s : string) : Z * option num_error :=
  match s with
  | "" => (n, None)
  | String c s' =>
      match digit_val c with
      | None => (0, Some ErrSyntax)
      | Some d =>
          if max <? n * 10 + d then (max, Some ErrRange)
          else parse_uint_go max (n * 10 + d) s'
      end
  end.

(** [strconv.ParseUint(s, 10, bits)]: 0 on a syntax error, the largest value
    on overflow. *)
Definition ParseUint (s : string) (bits : Z) : Z * option num_error :=
  if String.eqb s "" then (0, Some ErrSyntax)
  else parse_uint_go (2^bits - 1) 0 s.

(** [strconv.ParseInt(s, 10, 64)]. *)
Definition ParseInt64 (s : string) : Z * option num_error :=
  let '(neg, t) :=
    match s with
    | String "+" s' => (false, s')
    | String "-" s' => (true, s')
    | _ => (false, s)
    end in
  if String.eqb s "" then (0, Some ErrSyntax) else
  let '(un, err) := ParseUint t 64 in
  match err with
  | Some ErrSyntax => (0, Some ErrSyntax)
  | _ =>
      if negb neg && (2^63 <=? un) then (2^63 - 1, Some ErrRange)
      else if neg && (2^63 <? un) then (- 2^63, Some ErrRange)
      else (if neg then - un else un, None)
  end.

(** ** Lemmas *)

#[global] Arguments String.append !_ _ / : simpl nomatch.
#[global] Arguments digit : simpl never.
#[global] Arguments digit_val : simpl never.

Lemma sapp_assoc x y z : (x +:+ y) +:+ z = x +:+ (y +:+ z).
Proof. induction x as [|c x IH]; simpl; congruence. Qed.

Lemma sapp_nil_r x : x +:+ "" = x.
Proof. induction x as [|c x IH]; simpl; congruence. Qed.

Lemma slength_app x y : String.length (x +:+ y) = (String.length x + String.length y)%nat.
Proof. induction x as [|c x IH]; simpl; congruence. Qed.

Fixpoint has_char (c : ascii) (s : string) : bool :=
  match s with
  | "" => false
  | String d s' => Ascii.eqb d c || has_char c s'
  end.

Fixpoint remove_char (c : ascii) (s : string) : string :=
  match s with
  | "" => ""
  | String d s' => if Ascii.eqb d c then remove_char c s' else String d (remove_char c s')
  end.

Lemma has_char_app c x y : has_char c (x +:+ y) = has_char c x || has_char c y.
Proof. induction x as [|d x IH]; simpl; [done|]. by rewrite IH, orb_assoc. Qed.

Lemma remove_char_app c x y : remove_char c (x +:+ y) = remove_char c x +:+ remove_char c y.
Proof. induction x as [|d x IH]; simpl; [done|]. rewrite IH. by destruct (Ascii.eqb d c). Qed.

Lemma remove_char_id c x : has_char c x = false → remove_char c x = x.
Proof.
  induction x as [|d x IH]; simpl; [done|].
  intros [-> H]%orb_false_iff. by rewrite IH.
Qed.

Lemma prefix_nil s : String.prefix "" s = true.
Proof. by destruct s. Qed.

(** Dropping a byte: [ReplaceAll(s, c, "")]. *)
Lemma ReplaceAll_drop c s : ReplaceAll s (String c "") "" = remove_char c s.
Proof.
  unfold ReplaceAll. induction s as [|d s IH]; simpl; [done|].
  destruct (ascii_dec c d) as [->|Hne].
  - by rewrite prefix_nil, Ascii.eqb_refl.
  - destruct (Ascii.eqb_spec d c); [congruence|]. by f_equal.
Qed.

Lemma Split_nonempty s c : Split s c ≠ [].
Proof. destruct s as [|d s]; simpl; [done|]. by repeat split_match. Qed.

Lemma Split_none s c : has_char c s = false → Split s c = [s].
Proof.
  induction s as [|d s IH]; simpl; [done|].
  intros [-> H]%orb_false_iff. by rewrite IH.
Qed.

Lemma Split_cons x y c : has_char c x = false → Split (x +:+ String c y) c = x :: Split y c.
Proof.
  induction x as [|d x IH]; simpl.
  - by rewrite Ascii.eqb_refl.
  - intros [-> H]%orb_false_iff. by rewrite IH.
Qed.

(** Joining is inverted by splitting when no piece holds the separator. *)
Lemma Split_Join l c :
  l ≠ [] → Forall (λ x, has_char c x = false) l → Split (Join l (String c "")) c = l.
Proof.
  induction l as [|x l IH]; intros Hne Hl; [done|].
  apply Forall_cons in Hl as [Hx Hl]. destruct l as [|y l]; simpl.
  - by apply Split_none.
  - rewrite Split_cons by done. f_equal. by apply IH.
Qed.

Lemma remove_char_Join c l sep :
  remove_char c (Join l sep) = Join (remove_char c <$> l) (remove_char c sep).
Proof.
  induction l as [|x l IH]; [done|]. destruct l as [|y l]; [done|].
  change (Join (x :: y :: l) sep) with (x +:+ sep +:+ Join (y :: l) sep).
  rewrite !remove_char_app, IH. done.
Qed.

Lemma has_char_Join c l sep :
  has_char c sep = false → Forall (λ x, has_char c x = false) l → has_char c (Join l sep) = false.
Proof.
  intros Hs. induction 1 as [|x l Hx Hl IH]; [done|]. destruct l as [|y l]; [done|].
  change (Join (x :: y :: l) sep) with (x +:+ sep +:+ Join (y :: l) sep).
  rewrite !has_char_app, Hx, Hs, IH. done.
Qed.

(** Trimming a text between blanks that neither starts nor ends with one. *)
Lemma trim_right_keep x c : is_space c = false → trim_right (x +:+ String c "") = x +:+ String c "".
Proof.
  intros Hc. induction x as [|d x IH]; cbn [String.append trim_right].
  - by rewrite Hc.
  - rewrite IH. by destruct x.
Qed.

Lemma trim_right_drop x c d :
  is_space c = false → is_space d = true →
  trim_right (x +:+ String c (String d "")) = x +:+ String c "".
Proof.
  intros Hc Hd. induction x as [|e x IH]; cbn [String.append trim_right].
  - by rewrite Hd, Hc.
  - rewrite IH. by destruct x.
Qed.

Lemma prefix_app p s : String.prefix p (p +:+ s) = true.
Proof. induction p as [|c p IH]; simpl; [apply prefix_nil|]. by destruct (ascii_dec c c). Qed.

Lemma prefix_spec p s : String.prefix p s = true ↔ ∃ t, s = p +:+ t.
Proof.
  split.
  - revert s. induction p as [|c p IH]; intros s; simpl; [by exists s|].
    destruct s as [|d s]; simpl; [done|]. destruct (ascii_dec c d) as [->|]; [|done].
    intros [t ->]%IH. by exists t.
  - intros [t ->]. apply prefix_app.
Qed.

Lemma sdrop_app p s : sdrop (String.length p) (p +:+ s) = s.
Proof. by induction p. Qed.

Lemma TrimPrefix_app p s : TrimPrefix (p +:+ s) p = s.
Proof. unfold TrimPrefix, HasPrefix. by rewrite prefix_app, sdrop_app. Qed.

Lemma HasPrefix_app p s : HasPrefix (p +:+ s) p = true.
Proof. apply prefix_app. Qed.

Lemma sapp_inj_l p x y : p +:+ x = p +:+ y → x = y.
Proof. induction p as [|c p IH]; simpl; intros H; [done|]. injection H. apply IH. Qed.

Lemma Contains_prefix s p : HasPrefix s p = true → Contains s p = true.
Proof. unfold HasPrefix. intros H. destruct s; simpl in *; by rewrite H. Qed.

Lemma Contains_refl s : Contains s s = true.
Proof.
  apply Contains_prefix, prefix_spec. exists "". by rewrite sapp_nil_r.
Qed.

Lemma lower_idem c : lower (lower c) = lower c.
Proof. destruct c as [[] [] [] [] [] [] [] []]; reflexivity. Qed.

Lemma ToLower_idem s : ToLower (ToLower s) = ToLower s.
Proof. induction s as [|c s IH]; simpl; [done|]. by rewrite lower_idem, IH. Qed.

(** *** Decimal numbers *)

Lemma digit_val_digit d : 0 <= d < 10 → digit_val (digit d) = Some d.
Proof.
  intros Hd. assert (d = 0 ∨ d = 1 ∨ d = 2 ∨ d = 3 ∨ d = 4 ∨ d = 5 ∨ d = 6 ∨ d = 7
    ∨ d = 8 ∨ d = 9) as Hc by lia.
  by repeat (destruct Hc as [->|Hc]; [done|]); subst.
Qed.

Lemma format_go_acc fuel n acc : (0 < fuel)%nat → format_go fuel n acc ≠ "".
Proof.
  revert n acc. induction fuel as [|f IH]; intros n acc Hf; [lia|]. simpl.
  destruct (n <? 10); [done|]. destruct f; [done|]. apply IH. lia.
Qed.

Lemma parse_format_go max fuel n acc :
  0 <= n <= max → n < 2 ^ Z.of_nat fuel →
  (0 < fuel)%nat →
  parse_uint_go max 0 (format_go fuel n acc) = parse_uint_go max n acc.
Proof.
  revert n acc. induction fuel as [|f IH]; intros n acc Hn Hf Hpos; [lia|].
  simpl format_go. destruct (Z.ltb_spec n 10) as [Hlt|Hge].
  - rewrite Z.mod_small by lia. cbn [parse_uint_go].
    rewrite digit_val_digit by lia. replace (0 * 10 + n) with n by lia.
    destruct (Z.ltb_spec max n); [lia|]. done.
  - assert (0 < f)%nat as Hf0.
    { destruct f; [|lia]. change (2 ^ Z.of_nat 1) with 2 in Hf. lia. }
    assert (n / 10 < 2 ^ Z.of_nat f) as Hq.
    { rewrite Nat2Z.inj_succ, Z.pow_succ_r in Hf by lia.
      apply Z.div_lt_upper_bound; lia. }
    pose proof (Z.div_mod n 10 ltac:(lia)). pose proof (Z.mod_pos_bound n 10).
    assert (0 <= n / 10) by (apply Z.div_pos; lia).
    rewrite IH by lia. cbn [parse_uint_go].
    rewrite digit_val_digit by lia.
    replace (n / 10 * 10 + n mod 10) with n by lia.
    destruct (Z.ltb_spec max n); [lia|]. done.
Qed.

Lemma log2_fuel n : 0 <= n → n < 2 ^ Z.of_nat (S (Z.to_nat (Z.log2 n))).
Proof.
  intros. rewrite Nat2Z.inj_succ, Z2Nat.id by apply Z.log2_nonneg.
  destruct (Z.eq_dec n 0) as [->|]; [done|]. apply Z.log2_spec. lia.
Qed.

(** Printing a number and reading it back. *)
Lemma ParseUint_range s : 0 <= (ParseUint s 64).1 < 2^64.
Proof.
  unfold ParseUint. destruct (String.eqb s ""); [done|].
  assert (∀ t n, 0 <= n < 2^64 → 0 <= (parse_uint_go (2^64 - 1) n t).1 < 2^64) as Hgo; [|by apply Hgo].
  intros t. induction t as [|c t IH]; intros n Hn; cbn [parse_uint_go]; [done|].
  unfold digit_val. destruct (_ && _); [|done]. destruct (Z.ltb_spec (2^64 - 1) (n * 10 + Z.of_nat (nat_of_ascii c - 48)));
    [done|]. apply IH. lia.
Qed.

Lemma ParseUint_FormatUint n bits : 0 <= n < 2^bits → ParseUint (FormatUint n) bits = (n, None).
Proof.
  intros Hn. unfold ParseUint.
  destruct (String.eqb_spec (FormatUint n) "") as [E|_].
  { by apply format_go_acc in E; [|lia]. }
  unfold FormatUint. rewrite parse_format_go; [done|lia| |lia]. apply log2_fuel; lia.
Qed.

Definition is_digit (c : ascii) : bool := bool_decide (is_Some (digit_val c)).

Lemma digit_not c d : 0 <= d < 10 → is_digit c = false → Ascii.eqb (digit d) c = false.
Proof.
  intros Hd Hc. destruct (Ascii.eqb_spec (digit d) c) as [<-|]; [|done].
  unfold is_digit in Hc. rewrite digit_val_digit in Hc by done. done.
Qed.

Lemma format_go_has c fuel n acc :
  0 <= n → is_digit c = false → has_char c (format_go fuel n acc) = has_char c acc.
Proof.
  intros Hn Hc. revert n acc Hn. induction fuel as [|f IH]; intros n acc Hn; [done|]. cbn [format_go].
  pose proof (Z.mod_pos_bound n 10).
  destruct (n <? 10); [|rewrite IH by (apply Z.div_pos; lia)]; cbn [has_char];
    by rewrite digit_not by (lia || assumption).
Qed.

(** A printed number holds no separator of the tools' output formats. *)
Lemma FormatUint_has c n : 0 <= n → is_digit c = false → has_char c (FormatUint n) = false.
Proof. intros. by apply format_go_has. Qed.
