(* ===== verification/Api.v ===== *)
(** * Constants, errors and the API types the components exchange

    [constants.go], [api/api.go], [api/v1/logicvolume_types.go],
    [api/v1beta1/nodestorageresource_types.go] and
    [pkg/devicemanager/types].  A [resource.Quantity] is its integral value;
    a pointer that may be nil is an [option]. *)

From S2P Require Import Prelude GoStrings.

#[local] Open Scope string_scope.
#[local] Open Scope list_scope.
#[local] Open Scope Z_scope.

(** ** [constants.go] *)

Definition CSIPluginName := "carina.storage.io".
Definition DefaultReservedSpace : Z := Z.shiftl 10 30.
Definition DefaultEdgeSpace : Z := Z.shiftl 1 30.
Definition LogicVolumeFinalizer := "carina.storage.io/logicvolume".
Definition ResizeRequestedAtKey := "carina.storage.io/resize-requested-at".
Definition ExclusivityDisk := "carina.storage.io/exclusively-raw-disk".
Definition VolumeManagerType := "carina.io/volume-manage-type".
Definition DeviceDiskKey := "carina.storage.io/disk-group-name".
Definition VolumeBackendDiskType := "carina.storage.io/backend-disk-group-name".
Definition VolumeCacheDiskType := "carina.storage.io/cache-disk-group-name".
Definition VolumeCacheDiskRatio := "carina.storage.io/cache-disk-ratio".
Definition VolumeCachePolicy := "carina.storage.io/cache-policy".
Definition MinRequestSizeGb : Z := 1.
Definition AnnSelectedNode := "volume.kubernetes.io/selected-node".
Definition VolumeDevicePath := "carina.storage.io/path".
Definition VolumeDeviceNode := "carina.storage.io/node".
Definition VolumeDeviceMajor := "carina.storage.io/major".
Definition VolumeDeviceMinor := "carina.storage.io/minor".
Definition VolumeCacheDevicePath := "carina.storage.io/cache/path".
Definition VolumeCacheDeviceMajor := "carina.storage.io/cache/major".
Definition VolumeCacheDeviceMinor := "carina.storage.io/cache/minor".
Definition VolumeCacheId := "carina.storage.io/cache-volume-id".
Definition VolumeCacheBlock := "carina.storage.io/cache/block".
Definition VolumeCacheBucket := "carina.storage.io/cache/bucket".
Definition TopologyNodeKey := "topology.carina.storage.io/node".
Definition DeviceCapacityKeyPrefix := "carina.storage.io/".
Definition DeviceVGSSD := "carina-vg-ssd".
Definition DeviceVGHDD := "carina-vg-hdd".
Definition CarinaSchedule := "carina-scheduler".
Definition LvmVolumeType := "lvm".
Definition RawVolumeType := "raw".
Definition HostVolumeType := "host".
Definition AllowPodMigrationIfNodeNotready :=
  "carina.storage.io/allow-pod-migration-if-node-notready".
Definition CarinaPrefix := "carina.io".
Definition ThinPrefix := "thin-".
Definition VolumePrefix := "volume-".
Definition HostPrefix := "host-".
Definition DefaultHostPath := "/opt/carina-hostpath".
Definition ResourceExhausted := "don't have enough space".

(** ** Errors *)

(** The gRPC codes the source returns. *)
Inductive code :=
| OK | Unknown | InvalidArgument | NotFound | AlreadyExists | FailedPrecondition
| Aborted | Internal | ResourceExhaustedCode.

#[export] Instance code_eq_dec : EqDecision code.
Proof. solve_decision. Defined.

(** The reasons of a Kubernetes API error the source tests for. *)
Inductive api_reason := ReasonNotFound | ReasonAlreadyExists | ReasonConflict | ReasonOther.

#[export] Instance api_reason_eq_dec : EqDecision api_reason.
Proof. solve_decision. Defined.

(** A non-nil Go [error]: [errors.New]/[fmt.Errorf], [status.Error], an API
    status error, an [os/exec] error, [ctx.Err()], and the two sentinels the
    source compares with [==]. *)
Inductive error :=
| ErrString (msg : string)
| ErrStatus (c : code) (msg : string)
| ErrApi (r : api_reason) (msg : string)
| ErrExec (msg : string)
| ErrCtx (msg : string)
| ErrVolumeNotFound
| ErrNodeNotFound.

#[export] Instance error_eq_dec : EqDecision error.
Proof. solve_decision. Defined.

Definition code_string (c : code) : string :=
  match c with
  | OK => "OK" | Unknown => "Unknown" | InvalidArgument => "InvalidArgument"
  | NotFound => "NotFound" | AlreadyExists => "AlreadyExists"
  | FailedPrecondition => "FailedPrecondition" | Aborted => "Aborted"
  | Internal => "Internal" | ResourceExhaustedCode => "ResourceExhausted"
  end.

(** [err.Error()]. *)
Definition Error (e : error) : string :=
  match e with
  | ErrString m | ErrApi _ m | ErrExec m | ErrCtx m => m
  | ErrStatus c m => "rpc error: code = " +:+ code_string c +:+ " desc = " +:+ m
  | ErrVolumeNotFound => "volume not found"
  | ErrNodeNotFound => "node not found"
  end.

(** [apierrors.IsNotFound], [apierrors.IsConflict]. *)
Definition IsNotFound (e : error) : bool :=
  match e with ErrApi ReasonNotFound _ => true | _ => false end.
Definition IsConflict (e : error) : bool :=
  match e with ErrApi ReasonConflict _ => true | _ => false end.

(** A call that returns a value and an error returns both. *)
Abbreviation res A := (A * option error)%type.

(** ** [api/api.go] *)

Record PVInfo := mkPV {
  pv_PVName : string;
  pv_VGName : string;
  pv_PVFmt : string;
  pv_PVAttr : string;
  pv_PVSize : Z;
  pv_PVFree : Z
}.

Record VgGroup := mkVG {
  vg_VGName : string;
  vg_PVCount : Z;
  vg_LVCount : Z;
  vg_VGAttr : string;
  vg_VGSize : Z;
  vg_VGFree : Z;
  vg_PVS : list PVInfo
}.

#[export] Instance PVInfo_eq_dec : EqDecision PVInfo.
Proof. solve_decision. Defined.
#[export] Instance VgGroup_eq_dec : EqDecision VgGroup.
Proof. solve_decision. Defined.

Definition zero_PVInfo : PVInfo := mkPV "" "" "" "" 0 0.
Definition zero_VgGroup : VgGroup := mkVG "" 0 0 "" 0 0 [].

(** ** [pkg/devicemanager/types] *)

(** [types.LvInfo].  The [float64] field [DataPercent] is read by no code
    of the repository; it is kept as the text the parser hands to
    [strconv.ParseFloat]. *)
Record LvInfo := mkLV {
  lvi_LVName : string;
  lvi_VGName : string;
  lvi_LVPath : string;
  lvi_LVSize : Z;
  lvi_LVKernelMajor : Z;
  lvi_LVKernelMinor : Z;
  lvi_Origin : string;
  lvi_OriginSize : Z;
  lvi_PoolLV : string;
  lvi_ThinCount : Z;
  lvi_LVTags : string;
  lvi_DataPercent : string;
  lvi_LVAttr : string;
  lvi_LVActive : string
}.

#[export] Instance LvInfo_eq_dec : EqDecision LvInfo.
Proof. solve_decision. Defined.

Definition zero_LvInfo : LvInfo := mkLV "" "" "" 0 0 0 "" 0 "" 0 "" "" "" "".

Record LocalDisk := mkDisk {
  ld_Name : string;
  ld_MountPoint : string;
  ld_Size : Z;
  ld_State : string;
  ld_Type : string;
  ld_Rotational : string;
  ld_Readonly : bool;
  ld_Filesystem : string;
  ld_Used : Z;
  ld_ParentName : string;
  ld_DeviceNumber : string;
  ld_HavePartitions : bool
}.

#[export] Instance LocalDisk_eq_dec : EqDecision LocalDisk.
Proof. solve_decision. Defined.

Definition zero_LocalDisk : LocalDisk := mkDisk "" "" 0 "" "" "" false "" 0 "" "" false.

Definition KEYWORD := "carina-".
Definition CryptType := "crypt".
Definition LVMType := "lvm".
Definition RomType := "rom".
Definition MultiPath := "mpath".

Record BcacheDeviceInfo := mkBcache {
  bc_Magic : string;
  bc_FirstSector : string;
  bc_Csum : string;
  bc_Label : string;
  bc_Uuid : string;
  bc_SectorsPerBlock : string;
  bc_SectorsPerBucket : string;
  bc_DataFirstSector : string;
  bc_DataCacheMode : string;
  bc_DataCacheState : string;
  bc_CsetUuid : string;
  bc_Version : string;
  bc_Name : string;
  bc_BcachePath : string;
  bc_DevicePath : string;
  bc_KernelMajor : Z;
  bc_KernelMinor : Z
}.

#[export] Instance BcacheDeviceInfo_eq_dec : EqDecision BcacheDeviceInfo.
Proof. solve_decision. Defined.

Definition zero_BcacheDeviceInfo : BcacheDeviceInfo :=
  mkBcache "" "" "" "" "" "" "" "" "" "" "" "" "" "" "" 0 0.

(** ** [api/v1/logicvolume_types.go] *)

Record OwnerReference := mkOwner {
  or_APIVersion : string;
  or_Kind : string;
  or_Name : string;
  or_UID : string;
  or_Controller : option bool;
  or_BlockOwnerDeletion : option bool
}.

Record LogicVolumeSpec := mkLvSpec {
  ls_NodeName : string;
  ls_Size : Z;
  ls_DeviceGroup : string;
  ls_Pvc : string;
  ls_NameSpace : string
}.

Record LogicVolumeStatus := mkLvStatus {
  st_VolumeID : string;
  st_Code : code;
  st_Message : string;
  st_CurrentSize : option Z;
  st_Status : string;
  st_DeviceMajor : Z;
  st_DeviceMinor : Z
}.

Record LogicVolume := mkLogicVolume {
  lv_Kind : string;
  lv_APIVersion : string;
  lv_Name : string;
  lv_UID : string;
  lv_Annotations : gmap string string;
  lv_Finalizers : list string;
  lv_OwnerReferences : list OwnerReference;
  lv_Deleting : bool;                   (** DeletionTimestamp != nil *)
  lv_ResourceVersion : string;
  lv_Spec : LogicVolumeSpec;
  lv_Status : LogicVolumeStatus
}.

#[export] Instance OwnerReference_eq_dec : EqDecision OwnerReference.
Proof. solve_decision. Defined.
#[export] Instance LogicVolumeSpec_eq_dec : EqDecision LogicVolumeSpec.
Proof. solve_decision. Defined.
#[export] Instance LogicVolumeStatus_eq_dec : EqDecision LogicVolumeStatus.
Proof. solve_decision. Defined.
#[export] Instance LogicVolume_eq_dec : EqDecision LogicVolume.
Proof. solve_decision. Defined.

Definition zero_LvStatus : LogicVolumeStatus := mkLvStatus "" OK "" None "" 0 0.

(** [m[k]] on a [map[string]string]: the zero value when absent. *)
Definition mget (m : gmap string string) (k : string) : string := default "" (m !! k).

(** [LogicVolume.IsCompatibleWith]. *)
Definition IsCompatibleWith (lv lv2 : LogicVolume) : bool :=
  if negb (String.eqb (lv_Name lv) (lv_Name lv2)) then false
  else if negb (ls_Size (lv_Spec lv) =? ls_Size (lv_Spec lv2)) then false
  else true.

(** Updates of one part of a [LogicVolume]. *)
Definition set_lv_Status (st : LogicVolumeStatus) (lv : LogicVolume) : LogicVolume :=
  let '(mkLogicVolume k v n u an fs os d rv sp _) := lv in mkLogicVolume k v n u an fs os d rv sp st.
Definition set_lv_Spec (sp : LogicVolumeSpec) (lv : LogicVolume) : LogicVolume :=
  let '(mkLogicVolume k v n u an fs os d rv _ st) := lv in mkLogicVolume k v n u an fs os d rv sp st.
Definition set_lv_Finalizers (fs : list string) (lv : LogicVolume) : LogicVolume :=
  let '(mkLogicVolume k v n u an _ os d rv sp st) := lv in mkLogicVolume k v n u an fs os d rv sp st.
Definition set_lv_Annotations (an : gmap string string) (lv : LogicVolume) : LogicVolume :=
  let '(mkLogicVolume k v n u _ fs os d rv sp st) := lv in mkLogicVolume k v n u an fs os d rv sp st.

Definition set_ls_Size (size : Z) (sp : LogicVolumeSpec) : LogicVolumeSpec :=
  let '(mkLvSpec n _ g p ns) := sp in mkLvSpec n size g p ns.
Definition set_st_CurrentSize (size : option Z) (st : LogicVolumeStatus) : LogicVolumeStatus :=
  let '(mkLvStatus i c m _ s ma mi) := st in mkLvStatus i c m size s ma mi.
