(* ===== verification/GoRuntime.v ===== *)
(** * The two sources of nondeterminism of the Go runtime the code meets

    A [range] over a map visits its entries in an unspecified order, and
    [sort.Slice] is an unstable sort.  Both are interfaces here: the
    components are written against them and their theorems hold for every
    implementation that obeys the laws.  [reference_runtime] is one. *)

From S2P Require Import Prelude GoStrings.
From Stdlib Require Import Permutation Sorted.

#[local] Open Scope string_scope.
#[local] Open Scope list_scope.
#[local] Open Scope Z_scope.

(** What [sort.Slice] asks of its [less] argument. *)
Class StrictWeakOrder {A} (less : A → A → bool) : Prop := {
  swo_irrefl x : less x x = false;
  swo_trans x y z : less x y = true → less y z = true → less x z = true;
  swo_incomp x y z : less x y = false → less y z = false → less x z = false
}.

Class GoRuntime := {
  (** [range m] at the program point [site]. *)
  map_range {K : Type} `{Countable K} {V : Type} (site : nat) (m : gmap K V) : list (K * V);
  (** [sort.Slice(l, less)]: the slice after the call. *)
  sort_slice {A : Type} (less : A → A → bool) (l : list A) : list A
}.

Class GoRuntimeLaws `{GoRuntime} : Prop := {
  map_range_perm `{Countable K} {V} site (m : gmap K V) : map_range site m ≡ₚ map_to_list m;
  sort_slice_perm {A} less (l : list A) : sort_slice less l ≡ₚ l;
  sort_slice_sorted {A} less (l : list A) :
    StrictWeakOrder less → Sorted (λ x y, less y x = false) (sort_slice less l)
}.

(** ** Consequences used by the components *)

Section laws.
Context `{GoRuntimeLaws}.

Lemma elem_of_map_range `{Countable K} {V} site (m : gmap K V) k v :
  (k, v) ∈ map_range site m ↔ m !! k = Some v.
Proof. rewrite map_range_perm. apply elem_of_map_to_list. Qed.

Lemma map_range_NoDup `{Countable K} {V} site (m : gmap K V) : NoDup (map_range site m).*1.
Proof. rewrite map_range_perm. apply NoDup_fst_map_to_list. Qed.

Lemma length_sort_slice {A} less (l : list A) : length (sort_slice less l) = length l.
Proof. by rewrite sort_slice_perm. Qed.

Lemma elem_of_sort_slice {A} less (l : list A) x : x ∈ sort_slice less l ↔ x ∈ l.
Proof. by rewrite sort_slice_perm. Qed.

(** Comparing by an integer key. *)
Lemma key_less_swo {A} (f : A → Z) : StrictWeakOrder (λ x y, f x <? f y).
Proof. split; intros *; rewrite ?Z.ltb_lt, ?Z.ltb_ge; lia. Qed.

Lemma key_greater_swo {A} (f : A → Z) : StrictWeakOrder (λ x y, f y <? f x).
Proof. split; intros *; rewrite ?Z.ltb_lt, ?Z.ltb_ge; lia. Qed.

Lemma sort_slice_ascending {A} (f : A → Z) (l : list A) :
  StronglySorted (λ x y, f x <= f y) (sort_slice (λ x y, f x <? f y) l).
Proof.
  apply Sorted_StronglySorted; [intros ???; lia|].
  pose proof (sort_slice_sorted _ l (key_less_swo f)) as Hs.
  induction Hs as [|x k Hs IH Hd]; constructor; [done|].
  destruct Hd as [|y k Hxy]; constructor. apply Z.ltb_ge in Hxy. lia.
Qed.

Lemma sort_slice_descending {A} (f : A → Z) (l : list A) :
  StronglySorted (λ x y, f y <= f x) (sort_slice (λ x y, f y <? f x) l).
Proof.
  apply Sorted_StronglySorted; [intros ???; lia|].
  pose proof (sort_slice_sorted _ l (key_greater_swo f)) as Hs.
  induction Hs as [|x k Hs IH Hd]; constructor; [done|].
  destruct Hd as [|y k Hxy]; constructor. apply Z.ltb_ge in Hxy. lia.
Qed.

(** The ends of a sorted slice. *)
Lemma sorted_head_least {A} (f : A → Z) (l : list A) x :
  head (sort_slice (λ x y, f x <? f y) l) = Some x →
  x ∈ l ∧ ∀ y, y ∈ l → f x <= f y.
Proof.
  intros Hh. pose proof (sort_slice_ascending f l) as Hs.
  destruct (sort_slice _ l) as [|z k] eqn:E; simplify_eq/=.
  assert (∀ y, y ∈ l ↔ y ∈ x :: k) as Hin.
  { intros y. by rewrite <- E, elem_of_sort_slice. }
  split; [rewrite Hin; left|]. intros y [->|Hy]%Hin%elem_of_cons; [lia|].
  inversion_clear Hs as [|?? _ Hall]. rewrite Forall_forall in Hall. auto.
Qed.

Lemma sorted_last_greatest {A} (f : A → Z) (l : list A) x :
  last (sort_slice (λ x y, f x <? f y) l) = Some x →
  x ∈ l ∧ ∀ y, y ∈ l → f y <= f x.
Proof.
  intros (k & E)%last_Some. pose proof (sort_slice_ascending f l) as Hs.
  rewrite E in Hs.
  assert (∀ y, y ∈ l ↔ y ∈ k ++ [x]) as Hin.
  { intros y. by rewrite <- E, elem_of_sort_slice. }
  split; [rewrite Hin; set_solver|].
  intros y [Hy| ->%list_elem_of_singleton]%Hin%elem_of_app; [|lia].
  clear E Hin. induction k as [|z k IH]; [by apply not_elem_of_nil in Hy|].
  inversion_clear Hs as [|?? Hs' Hall].
  apply elem_of_cons in Hy as [->|Hy]; [|auto].
  rewrite Forall_forall in Hall. apply Hall. set_solver.
Qed.
End laws.

(** ** A runtime that obeys the laws *)

Definition less_le {A} (less : A → A → bool) (x y : A) : Prop := less y x = false.

#[export] Instance less_le_dec {A} (less : A → A → bool) x y : Decision (less_le less x y).
Proof. unfold less_le. apply _. Defined.

#[export] Instance reference_runtime : GoRuntime := {|
  map_range K _ _ V site m := map_to_list m;
  sort_slice A less l := merge_sort (less_le less) l
|}.

#[export] Instance reference_runtime_laws : GoRuntimeLaws.
Proof.
  split.
  - by intros.
  - intros. apply merge_sort_Permutation.
  - intros A less l Hs. apply Sorted_merge_sort. intros x y. unfold less_le.
    destruct (less y x) eqn:E; [right|by left].
    destruct (less x y) eqn:E'; [|done].
    pose proof (swo_trans _ _ _ E E') as Ht. by rewrite swo_irrefl in Ht.
Qed.
