(* ===== verification/GoHeap.v ===== *)
(** * Pointers, slices and maps of Go

    The heap behind the values that share memory: an address holds a variable,
    the array of a slice, or a map.  [den] relates a value to what is read
    through it and to the addresses it is read from; [deep_copies] is what a
    deep copy promises. *)

From S2P Require Import Prelude GoStrings GoRuntime.

#[local] Open Scope list_scope.
#[local] Open Scope nat_scope.

Abbreviation loc := positive.

(** A type of the variables the heap holds. *)
Class Stored (cell A : Type) := {
  inj : A → cell;
  prj : cell → option A;
  prj_inj a : prj (inj a) = Some a
}.

(** A slice that is not nil: its elements are [sl_len] of the array at
    [sl_array], from [sl_off] on.  The capacity plays no part in a copy. *)
Record slice := mkSlice {
  sl_array : loc;
  sl_off : nat;
  sl_len : nat
}.

Definition window {A} (s : slice) (arr : list A) : list A := take (sl_len s) (drop (sl_off s) arr).

Section heap.
Context {cell : Type}.

Abbreviation heap := (gmap loc cell).

(** ** Operations *)

Definition new {A} `{!Stored cell A} (a : A) : M heap loc := λ h,
  let l := fresh (dom h) in (Done l, <[l := inj a]> h).

Definition load {A} `{!Stored cell A} (l : loc) : M heap A := λ h,
  match h !! l ≫= prj with
  | Some a => (Done a, h)
  | None => (Panic nil_deref, h)
  end.

Definition store {A} `{!Stored cell A} (l : loc) (a : A) : M heap unit := λ h, (Done (), <[l := inj a]> h).

(** [*p]. *)
Definition deref {A} `{!Stored cell A} (p : option loc) : M heap A :=
  match p with
  | None => panic nil_deref
  | Some l => load l
  end.

(** [s[i]] and [s[i] = v]. *)
Definition index {A} `{!Stored cell (list A)} (s : slice) (i : nat) : M heap A :=
  arr ← load (A:=list A) (sl_array s);
  match window s arr !! i with
  | Some a => mret a
  | None => panic "index out of range"
  end.

Definition set_index {A} `{!Stored cell (list A)} (s : slice) (i : nat) (a : A) : M heap unit :=
  arr ← load (A:=list A) (sl_array s);
  if decide (i < length (window s arr)) then store (sl_array s) (<[sl_off s + i := a]> arr)
  else panic "index out of range".

(** [make([]A, n)]. *)
Definition make_slice {A} `{!Stored cell (list A)} (n : nat) (zero : A) : M heap slice :=
  l ← new (replicate n zero);
  mret (mkSlice l 0 n).

(** [copy(dst, src)]. *)
Definition copy_slice {A} `{!Stored cell (list A)} (dst src : slice) : M heap unit :=
  from ← load (A:=list A) (sl_array src);
  to ← load (A:=list A) (sl_array dst);
  let n := Nat.min (sl_len dst) (sl_len src) in
  store (sl_array dst) (take (sl_off dst) to ++ take n (window src from) ++ drop (sl_off dst + n) to).

(** [m[k] = v] of a map that is not nil. *)
Definition map_set {A} `{!Stored cell (gmap string A)} (l : loc) (k : string) (a : A) : M heap unit :=
  m ← load (A:=gmap string A) l;
  store l (<[k := a]> m).

(** ** What is read through a value *)

(** [den h a v L]: in the heap [h] the value [a] reads as [v], and nothing is
    read for it outside of [L]. *)
Class Den (A : Type) := {
  val : Type;
  den : heap → A → val → gset loc → Prop;
  den_local h h' a v L :
    den h a v L → (∀ l c, l ∈ L → h !! l = Some c → h' !! l = Some c) → den h' a v L;
  den_mono h a v L L' : den h a v L → L ⊆ L' → den h a v L'
}.
#[global] Arguments val A {_}.

(** A value without pointers. *)
Program Definition den_plain (A : Type) : Den A := {|
  val := A;
  den _ a v _ := a = v
|}.
Next Obligation. done. Qed.
Next Obligation. done. Qed.

(** A value that is not copied: the very value, and what it read as in [h0]
    through the addresses [S]. *)
Program Definition den_shared {A} (D : Den A) (h0 : heap) (S : gset loc) : Den A := {|
  val := A * val A;
  den _ a v _ := a = v.1 ∧ den h0 a v.2 S
|}.
Next Obligation. done. Qed.
Next Obligation. done. Qed.

(** A pointer. *)
Definition den_ptr {A} `{!Stored cell A} `{!Den A} (h : heap) (p : option loc) (v : option (val A)) (L : gset loc) : Prop :=
  match p, v with
  | None, None => True
  | Some l, Some v => l ∈ L ∧ ∃ a, h !! l ≫= prj = Some a ∧ den h a v L
  | _, _ => False
  end.

(** A slice, by its elements. *)
Definition den_slice {A} `{!Stored cell (list A)} `{!Den A} (h : heap) (p : option slice) (v : option (list (val A)))
    (O L : gset loc) : Prop :=
  match p, v with
  | None, None => True
  | Some s, Some vs => sl_array s ∈ O ∧ ∃ arr, h !! sl_array s ≫= prj = Some arr ∧
      sl_off s + sl_len s ≤ length arr ∧ Forall2 (λ a v, den h a v L) (window s arr) vs
  | _, _ => False
  end.

(** A map, by its entries. *)
Definition den_map {A} `{!Stored cell (gmap string A)} `{!Den A} (h : heap) (p : option loc)
    (v : option (gmap string (val A))) (L : gset loc) : Prop :=
  match p, v with
  | None, None => True
  | Some l, Some vs => l ∈ L ∧ ∃ m, h !! l ≫= prj = Some m ∧ ∀ k, option_Forall2 (λ a v, den h a v L) (m !! k) (vs !! k)
  | _, _ => False
  end.

(** Whatever was allocated since the addresses [D] were in use. *)
Definition since (D : gset loc) (h : heap) : gset loc := dom h ∖ D.

(** A deep copy changes no variable there is, and everything the copy reads
    has been allocated for it. *)
Definition deep_copies {A} `{!Den A} (copy : A → M heap A) : Prop :=
  ∀ h a v L, den h a v L → wp (copy a) (λ a' h', h ⊆ h' ∧ den h' a' v (since (dom h) h')) h.

(** ** Copying *)

Section copying.
Context `{GoRuntime}.

(** [x := p.DeepCopy(); q = &x] unless the pointer is nil. *)
Definition copy_ptr {A} `{!Stored cell A} (copy : A → M heap A) (p : option loc) : M heap (option loc) :=
  match p with
  | None => mret None
  | Some l => a ← load l; x ← copy a; q ← new x; mret (Some q)
  end.

(** [q = make([]A, len(p))] and a loop that copies element by element. *)
Definition copy_items {A} `{!Stored cell (list A)} (zero : A) (copy : A → M heap A) (p : option slice) : M heap (option slice) :=
  match p with
  | None => mret None
  | Some s =>
      q ← make_slice (sl_len s) zero;
      for_each (seq 0 (sl_len s)) (λ i, a ← index s i; x ← copy a; set_index q i x) ;;
      mret (Some q)
  end.

(** [q = make([]A, len(p)); copy(q, p)]. *)
Definition copy_array {A} `{!Stored cell (list A)} (zero : A) (p : option slice) : M heap (option slice) :=
  match p with
  | None => mret None
  | Some s => q ← make_slice (sl_len s) zero; copy_slice q s ;; mret (Some q)
  end.

(** [q = make(map[string]A, len(p))] and a loop over the entries. *)
Definition copy_map {A} `{!Stored cell (gmap string A)} (site : nat) (copy : A → M heap A) (p : option loc) : M heap (option loc) :=
  match p with
  | None => mret None
  | Some l =>
      m ← load (A:=gmap string A) l;
      q ← new (∅ : gmap string A);
      for_each (map_range site m) (λ kv, x ← copy kv.2; map_set q kv.1 x) ;;
      mret (Some q)
  end.
End copying.

(** ** Lemmas *)

Lemma since_mono D (h h' : heap) : h ⊆ h' → since D h ⊆ since D h'.
Proof. intros Hs%subseteq_dom. unfold since. set_solver. Qed.

Lemma since_anti D D' (h : heap) : D ⊆ D' → since D' h ⊆ since D h.
Proof. unfold since. set_solver. Qed.

Lemma den_grow {A} `{!Den A} (h h' : heap) (a : A) v L : den h a v L → h ⊆ h' → den h' a v L.
Proof. intros Hd Hs. eapply den_local; [done|]. intros l c _ Hl. by eapply lookup_weaken. Qed.

Lemma den_since {A} `{!Den A} D (h h' : heap) (a : A) v : den h a v (since D h) → h ⊆ h' → den h' a v (since D h').
Proof. intros Hd Hs. eapply den_mono; [by eapply den_grow|by apply since_mono]. Qed.

(** A write to an address the value does not read. *)
Lemma den_frame {A} `{!Den A} (h : heap) (a : A) v L l c : den h a v L → l ∉ L → den (<[l := c]> h) a v L.
Proof. intros Hd Hl. eapply den_local; [done|]. intros l' c' Hin. by rewrite lookup_insert_ne by (intros ->; done). Qed.

Lemma wp_new {A} `{!Stored cell A} (a : A) (Q : loc → heap → Prop) h :
  (∀ l, h !! l = None → Q l (<[l := inj a]> h)) → wp (new a) Q h.
Proof. intros HQ. unfold wp, new. apply HQ, not_elem_of_dom, is_fresh. Qed.

Lemma wp_load {A} `{!Stored cell A} l (a : A) (Q : A → heap → Prop) h :
  h !! l ≫= prj = Some a → Q a h → wp (load l) Q h.
Proof. intros Hl HQ. unfold wp, load. by rewrite Hl. Qed.

Lemma insert_new (h : heap) l c : h !! l = None → h ⊆ <[l := c]> h.
Proof. apply insert_subseteq. Qed.

Lemma new_since D (h : heap) l c : h !! l = None → D ⊆ dom h → l ∈ since D (<[l := c]> h).
Proof.
  intros Hl%not_elem_of_dom HD. unfold since. apply elem_of_difference. split; [|by intros ?%HD].
  rewrite dom_insert. set_solver.
Qed.

Lemma copy_plain_ok {A} : deep_copies (Den0:=den_plain A) mret.
Proof. intros h a v L Hd. by apply wp_ret. Qed.

(** The copy of a field in the middle of a copy that started with [h0]. *)
Lemma wp_copy {A B} `{!Den A} (copy : A → M heap A) (k : A → M heap B) (Q : B → heap → Prop) h0 h a v L :
  deep_copies copy → den h0 a v L → h0 ⊆ h →
  (∀ a' h', h ⊆ h' → h0 ⊆ h' → den h' a' v (since (dom h0) h') → wp (k a') Q h') →
  wp (copy a ≫= k) Q h.
Proof.
  intros Hc Hd Hs Hk. apply wp_bind. eapply wp_mono; [by eapply Hc, den_grow|]. intros a' h' [Hs' Hd'].
  apply Hk; [done|by etransitivity|]. eapply den_mono; [done|]. apply since_anti. by apply subseteq_dom.
Qed.

Lemma den_ptr_local {A} `{!Stored cell A} `{!Den A} (h h' : heap) p v L :
  den_ptr (A:=A) h p v L → (∀ l c, l ∈ L → h !! l = Some c → h' !! l = Some c) → den_ptr (A:=A) h' p v L.
Proof.
  intros Hd Hl. destruct p as [l|], v as [v|]; try done. destruct Hd as (Hin & a & Ha & Hd). split; [done|].
  exists a. split; [|by eapply den_local]. destruct (h !! l) as [c|] eqn:E; [|done]. by rewrite (Hl l c).
Qed.

Lemma den_ptr_mono {A} `{!Stored cell A} `{!Den A} (h : heap) p v L L' :
  den_ptr (A:=A) h p v L → L ⊆ L' → den_ptr (A:=A) h p v L'.
Proof.
  intros Hd HL. destruct p as [l|], v as [v|]; try done. destruct Hd as (Hin & a & Ha & Hd). split; [by apply HL|].
  exists a. split; [done|by eapply den_mono].
Qed.

Lemma den_map_local {A} `{!Stored cell (gmap string A)} `{!Den A} (h h' : heap) p v L :
  den_map (A:=A) h p v L → (∀ l c, l ∈ L → h !! l = Some c → h' !! l = Some c) → den_map (A:=A) h' p v L.
Proof.
  intros Hd Hl. destruct p as [l|], v as [v|]; try done. destruct Hd as (Hin & m & Hm & Hd). split; [done|].
  exists m. split; [|intros k; destruct (Hd k); constructor; by eapply den_local].
  destruct (h !! l) as [c|] eqn:E; [|done]. by rewrite (Hl l c).
Qed.

Lemma den_map_mono {A} `{!Stored cell (gmap string A)} `{!Den A} (h : heap) p v L L' :
  den_map (A:=A) h p v L → L ⊆ L' → den_map (A:=A) h p v L'.
Proof.
  intros Hd HL. destruct p as [l|], v as [v|]; try done. destruct Hd as (Hin & m & Hm & Hd). split; [by apply HL|].
  exists m. split; [done|]. intros k. destruct (Hd k); constructor. by eapply den_mono.
Qed.

Lemma den_slice_local {A} `{!Stored cell (list A)} `{!Den A} (h h' : heap) p v O L :
  den_slice (A:=A) h p v O L → (∀ l c, l ∈ O ∪ L → h !! l = Some c → h' !! l = Some c) → den_slice (A:=A) h' p v O L.
Proof.
  intros Hd Hl. destruct p as [s|], v as [v|]; try done. destruct Hd as (Hin & arr & Ha & Hlen & Hd). split; [done|].
  exists arr. split; [|split; [done|eapply Forall2_impl; [done|]]].
  - destruct (h !! sl_array s) as [c|] eqn:E; [|done]. rewrite (Hl (sl_array s) c); [done|set_solver|done].
  - intros a w Hw. eapply den_local; [exact Hw|]. intros l c Hlin. apply Hl. set_solver.
Qed.

Lemma den_slice_mono {A} `{!Stored cell (list A)} `{!Den A} (h : heap) p v O O' L L' :
  den_slice (A:=A) h p v O L → O ⊆ O' → L ⊆ L' → den_slice (A:=A) h p v O' L'.
Proof.
  intros Hd HO HL. destruct p as [s|], v as [v|]; try done. destruct Hd as (Hin & arr & Ha & Hlen & Hd). split; [by apply HO|].
  exists arr. split; [done|]. split; [done|]. eapply Forall2_impl; [done|]. intros a w Hw. eapply den_mono; [exact Hw|done].
Qed.

(** Behind a pointer. *)
Lemma copy_ptr_ok {A} `{!Stored cell A} `{!Den A} (copy : A → M heap A) (h : heap) p v L :
  deep_copies copy → den_ptr (A:=A) h p v L →
  wp (copy_ptr copy p) (λ q h', h ⊆ h' ∧ den_ptr (A:=A) h' q v (since (dom h) h')) h.
Proof.
  intros Hc Hd. destruct p as [l|], v as [v|]; try done. destruct Hd as (_ & a & Ha & Hd).
  apply wp_bind. eapply wp_load; [done|]. eapply wp_copy; [done|done|done|]. intros x h1 _ Hs1 Hx.
  apply wp_bind, wp_new. intros q Hq. apply wp_ret. pose proof (insert_new h1 q (inj x) Hq) as Hs2.
  split; [by etransitivity|]. split.
  - apply new_since; [done|by apply subseteq_dom].
  - exists x. rewrite lookup_insert_eq. cbn. split; [apply prj_inj|by eapply den_since].
Qed.

(** *** Slices and maps *)

(** A slice of its own: the whole array. *)
Lemma window_whole {A} l (arr : list A) : window (mkSlice l 0 (length arr)) arr = arr.
Proof. unfold window. cbn. by rewrite drop_0, firstn_all. Qed.

Lemma copy_array_ok {A} `{!Stored cell (list A)} `{!Den A} (zero : A) (h : heap) p v O L :
  den_slice (A:=A) h p v O L →
  wp (copy_array zero p) (λ q h', h ⊆ h' ∧ den_slice (A:=A) h' q v (since (dom h) h') L) h.
Proof.
  intros Hd. destruct p as [s|], v as [v|]; try done. destruct Hd as (_ & arr & Ha & Hlen & Hd).
  assert (length (window s arr) = sl_len s) as Hw by (unfold window; rewrite length_take, length_drop; lia).
  unfold copy_array, make_slice. apply wp_bind, wp_bind, wp_new. intros q Hq. apply wp_ret. apply wp_bind.
  unfold copy_slice. cbn [sl_array sl_off sl_len]. apply wp_bind.
  assert (∀ c, <[q := c]> h !! sl_array s ≫= prj = Some arr) as Hs.
  { intros c. rewrite lookup_insert_ne; [done|]. intros E. by rewrite <- E, Hq in Ha. }
  eapply wp_load; [apply Hs|]. apply wp_bind. eapply wp_load; [rewrite lookup_insert_eq; apply prj_inj|].
  rewrite Nat.min_id, take_0, firstn_all2, drop_ge, app_nil_r by (rewrite ?length_replicate; lia). cbn [app].
  unfold wp, store. rewrite insert_insert_eq. split; [by apply insert_new|].
  split; [by apply new_since|]. exists (window s arr). rewrite lookup_insert_eq.
  split; [apply prj_inj|]. split; [cbn; lia|]. rewrite <- Hw, window_whole. eapply Forall2_impl; [done|].
  intros a w Haw. eapply den_grow; [exact Haw|by apply insert_new].
Qed.

(** One round of a copying loop: from [h'], where [q] holds what is being
    filled, an element is copied and [q] is written. *)
Lemma round_ok {A B} `{!Den A} (copy : A → M heap A) (k : A → M heap B) (Q : B → heap → Prop) (h h' : heap) q c a v L D :
  deep_copies copy → den h a v L → h ⊆ h' → h' !! q = Some c → D ⊆ dom h' →
  (∀ x h'', h' ⊆ h'' → h'' !! q = Some c → den h'' x v (since D h'') → wp (k x) Q h'') →
  wp (copy a ≫= k) Q h'.
Proof.
  intros Hc Hd Hs Hq HD Hk. apply wp_bind. eapply wp_mono; [by eapply Hc, den_grow|]. intros x h'' [Hs2 Hx].
  apply Hk; [done|by eapply lookup_weaken|]. eapply den_mono; [done|by apply since_anti].
Qed.

(** Writing [q], which is not read by what was copied. *)
Lemma round_write {A} `{!Den A} (h' h'' : heap) q c (a : A) v D :
  den h' a v (since D h') → h' ⊆ h'' → q ∈ D → den (<[q := c]> h'') a v (since D (<[q := c]> h'')).
Proof.
  intros Hd Hs Hq. apply (den_since _ _ h'') in Hd; [|done]. eapply den_mono.
  - apply den_frame; [done|]. unfold since. set_solver.
  - unfold since. rewrite dom_insert. set_solver.
Qed.

Lemma grow_write (h h' : heap) q c : h ⊆ h' → h !! q = None → h ⊆ <[q := c]> h'.
Proof.
  intros Hs Hq. apply map_subseteq_spec. intros l d Hl. rewrite lookup_insert_ne; [by eapply lookup_weaken|]. congruence.
Qed.

Lemma copy_items_ok {A} `{!Stored cell (list A)} `{!Den A} (zero : A) (copy : A → M heap A) (h : heap) p v O L :
  deep_copies copy → den_slice (A:=A) h p v O L →
  wp (copy_items zero copy p) (λ q h', h ⊆ h' ∧ den_slice (A:=A) h' q v (since (dom h) h') (since (dom h) h')) h.
Proof.
  intros Hc Hd. destruct p as [s|], v as [vs|]; try done. destruct Hd as (_ & arr & Ha & Hlen & Hd).
  assert (length (window s arr) = sl_len s) as Hw by (unfold window; rewrite length_take, length_drop; lia).
  assert (length vs = sl_len s) as Hv by (rewrite <- Hw; symmetry; by eapply Forall2_length).
  unfold copy_items, make_slice. apply wp_bind, wp_bind, wp_new. intros q Hq. apply wp_ret. apply wp_bind.
  set (D := {[q]} ∪ dom h). set (n := sl_len s) in *.
  eapply wp_mono; [apply (wp_for_each _ _ (λ rest h', ∃ i xs, rest = seq i (n - i) ∧ i ≤ n ∧ length xs = i ∧
    h ⊆ h' ∧ D ⊆ dom h' ∧ h' !! q = Some (inj (xs ++ replicate (n - i) zero)) ∧
    Forall2 (λ x w, den h' x w (since D h')) xs (take i vs)))|].
  - exists 0, []. rewrite Nat.sub_0_r, lookup_insert_eq. split_and!; try done; [lia|by apply insert_new|].
    unfold D. by rewrite dom_insert.
  - intros j rest h' (i & xs & Hrest & Hi & Hxs & Hs & HD & Hqc & Hdone).
    destruct (n - i) as [|m] eqn:Em; [done|]. cbn in Hrest. injection Hrest as -> ->.
    destruct (lookup_lt_is_Some_2 (window s arr) i) as [a Hai]; [lia|].
    destruct (lookup_lt_is_Some_2 vs i) as [w Hwi]; [lia|].
    unfold index. apply wp_bind, wp_bind. eapply (wp_load _ arr).
    { destruct (h !! sl_array s) as [c|] eqn:E; [|done]. by rewrite (lookup_weaken _ _ _ _ E Hs). }
    rewrite Hai. apply wp_ret. eapply (round_ok _ _ _ h h' q _ a w L D); [done| |done|done|done|].
    { by eapply (Forall2_lookup_lr _ _ _ _ _ _ Hd). }
    intros x h'' Hs2 Hq2 Hx. unfold set_index. cbn [sl_array sl_off]. apply wp_bind.
    eapply wp_load; [rewrite Hq2; apply prj_inj|].
    assert (length (xs ++ replicate (S m) zero) = n) as Hl by (rewrite length_app, length_replicate; lia).
    rewrite decide_True; [|rewrite <- Hl, window_whole; lia]. cbn [plus].
    exists (S i), (xs ++ [x]). rewrite lookup_insert_eq. replace (n - S i) with m by lia. split_and!.
    + done.
    + lia.
    + rewrite length_app. cbn. lia.
    + apply grow_write; [by etransitivity|done].
    + rewrite dom_insert. apply subseteq_dom in Hs2. set_solver.
    + rewrite insert_app_r_alt, Hxs, Nat.sub_diag by lia. cbn. by rewrite <- app_assoc.
    + rewrite (take_S_r _ _ w) by done. apply Forall2_app; [|constructor; [|done]].
      * eapply Forall2_impl; [exact Hdone|]. intros y u Hy. eapply (round_write h'); [exact Hy|done|]. unfold D. set_solver.
      * eapply (round_write h''); [exact Hx|done|]. unfold D. set_solver.
  - intros _ h' (i & xs & Hrest & Hi & Hxs & Hs & HD & Hqc & Hdone). apply wp_ret. split; [done|].
    destruct (n - i) as [|m] eqn:Em; [|done]. assert (i = n) as -> by lia. clear Hrest. cbn in Hqc. rewrite app_nil_r in Hqc.
    rewrite firstn_all2 in Hdone by lia. split.
    { unfold since. apply not_elem_of_dom in Hq. cbn. set_solver. }
    exists xs. cbn [sl_array sl_off sl_len]. rewrite Hqc. split; [apply prj_inj|]. split; [lia|].
    rewrite <- Hxs at 1. rewrite window_whole. eapply Forall2_impl; [done|]. intros y u Hy. eapply den_mono; [exact Hy|].
    apply since_anti. unfold D. set_solver.
Qed.

Lemma copy_map_ok `{GoRuntimeLaws} {A} `{!Stored cell (gmap string A)} `{!Den A} site (copy : A → M heap A) (h : heap) p v L :
  deep_copies copy → den_map (A:=A) h p v L →
  wp (copy_map site copy p) (λ q h', h ⊆ h' ∧ den_map (A:=A) h' q v (since (dom h) h')) h.
Proof.
  intros Hc Hd. destruct p as [l|], v as [vs|]; try done. destruct Hd as (_ & m & Hm & Hd).
  unfold copy_map. apply wp_bind. eapply wp_load; [done|]. apply wp_bind, wp_new. intros q Hq. apply wp_bind.
  set (D := {[q]} ∪ dom h).
  eapply wp_mono; [apply (wp_for_each _ _ (λ rest h', ∃ m', NoDup rest.*1 ∧ (∀ k a, (k, a) ∈ rest → m !! k = Some a) ∧
    h ⊆ h' ∧ D ⊆ dom h' ∧ h' !! q = Some (inj m') ∧
    ∀ k, k ∉ rest.*1 → option_Forall2 (λ x w, den h' x w (since D h')) (m' !! k) (vs !! k)))|].
  - exists ∅. rewrite lookup_insert_eq. split_and!; [apply map_range_NoDup|intros k a; apply elem_of_map_range|by apply insert_new| |done|].
    { unfold D. by rewrite dom_insert. }
    intros k Hk. rewrite lookup_empty. pose proof (Hd k) as Hdk. destruct (m !! k) as [a|] eqn:E; [|by inversion Hdk; constructor].
    destruct Hk. apply list_elem_of_fmap. exists (k, a). split; [done|]. by apply elem_of_map_range.
  - intros [k a] rest h' (m' & Hnd & Hrest & Hs & HD & Hqc & Hdone). cbn in Hnd. apply NoDup_cons in Hnd as [Hk Hnd].
    assert (m !! k = Some a) as Hka by (apply Hrest; by left). pose proof (Hd k) as Hdk. rewrite Hka in Hdk.
    inversion Hdk as [? w Haw E1 E2|]; subst.
    eapply (round_ok _ _ _ h h' q _ a w L D); [done..|].
    intros x h'' Hs2 Hq2 Hx. unfold map_set. apply wp_bind. eapply wp_load; [rewrite Hq2; apply prj_inj|].
    exists (<[k := x]> m'). rewrite lookup_insert_eq. split_and!; [done| |apply grow_write; [by etransitivity|done]| |done|].
    + intros k' a' Hin. apply Hrest. by right.
    + rewrite dom_insert. apply subseteq_dom in Hs2. set_solver.
    + intros k' Hk'. assert (q ∈ D) as HqD by (unfold D; set_solver). destruct (decide (k = k')) as [<-|Hne].
      * rewrite lookup_insert_eq, <- E2. constructor. by eapply (round_write h'').
      * rewrite lookup_insert_ne by done. destruct (Hdone k') as [y u Hy|]; [set_solver| |constructor].
        constructor. by eapply (round_write h').
  - intros _ h' (m' & _ & _ & Hs & HD & Hqc & Hdone). apply wp_ret. split; [done|]. split.
    { unfold since. apply not_elem_of_dom in Hq. set_solver. }
    exists m'. rewrite Hqc. split; [apply prj_inj|]. intros k. destruct (Hdone k) as [y u Hy|]; [set_solver| |constructor].
    constructor. eapply den_mono; [exact Hy|]. apply since_anti. unfold D. set_solver.
Qed.
End heap.
