(* ===== verification/DeepCopy.v ===== *)
(** * The deep copies of the API objects

    [api/v1/zz_generated.deepcopy.go] and
    [api/v1beta1/zz_generated.deepcopy.go] over the heap of [GoHeap], with the
    objects as they are in memory: a pointer, a slice or a map is an address.
    The copies of [k8s.io/apimachinery] they call are parameters. *)

From S2P Require Import Prelude GoStrings GoRuntime GoHeap Api.

#[local] Open Scope list_scope.
#[local] Open Scope Z_scope.

(** ** The types in memory *)

(** The types of apimachinery, and what else they keep on the heap. *)
Class MetaTypes := {
  Quantity : Type;
  Time : Type;
  ObjectMeta : Type;
  ListMeta : Type;
  Foreign : Type;
  zero_Quantity : Quantity;
  zero_Time : Time;
  zero_ObjectMeta : ObjectMeta;
  zero_ListMeta : ListMeta
}.

Record TypeMeta := mkTypeMeta {
  tm_Kind : string;
  tm_APIVersion : string
}.

(** [VgGroup], with the slice of pointers [PVS]. *)
Record VgGroupV := mkVgGroupV {
  vgv_VGName : string;
  vgv_PVCount : Z;
  vgv_LVCount : Z;
  vgv_VGAttr : string;
  vgv_VGSize : Z;
  vgv_VGFree : Z;
  vgv_PVS : option slice
}.

Record PartitionV := mkPartitionV {
  pav_Start : Z;
  pav_Last : Z;
  pav_ID : option slice;
  pav_Type : option slice;
  pav_Name : string;
  pav_Number : Z
}.

Record UdevInfoV := mkUdevInfoV {
  uiv_Name : string;
  uiv_SysPath : string;
  uiv_Symlinks : option slice;
  uiv_Properties : option loc
}.

Record DiskV := mkDiskV {
  dv_Name : string;
  dv_Path : string;
  dv_Size : Z;
  dv_SectorSize : Z;
  dv_ReadOnly : bool;
  dv_Type : Z;
  dv_Attachment : Z;
  dv_Partitions : option loc;
  dv_Table : Z;
  dv_Properties : option loc;
  dv_UdevInfo : UdevInfoV
}.

Record Raid := mkRaid {}.

Section types.
Context `{MetaTypes}.

Record LogicVolumeSpecV := mkLvSpecV {
  lsv_NodeName : string;
  lsv_Size : Quantity;
  lsv_DeviceGroup : string;
  lsv_Pvc : string;
  lsv_NameSpace : string
}.

Record LogicVolumeStatusV := mkLvStatusV {
  stv_VolumeID : string;
  stv_Code : code;
  stv_Message : string;
  stv_CurrentSize : option loc;
  stv_Status : string;
  stv_DeviceMajor : Z;
  stv_DeviceMinor : Z
}.

Record LogicVolumeV := mkLogicVolumeV {
  lvv_TypeMeta : TypeMeta;
  lvv_ObjectMeta : ObjectMeta;
  lvv_Spec : LogicVolumeSpecV;
  lvv_Status : LogicVolumeStatusV
}.

Record LogicVolumeListV := mkLogicVolumeListV {
  llv_TypeMeta : TypeMeta;
  llv_ListMeta : ListMeta;
  llv_Items : option slice
}.

Record NodeStorageResourceSpecV := mkNsrSpecV {
  nsv_NodeName : string
}.

Record NodeStorageResourceStatusV := mkNsrStatusV {
  nst_SyncTime : Time;
  nst_Capacity : option loc;
  nst_Allocatable : option loc;
  nst_VgGroups : option slice;
  nst_Disks : option slice;
  nst_RAIDs : option slice
}.

Record NodeStorageResourceV := mkNsrV {
  nrv_TypeMeta : TypeMeta;
  nrv_ObjectMeta : ObjectMeta;
  nrv_Spec : NodeStorageResourceSpecV;
  nrv_Status : NodeStorageResourceStatusV
}.

Record NodeStorageResourceListV := mkNsrListV {
  nlv_TypeMeta : TypeMeta;
  nlv_ListMeta : ListMeta;
  nlv_Items : option slice
}.

(** What an address holds. *)
Inductive cell :=
| CQuantity (q : Quantity)
| CQuantities (m : gmap string Quantity)
| CPVInfo (p : PVInfo)
| CPVInfos (l : list (option loc))
| CVgGroups (l : list VgGroupV)
| CPartitions (m : gmap string PartitionV)
| CProperties (m : gmap string bool)
| CStrings (l : list string)
| CStringMap (m : gmap string string)
| CBytes (l : list Z)
| CDisks (l : list DiskV)
| CRaids (l : list Raid)
| CLvSpec (s : LogicVolumeSpecV)
| CLvStatus (s : LogicVolumeStatusV)
| CLv (lv : LogicVolumeV)
| CLvs (l : list LogicVolumeV)
| CLvList (l : LogicVolumeListV)
| CNsrSpec (s : NodeStorageResourceSpecV)
| CNsrStatus (s : NodeStorageResourceStatusV)
| CNsr (n : NodeStorageResourceV)
| CNsrs (l : list NodeStorageResourceV)
| CNsrList (l : NodeStorageResourceListV)
| CForeign (x : Foreign).

Abbreviation heap := (gmap loc cell).

#[export] Instance stored_Quantity : Stored cell Quantity := {| inj := CQuantity; prj c := match c with CQuantity a => Some a | _ => None end; prj_inj _ := eq_refl |}.
#[export] Instance stored_Quantities : Stored cell (gmap string Quantity) := {| inj := CQuantities; prj c := match c with CQuantities a => Some a | _ => None end; prj_inj _ := eq_refl |}.
#[export] Instance stored_PVInfo : Stored cell PVInfo := {| inj := CPVInfo; prj c := match c with CPVInfo a => Some a | _ => None end; prj_inj _ := eq_refl |}.
#[export] Instance stored_PVInfos : Stored cell (list (option loc)) := {| inj := CPVInfos; prj c := match c with CPVInfos a => Some a | _ => None end; prj_inj _ := eq_refl |}.
#[export] Instance stored_VgGroups : Stored cell (list VgGroupV) := {| inj := CVgGroups; prj c := match c with CVgGroups a => Some a | _ => None end; prj_inj _ := eq_refl |}.
#[export] Instance stored_Partitions : Stored cell (gmap string PartitionV) := {| inj := CPartitions; prj c := match c with CPartitions a => Some a | _ => None end; prj_inj _ := eq_refl |}.
#[export] Instance stored_Properties : Stored cell (gmap string bool) := {| inj := CProperties; prj c := match c with CProperties a => Some a | _ => None end; prj_inj _ := eq_refl |}.
#[export] Instance stored_Strings : Stored cell (list string) := {| inj := CStrings; prj c := match c with CStrings a => Some a | _ => None end; prj_inj _ := eq_refl |}.
#[export] Instance stored_StringMap : Stored cell (gmap string string) := {| inj := CStringMap; prj c := match c with CStringMap a => Some a | _ => None end; prj_inj _ := eq_refl |}.
#[export] Instance stored_Bytes : Stored cell (list Z) := {| inj := CBytes; prj c := match c with CBytes a => Some a | _ => None end; prj_inj _ := eq_refl |}.
#[export] Instance stored_Disks : Stored cell (list DiskV) := {| inj := CDisks; prj c := match c with CDisks a => Some a | _ => None end; prj_inj _ := eq_refl |}.
#[export] Instance stored_Raids : Stored cell (list Raid) := {| inj := CRaids; prj c := match c with CRaids a => Some a | _ => None end; prj_inj _ := eq_refl |}.
#[export] Instance stored_LvSpec : Stored cell LogicVolumeSpecV := {| inj := CLvSpec; prj c := match c with CLvSpec a => Some a | _ => None end; prj_inj _ := eq_refl |}.
#[export] Instance stored_LvStatus : Stored cell LogicVolumeStatusV := {| inj := CLvStatus; prj c := match c with CLvStatus a => Some a | _ => None end; prj_inj _ := eq_refl |}.
#[export] Instance stored_Lv : Stored cell LogicVolumeV := {| inj := CLv; prj c := match c with CLv a => Some a | _ => None end; prj_inj _ := eq_refl |}.
#[export] Instance stored_Lvs : Stored cell (list LogicVolumeV) := {| inj := CLvs; prj c := match c with CLvs a => Some a | _ => None end; prj_inj _ := eq_refl |}.
#[export] Instance stored_LvList : Stored cell LogicVolumeListV := {| inj := CLvList; prj c := match c with CLvList a => Some a | _ => None end; prj_inj _ := eq_refl |}.
#[export] Instance stored_NsrSpec : Stored cell NodeStorageResourceSpecV := {| inj := CNsrSpec; prj c := match c with CNsrSpec a => Some a | _ => None end; prj_inj _ := eq_refl |}.
#[export] Instance stored_NsrStatus : Stored cell NodeStorageResourceStatusV := {| inj := CNsrStatus; prj c := match c with CNsrStatus a => Some a | _ => None end; prj_inj _ := eq_refl |}.
#[export] Instance stored_Nsr : Stored cell NodeStorageResourceV := {| inj := CNsr; prj c := match c with CNsr a => Some a | _ => None end; prj_inj _ := eq_refl |}.
#[export] Instance stored_Nsrs : Stored cell (list NodeStorageResourceV) := {| inj := CNsrs; prj c := match c with CNsrs a => Some a | _ => None end; prj_inj _ := eq_refl |}.
#[export] Instance stored_NsrList : Stored cell NodeStorageResourceListV := {| inj := CNsrList; prj c := match c with CNsrList a => Some a | _ => None end; prj_inj _ := eq_refl |}.
#[export] Instance stored_Foreign : Stored cell Foreign := {| inj := CForeign; prj c := match c with CForeign a => Some a | _ => None end; prj_inj _ := eq_refl |}.
End types.

(** ** The copies *)

(** The copies of apimachinery. *)
Class MetaCopies `{MetaTypes} := {
  Quantity_DeepCopy : Quantity → M (gmap loc cell) Quantity;
  Time_DeepCopyInto : Time → M (gmap loc cell) Time;
  ObjectMeta_DeepCopyInto : ObjectMeta → M (gmap loc cell) ObjectMeta;
  ListMeta_DeepCopyInto : ListMeta → M (gmap loc cell) ListMeta
}.

(** An object as a [runtime.Object]: its type and its address. *)
Inductive kind := KLogicVolume | KLogicVolumeList | KNodeStorageResource | KNodeStorageResourceList.
Definition Object : Type := kind * loc.

Section copies.
Context `{MetaCopies} `{GoRuntime}.

Abbreviation heap := (gmap loc cell).

(** The body of every [DeepCopy]; [DeepCopyInto] returns what it leaves in
    [*out], which is a variable of its own. *)
Definition deep_copy {A} `{!Stored cell A} (zero : A) (DeepCopyInto : A → M heap A) (in_ : option loc) : M heap (option loc) :=
  match in_ with
  | None => mret None
  | Some l =>
      out ← new zero;
      a ← load l;
      x ← DeepCopyInto a;
      store out x ;;
      mret (Some out)
  end.

Definition copy_object (k : kind) (DeepCopy : option loc → M heap (option loc)) (in_ : option loc) : M heap (option Object) :=
  c ← DeepCopy in_;
  match c with
  | Some l => mret (Some (k, l))
  | None => mret None
  end.

(** *** [api/v1] *)

Definition zero_TypeMeta : TypeMeta := mkTypeMeta "" "".
Definition zero_LvSpec : LogicVolumeSpecV := mkLvSpecV "" zero_Quantity "" "" "".
Definition zero_LvStatus : LogicVolumeStatusV := mkLvStatusV "" OK "" None "" 0 0.
Definition zero_Lv : LogicVolumeV := mkLogicVolumeV zero_TypeMeta zero_ObjectMeta zero_LvSpec zero_LvStatus.
Definition zero_LvList : LogicVolumeListV := mkLogicVolumeListV zero_TypeMeta zero_ListMeta None.

Definition LogicVolumeSpec_DeepCopyInto (in_ : LogicVolumeSpecV) : M heap LogicVolumeSpecV :=
  let '(mkLvSpecV node size group pvc ns) := in_ in
  size ← Quantity_DeepCopy size;
  mret (mkLvSpecV node size group pvc ns).

Definition LogicVolumeSpec_DeepCopy := deep_copy zero_LvSpec LogicVolumeSpec_DeepCopyInto.

Definition LogicVolumeStatus_DeepCopyInto (in_ : LogicVolumeStatusV) : M heap LogicVolumeStatusV :=
  let '(mkLvStatusV id c msg size st major minor) := in_ in
  size ← copy_ptr Quantity_DeepCopy size;
  mret (mkLvStatusV id c msg size st major minor).

Definition LogicVolumeStatus_DeepCopy := deep_copy zero_LvStatus LogicVolumeStatus_DeepCopyInto.

Definition LogicVolume_DeepCopyInto (in_ : LogicVolumeV) : M heap LogicVolumeV :=
  let '(mkLogicVolumeV tm om spec status) := in_ in
  om ← ObjectMeta_DeepCopyInto om;
  spec ← LogicVolumeSpec_DeepCopyInto spec;
  status ← LogicVolumeStatus_DeepCopyInto status;
  mret (mkLogicVolumeV tm om spec status).

Definition LogicVolume_DeepCopy := deep_copy zero_Lv LogicVolume_DeepCopyInto.
Definition LogicVolume_DeepCopyObject := copy_object KLogicVolume LogicVolume_DeepCopy.

Definition LogicVolumeList_DeepCopyInto (in_ : LogicVolumeListV) : M heap LogicVolumeListV :=
  let '(mkLogicVolumeListV tm lm items) := in_ in
  lm ← ListMeta_DeepCopyInto lm;
  items ← copy_items zero_Lv LogicVolume_DeepCopyInto items;
  mret (mkLogicVolumeListV tm lm items).

Definition LogicVolumeList_DeepCopy := deep_copy zero_LvList LogicVolumeList_DeepCopyInto.
Definition LogicVolumeList_DeepCopyObject := copy_object KLogicVolumeList LogicVolumeList_DeepCopy.

(** *** [api/v1beta1] *)

Definition zero_VgGroup : VgGroupV := mkVgGroupV "" 0 0 "" 0 0 None.
Definition zero_Disk : DiskV := mkDiskV "" "" 0 0 false 0 0 None 0 None (mkUdevInfoV "" "" None None).
Definition zero_NsrSpec : NodeStorageResourceSpecV := mkNsrSpecV "".
Definition zero_NsrStatus : NodeStorageResourceStatusV := mkNsrStatusV zero_Time None None None None None.
Definition zero_Nsr : NodeStorageResourceV := mkNsrV zero_TypeMeta zero_ObjectMeta zero_NsrSpec zero_NsrStatus.
Definition zero_NsrList : NodeStorageResourceListV := mkNsrListV zero_TypeMeta zero_ListMeta None.

Definition NodeStorageResourceSpec_DeepCopyInto (in_ : NodeStorageResourceSpecV) : M heap NodeStorageResourceSpecV := mret in_.
Definition NodeStorageResourceSpec_DeepCopy := deep_copy zero_NsrSpec NodeStorageResourceSpec_DeepCopyInto.

Definition NodeStorageResourceStatus_DeepCopyInto (in_ : NodeStorageResourceStatusV) : M heap NodeStorageResourceStatusV :=
  let '(mkNsrStatusV t cap alloc vgs disks raids) := in_ in
  t ← Time_DeepCopyInto t;
  cap ← copy_map 111 Quantity_DeepCopy cap;
  alloc ← copy_map 118 Quantity_DeepCopy alloc;
  vgs ← copy_array zero_VgGroup vgs;
  disks ← copy_array zero_Disk disks;
  raids ← copy_array mkRaid raids;
  mret (mkNsrStatusV t cap alloc vgs disks raids).

Definition NodeStorageResourceStatus_DeepCopy := deep_copy zero_NsrStatus NodeStorageResourceStatus_DeepCopyInto.

Definition NodeStorageResource_DeepCopyInto (in_ : NodeStorageResourceV) : M heap NodeStorageResourceV :=
  let '(mkNsrV tm om spec status) := in_ in
  om ← ObjectMeta_DeepCopyInto om;
  status ← NodeStorageResourceStatus_DeepCopyInto status;
  mret (mkNsrV tm om spec status).

Definition NodeStorageResource_DeepCopy := deep_copy zero_Nsr NodeStorageResource_DeepCopyInto.
Definition NodeStorageResource_DeepCopyObject := copy_object KNodeStorageResource NodeStorageResource_DeepCopy.

Definition NodeStorageResourceList_DeepCopyInto (in_ : NodeStorageResourceListV) : M heap NodeStorageResourceListV :=
  let '(mkNsrListV tm lm items) := in_ in
  lm ← ListMeta_DeepCopyInto lm;
  items ← copy_items zero_Nsr NodeStorageResource_DeepCopyInto items;
  mret (mkNsrListV tm lm items).

Definition NodeStorageResourceList_DeepCopy := deep_copy zero_NsrList NodeStorageResourceList_DeepCopyInto.
Definition NodeStorageResourceList_DeepCopyObject := copy_object KNodeStorageResourceList NodeStorageResourceList_DeepCopy.
End copies.

(** ** What the objects read as *)

(** Their documentation: deep copies. *)
Class MetaLaws `{MetaCopies} := {
  den_Quantity :: Den (cell:=cell) Quantity;
  den_Time :: Den (cell:=cell) Time;
  den_ObjectMeta :: Den (cell:=cell) ObjectMeta;
  den_ListMeta :: Den (cell:=cell) ListMeta;
  Quantity_copies : deep_copies Quantity_DeepCopy;
  Time_copies : deep_copies Time_DeepCopyInto;
  ObjectMeta_copies : deep_copies ObjectMeta_DeepCopyInto;
  ListMeta_copies : deep_copies ListMeta_DeepCopyInto
}.

Section reading.
Context `{MetaLaws} `{GoRuntimeLaws}.

Abbreviation heap := (gmap loc cell).

#[export] Program Instance den_LvSpec : Den (cell:=cell) LogicVolumeSpecV := {|
  val := string * string * string * string * val Quantity;
  den h a v L := (lsv_NodeName a, lsv_DeviceGroup a, lsv_Pvc a, lsv_NameSpace a) = v.1 ∧ den h (lsv_Size a) v.2 L
|}.
Next Obligation. intros h h' a v L [Hp Hd] Hl. split; [done|by eapply den_local]. Qed.
Next Obligation. intros h a v L L' [Hp Hd] HL. split; [done|by eapply den_mono]. Qed.

#[export] Program Instance den_LvStatus : Den (cell:=cell) LogicVolumeStatusV := {|
  val := string * code * string * string * Z * Z * option (val Quantity);
  den h a v L :=
    (stv_VolumeID a, stv_Code a, stv_Message a, stv_Status a, stv_DeviceMajor a, stv_DeviceMinor a) = v.1 ∧
    den_ptr (A:=Quantity) h (stv_CurrentSize a) v.2 L
|}.
Next Obligation. intros h h' a v L [Hp Hd] Hl. split; [done|by eapply den_ptr_local]. Qed.
Next Obligation. intros h a v L L' [Hp Hd] HL. split; [done|by eapply den_ptr_mono]. Qed.

#[export] Program Instance den_Lv : Den (cell:=cell) LogicVolumeV := {|
  val := TypeMeta * val ObjectMeta * val LogicVolumeSpecV * val LogicVolumeStatusV;
  den h a v L := let '(tm, om, spec, status) := v in
    lvv_TypeMeta a = tm ∧ den h (lvv_ObjectMeta a) om L ∧ den h (lvv_Spec a) spec L ∧ den h (lvv_Status a) status L
|}.
Next Obligation. intros h h' a [[[tm om] sp] st] L (Ht & Ho & Hs & Hst) Hl. split_and!; [done|by eapply den_local..]. Qed.
Next Obligation. intros h a [[[tm om] sp] st] L L' (Ht & Ho & Hs & Hst) HL. split_and!; [done|by eapply den_mono..]. Qed.

#[export] Program Instance den_LvList : Den (cell:=cell) LogicVolumeListV := {|
  val := TypeMeta * val ListMeta * option (list (val LogicVolumeV));
  den h a v L := let '(tm, lm, items) := v in
    llv_TypeMeta a = tm ∧ den h (llv_ListMeta a) lm L ∧ den_slice (A:=LogicVolumeV) h (llv_Items a) items L L
|}.
Next Obligation.
  intros h h' a [[tm lm] items] L (Ht & Ho & Hs) Hl. split_and!; [done|by eapply den_local|].
  eapply den_slice_local; [done|]. intros l c Hin. apply Hl. set_solver.
Qed.
Next Obligation.
  intros h a [[tm lm] items] L L' (Ht & Ho & Hs) HL. split_and!; [done|by eapply den_mono|by eapply den_slice_mono].
Qed.

(** *** Deep *)

Lemma LvSpec_copies : deep_copies LogicVolumeSpec_DeepCopyInto.
Proof.
  intros h [node size group pvc ns] v L [Hp Hd]. unfold LogicVolumeSpec_DeepCopyInto.
  eapply wp_copy; [apply Quantity_copies|exact Hd|done|]. intros x h' _ Hs Hx. apply wp_ret. by split.
Qed.

Lemma LvStatus_copies : deep_copies LogicVolumeStatus_DeepCopyInto.
Proof.
  intros h [id c msg size st major minor] v L [Hp Hd]. unfold LogicVolumeStatus_DeepCopyInto. apply wp_bind.
  eapply wp_mono; [eapply copy_ptr_ok; [apply Quantity_copies|exact Hd]|]. intros q h' [Hs Hq]. apply wp_ret. by split.
Qed.

Lemma Lv_copies : deep_copies LogicVolume_DeepCopyInto.
Proof.
  intros h [tm om sp st] [[[tm' om'] sp'] st'] L (Ht & Ho & Hs & Hst). unfold LogicVolume_DeepCopyInto.
  eapply wp_copy; [apply ObjectMeta_copies|exact Ho|done|]. intros x1 h1 _ Hs1 Hx1.
  eapply wp_copy; [apply LvSpec_copies|exact Hs|done|]. intros x2 h2 Hs12 Hs2 Hx2.
  eapply wp_copy; [apply LvStatus_copies|exact Hst|done|]. intros x3 h3 Hs23 Hs3 Hx3.
  apply wp_ret. split; [done|]. split_and!; [done|eapply den_since; [done|by etransitivity]|by eapply den_since|done].
Qed.

(** The copy of a list of objects inside a copy. *)
Lemma items_field {A B} `{!Stored cell (list A)} `{!Den (cell:=cell) A} (zero : A) copy (p : option slice) v L
    (k : option slice → M heap B) (Q : B → heap → Prop) (h h1 : heap) :
  deep_copies copy → den_slice (A:=A) h p v L L → h ⊆ h1 →
  (∀ q h', h1 ⊆ h' → h ⊆ h' → den_slice (A:=A) h' q v (since (dom h) h') (since (dom h) h') → wp (k q) Q h') →
  wp (copy_items zero copy p ≫= k) Q h1.
Proof.
  intros Hc Hd Hs Hk. apply wp_bind. eapply wp_mono; [eapply copy_items_ok; [exact Hc|]|].
  { eapply den_slice_local; [exact Hd|]. intros l c _ Hl. by eapply lookup_weaken. }
  assert (∀ h' : heap, since (dom h1) h' ⊆ since (dom h) h') as Hsub by (intros h'; by apply since_anti, subseteq_dom).
  intros q h' [Hs' Hq]. apply Hk; [done|by etransitivity|]. by eapply den_slice_mono.
Qed.

Lemma LvList_copies : deep_copies LogicVolumeList_DeepCopyInto.
Proof.
  intros h [tm lm items] [[tm' lm'] items'] L (Ht & Ho & Hi). unfold LogicVolumeList_DeepCopyInto.
  eapply wp_copy; [apply ListMeta_copies|exact Ho|done|]. intros x1 h1 _ Hs1 Hx1.
  eapply items_field; [apply Lv_copies|exact Hi|done|]. intros q h2 Hs12 Hs2 Hq. apply wp_ret. split; [done|].
  split_and!; [done|by eapply den_since|done].
Qed.

(** A copy behind a pointer. *)
Lemma deep_copy_ok {A} `{!Stored cell A} `{!Den (cell:=cell) A} (zero : A) (into : A → M heap A) h p v L :
  deep_copies into → den_ptr (A:=A) h p v L →
  wp (deep_copy zero into p) (λ q h', h ⊆ h' ∧ den_ptr (A:=A) h' q v (since (dom h) h')) h.
Proof.
  intros Hc Hd. destruct p as [l|], v as [v|]; try done. destruct Hd as (_ & a & Ha & Hd).
  unfold deep_copy. apply wp_bind, wp_new. intros out Hout. apply wp_bind. eapply (wp_load _ a).
  { rewrite lookup_insert_ne; [done|]. intros E. by rewrite <- E, Hout in Ha. }
  set (D := {[out]} ∪ dom h). eapply (round_ok _ _ _ h _ out _ a v L D); [done|done|by apply insert_new|apply lookup_insert_eq| |].
  { unfold D. by rewrite dom_insert. }
  intros x h2 Hs2 Hq2 Hx. apply wp_bind. unfold wp at 1, store. apply wp_ret.
  split; [apply grow_write; [etransitivity; [by apply insert_new|exact Hs2]|done]|]. split.
  - unfold since. rewrite dom_insert. apply not_elem_of_dom in Hout. set_solver.
  - exists x. rewrite lookup_insert_eq. split; [apply prj_inj|]. eapply den_mono.
    + eapply round_write; [exact Hx|done|]. unfold D. set_solver.
    + apply since_anti. unfold D. set_solver.
Qed.

(** *** The elements of a status *)

#[export] Instance den_PVInfo : Den (cell:=cell) PVInfo := den_plain PVInfo.
#[export] Instance den_string : Den (cell:=cell) string := den_plain string.
#[export] Instance den_bool : Den (cell:=cell) bool := den_plain bool.
#[export] Instance den_Z : Den (cell:=cell) Z := den_plain Z.
#[export] Instance den_Raid : Den (cell:=cell) Raid := den_plain Raid.

#[export] Program Instance den_PVptr : Den (cell:=cell) (option loc) := {|
  val := option PVInfo;
  den h p v L := den_ptr (A:=PVInfo) h p v L
|}.
Next Obligation. intros. by eapply den_ptr_local. Qed.
Next Obligation. intros. by eapply den_ptr_mono. Qed.

(** Slices with the array and the elements in one set. *)
Lemma den_slice_local1 {A} `{!Stored cell (list A)} `{!Den (cell:=cell) A} (h h' : heap) p v L :
  den_slice (A:=A) h p v L L → (∀ l c, l ∈ L → h !! l = Some c → h' !! l = Some c) → den_slice (A:=A) h' p v L L.
Proof. intros Hd Hl. eapply den_slice_local; [done|]. intros l c Hin. apply Hl. set_solver. Qed.

#[export] Program Instance den_VgGroup : Den (cell:=cell) VgGroupV := {|
  val := string * Z * Z * string * Z * Z * option (list (option PVInfo));
  den h a v L :=
    (vgv_VGName a, vgv_PVCount a, vgv_LVCount a, vgv_VGAttr a, vgv_VGSize a, vgv_VGFree a) = v.1 ∧
    den_slice (A:=option loc) h (vgv_PVS a) v.2 L L
|}.
Next Obligation. intros h h' a v L [Hp Hd] Hl. split; [done|by eapply den_slice_local1]. Qed.
Next Obligation. intros h a v L L' [Hp Hd] HL. split; [done|by eapply den_slice_mono]. Qed.

#[export] Program Instance den_Partition : Den (cell:=cell) PartitionV := {|
  val := Z * Z * string * Z * option (list Z) * option (list Z);
  den h a v L := let '(scalars, id, ty) := v in
    (pav_Start a, pav_Last a, pav_Name a, pav_Number a) = scalars ∧
    den_slice (A:=Z) h (pav_ID a) id L L ∧ den_slice (A:=Z) h (pav_Type a) ty L L
|}.
Next Obligation. intros h h' a [[sc id] ty] L (Hp & Hi & Ht) Hl. split_and!; [done|by eapply den_slice_local1..]. Qed.
Next Obligation. intros h a [[sc id] ty] L L' (Hp & Hi & Ht) HL. split_and!; [done|by eapply den_slice_mono..]. Qed.

#[export] Program Instance den_UdevInfo : Den (cell:=cell) UdevInfoV := {|
  val := string * string * option (list string) * option (gmap string string);
  den h a v L := let '(scalars, links, props) := v in
    (uiv_Name a, uiv_SysPath a) = scalars ∧
    den_slice (A:=string) h (uiv_Symlinks a) links L L ∧ den_map (A:=string) h (uiv_Properties a) props L
|}.
Next Obligation.
  intros h h' a [[sc li] pr] L (Hp & Hi & Ht) Hl. split_and!; [done|by eapply den_slice_local1|by eapply den_map_local].
Qed.
Next Obligation.
  intros h a [[sc li] pr] L L' (Hp & Hi & Ht) HL. split_and!; [done|by eapply den_slice_mono|by eapply den_map_mono].
Qed.

#[export] Program Instance den_Disk : Den (cell:=cell) DiskV := {|
  val := string * string * Z * Z * bool * Z * Z * Z * option (gmap string (val PartitionV)) *
         option (gmap string bool) * val UdevInfoV;
  den h a v L := let '(scalars, parts, props, udev) := v in
    (dv_Name a, dv_Path a, dv_Size a, dv_SectorSize a, dv_ReadOnly a, dv_Type a, dv_Attachment a, dv_Table a) = scalars ∧
    den_map (A:=PartitionV) h (dv_Partitions a) parts L ∧ den_map (A:=bool) h (dv_Properties a) props L ∧
    den h (dv_UdevInfo a) udev L
|}.
Next Obligation.
  intros h h' a [[[sc pa] pr] ud] L (Hp & Ha & Hr & Hu) Hl. split_and!; [done|by eapply den_map_local..|by eapply den_local].
Qed.
Next Obligation.
  intros h a [[[sc pa] pr] ud] L L' (Hp & Ha & Hr & Hu) HL. split_and!; [done|by eapply den_map_mono..|by eapply den_mono].
Qed.

(** *** A status, with the elements of its groups and disks read by [DV] and
    [DD] *)

Program Definition den_NsrStatus (DV : Den (cell:=cell) VgGroupV) (DD : Den (cell:=cell) DiskV) :
  Den (cell:=cell) NodeStorageResourceStatusV := {|
  val := val Time * option (gmap string (val Quantity)) * option (gmap string (val Quantity)) *
         option (list (val VgGroupV (Den:=DV))) * option (list (val DiskV (Den:=DD))) * option (list Raid);
  den h a v L := let '(t, cap, alloc, vgs, disks, raids) := v in
    den h (nst_SyncTime a) t L ∧ den_map (A:=Quantity) h (nst_Capacity a) cap L ∧
    den_map (A:=Quantity) h (nst_Allocatable a) alloc L ∧
    den_slice (A:=VgGroupV) h (nst_VgGroups a) vgs L L ∧ den_slice (A:=DiskV) h (nst_Disks a) disks L L ∧
    den_slice (A:=Raid) h (nst_RAIDs a) raids L L
|}.
Next Obligation.
  intros DV DD h h' a [[[[[t c] al] vg] di] ra] L (E1 & E2 & E3 & E4 & E5 & E6) Hl.
  split_and!; [by eapply den_local|by eapply den_map_local..|by eapply den_slice_local1|by eapply den_slice_local1|by eapply den_slice_local1].
Qed.
Next Obligation.
  intros DV DD h a [[[[[t c] al] vg] di] ra] L L' (E1 & E2 & E3 & E4 & E5 & E6) HL.
  split_and!; [by eapply den_mono|by eapply den_map_mono..|by eapply den_slice_mono|by eapply den_slice_mono|by eapply den_slice_mono].
Qed.

Program Definition den_Nsr (DV : Den (cell:=cell) VgGroupV) (DD : Den (cell:=cell) DiskV) :
  Den (cell:=cell) NodeStorageResourceV := {|
  val := TypeMeta * val ObjectMeta * NodeStorageResourceSpecV * val NodeStorageResourceStatusV (Den:=den_NsrStatus DV DD);
  den h a v L := let '(tm, om, spec, status) := v in
    nrv_TypeMeta a = tm ∧ den h (nrv_ObjectMeta a) om L ∧ nrv_Spec a = spec ∧
    den (Den:=den_NsrStatus DV DD) h (nrv_Status a) status L
|}.
Next Obligation. intros DV DD h h' a [[[tm om] sp] st] L (Ht & Ho & Hs & Hst) Hl. split_and!; [done|by eapply den_local|done|by eapply den_local]. Qed.
Next Obligation. intros DV DD h a [[[tm om] sp] st] L L' (Ht & Ho & Hs & Hst) HL. split_and!; [done|by eapply den_mono|done|by eapply den_mono]. Qed.

Program Definition den_NsrList (DV : Den (cell:=cell) VgGroupV) (DD : Den (cell:=cell) DiskV) :
  Den (cell:=cell) NodeStorageResourceListV := {|
  val := TypeMeta * val ListMeta * option (list (val NodeStorageResourceV (Den:=den_Nsr DV DD)));
  den h a v L := let '(tm, lm, items) := v in
    nlv_TypeMeta a = tm ∧ den h (nlv_ListMeta a) lm L ∧
    den_slice (Den0:=den_Nsr DV DD) h (nlv_Items a) items L L
|}.
Next Obligation. intros DV DD h h' a [[tm lm] it] L (Ht & Ho & Hs) Hl. split_and!; [done|by eapply den_local|by eapply den_slice_local1]. Qed.
Next Obligation. intros DV DD h a [[tm lm] it] L L' (Ht & Ho & Hs) HL. split_and!; [done|by eapply den_mono|by eapply den_slice_mono]. Qed.

(** *** Everything is copied but what the groups and disks point to *)

Section shared.
Context (h0 : heap) (S : gset loc).

Let DV : Den (cell:=cell) VgGroupV := den_shared den_VgGroup h0 S.
Let DD : Den (cell:=cell) DiskV := den_shared den_Disk h0 S.

Lemma map_field {B} site (p : option loc) v L (k : option loc → M heap B) (Q : B → heap → Prop) (h h1 : heap) :
  den_map (A:=Quantity) h p v L → h ⊆ h1 →
  (∀ q h', h1 ⊆ h' → h ⊆ h' → den_map (A:=Quantity) h' q v (since (dom h) h') → wp (k q) Q h') →
  wp (copy_map site Quantity_DeepCopy p ≫= k) Q h1.
Proof.
  intros Hd Hs Hk. apply wp_bind. eapply wp_mono; [eapply copy_map_ok; [apply Quantity_copies|]|].
  { eapply den_map_local; [exact Hd|]. intros l c _ Hl. by eapply lookup_weaken. }
  intros q h' [Hs' Hq]. apply Hk; [done|by etransitivity|]. eapply den_map_mono; [exact Hq|]. by apply since_anti, subseteq_dom.
Qed.

Lemma array_field {A B} `{!Stored cell (list A)} `{!Den (cell:=cell) A} (zero : A) (p : option slice) v L
    (k : option slice → M heap B) (Q : B → heap → Prop) (h h1 : heap) :
  den_slice (A:=A) h p v L L → h ⊆ h1 →
  (∀ q h', h1 ⊆ h' → h ⊆ h' → den_slice (A:=A) h' q v (since (dom h) h') L → wp (k q) Q h') →
  wp (copy_array zero p ≫= k) Q h1.
Proof.
  intros Hd Hs Hk. apply wp_bind. eapply wp_mono; [eapply copy_array_ok|].
  { eapply den_slice_local1; [exact Hd|]. intros l c _ Hl. by eapply lookup_weaken. }
  intros q h' [Hs' Hq]. apply Hk; [done|by etransitivity|]. eapply den_slice_mono; [exact Hq| |done]. by apply since_anti, subseteq_dom.
Qed.

(** Elements that read the same in every heap. *)
Lemma rigid_slice {A} `{!Stored cell (list A)} `{!Den (cell:=cell) A} (h h' : heap) p v O L O' L' :
  (∀ h h' (a : A) v L L', den h a v L → den h' a v L') →
  den_slice (A:=A) h p v O L → h ⊆ h' → O ⊆ O' → den_slice (A:=A) h' p v O' L'.
Proof.
  intros Hr Hd Hs HO. destruct p as [s|], v as [vs|]; try done. destruct Hd as (Hin & arr & Ha & Hlen & Hd).
  split; [by apply HO|]. exists arr. split; [|split; [done|]; eapply Forall2_impl; [exact Hd|]; intros a w Haw; eapply Hr; exact Haw].
  destruct (h !! sl_array s) as [c|] eqn:E; [|done]. by rewrite (lookup_weaken _ _ _ _ E Hs).
Qed.

Lemma den_map_since (h h' : heap) D p v :
  den_map (A:=Quantity) h p v (since D h) → h ⊆ h' → den_map (A:=Quantity) h' p v (since D h').
Proof.
  intros Hd Hs. eapply den_map_mono; [|by apply since_mono]. eapply den_map_local; [done|].
  intros l c _ Hl. by eapply lookup_weaken.
Qed.

Lemma NsrStatus_copies : deep_copies (Den0:=den_NsrStatus DV DD) NodeStorageResourceStatus_DeepCopyInto.
Proof.
  intros h [t cap al vg di ra] [[[[[t' cap'] al'] vg'] di'] ra'] L (H1' & H2' & H3' & H4' & H5' & H6').
  unfold NodeStorageResourceStatus_DeepCopyInto.
  eapply wp_copy; [apply Time_copies|exact H1'|done|]. intros x1 h1 _ Hs1 Hx1.
  eapply map_field; [exact H2'|done|]. intros x2 h2 Hs12 Hs2 Hx2.
  eapply map_field; [exact H3'|done|]. intros x3 h3 Hs23 Hs3 Hx3.
  eapply (array_field (Den0:=DV)); [exact H4'|done|]. intros x4 h4 Hs34 Hs4 Hx4.
  eapply (array_field (Den0:=DD)); [exact H5'|done|]. intros x5 h5 Hs45 Hs5 Hx5.
  eapply (array_field (Den0:=den_Raid)); [exact H6'|done|]. intros x6 h6 Hs56 Hs6 Hx6.
  assert (h4 ⊆ h6) by by etransitivity. assert (h3 ⊆ h6) by by etransitivity.
  assert (h2 ⊆ h6) by by etransitivity. assert (h1 ⊆ h6) by by etransitivity.
  apply wp_ret. split; [done|]. split_and!; cbn [nst_SyncTime nst_Capacity nst_Allocatable nst_VgGroups nst_Disks nst_RAIDs].
  - by eapply den_since.
  - by eapply den_map_since.
  - by eapply den_map_since.
  - eapply (rigid_slice (Den0:=DV) h4); [done|exact Hx4|done|by apply since_mono].
  - eapply (rigid_slice (Den0:=DD) h5); [done|exact Hx5|done|by apply since_mono].
  - eapply (rigid_slice (Den0:=den_Raid) h6); [done|exact Hx6|done|done].
Qed.

Lemma Nsr_copies : deep_copies (Den0:=den_Nsr DV DD) NodeStorageResource_DeepCopyInto.
Proof.
  intros h [tm om sp st] [[[tm' om'] sp'] st'] L (Ht & Ho & Hs & Hst). unfold NodeStorageResource_DeepCopyInto.
  eapply wp_copy; [apply ObjectMeta_copies|exact Ho|done|]. intros x1 h1 _ Hs1 Hx1.
  eapply wp_copy; [apply NsrStatus_copies|exact Hst|done|]. intros x2 h2 Hs12 Hs2 Hx2.
  apply wp_ret. split; [done|]. split_and!; [done|by eapply den_since|done|done].
Qed.

Lemma NsrList_copies : deep_copies (Den0:=den_NsrList DV DD) NodeStorageResourceList_DeepCopyInto.
Proof.
  intros h [tm lm items] [[tm' lm'] items'] L (Ht & Ho & Hi). unfold NodeStorageResourceList_DeepCopyInto.
  eapply wp_copy; [apply ListMeta_copies|exact Ho|done|]. intros x1 h1 _ Hs1 Hx1.
  eapply items_field; [apply Nsr_copies|exact Hi|done|]. intros q h2 Hs12 Hs2 Hq. apply wp_ret. split; [done|].
  split_and!; [done|by eapply den_since|done].
Qed.
End shared.

(** ** A copy and its original *)

(** Both read as [v], no write outside of the old heap reaches the original,
    and no write to the old heap reaches the copy. *)
Definition independent {A} `{!Stored cell A} `{!Den (cell:=cell) A} (h : heap) (p : option loc) (v : option (val A))
    (q : option loc) (h' : heap) : Prop :=
  h ⊆ h' ∧ den_ptr (A:=A) h' q v (since (dom h) h') ∧
  (∀ h'', (∀ l, l ∈ dom h → h'' !! l = h' !! l) → den_ptr (A:=A) h'' p v (dom h)) ∧
  (∀ h'', (∀ l, l ∉ dom h → h'' !! l = h' !! l) → den_ptr (A:=A) h'' q v (since (dom h) h')).

Lemma copy_independent {A} `{!Stored cell A} `{!Den (cell:=cell) A} (zero : A) into h p v :
  deep_copies into → den_ptr (A:=A) h p v (dom h) → wp (deep_copy zero into p) (independent (A:=A) h p v) h.
Proof.
  intros Hc Hd. eapply wp_mono; [by eapply deep_copy_ok|]. intros q h' [Hs Hq]. split_and!; [done|done| |].
  - intros h'' Heq. eapply den_ptr_local; [exact Hd|]. intros l c Hl E. rewrite Heq by done. by eapply lookup_weaken.
  - intros h'' Heq. eapply den_ptr_local; [exact Hq|]. intros l c Hl E. unfold since in Hl. by rewrite Heq by set_solver.
Qed.

(** The same of an object; nil gives nil and not a pointer to nothing. *)
Definition object_copied (k : kind) {A} `{!Stored cell A} `{!Den (cell:=cell) A} (h : heap) (p : option loc)
    (v : option (val A)) (o : option Object) (h' : heap) : Prop :=
  match o with
  | None => p = None ∧ h' = h
  | Some (k', q) => k' = k ∧ p ≠ None ∧ independent (A:=A) h p v (Some q) h'
  end.

Lemma object_ok k {A} `{!Stored cell A} `{!Den (cell:=cell) A} (zero : A) into h p v :
  deep_copies into → den_ptr (A:=A) h p v (dom h) →
  wp (copy_object k (deep_copy zero into) p) (object_copied k (A:=A) h p v) h.
Proof.
  intros Hc Hd. destruct p as [l|]; [|done]. apply wp_bind. eapply wp_mono; [by eapply copy_independent|].
  intros [q|] h' Hi; [by apply wp_ret|]. destruct Hi as (_ & Hq & _). by destruct v.
Qed.

(** *** The physical volumes of a status *)

Definition read {A} `{!Stored cell A} (h : heap) (l : loc) : option A := h !! l ≫= prj.
#[local] Arguments read : simpl never.
#[local] Arguments inj : simpl never.

(** [p.Status.VgGroups]. *)
Definition vg_groups (h : heap) (p : option loc) : option (list VgGroupV) :=
  l ← p; n ← read (A:=NodeStorageResourceV) h l;
  s ← nst_VgGroups (nrv_Status n); arr ← read (A:=list VgGroupV) h (sl_array s);
  Some (window s arr).

(** [p.Status.VgGroups[i].PVS[j]]. *)
Definition pv_at (h : heap) (p : option loc) (i j : nat) : option loc :=
  gs ← vg_groups h p; g ← gs !! i; s ← vgv_PVS g; arr ← read (A:=list (option loc)) h (sl_array s);
  mjoin (window s arr !! j).

Lemma read_grow {A} `{!Stored cell A} (h h' : heap) l (a : A) : h ⊆ h' → read h l = Some a → read h' l = Some a.
Proof. intros Hs. unfold read. destruct (h !! l) as [c|] eqn:E; [|done]. by rewrite (lookup_weaken _ _ _ _ E Hs). Qed.

(** A write to a variable of another type is not seen. *)
Lemma read_other {A B} `{!Stored cell A, !Stored cell B} (h : heap) l l' (a : A) (b b' : B) :
  read h l = Some a → read h l' = Some b → (∀ c, prj (A:=A) c ≠ None → prj (A:=B) c = None) → read (<[l' := inj b']> h) l = Some a.
Proof.
  intros Ha Hb Hne. unfold read in *. rewrite lookup_insert_ne; [done|]. intros <-. destruct (h !! l') as [c|]; [|done].
  cbn in *. rewrite Hne in Hb; [done|]. congruence.
Qed.

(** Elements that are shared are the same. *)
Lemma shared_same {A} (D : Den (cell:=cell) A) h0 S (h h' : heap) L L' (l l' : list A) vs :
  Forall2 (λ a v, den (Den:=den_shared D h0 S) h a v L) l vs →
  Forall2 (λ a v, den (Den:=den_shared D h0 S) h' a v L') l' vs → l = l'.
Proof.
  intros Hl. revert l'. induction Hl as [|a v l vs [Ha _] _ IH]; intros l' Hl'; inversion Hl' as [|? ? ? ? [Hb _]]; subst; [done|].
  f_equal. by apply IH.
Qed.

Lemma shared_groups h0 S (h h' : heap) p q v L L' :
  let D := den_Nsr (den_shared den_VgGroup h0 S) (den_shared den_Disk h0 S) in
  den_ptr (Den0:=D) h p (Some v) L → den_ptr (Den0:=D) h' q (Some v) L' → vg_groups h' q = vg_groups h p.
Proof.
  intros D. destruct p as [l|], q as [l'|]; try done. destruct v as [[[tm om] sp] [[[[[t c] al] vg] di] ra]].
  intros (_ & n & Hn & (_ & _ & _ & (_ & _ & _ & Hg & _))) (_ & n' & Hn' & (_ & _ & _ & (_ & _ & _ & Hg' & _))).
  change (read h l = Some n) in Hn. change (read h' l' = Some n') in Hn'. unfold vg_groups. cbn. rewrite Hn, Hn'. cbn.
  destruct (nst_VgGroups (nrv_Status n)) as [s|], (nst_VgGroups (nrv_Status n')) as [s'|], vg as [vs|]; try done.
  destruct Hg as (_ & arr & Ha & _ & Hg), Hg' as (_ & arr' & Ha' & _ & Hg').
  change (read h (sl_array s) = Some arr) in Ha. change (read h' (sl_array s') = Some arr') in Ha'. cbn. rewrite Ha, Ha'. cbn. f_equal.
  by eapply shared_same.
Qed.

(** The path to a physical volume after the heap has grown and a physical
    volume was written. *)
Lemma groups_write (h h' : heap) p gs l (pv pv' : PVInfo) :
  vg_groups h p = Some gs → h ⊆ h' → read (A:=PVInfo) h' l = Some pv → vg_groups (<[l := inj pv']> h') p = Some gs.
Proof.
  intros Hg Hs Hl. destruct p as [lp|]; [|done]. cbn in *. destruct (read h lp) as [n|] eqn:En; [|done]. cbn in *.
  eapply read_grow in En; [|done]. rewrite (read_other _ _ _ _ _ pv' En Hl) by by intros []. cbn in *.
  destruct (nst_VgGroups _) as [s|]; [|done]. cbn in *. destruct (read h (sl_array s)) as [arr|] eqn:Ea; [|done].
  eapply read_grow in Ea; [|done]. by rewrite (read_other _ _ _ _ _ pv' Ea Hl) by by intros [].
Qed.

Lemma pv_at_groups (h : heap) p i j l : pv_at h p i j = Some l → ∃ gs g s arr,
  vg_groups h p = Some gs ∧ gs !! i = Some g ∧ vgv_PVS g = Some s ∧ read (A:=list (option loc)) h (sl_array s) = Some arr ∧
  window s arr !! j = Some (Some l).
Proof.
  unfold pv_at. destruct (vg_groups h p) as [gs|]; [cbn|done]. destruct (gs !! i) as [g|] eqn:Eg; [cbn|done].
  destruct (vgv_PVS g) as [s|] eqn:Es; [cbn|done]. destruct (read h (sl_array s)) as [arr|] eqn:Ea; [cbn|done].
  destruct (window s arr !! j) as [o|] eqn:Ew; [cbn|done]. intros ->. by exists gs, g, s, arr.
Qed.

Lemma pv_at_intro (h : heap) p i j l gs g s arr :
  vg_groups h p = Some gs → gs !! i = Some g → vgv_PVS g = Some s → read (A:=list (option loc)) h (sl_array s) = Some arr →
  window s arr !! j = Some (Some l) → pv_at h p i j = Some l.
Proof. intros Hgs Hg Hs Ha Hw. unfold pv_at. rewrite Hgs. cbn. rewrite Hg. cbn. rewrite Hs. cbn. rewrite Ha. cbn. by rewrite Hw. Qed.


(** [C33] The copy of a NodeStorageResource is not deep.  The object, its
    quantities and the arrays of its lists are new, and the copy reads as the
    original; but the elements of the groups and of the disks are the same
    values, so the physical volumes of a group are the same variables, and what
    is written to one through the copy is read through the original. *)
Theorem node_storage_resource_shared (h : heap) (S : gset loc) (p : option loc)
    (v : val NodeStorageResourceV (Den:=den_Nsr (den_shared den_VgGroup h S) (den_shared den_Disk h S)))
    (Hp : den_ptr (Den0:=den_Nsr (den_shared den_VgGroup h S) (den_shared den_Disk h S)) h p (Some v) (dom h)) :
  wp (NodeStorageResource_DeepCopy p) (λ q h',
    independent (Den0:=den_Nsr (den_shared den_VgGroup h S) (den_shared den_Disk h S)) h p (Some v) q h' ∧
    ∀ i j l pv, pv_at h p i j = Some l → read (A:=PVInfo) h l = Some pv →
      pv_at h' q i j = Some l ∧ ∀ pv' : PVInfo, pv_at (<[l := inj pv']> h') p i j = Some l) h.
Proof.
  eapply wp_mono; [eapply copy_independent; [apply Nsr_copies|exact Hp]|]. intros q h' Hi. split; [exact Hi|].
  destruct Hi as (Hs & Hq & _). intros i j l pv Hl Hpv. pose proof (shared_groups _ _ _ _ _ _ _ _ _ Hp Hq) as Hsame.
  destruct (pv_at_groups _ _ _ _ _ Hl) as (gs & g & s & arr & Hgs & Hg & Hps & Ha & Hw).
  pose proof (read_grow _ _ _ _ Hs Ha) as Ha'. pose proof (read_grow _ _ _ _ Hs Hpv) as Hpv'. split.
  - eapply pv_at_intro; [rewrite Hsame; exact Hgs|done..].
  - intros pv'. eapply pv_at_intro; [by eapply groups_write|done|done| |done].
    eapply read_other; [done|done|by intros []].
Qed.
End reading.

(** ** Objects in a small heap *)

(** Quantities with a decimal behind a pointer, metadata with annotations. *)
#[local] Instance sim_types : MetaTypes := {|
  Quantity := Z * option loc;
  Time := string;
  ObjectMeta := string * option loc;
  ListMeta := string;
  Foreign := Z;
  zero_Quantity := (0, None);
  zero_Time := "";
  zero_ObjectMeta := ("", None);
  zero_ListMeta := ""
|}.

#[local] Instance sim_copies : MetaCopies := {|
  Quantity_DeepCopy q := d ← copy_ptr (A:=Foreign) mret q.2; mret (q.1, d);
  Time_DeepCopyInto := mret;
  ObjectMeta_DeepCopyInto om := m ← copy_map (A:=string) 0 mret om.2; mret (om.1, m);
  ListMeta_DeepCopyInto := mret
|}.

#[local] Program Instance sim_den_Quantity : Den (cell:=cell) Quantity | 0 := {|
  val := Z * option Z;
  den h q v L := q.1 = v.1 ∧ den_ptr (A:=Foreign) (Den0:=den_plain Z) h q.2 v.2 L
|}.
Next Obligation. intros h h' a v L [Hp Hd] Hl. split; [done|by eapply den_ptr_local]. Qed.
Next Obligation. intros h a v L L' [Hp Hd] HL. split; [done|by eapply den_ptr_mono]. Qed.

#[local] Program Instance sim_den_ObjectMeta : Den (cell:=cell) ObjectMeta | 0 := {|
  val := string * option (gmap string string);
  den h om v L := om.1 = v.1 ∧ den_map (A:=string) (Den0:=den_plain string) h om.2 v.2 L
|}.
Next Obligation. intros h h' a v L [Hp Hd] Hl. split; [done|by eapply den_map_local]. Qed.
Next Obligation. intros h a v L L' [Hp Hd] HL. split; [done|by eapply den_map_mono]. Qed.

#[local] Instance sim_laws : MetaLaws.
Proof.
  refine {| den_Quantity := sim_den_Quantity; den_Time := den_plain string;
            den_ObjectMeta := sim_den_ObjectMeta; den_ListMeta := den_plain string |}.
  - intros h q v L [Hp Hd]. apply wp_bind. eapply wp_mono; [eapply copy_ptr_ok; [apply copy_plain_ok|exact Hd]|].
    intros d h' [Hs Hd']. apply wp_ret. by split.
  - apply copy_plain_ok.
  - intros h om v L [Hp Hd]. apply wp_bind. eapply wp_mono; [eapply copy_map_ok; [apply copy_plain_ok|exact Hd]|].
    intros d h' [Hs Hd']. apply wp_ret. by split.
  - apply copy_plain_ok.
Defined.

(** A volume with a current size and an annotation, alone and in a list. *)
Definition volume_in_memory : LogicVolumeV :=
  mkLogicVolumeV (mkTypeMeta "LogicVolume" "carina.storage.io/v1") ("pvc-1", Some 3%positive)
    (mkLvSpecV "n1" (40, None) "carina-vg-ssd" "data" "prod") (mkLvStatusV "volume-pvc-1" OK "" (Some 2%positive) "Success" 252 0).

Definition volume_heap : gmap loc (cell (H:=sim_types)) :=
  {[1%positive := CLv volume_in_memory; 2%positive := CQuantity (40, Some 4%positive);
    3%positive := CStringMap {["carina.io/volume-manage-type" := "lvm"]}; 4%positive := CForeign 40;
    5%positive := CLvList (mkLogicVolumeListV (mkTypeMeta "LogicVolumeList" "carina.storage.io/v1") "7" (Some (mkSlice 6%positive 0 1)));
    6%positive := CLvs [volume_in_memory]]}.

Definition volume_value : val LogicVolumeV :=
  (mkTypeMeta "LogicVolume" "carina.storage.io/v1", ("pvc-1", Some {["carina.io/volume-manage-type" := "lvm"]}),
   ("n1", "carina-vg-ssd", "data", "prod", (40, None)),
   ("volume-pvc-1", OK, "", "Success", 252, 0, Some (40, Some 40))).

Lemma plain_entries {A} (m : gmap string A) k : option_Forall2 (λ a v, a = v) (m !! k) (m !! k).
Proof. destruct (m !! k); by constructor. Qed.

Lemma volume_reads : den volume_heap volume_in_memory volume_value (dom volume_heap).
Proof.
  split; [done|]. split.
  - split; [done|]. split; [by apply elem_of_dom; eexists|]. exists {["carina.io/volume-manage-type" := "lvm"]}.
    split; [reflexivity|exact (plain_entries _)].
  - split; [done|]. split; [done|]. split; [by apply elem_of_dom; eexists|]. exists (40, Some 4%positive).
    split; [reflexivity|]. split; [done|]. split; [by apply elem_of_dom; eexists|]. by exists 40.
Qed.


(** A status with a group on one disk. *)
Definition status_pv : PVInfo := mkPV "/dev/vdb" "carina-vg-ssd" "lvm2" "a--" 107374182400 64424509440.
Definition status_vg : VgGroupV := mkVgGroupV "carina-vg-ssd" 1 1 "wz--n-" 107374182400 64424509440 (Some (mkSlice 4%positive 0 1)).
Definition status_heap : gmap loc (cell (H:=sim_types)) :=
  {[1%positive := CNsr (mkNsrV (mkTypeMeta "NodeStorageResource" "carina.storage.io/v1beta1") ("n1", None) (mkNsrSpecV "n1")
      (mkNsrStatusV "now" (Some 2%positive) None (Some (mkSlice 3%positive 0 1)) None None));
    2%positive := CQuantities {["carina.storage.io/carina-vg-ssd" := (101, None)]};
    3%positive := CVgGroups [status_vg]; 4%positive := CPVInfos [Some 5%positive]; 5%positive := CPVInfo status_pv]}.

(** The copy, and the free space of the disk written through it. *)
Definition copied_status := (NodeStorageResource_DeepCopy (Some 1%positive) status_heap).2.
Definition written_status := <[5%positive := CPVInfo (mkPV "/dev/vdb" "carina-vg-ssd" "lvm2" "a--" 107374182400 0)]> copied_status.

Definition status_value :
  TypeMeta * (string * option (gmap string string)) * NodeStorageResourceSpecV *
  (string * option (gmap string (Z * option Z)) * option (gmap string (Z * option Z)) *
   option (list (VgGroupV * val VgGroupV)) * option (list (DiskV * val DiskV)) * option (list Raid)) :=
  (mkTypeMeta "NodeStorageResource" "carina.storage.io/v1beta1", ("n1", None), mkNsrSpecV "n1",
   ("now", Some {["carina.storage.io/carina-vg-ssd" := (101, None)]}, None,
    Some [(status_vg, ("carina-vg-ssd", 1, 1, "wz--n-", 107374182400, 64424509440, Some [Some status_pv]))], None, None)).

Lemma node_storage_resource_shared_witness :
  pv_at copied_status (Some 6%positive) 0 0 = Some 5%positive ∧
  (pv_at written_status (Some 1%positive) 0 0 ≫= read (A:=PVInfo) written_status) =
    Some (mkPV "/dev/vdb" "carina-vg-ssd" "lvm2" "a--" 107374182400 0) ∧
  wp (NodeStorageResource_DeepCopy (Some 1%positive)) (λ q h', pv_at h' q 0 0 = Some 5%positive) status_heap.
Proof.
  split; [vm_compute; reflexivity|]. split; [vm_compute; reflexivity|].
  eapply wp_mono.
  - apply (node_storage_resource_shared (H1:=sim_laws) status_heap (dom status_heap) (Some 1%positive) status_value).
    split; [by apply elem_of_dom; eexists|]. eexists. split; [reflexivity|].
    split; [exact eq_refl|]. split; [exact (conj eq_refl I)|]. split; [exact eq_refl|].
    split; [exact eq_refl|]. split; [|split; [exact I|]; split; [|exact (conj I I)]].
    + split; [by apply elem_of_dom; eexists|]. eexists. split; [reflexivity|]. intros k.
      destruct (decide (k = "carina.storage.io/carina-vg-ssd")) as [->|Hk].
      * rewrite !lookup_singleton_eq. by constructor.
      * rewrite !lookup_singleton_ne by done. constructor.
    + split; [by apply elem_of_dom; eexists|]. exists [status_vg]. split; [reflexivity|]. split; [reflexivity|].
      constructor; [|constructor]. split; [exact eq_refl|]. split; [exact eq_refl|]. split; [by apply elem_of_dom; eexists|].
      exists [Some 5%positive]. split; [reflexivity|]. split; [reflexivity|]. constructor; [|constructor].
      split; [by apply elem_of_dom; eexists|]. exists status_pv. split; reflexivity.
  - intros q h' [_ Hpv]. apply (Hpv 0%nat 0%nat 5%positive status_pv); vm_compute; reflexivity.
Defined.
