(* ===== verification/Mutx.v ===== *)
(** * [utils/mutx/idlocker.go]: the set of named locks

    Every operation on the local disks, and every CSI call, runs under a
    named lock that is tried, never waited for.  [sync.Mutex] makes
    [TryAcquire] and [Release] atomic. *)

From S2P Require Import Prelude.

#[local] Open Scope string_scope.
#[local] Open Scope list_scope.
#[local] Open Scope Z_scope.

Module GlobalLocks.
(** [GlobalLocks.locks]. *)
Definition t := gset string.

Definition NewGlobalLocks : t := ∅.

Definition TryAcquire (Id : string) (locks : t) : bool * t :=
  if decide (Id ∈ locks) then (false, locks) else (true, {[Id]} ∪ locks).

Definition Release (Id : string) (locks : t) : t := locks ∖ {[Id]}.
End GlobalLocks.

(** The components embed their lock set in a larger state. *)
Class HasLocks (S : Type) := {
  get_locks : S → GlobalLocks.t;
  set_locks : GlobalLocks.t → S → S
}.

Class HasLocksLaws (S : Type) `{HasLocks S} : Prop := {
  get_set_locks l (s : S) : get_locks (set_locks l s) = l
}.

Section locked.
Context {S : Type} `{HasLocks S}.

Definition TryAcquire (Id : string) : M S bool := λ s,
  let '(ok, l) := GlobalLocks.TryAcquire Id (get_locks s) in (Done ok, set_locks l s).

Definition Release (Id : string) : M S unit := λ s,
  (Done (), set_locks (GlobalLocks.Release Id (get_locks s)) s).

(** The shape of every locked operation of the source:
    [if !m.TryAcquire(id) { return busy }; defer m.Release(id); body]. *)
Definition with_lock {A} (Id : string) (busy : A) (body : M S A) : M S A :=
  ok ← TryAcquire Id;
  if (ok : bool) then defer (Release Id) body else mret busy.

(** A computation that leaves the lock set as it found it, also when it
    panics. *)
Definition keeps_locks {A} (m : M S A) : Prop :=
  ∀ s, get_locks (m s).2 = get_locks s.

Lemma keeps_ret {A} (a : A) : keeps_locks (mret a).
Proof. done. Qed.

Lemma keeps_panic {A} msg : keeps_locks (A:=A) (panic msg).
Proof. done. Qed.

Lemma keeps_lift {A} (o : outcome A) : keeps_locks (lift_outcome o).
Proof. done. Qed.

Lemma keeps_get : keeps_locks get_state.
Proof. done. Qed.

Lemma keeps_bind {A B} (m : M S A) (f : A → M S B) :
  keeps_locks m → (∀ a, keeps_locks (f a)) → keeps_locks (m ≫= f).
Proof.
  intros Hm Hf s. unfold mbind, M_bind. specialize (Hm s).
  destruct (m s) as [[a|e] s'] eqn:E; simpl in *; [|done].
  by rewrite Hf.
Qed.

Lemma keeps_range {X A R} (l : list X) (a : A) (body : X → A → M S (ctl A R)) :
  (∀ x a, keeps_locks (body x a)) → keeps_locks (range l a body).
Proof.
  intros Hb. revert a. induction l as [|x l IH]; intros a; simpl; [apply keeps_ret|].
  apply keeps_bind; [done|]. intros []; [apply IH|apply keeps_ret..].
Qed.

Lemma keeps_for_each {X} (l : list X) (body : X → M S unit) :
  (∀ x, keeps_locks (body x)) → keeps_locks (for_each l body).
Proof.
  intros Hb. induction l as [|x l IH]; simpl; [apply keeps_ret|]. by apply keeps_bind.
Qed.

Lemma TryAcquire_free Id s :
  Id ∉ get_locks s → TryAcquire Id s = (Done true, set_locks ({[Id]} ∪ get_locks s) s).
Proof. intros. unfold TryAcquire, GlobalLocks.TryAcquire. by case_decide. Qed.

Context `{!HasLocksLaws S}.

Lemma with_lock_busy {A} Id (busy : A) body s :
  Id ∈ get_locks s →
  with_lock Id busy body s = (Done busy, set_locks (get_locks s) s).
Proof.
  intros. unfold with_lock, mbind, M_bind, TryAcquire, GlobalLocks.TryAcquire.
  by case_decide.
Qed.

(** A locked operation whose body keeps the locks gives its lock back on
    every path. *)
Lemma keeps_with_lock {A} Id (busy : A) body :
  keeps_locks body → keeps_locks (with_lock Id busy body).
Proof.
  intros Hb s. unfold with_lock, mbind, M_bind, TryAcquire, GlobalLocks.TryAcquire.
  case_decide as Hin; simpl.
  - apply get_set_locks.
  - unfold defer, Release, GlobalLocks.Release.
    specialize (Hb (set_locks ({[Id]} ∪ get_locks s) s)).
    destruct (body _) as [o s'] eqn:E; simpl in *.
    rewrite get_set_locks, Hb, get_set_locks. set_solver.
Qed.

Lemma wp_with_lock {A} Id (busy : A) body (Q : A → S → Prop) s :
  Id ∉ get_locks s →
  wp body (λ a s', Q a (set_locks (get_locks s' ∖ {[Id]}) s')) (set_locks ({[Id]} ∪ get_locks s) s) →
  wp (with_lock Id busy body) Q s.
Proof.
  intros Hid. unfold wp, with_lock, mbind, M_bind. rewrite TryAcquire_free by done.
  unfold defer, Release, GlobalLocks.Release. by destruct (body _) as [[a|e] s'].
Qed.
End locked.

#[export] Hint Resolve keeps_ret keeps_panic keeps_lift keeps_get keeps_bind keeps_range
  keeps_for_each keeps_with_lock : go_db.

(** Closes [keeps_locks] goals: binds, branches and loops are traversed, the
    components' lemmas in [go_db] discharge the calls. *)
Ltac keeps :=
  repeat first
    [ progress intros
    | solve [eauto 2 with go_db]
    | apply keeps_bind
    | apply keeps_range
    | apply keeps_for_each
    | progress cbv beta iota zeta
    | match goal with |- keeps_locks (match ?x with _ => _ end) => destruct x end ].

(** ** Interleaved callers

    Any number of goroutines call the locked operations.  A caller is outside
    ([None]) or inside the section of the id it acquired; each step is one
    atomic call of [TryAcquire] or of the deferred [Release]. *)

Module Callers.
Record config := Config {
  locks : GlobalLocks.t;
  inside : gmap nat string
}.

Definition init : config := Config GlobalLocks.NewGlobalLocks ∅.

Inductive step : config → config → Prop :=
| step_acquire t id c l :
    inside c !! t = None →
    GlobalLocks.TryAcquire id (locks c) = (true, l) →
    step c (Config l (<[t:=id]> (inside c)))
| step_busy t id c l :
    inside c !! t = None →
    GlobalLocks.TryAcquire id (locks c) = (false, l) →
    step c (Config l (inside c))
| step_release t id c :
    inside c !! t = Some id →
    step c (Config (GlobalLocks.Release id (locks c)) (delete t (inside c))).

(** The lock set holds the ids of the callers inside, and each id has one. *)
Definition invariant (c : config) : Prop :=
  (∀ id, id ∈ locks c ↔ ∃ t, inside c !! t = Some id) ∧
  (∀ t1 t2 id, inside c !! t1 = Some id → inside c !! t2 = Some id → t1 = t2).

Lemma invariant_init : invariant init.
Proof.
  split; simpl; unfold GlobalLocks.NewGlobalLocks.
  - intros id. split; [set_solver|]. intros [t Ht]. by rewrite lookup_empty in Ht.
  - intros t1 t2 id Ht. by rewrite lookup_empty in Ht.
Qed.

Lemma TryAcquire_spec id l ok l' :
  GlobalLocks.TryAcquire id l = (ok, l') →
  (if (ok : bool) then (id ∉ l ∧ l' = {[id]} ∪ l) else (id ∈ l ∧ l' = l)).
Proof. unfold GlobalLocks.TryAcquire. case_decide; intros [= <- <-]; done. Qed.

Lemma invariant_acquire t id c :
  inside c !! t = None → id ∉ locks c → invariant c →
  invariant (Config ({[id]} ∪ locks c) (<[t:=id]> (inside c))).
Proof.
  intros Ht Hid [Hl Hu]. split; simpl.
  - intros id'. rewrite elem_of_union, elem_of_singleton, Hl. split.
    + intros [->|[t' Ht']]; [exists t; by simplify_map_eq|].
      exists t'. rewrite lookup_insert_ne; congruence.
    + intros [t' Ht']. rewrite lookup_insert in Ht'. case_decide; naive_solver.
  - intros t1 t2 id'. rewrite !lookup_insert. intros H1 H2.
    assert (∀ t', inside c !! t' ≠ Some id) by (intros t' ?; apply Hid, Hl; eauto).
    repeat case_decide; naive_solver.
Qed.

Lemma invariant_release t id c :
  inside c !! t = Some id → invariant c →
  invariant (Config (GlobalLocks.Release id (locks c)) (delete t (inside c))).
Proof.
  intros Ht [Hl Hu]. unfold GlobalLocks.Release. split; simpl.
  - intros id'. rewrite elem_of_difference, elem_of_singleton, Hl. split.
    + intros [[t' Ht'] Hne]. exists t'. rewrite lookup_delete_ne; congruence.
    + intros [t' Ht']. rewrite lookup_delete in Ht'. case_decide; naive_solver.
  - intros t1 t2 id' H1 H2. rewrite lookup_delete in H1, H2.
    repeat case_decide; naive_solver.
Qed.

Lemma invariant_step c c' : step c c' → invariant c → invariant c'.
Proof.
  intros [t id c0 l Ht E|t id c0 l Ht E|t id c0 Ht]; intros Hinv.
  - apply TryAcquire_spec in E as [? ->]. by apply invariant_acquire.
  - apply TryAcquire_spec in E as [_ ->]. by destruct c0.
  - by apply invariant_release.
Qed.

Lemma invariant_reachable c : rtc step init c → invariant c.
Proof.
  intros Hr. refine (rtc_invariant _ _ _ _ _ Hr invariant_init).
  intros. by eapply invariant_step.
Qed.

(** [C29] The locks of [idlocker.go] exclude: however the callers interleave,
    no two of them are inside the section of the same id, and no lock is
    lost, since an id nobody holds can be acquired. *)
Theorem mutual_exclusion (c : config) (Hreach : rtc step init c) :
  (∀ t1 t2 id, inside c !! t1 = Some id → inside c !! t2 = Some id → t1 = t2) ∧
  (∀ id, (∀ t, inside c !! t ≠ Some id) → (GlobalLocks.TryAcquire id (locks c)).1 = true).
Proof.
  apply invariant_reachable in Hreach as [Hl Hu]. split; [done|].
  intros id Hfree. unfold GlobalLocks.TryAcquire. case_decide as Hin; [|done].
  apply Hl in Hin as [t Ht]. by destruct (Hfree t).
Qed.

Definition one_inside : config := Config {["DiskMutex"]} {[7%nat := "DiskMutex"]}.

Lemma one_inside_reachable : rtc step init one_inside.
Proof.
  eapply rtc_l; [|apply rtc_refl].
  change one_inside with (Config ({["DiskMutex"]} ∪ ∅) (<[7%nat:="DiskMutex"]> (inside init))).
  by apply (step_acquire 7 "DiskMutex" init).
Qed.

Lemma mutual_exclusion_witness :
  (∀ t1 t2 id, inside one_inside !! t1 = Some id → inside one_inside !! t2 = Some id → t1 = t2) /\
  (∀ id, (∀ t, inside one_inside !! t ≠ Some id) →
    (GlobalLocks.TryAcquire id (locks one_inside)).1 = true).
Proof. exact (mutual_exclusion one_inside one_inside_reachable). Defined.
End Callers.
