(* ===== verification/Exec.v ===== *)
(** * The node agent's state and [utils/exec/exec.go]

    The operating system is a parameter: a state [W] and what running a
    process does to it.  The agent's own state is the lock set, the partition
    number cache of [LocalPartitionImplement] and the system; [nd_trace]
    records, in order, the commands the agent started. *)

From S2P Require Import Prelude GoStrings Api Mutx.

#[local] Open Scope string_scope.
#[local] Open Scope list_scope.
#[local] Open Scope Z_scope.

(** ** The operating system *)

(** How a process ends: exit status 0, an [*exec.ExitError] (its message,
    such as "exit status 5"), or an [*exec.Error] because it was not started. *)
Inductive proc_end :=
| ExitOk
| ExitError (msg : string)
| StartError (msg : string).

(** [pr_stderr] is what [Cmd.Output] keeps of the standard error of a process
    that failed; [pr_both] the two streams in the order they were written. *)
Record proc_result := mkProc {
  pr_stdout : string;
  pr_stderr : string;
  pr_both : string;
  pr_end : proc_end
}.

(** What [os.Stat] says of a path: its error is [IsNotExist], some other
    error, or the kind of file. *)
Inductive stat_result := StatNotExist | StatError | StatRegular | StatDir | StatOther.

Class OS (W : Type) := {
  os_run : string → list string → W → proc_result * W;
  os_stat : string → W → stat_result
}.

(** A command line: the program and its arguments. *)
Abbreviation command := (string * list string)%type.

Record Node (W : Type) := mkNode {
  nd_locks : GlobalLocks.t;
  nd_parts : gmap string Z;
  nd_world : W;
  nd_trace : list command
}.
Arguments mkNode {W}.
Arguments nd_locks {W}.
Arguments nd_parts {W}.
Arguments nd_world {W}.
Arguments nd_trace {W}.

#[export] Instance Node_locks W : HasLocks (Node W) := {|
  get_locks := nd_locks;
  set_locks l n := mkNode l (nd_parts n) (nd_world n) (nd_trace n)
|}.

#[export] Instance Node_locks_laws W : HasLocksLaws (Node W).
Proof. by split. Qed.

Section exec.
Context {W : Type} `{OS W}.

(** Starting a process and waiting for it. *)
Definition spawn (cmd : string) (arg : list string) : M (Node W) proc_result := λ n,
  let '(r, w) := os_run cmd arg (nd_world n) in
  (Done r, mkNode (nd_locks n) (nd_parts n) w (nd_trace n ++ [(cmd, arg)])).

(** The error value of [cmd.Start] or [cmd.Wait]. *)
Definition proc_error (e : proc_end) : option error :=
  match e with
  | ExitOk => None
  | ExitError m | StartError m => Some (ErrExec m)
  end.

Definition assertErrorType (r : proc_result) : string :=
  match pr_end r with
  | ExitError _ => pr_stderr r
  | StartError m => m
  | ExitOk => ""
  end.

Definition runCommandWithOutput (r : proc_result) (combinedOutput : bool) : res string :=
  let err := proc_error (pr_end r) in
  let output :=
    if combinedOutput then pr_both r
    else match err with
         | None => pr_stdout r
         | Some _ => pr_stdout r +:+ ". " +:+ assertErrorType r
         end in
  (TrimSpace output, err).

Definition ExecuteCommand (cmd : string) (arg : list string) : M (Node W) (option error) :=
  r ← spawn cmd arg;
  mret (proc_error (pr_end r)).

Definition ExecuteCommandWithOutput (cmd : string) (arg : list string) : M (Node W) (res string) :=
  r ← spawn cmd arg;
  mret (runCommandWithOutput r false).

Definition ExecuteCommandWithCombinedOutput (cmd : string) (arg : list string)
  : M (Node W) (res string) :=
  r ← spawn cmd arg;
  mret (runCommandWithOutput r true).

(** [ExecuteCommandResidentBinary]: the process is left running in the
    background, its failure is only logged. *)
Definition ExecuteCommandResidentBinary (cmd : string) (arg : list string)
  : M (Node W) (option error) :=
  r ← spawn cmd arg;
  mret None.

(** ** Effects of a computation on the trace *)

(** [m] starts only commands that satisfy [P]. *)
Definition issues {A} (P : command → Prop) (m : M (Node W) A) : Prop :=
  ∀ n, ∃ cs, nd_trace (m n).2 = nd_trace n ++ cs ∧ Forall P cs.

Lemma issues_ret {A} P (a : A) : issues P (mret a).
Proof. intros n. exists []. by rewrite app_nil_r. Qed.

Lemma issues_bind {A B} P (m : M (Node W) A) (f : A → M (Node W) B) :
  issues P m → (∀ a, issues P (f a)) → issues P (m ≫= f).
Proof.
  intros Hm Hf n. unfold mbind, M_bind. destruct (Hm n) as (cs & Ec & Hc).
  destruct (m n) as [[a|e] n'] eqn:E; simpl in *; [|by exists cs].
  destruct (Hf a n') as (cs' & -> & Hc'). exists (cs ++ cs').
  rewrite Ec, app_assoc. split; [done|]. by apply Forall_app.
Qed.

Lemma issues_spawn (P : command → Prop) cmd arg : P (cmd, arg) → issues P (spawn cmd arg).
Proof.
  intros HP n. exists [(cmd, arg)]. unfold spawn. destruct (os_run _ _ _). simpl. auto.
Qed.

Lemma issues_mono {A} (P Q : command → Prop) (m : M (Node W) A) :
  (∀ c, P c → Q c) → issues P m → issues Q m.
Proof.
  intros HPQ Hm n. destruct (Hm n) as (cs & ? & Hc). exists cs.
  split; [done|]. by eapply Forall_impl.
Qed.

Lemma keeps_spawn cmd arg : keeps_locks (spawn cmd arg).
Proof. intros n. unfold spawn. by destruct (os_run _ _ _). Qed.

Lemma keeps_ExecuteCommand cmd arg : keeps_locks (ExecuteCommand cmd arg).
Proof. apply keeps_bind; [apply keeps_spawn|]. intros. apply keeps_ret. Qed.

Lemma keeps_ExecuteCommandWithOutput cmd arg : keeps_locks (ExecuteCommandWithOutput cmd arg).
Proof. apply keeps_bind; [apply keeps_spawn|]. intros. apply keeps_ret. Qed.

Lemma keeps_ExecuteCommandWithCombinedOutput cmd arg :
  keeps_locks (ExecuteCommandWithCombinedOutput cmd arg).
Proof. apply keeps_bind; [apply keeps_spawn|]. intros. apply keeps_ret. Qed.

Lemma keeps_ExecuteCommandResidentBinary cmd arg :
  keeps_locks (ExecuteCommandResidentBinary cmd arg).
Proof. apply keeps_bind; [apply keeps_spawn|]. intros. apply keeps_ret. Qed.
End exec.

#[export] Hint Resolve keeps_spawn keeps_ExecuteCommand keeps_ExecuteCommandWithOutput
  keeps_ExecuteCommandWithCombinedOutput keeps_ExecuteCommandResidentBinary : go_db.
