(* ===== verification/ExecTimeout.v ===== *)
(** * [utils/exec/exec.go]: commands with a time limit or an output file

    The variants of [Executor] that wait for a process in a [select] loop, or
    that let it write its output to a temporary file. *)

From stdpp Require Import infinite.
From S2P Require Import Prelude GoStrings Api Mutx Exec.

#[local] Open Scope string_scope.
#[local] Open Scope list_scope.
#[local] Open Scope Z_scope.

(** ** The system *)

(** What the [select] of the waiting loop receives: the tick of [time.After],
    or the result of [cmd.Wait]. *)
Inductive wait_event :=
| TimedOut
| Exited (err : option error).

(** The process of the command and its output buffer; temporary files.
    [CombinedOutput limit] also gives the error of the context, if it has a
    limit. *)
Class ProcSys (W : Type) := {
  cmd_Start : string → list string → W → option error * W;
  wait_select : W → wait_event * W;
  buffer : W → string;
  Process_Signal : W → option error * W;
  Process_Kill : W → option error * W;
  CombinedOutput : option Z → string → list string → W → (string * proc_end * option error) * W;
  CreateTemp : W → res string * W;
  ReadAll : string → W → res string;
  Close : string → W → option error * W;
  Remove : string → W → option error * W
}.

(** A call of the system. *)
Definition syscall {W A} (f : W → A * W) : M W A := λ w, let '(a, w) := f w in (Done a, w).
Definition observe {W A} (f : W → A) : M W A := λ w, (Done (f w), w).

Section exec.
Context {W : Type} `{ProcSys W}.

Definition timeout_error (command : string) : error :=
  ErrString ("timeout waiting for the command " +:+ command +:+ " to return").

(** The loop has no bound in the source; [fuel] counts its rounds. *)
Fixpoint wait_loop (fuel : nat) (command : string) (interruptSent : bool) : M W (res string) :=
  match fuel with
  | O => panic "out of fuel"
  | S fuel =>
      ev ← syscall wait_select;
      match ev with
      | TimedOut =>
          if interruptSent then
            err ← syscall Process_Kill;
            out ← observe buffer;
            match err with
            | Some e =>
                mret (TrimSpace out, Some (ErrString ("timeout waiting for the command " +:+ command +:+
                  " to return after interrupt signal was sent. Tried to kill the process but that failed: " +:+ Error e)))
            | None => mret (TrimSpace out, Some (timeout_error command))
            end
          else
            _ ← syscall Process_Signal;
            wait_loop fuel command true
      | Exited err =>
          out ← observe buffer;
          match err with
          | Some e => mret (TrimSpace out, Some e)
          | None => mret (TrimSpace out, if interruptSent then Some (timeout_error command) else None)
          end
      end
  end.

Definition ExecuteCommandWithTimeout (fuel : nat) (command : string) (arg : list string) : M W (res string) :=
  err ← syscall (cmd_Start command arg);
  match err with
  | Some e => mret ("", Some e)
  | None => wait_loop fuel command false
  end.

(** The two deferred calls, in the order they run; their errors are dropped. *)
Definition with_temp (k : string → M W (res string)) : M W (res string) :=
  r ← syscall CreateTemp;
  match r with
  | (_, Some err) => mret ("", Some (ErrString ("failed to open output file: " +:+ Error err)))
  | (name, None) =>
      defer (_ ← syscall (Remove name); _ ← syscall (Close name); mret ()) (k name)
  end.

(** Reading the output file and closing it. *)
Definition read_output (name : string) : M W (res string) :=
  r ← observe (ReadAll name);
  err ← syscall (Close name);
  match err with
  | Some e => mret ("", Some e)
  | None => mret r
  end.

Definition ExecuteCommandWithOutputFileTimeout (timeout : Z) (command outfileArg : string) (arg : list string)
  : M W (res string) :=
  with_temp (λ name,
    r ← syscall (CombinedOutput (Some timeout) command (arg ++ [outfileArg; name]));
    let '(cmdOut, ended, ctxErr) := r in
    match ctxErr with
    | Some e => mret (cmdOut, Some e)
    | None =>
        match proc_error ended with
        | Some e => mret (cmdOut, Some e)
        | None => read_output name
        end
    end).

(** [assertErrorType] of the error of [CombinedOutput], whose standard error
    went to the buffer: only a failed start has a text. *)
Definition combined_text (e : proc_end) : string := match e with StartError m => m | _ => "" end.

Definition ExecuteCommandWithOutputFile (command outfileArg : string) (arg : list string) : M W (res string) :=
  with_temp (λ name,
    r ← syscall (CombinedOutput None command (arg ++ [outfileArg; name]));
    let '(cmdOut, ended, _) := r in
    match proc_error ended with
    | Some e => mret (cmdOut +:+ ". " +:+ combined_text ended, Some e)
    | None => read_output name
    end).
End exec.

(** ** Correctness *)

(** What happens to the process, in order. *)
Inductive proc_action :=
| Started (command : string) (arg : list string)
| Waited (ev : wait_event)
| Interrupted
| Killed.

(** [history] records the calls; a start that fails starts nothing.  The
    temporary files are those created and not yet removed. *)
Class ProcLaws (W : Type) `{ProcSys W} := {
  history : W → list proc_action;
  temps : W → gset string;
  Start_law c a w : let r := cmd_Start c a w in
    temps r.2 = temps w ∧ history r.2 = history w ++ match r.1 with None => [Started c a] | Some _ => [] end;
  select_law w : let r := wait_select w in temps r.2 = temps w ∧ history r.2 = history w ++ [Waited r.1];
  Signal_law w : let r := Process_Signal w in temps r.2 = temps w ∧ history r.2 = history w ++ [Interrupted];
  Kill_law w : let r := Process_Kill w in temps r.2 = temps w ∧ history r.2 = history w ++ [Killed];
  Combined_law t c a w : temps (CombinedOutput t c a w).2 = temps w;
  CreateTemp_law w : let r := CreateTemp w in
    match r.1 with
    | (name, None) => name ∉ temps w ∧ temps r.2 = {[ name ]} ∪ temps w
    | (_, Some _) => temps r.2 = temps w
    end;
  Close_law n w : temps (Close n w).2 = temps w;
  Remove_law n w : temps (Remove n w).2 = match (Remove n w).1 with None => temps w ∖ {[ n ]} | Some _ => temps w end
}.

Section correct.
Context {W : Type} `{ProcLaws W}.

Lemma wp_syscall {A} (f : W → A * W) (Q : A → W → Prop) w : Q (f w).1 (f w).2 → wp (syscall f) Q w.
Proof. unfold wp, syscall. by destruct (f w). Qed.

(** The four ways in which a process that was started ends, with the error
    that is returned. *)
Definition run_history (command : string) (r : option error) (h : list proc_action) : Prop :=
  (∃ e, h = [Waited (Exited e)] ∧ r = e) ∨
  (∃ e, h = [Waited TimedOut; Interrupted; Waited (Exited e)] ∧ r = Some (default (timeout_error command) e)) ∨
  (h = [Waited TimedOut; Interrupted; Waited TimedOut; Killed] ∧ r ≠ None).

Lemma interrupted_loop fuel command w :
  wp (wait_loop (S fuel) command true) (λ r w',
    (∃ e, history w' = history w ++ [Waited (Exited e)] ∧ r.2 = Some (default (timeout_error command) e)) ∨
    (history w' = history w ++ [Waited TimedOut; Killed] ∧ r.2 ≠ None)) w.
Proof.
  cbn [wait_loop]. apply wp_bind, wp_syscall. pose proof (select_law w) as [_ Hs]. destruct (wait_select w) as [[|e] w1]; cbn [fst snd] in *.
  - apply wp_bind, wp_syscall. pose proof (Kill_law w1) as [_ Hk]. destruct (Process_Kill w1) as [e w2]; cbn [fst snd] in *.
    eapply wp_bind_run; [reflexivity|]. rewrite Hs, <- app_assoc in Hk. destruct e; apply wp_ret; by right.
  - eapply wp_bind_run; [reflexivity|]. destruct e as [e|]; apply wp_ret; left; eauto.
Qed.

(** The first round. *)
Lemma first_round fuel command w :
  wait_loop (S fuel) command false w =
    match wait_select w with
    | (TimedOut, w1) => wait_loop fuel command true (Process_Signal w1).2
    | (Exited e, w1) => (Done (TrimSpace (buffer w1), e), w1)
    end.
Proof.
  cbn [wait_loop]. unfold mbind, M_bind, syscall, observe.
  destruct (wait_select w) as [[|[e|]] w1]; [by destruct (Process_Signal w1)|done|done].
Qed.

Lemma wait_loop_ok fuel command w :
  (2 <= fuel)%nat →
  wp (wait_loop fuel command false) (λ r w', ∃ h, history w' = history w ++ h ∧ run_history command r.2 h) w.
Proof.
  intros Hf. destruct fuel as [|[|fuel]]; [lia|lia|]. unfold wp. rewrite first_round.
  pose proof (select_law w) as [_ Hs]. destruct (wait_select w) as [[|e] w1]; cbn [fst snd] in *.
  - pose proof (Signal_law w1) as [_ Hi]. destruct (Process_Signal w1) as [e w2]; cbn [fst snd] in *.
    fold (wp (wait_loop (S fuel) command true) (λ r w', ∃ h, history w' = history w ++ h ∧ run_history command r.2 h) w2).
    eapply wp_mono; [apply interrupted_loop|]. rewrite Hi, Hs. intros r w' [(e' & -> & ->)|[-> Hr]].
    + exists [Waited TimedOut; Interrupted; Waited (Exited e')]. rewrite <- !app_assoc. split; [done|]. right. left. eauto.
    + exists [Waited TimedOut; Interrupted; Waited TimedOut; Killed]. rewrite <- !app_assoc. split; [done|]. right. by right.
  - eexists. split; [done|]. left. eauto.
Qed.

(** More fuel than two changes nothing. *)
Lemma wait_loop_fuel fuel command w : (2 <= fuel)%nat → wait_loop fuel command false w = wait_loop 2 command false w.
Proof. intros Hf. destruct fuel as [|[|fuel]]; [lia|lia|]. rewrite !first_round. by destruct (wait_select w) as [[]]. Qed.

(** The temporary file is gone, if it can be removed. *)
Lemma with_temp_clean k w :
  (∀ n w, (Remove n w).1 = None) → (∀ n w, wp (k n) (λ _ w', temps w' = temps w) w) →
  wp (with_temp k) (λ _ w', temps w' = temps w) w.
Proof.
  intros Hrm Hk. unfold with_temp. apply wp_bind, wp_syscall. pose proof (CreateTemp_law w) as Hc.
  destruct (CreateTemp w) as [[name [e|]] w1]; cbn [fst snd] in *; [by apply wp_ret|]. destruct Hc as [Hfresh Hc].
  specialize (Hk name w1). unfold wp in Hk. unfold wp, defer. destruct (k name w1) as [[r|msg] w2]; [|done].
  unfold mbind, M_bind, syscall. pose proof (Remove_law name w2) as Hr. rewrite Hrm in Hr.
  destruct (Remove name w2) as [e w3]; cbn [fst snd] in *. pose proof (Close_law name w3) as Hcl.
  destruct (Close name w3) as [e' w4]; cbn [fst snd] in *. change (temps w4 = temps w). rewrite Hcl, Hr, Hk, Hc. set_solver.
Qed.

Lemma read_output_clean n w : wp (read_output n) (λ _ w', temps w' = temps w) w.
Proof.
  unfold read_output. eapply wp_bind_run; [reflexivity|]. apply wp_bind, wp_syscall. pose proof (Close_law n w) as Hc.
  destruct (Close n w) as [[e|] w']; cbn [fst snd] in *; by apply wp_ret.
Qed.
End correct.

(** [C30] A command with a time limit returns, however the process behaves:
    two rounds of the unbounded loop are enough, and more change nothing.  The
    process is interrupted at most once, after the first period, and killed
    at most once, after the second; the call succeeds only if the process was
    started and ended by itself, without an error, in the first period. *)
Theorem command_timeout_terminates {W : Type} `{ProcLaws W} (fuel : nat) (command : string) (arg : list string) (w : W)
    (Hfuel : (2 <= fuel)%nat) :
  ExecuteCommandWithTimeout fuel command arg w = ExecuteCommandWithTimeout 2 command arg w ∧
  wp (ExecuteCommandWithTimeout fuel command arg) (λ r w',
    (history w' = history w ∧ r.2 ≠ None) ∨
    ∃ h, history w' = history w ++ Started command arg :: h ∧ run_history command r.2 h) w.
Proof.
  split.
  - unfold ExecuteCommandWithTimeout, mbind, M_bind, syscall. destruct (cmd_Start command arg w) as [[e|] w1]; [done|].
    by apply wait_loop_fuel.
  - unfold ExecuteCommandWithTimeout. apply wp_bind, wp_syscall. pose proof (Start_law command arg w) as [_ Hs].
    destruct (cmd_Start command arg w) as [[e|] w1]; cbn [fst snd] in *.
    + apply wp_ret. left. by rewrite app_nil_r in Hs.
    + eapply wp_mono; [by apply wait_loop_ok|]. intros r w' (h & -> & Hr). right. exists h. by rewrite Hs, <- app_assoc.
Qed.

(** A command that writes its output to a file leaves no temporary file
    behind, on any exit, with or without a time limit, as long as files can be
    removed. *)
Theorem output_file_removed {W : Type} `{ProcLaws W} (timeout : Z) (command outfileArg : string) (arg : list string) (w : W)
    (Hremove : ∀ n w, (Remove n w).1 = None) :
  wp (ExecuteCommandWithOutputFileTimeout timeout command outfileArg arg) (λ _ w', temps w' = temps w) w ∧
  wp (ExecuteCommandWithOutputFile command outfileArg arg) (λ _ w', temps w' = temps w) w.
Proof.
  split; apply with_temp_clean; [done| |done|]; intros n w1; apply wp_bind, wp_syscall.
  - pose proof (Combined_law (Some timeout) command (arg ++ [outfileArg; n]) w1) as Hc.
    destruct (CombinedOutput _ _ _ w1) as [[[out ended] ctx] w2]; cbn [fst snd] in *.
    destruct ctx; [by apply wp_ret|]. destruct (proc_error ended); [by apply wp_ret|].
    eapply wp_mono; [apply read_output_clean|]. intros ?? ->. done.
  - pose proof (Combined_law None command (arg ++ [outfileArg; n]) w1) as Hc.
    destruct (CombinedOutput _ _ _ w1) as [[[out ended] ctx] w2]; cbn [fst snd] in *.
    destruct (proc_error ended); [by apply wp_ret|].
    eapply wp_mono; [apply read_output_clean|]. intros ?? ->. done.
Qed.

(** *** A process that ignores the interrupt *)

Record proc_sim := mkProcSim { ps_history : list proc_action; ps_temps : gset string; ps_exits : list wait_event }.

#[local] Instance proc_sim_sys : ProcSys proc_sim := {|
  cmd_Start c a w := (None, mkProcSim (ps_history w ++ [Started c a]) (ps_temps w) (ps_exits w));
  wait_select w :=
    let ev := default TimedOut (head (ps_exits w)) in
    (ev, mkProcSim (ps_history w ++ [Waited ev]) (ps_temps w) (tail (ps_exits w)));
  buffer _ := "partial output";
  Process_Signal w := (None, mkProcSim (ps_history w ++ [Interrupted]) (ps_temps w) (ps_exits w));
  Process_Kill w := (None, mkProcSim (ps_history w ++ [Killed]) (ps_temps w) (ps_exits w));
  CombinedOutput _ _ _ w := (("", ExitOk, None), w);
  CreateTemp w := let name := fresh (ps_temps w) in
    ((name, None), mkProcSim (ps_history w) ({[ name ]} ∪ ps_temps w) (ps_exits w));
  ReadAll _ _ := ("written", None);
  Close _ w := (None, w);
  Remove n w := (None, mkProcSim (ps_history w) (ps_temps w ∖ {[ n ]}) (ps_exits w))
|}.

#[local] Instance proc_sim_laws : ProcLaws proc_sim.
Proof.
  refine {| history := ps_history; temps := ps_temps |}; try done.
  intros w. cbn [CreateTemp proc_sim_sys fst snd]. split; [apply is_fresh|done].
Defined.

Lemma command_timeout_terminates_witness :
  let w := mkProcSim [] ∅ [] in
  ps_history (ExecuteCommandWithTimeout 5 "lvs" ["-a"] w).2 =
    [Started "lvs" ["-a"]; Waited TimedOut; Interrupted; Waited TimedOut; Killed] ∧
  ExecuteCommandWithTimeout 5 "lvs" ["-a"] w = ExecuteCommandWithTimeout 2 "lvs" ["-a"] w.
Proof.
  cbv zeta. split; [vm_compute; reflexivity|].
  exact (proj1 (command_timeout_terminates 5 "lvs" ["-a"] (mkProcSim [] ∅ []) ltac:(lia))).
Defined.

Lemma output_file_removed_witness :
  wp (ExecuteCommandWithOutputFile "tool" "--out" []) (λ _ w', ps_temps w' = {[ "other" ]}) (mkProcSim [] {[ "other" ]} []).
Proof. exact (proj2 (output_file_removed 10 "tool" "--out" [] (mkProcSim [] {[ "other" ]} []) (λ _ _, eq_refl))). Defined.
