(* ===== verification/Utils.v ===== *)
(** * [utils/utils.go]: slices, maps, files and retries

    The helpers are pure functions except for the ones that look at the file
    system ([OS]) or sleep between attempts. *)

From S2P Require Import Prelude GoStrings Api GoRuntime Mutx Exec.

#[local] Open Scope string_scope.
#[local] Open Scope list_scope.
#[local] Open Scope Z_scope.

(** ** Slices *)

Fixpoint ContainsString (slice : list string) (s : string) : bool :=
  match slice with
  | [] => false
  | item :: rest => if String.eqb item s then true else ContainsString rest s
  end.

Fixpoint SliceRemoveString (slice : list string) (s : string) : list string :=
  match slice with
  | [] => []
  | item :: rest =>
      if String.eqb item s then SliceRemoveString rest s
      else item :: SliceRemoveString rest s
  end.

Definition SliceSubSlice (src dst : list string) : list string :=
  foldl (λ result item, if negb (ContainsString dst item) then result ++ [item] else result) [] src.

(** The result is built by ranging over a map: its order is the runtime's. *)
Definition SliceMergeSlice `{GoRuntime} (src dst : list string) : list string :=
  let tmp : gmap string bool := foldl (λ tmp s, <[s:=true]> tmp) ∅ src in
  let tmp := foldl (λ tmp d, <[d:=true]> tmp) tmp dst in
  foldl (λ result kv, result ++ [kv.1]) [] (map_range 0 tmp).

Definition SliceEqualSlice (src dst : list string) : bool :=
  if negb (Nat.eqb (length src) (length dst)) then false
  else forallb (ContainsString dst) src.

Definition MapEqualMap `{GoRuntime} (src dst : gmap string string) : bool :=
  if negb (Nat.eqb (size src) (size dst)) then false
  else forallb (λ kv, match dst !! kv.1 with
                      | Some v => String.eqb kv.2 v
                      | None => false
                      end) (map_range 1 src).

(** ** Names *)

(** [strings.Split] never returns an empty slice, so the last element exists. *)
Definition PartitionName (lv : string) : string :=
  let strtemp := Split lv "-" in
  CarinaPrefix +:+ "/" +:+ default "" (last strtemp).

(** ** Pods *)

Definition ConfigSourceAnnotationKey := "kubernetes.io/config.source".
Definition ApiserverSource := "api".

(** [GetPodSource] of a pod with these annotations and this UID. *)
Definition GetPodSource (annotations : gmap string string) (uid : string) : res string :=
  match annotations !! ConfigSourceAnnotationKey with
  | Some source => (source, None)
  | None => ("", Some (ErrString ("cannot get source of pod " +:+ uid)))
  end.

Definition IsStaticPod (annotations : gmap string string) (uid : string) : bool :=
  match GetPodSource annotations uid with
  | (source, None) => negb (String.eqb source ApiserverSource)
  | (_, Some _) => false
  end.

(** ** Files *)

Section files.
Context {W : Type} `{OS W}.

(** [exists]: [Some info] when present; an error other than [IsNotExist]
    counts as present with a nil [FileInfo]. *)
Definition exists_ (path : string) : M (Node W) (option stat_result * bool) := λ n,
  (Done (match os_stat path (nd_world n) with
         | StatNotExist => (None, false)
         | StatError => (None, true)
         | i => (Some i, true)
         end), n).

Definition FileExists (filepath : string) : M (Node W) bool :=
  p ← exists_ filepath;
  match p with
  | (_, false) => mret false
  | (None, true) => panic "invalid memory address or nil pointer dereference"
  | (Some i, true) => mret (match i with StatRegular => true | _ => false end)
  end.

Definition DirExists (path : string) : M (Node W) bool :=
  p ← exists_ path;
  match p with
  | (_, false) => mret false
  | (None, true) => panic "invalid memory address or nil pointer dereference"
  | (Some i, true) => mret (match i with StatDir => true | _ => false end)
  end.

Lemma keeps_exists path : keeps_locks (exists_ path).
Proof. done. Qed.

#[local] Hint Resolve keeps_exists : go_db.

Lemma keeps_FileExists path : keeps_locks (FileExists path).
Proof. unfold FileExists. keeps. Qed.

Lemma keeps_DirExists path : keeps_locks (DirExists path).
Proof. unfold DirExists. keeps. Qed.
End files.

#[export] Hint Resolve keeps_FileExists keeps_DirExists : go_db.

(** ** Retries *)

Section retry.
Context {St : Type}.

(** The attempts that are left, and the error of the last one. *)
Fixpoint until_max_retry (f : M St (option error)) (left : nat) (err : option error)
  : M St (option error) :=
  match left with
  | O => mret err
  | S left' =>
      err ← f;
      match err with
      | None => mret None
      | Some _ => until_max_retry f left' err
      end
  end.

Definition UntilMaxRetry (f : M St (option error)) (maxRetry : Z) : M St (option error) :=
  until_max_retry f (Z.to_nat maxRetry) None.

Lemma keeps_until_max_retry `{HasLocks St} f n err :
  keeps_locks f → keeps_locks (until_max_retry f n err).
Proof.
  intros Hf. revert err. induction n as [|n IH]; intros err; simpl; keeps; auto.
Qed.

Lemma keeps_UntilMaxRetry `{HasLocks St} f n : keeps_locks f → keeps_locks (UntilMaxRetry f n).
Proof. apply keeps_until_max_retry. Qed.

(** [F] holds as long as the attempts fail. *)
Lemma wp_until_max_retry (f : M St (option error)) (n : nat) (F : option error → St → Prop)
    (Q : option error → St → Prop) err s :
  F err s →
  (∀ err s, F err s → wp f (λ e s', match e with
                                      | None => Q None s'
                                      | Some _ => F e s'
                                      end) s) →
  (∀ err s, F err s → Q err s) →
  wp (until_max_retry f n err) Q s.
Proof.
  intros HF Hf HQ. revert err s HF. induction n as [|n IH]; intros err s HF; simpl.
  { apply wp_ret. auto. }
  apply wp_bind. eapply wp_mono; [by eapply Hf|]. intros [e|] s' H'; simpl in *; auto.
Qed.

(** The first success ends the retries; a failure that persists is returned
    after [maxRetry] attempts. *)
Lemma UntilMaxRetry_success f n s s' :
  0 < n → f s = (Done None, s') → UntilMaxRetry f n s = (Done None, s').
Proof.
  intros Hn Hf. unfold UntilMaxRetry. destruct (Z.to_nat n) eqn:E; [lia|].
  simpl. by rewrite (bind_done _ _ _ _ _ Hf).
Qed.

Lemma UntilMaxRetry_constant_failure f n s e :
  0 < n → f s = (Done (Some e), s) → UntilMaxRetry f n s = (Done (Some e), s).
Proof.
  intros Hn Hf. unfold UntilMaxRetry.
  assert (∀ k err, until_max_retry f (S k) err s = (Done (Some e), s)) as Hk.
  { induction k as [|k IH]; intros err; cbn [until_max_retry];
      rewrite (bind_done _ _ _ _ _ Hf); [done|apply (IH (Some e))]. }
  destruct (Z.to_nat n) eqn:E; [lia|]. apply Hk.
Qed.
End retry.

#[export] Hint Resolve keeps_UntilMaxRetry : go_db.

(** ** What the slice helpers compute *)

Lemma ContainsString_spec l s : ContainsString l s = true ↔ s ∈ l.
Proof.
  induction l as [|x l IH]; simpl; [set_solver|].
  rewrite elem_of_cons. destruct (String.eqb_spec x s) as [->|Hne]; [naive_solver|].
  rewrite IH. naive_solver.
Qed.

Lemma ContainsString_false l s : ContainsString l s = false ↔ s ∉ l.
Proof. rewrite <- ContainsString_spec. by destruct (ContainsString l s). Qed.

Lemma SliceRemoveString_spec l s : SliceRemoveString l s = filter (λ x, x ≠ s) l.
Proof.
  induction l as [|x l IH]; simpl; [done|].
  destruct (String.eqb_spec x s) as [->|Hne].
  - rewrite filter_cons_False; [done|naive_solver].
  - by rewrite filter_cons_True, IH.
Qed.

Lemma foldl_snoc_if {A} (P : A → bool) (l acc : list A) :
  foldl (λ r x, if P x then r ++ [x] else r) acc l = acc ++ List.filter P l.
Proof.
  revert acc. induction l as [|x l IH]; intros acc; simpl; [by rewrite app_nil_r|].
  rewrite IH. destruct (P x); [by rewrite <- app_assoc|done].
Qed.

Lemma SliceSubSlice_spec src dst :
  SliceSubSlice src dst = List.filter (λ x, negb (ContainsString dst x)) src.
Proof. unfold SliceSubSlice. apply (foldl_snoc_if (λ x, negb (ContainsString dst x))). Qed.

Lemma foldl_insert_true (l : list string) (m : gmap string bool) k :
  is_Some (foldl (λ tmp s, <[s:=true]> tmp) m l !! k) ↔ k ∈ l ∨ is_Some (m !! k).
Proof.
  revert m. induction l as [|x l IH]; intros m; simpl.
  { split; [by right|]. intros [Hk|]; [by apply not_elem_of_nil in Hk|done]. }
  rewrite IH, elem_of_cons. destruct (decide (k = x)) as [->|Hne].
  - rewrite lookup_insert_eq. naive_solver eauto.
  - rewrite lookup_insert_ne by done. naive_solver.
Qed.

Lemma foldl_keys {V} (l : list (string * V)) acc :
  foldl (λ result kv, result ++ [kv.1]) acc l = acc ++ l.*1.
Proof.
  revert acc. induction l as [|x l IH]; intros acc; simpl; [by rewrite app_nil_r|].
  by rewrite IH, <- app_assoc.
Qed.

(** Merging is set union, whatever order the runtime ranges in. *)
Lemma SliceMergeSlice_spec `{GoRuntimeLaws} src dst :
  NoDup (SliceMergeSlice src dst) ∧
  ∀ k, k ∈ SliceMergeSlice src dst ↔ k ∈ src ∨ k ∈ dst.
Proof.
  unfold SliceMergeSlice. rewrite foldl_keys. simpl. split; [apply map_range_NoDup|].
  intros k. rewrite list_elem_of_fmap. transitivity
    (is_Some (foldl (λ tmp d, <[d:=true]> tmp) (foldl (λ tmp s, <[s:=true]> tmp)
      (∅ : gmap string bool) src) dst !! k)).
  - split.
    + intros ([k' v] & -> & Hk%elem_of_map_range). by exists v.
    + intros [v Hv]. exists (k, v). split; [done|]. by apply elem_of_map_range.
  - rewrite !foldl_insert_true, lookup_empty. unfold is_Some. naive_solver.
Qed.

(** [MapEqualMap] decides equality. *)
Lemma MapEqualMap_spec `{GoRuntimeLaws} src dst : MapEqualMap src dst = true ↔ src = dst.
Proof.
  unfold MapEqualMap. destruct (Nat.eqb_spec (size src) (size dst)) as [Hs|Hs]; simpl; last first.
  { split; [done|]. by intros ->. }
  rewrite forallb_forall. split.
  - intros Hall.
    assert (src ⊆ dst) as Hsub.
    { apply map_subseteq_spec. intros k v Hk.
      specialize (Hall (k, v)). rewrite <- list_elem_of_In, elem_of_map_range in Hall.
      specialize (Hall Hk). simpl in Hall. destruct (dst !! k) as [v'|]; [|done].
      apply String.eqb_eq in Hall. by subst. }
    apply map_eq. intros k. destruct (decide (src = dst)) as [->|Hne]; [done|].
    exfalso. pose proof (map_subset_size src dst) as Hlt.
    enough (size src < size dst)%nat by lia. apply Hlt. by apply strict_spec_alt.
  - intros -> [k v] Hk. rewrite <- list_elem_of_In, elem_of_map_range in Hk.
    simpl. rewrite Hk. by apply String.eqb_eq.
Qed.
