(* ===== verification/Config.v ===== *)
(** * Configuration

    [pkg/configuration/config.go] and [pkg/csidriver/driver/util/util.go] for
    the controller and the node agent, [scheduler/configuration/config.go] for
    the scheduler.  Both read the same file.  Viper, which reads and decodes
    it, is a parameter: what it decodes and the two settings it is asked for. *)

From S2P Require Import Prelude GoStrings Api GoRuntime Mutx Exec Utils.

#[local] Open Scope string_scope.
#[local] Open Scope list_scope.
#[local] Open Scope Z_scope.

Definition SchedulerBinpack := "binpack".
Definition Schedulerspreadout := "spreadout".

Record DiskSelectorItem := mkSelector {
  ds_Name : string;
  ds_Re : list string;
  ds_Policy : string;
  ds_NodeLabel : string
}.

Record Disk := mkDiskConfig {
  dk_DiskSelectors : list DiskSelectorItem;
  dk_DiskScanInterval : Z;
  dk_SchedulerStrategy : string
}.

(** The package variables: [diskConfig], the two values read through
    [GlobalConfig], and [TestAssistDiskSelector]. *)
Record Settings := mkSettings {
  cfg_diskConfig : Disk;
  cfg_diskScanInterval : Z;
  cfg_schedulerStrategy : string;
  cfg_TestAssist : list string
}.

(** ** Regular expressions

    The fixed patterns of [validate], matched by derivatives. *)

Inductive regex :=
| Empty
| Eps
| Chr (p : ascii → bool)
| Cat (a b : regex)
| Alt (a b : regex)
| Star (a : regex).

Fixpoint nullable (r : regex) : bool :=
  match r with
  | Empty | Chr _ => false
  | Eps | Star _ => true
  | Cat a b => nullable a && nullable b
  | Alt a b => nullable a || nullable b
  end.

Fixpoint derive (c : ascii) (r : regex) : regex :=
  match r with
  | Empty | Eps => Empty
  | Chr p => if p c then Eps else Empty
  | Cat a b => if nullable a then Alt (Cat (derive c a) b) (derive c b) else Cat (derive c a) b
  | Alt a b => Alt (derive c a) (derive c b)
  | Star a => Cat (derive c a) (Star a)
  end.

(** [MatchString] of a pattern anchored at both ends. *)
Fixpoint MatchString (r : regex) (s : string) : bool :=
  match s with
  | EmptyString => nullable r
  | String c s' => MatchString (derive c r) s'
  end.

Definition Opt (r : regex) : regex := Alt Eps r.
Definition between (a b : ascii) (c : ascii) : bool :=
  (nat_of_ascii a <=? nat_of_ascii c)%nat && (nat_of_ascii c <=? nat_of_ascii b)%nat.
Definition alnum (c : ascii) : bool := between "A" "Z" c || between "a" "z" c || between "0" "9" c.
Definition name_char (c : ascii) : bool :=
  alnum c || Ascii.eqb c "-" || Ascii.eqb c "_" || Ascii.eqb c ".".
(** [(?i)] before a literal. *)
Fixpoint literal_fold (s : string) : regex :=
  match s with
  | EmptyString => Eps
  | String c s' => Cat (Chr (λ d, Ascii.eqb (lower d) c)) (literal_fold s')
  end.

Definition diskNameRegexp : regex :=
  Cat (Opt (Cat (Chr alnum) (Star (Chr name_char)))) (Chr alnum).
Definition diskScanRegexp : regex := Opt (Star (Chr (between "0" "9"))).
Definition schedulerStrategyRegexp : regex :=
  Opt (Alt (literal_fold "spreadout") (literal_fold "binpack")).

(** ** [pkg/configuration/config.go] *)

Definition validate_item (dc : DiskSelectorItem) (vgGroup : gmap string bool)
  : option error * gmap string bool :=
  if String.eqb (ds_Name dc) "" then (Some (ErrString "disk name should not be empty"), vgGroup)
  else if negb (MatchString diskNameRegexp (ds_Name dc)) then
    (Some (ErrString ("disk name should consist of alphanumeric characters, '-', '_' or '.', and should start and end with an alphanumeric character: " +:+ ds_Name dc)), vgGroup)
  else if default false (vgGroup !! ds_Name dc) then
    (Some (ErrString ("duplicate vg group: " +:+ ds_Name dc)), vgGroup)
  else (None, <[ds_Name dc := true]> vgGroup).

Fixpoint validate_items (l : list DiskSelectorItem) (vgGroup : gmap string bool) : option error :=
  match l with
  | [] => None
  | dc :: l' =>
      match validate_item dc vgGroup with
      | (Some e, _) => Some e
      | (None, vgGroup') => validate_items l' vgGroup'
      end
  end.

Definition validate (disk : Disk) : option error :=
  let scan := FormatInt (dk_DiskScanInterval disk) in
  if negb (MatchString diskScanRegexp scan) then
    Some (ErrString ("diskScanInterval must be a number: " +:+ scan))
  else if negb (MatchString schedulerStrategyRegexp (dk_SchedulerStrategy disk)) then
    Some (ErrString ("SchedulerStrategy must either binpack or spradout : " +:+ dk_SchedulerStrategy disk))
  else validate_items (dk_DiskSelectors disk) ∅.

(** [initConfig]: [read] is the error of reading the file, [scan] and [strategy]
    what [GlobalConfig] holds then; [None] is [os.Exit]. *)
Definition initConfig (read : option error) (scan : Z) (strategy : string) (unmarshal : Disk → Disk * option error)
  : option Settings :=
  match read with
  | Some _ => None
  | None =>
      match unmarshal (mkDiskConfig [] 0 "") with
      | (_, Some _) => None
      | (d, None) =>
          match validate d with
          | Some _ => None
          | None => Some (mkSettings d scan strategy [])
          end
      end
  end.

(** The handler of [dynamicConfig]: [unmarshal] is Viper's decoding into
    [diskConfig]; the second component counts the listeners notified. *)
Definition on_config_change (unmarshal : Disk → Disk * option error) (listeners : nat) (cfg : Settings)
  : Settings * nat :=
  let '(d, err) := unmarshal (cfg_diskConfig cfg) in
  let cfg' := mkSettings d (cfg_diskScanInterval cfg) (cfg_schedulerStrategy cfg) (cfg_TestAssist cfg) in
  match err with
  | Some _ => (cfg', 0%nat)
  | None =>
      match validate d with
      | Some _ => (cfg', 0%nat)
      | None => (cfg', listeners)
      end
  end.

Definition DiskSelector (cfg : Settings) : list DiskSelectorItem :=
  match cfg_TestAssist cfg with
  | _ :: _ => []
  | [] => dk_DiskSelectors (cfg_diskConfig cfg)
  end.

Definition DiskScanInterval (cfg : Settings) : Z :=
  let diskScanInterval := cfg_diskScanInterval cfg in
  if diskScanInterval =? 0 then 0
  else if diskScanInterval <? 300 then 300
  else diskScanInterval.

Definition SchedulerStrategy (cfg : Settings) : string :=
  let s := ToLower (cfg_schedulerStrategy cfg) in
  if ContainsString [SchedulerBinpack; Schedulerspreadout] s then s else Schedulerspreadout.

(** The short names of earlier storage classes. *)
Definition vg_alias (deviceGroup : string) : string :=
  if ContainsString ["ssd"; "hdd"] deviceGroup then "carina-vg-" +:+ deviceGroup else deviceGroup.

Definition GetRawDeviceGroupRe (cfg : Settings) (diskType : string) : list string :=
  let deviceGroup := vg_alias (ToLower diskType) in
  match List.find (λ v, String.eqb (ds_Name v) deviceGroup && String.eqb (ToLower (ds_Policy v)) "raw")
          (dk_DiskSelectors (cfg_diskConfig cfg)) with
  | Some v => ds_Re v
  | None => []
  end.

(** ** [pkg/csidriver/driver/util/util.go] *)

Definition GetDeviceGroup (cfg : Settings) (diskType : string) : string :=
  let deviceGroup := ToLower diskType in
  let diskClass :=
    foldl (λ acc v, if String.eqb (ToLower (ds_Policy v)) RawVolumeType then acc
                    else acc ++ [ToLower (ds_Name v)]) [] (DiskSelector cfg) in
  if ContainsString diskClass deviceGroup then deviceGroup else vg_alias deviceGroup.

Definition CheckRawDeviceGroup (cfg : Settings) (diskType : string) : bool :=
  let deviceGroup := vg_alias (ToLower diskType) in
  existsb (λ v, String.eqb (ds_Name v) deviceGroup && String.eqb (ToLower (ds_Policy v)) RawVolumeType)
    (DiskSelector cfg).

Definition CheckHostDeviceGroup (cfg : Settings) (diskType : string) : bool :=
  let deviceGroup := ToLower diskType in
  existsb (λ v, String.eqb (ds_Name v) deviceGroup && String.eqb (ToLower (ds_Policy v)) HostVolumeType)
    (DiskSelector cfg).

Definition GetHostDevicePath (cfg : Settings) (diskType : string) : string :=
  let deviceGroup := ToLower diskType in
  match List.find (λ v, String.eqb (ds_Name v) deviceGroup && String.eqb (ToLower (ds_Policy v)) HostVolumeType)
          (DiskSelector cfg) with
  | Some v => match ds_Re v with p :: _ => p | [] => DefaultHostPath end
  | None => DefaultHostPath
  end.

(** ** [scheduler/configuration/config.go] *)

Module SchedulerConfig.

(** The scheduler decodes its configuration and does not validate it. *)
Definition initConfig (read : option error) (scan : Z) (strategy : string) (unmarshal : Disk → Disk * option error)
  : option Settings :=
  match read with
  | Some _ => None
  | None =>
      match unmarshal (mkDiskConfig [] 0 "") with
      | (_, Some _) => None
      | (d, None) => Some (mkSettings d scan strategy [])
      end
  end.

Definition on_config_change (unmarshal : Disk → Disk * option error) (cfg : Settings) : Settings :=
  let '(d, _) := unmarshal (cfg_diskConfig cfg) in
  mkSettings d (cfg_diskScanInterval cfg) (cfg_schedulerStrategy cfg) (cfg_TestAssist cfg).

Definition SchedulerStrategy (cfg : Settings) : string :=
  let s := ToLower (cfg_schedulerStrategy cfg) in
  if ContainsString [SchedulerBinpack; Schedulerspreadout] s then s else SchedulerBinpack.

Definition GetDeviceGroup (cfg : Settings) (diskType : string) : string :=
  if existsb (λ d, negb (String.eqb (ToLower (ds_Policy d)) "raw") && String.eqb (ds_Name d) diskType)
       (dk_DiskSelectors (cfg_diskConfig cfg))
  then diskType
  else vg_alias (ToLower diskType).

Definition CheckRawDeviceGroup (cfg : Settings) (diskType : string) : bool :=
  let deviceGroup := vg_alias (ToLower diskType) in
  existsb (λ v, String.eqb (ds_Name v) deviceGroup && String.eqb (ToLower (ds_Policy v)) "raw")
    (dk_DiskSelectors (cfg_diskConfig cfg)).

Definition CheckHostDeviceGroup (cfg : Settings) (diskType : string) : bool :=
  let deviceGroup := ToLower diskType in
  existsb (λ v, String.eqb (ds_Name v) deviceGroup && String.eqb (ToLower (ds_Policy v)) "host")
    (dk_DiskSelectors (cfg_diskConfig cfg)).
End SchedulerConfig.

(** ** Regular expressions denote languages *)

Inductive lang : regex → string → Prop :=
| lang_eps : lang Eps ""
| lang_chr p c : p c = true → lang (Chr p) (String c "")
| lang_cat a b s t : lang a s → lang b t → lang (Cat a b) (s +:+ t)
| lang_alt_l a b s : lang a s → lang (Alt a b) s
| lang_alt_r a b s : lang b s → lang (Alt a b) s
| lang_star_nil a : lang (Star a) ""
| lang_star_cons a s t : lang a s → lang (Star a) t → lang (Star a) (s +:+ t).

Lemma lang_cat_inv a b s : lang (Cat a b) s → ∃ x y, s = x +:+ y ∧ lang a x ∧ lang b y.
Proof. inversion 1; subst; eauto. Qed.

Lemma sapp_nil_inv x y : x +:+ y = "" → x = "" ∧ y = "".
Proof. by destruct x. Qed.

Lemma nullable_spec r : nullable r = true ↔ lang r "".
Proof.
  induction r as [| |p|a IHa b IHb|a IHa b IHb|a IHa]; simpl.
  - split; [done|inversion 1].
  - split; [constructor|done].
  - split; [done|inversion 1].
  - rewrite andb_true_iff, IHa, IHb. split.
    + intros [Ha Hb]. by apply (lang_cat _ _ "" "").
    + intros (x & y & E & Hx & Hy)%lang_cat_inv. symmetry in E.
      apply sapp_nil_inv in E as [-> ->]. done.
  - rewrite orb_true_iff, IHa, IHb. split; [intros [?|?]; by constructor|].
    inversion 1; subst; auto.
  - split; [constructor|done].
Qed.

Lemma lang_star_string a c s :
  lang (Star a) (String c s) → ∃ x y, s = x +:+ y ∧ lang a (String c x) ∧ lang (Star a) y.
Proof.
  remember (Star a) as r eqn:Er. remember (String c s) as t eqn:Et.
  intros Hl. revert c s Et. induction Hl as [| | | | | |a' x y Hx _ Hy IH]; intros c0 s0 Et; try done.
  injection Er as ->. destruct x as [|d x]; simpl in Et; [by apply IH|].
  injection Et as -> <-. eauto.
Qed.

Lemma derive_spec c r : ∀ s, lang (derive c r) s ↔ lang r (String c s).
Proof.
  induction r as [| |p|a IHa b IHb|a IHa b IHb|a IHa]; intros s; simpl.
  - split; inversion 1.
  - split; inversion 1.
  - destruct (p c) eqn:Hp; split; inversion 1; subst; try constructor; congruence.
  - assert (lang (Cat (derive c a) b) s ↔ ∃ x y, s = x +:+ y ∧ lang a (String c x) ∧ lang b y) as Hc.
    { split.
      - intros (x & y & -> & Hx & Hy)%lang_cat_inv. apply IHa in Hx. eauto.
      - intros (x & y & -> & Hx & Hy). constructor; [by apply IHa|done]. }
    assert (lang (Cat a b) (String c s) ↔
      (∃ x y, s = x +:+ y ∧ lang a (String c x) ∧ lang b y) ∨ lang a "" ∧ lang b (String c s)) as Hcat.
    { split.
      - intros (x & y & E & Hx & Hy)%lang_cat_inv. destruct x as [|d x]; simpl in E.
        + right. by subst y.
        + injection E as -> ->. left. eauto.
      - intros [(x & y & -> & Hx & Hy)|[Hx Hy]]; [by apply (lang_cat _ _ (String c x))|].
        by apply (lang_cat _ _ "" (String c s)). }
    destruct (nullable a) eqn:Hn.
    + apply nullable_spec in Hn. rewrite Hcat, <- Hc. split.
      * inversion 1; subst; [by left|right]. split; [done|]. by apply IHb.
      * intros [?|[_ ?%IHb]]; by constructor.
    + rewrite Hcat, Hc. split; [by left|]. intros [?|[Ha%nullable_spec _]]; [done|congruence].
  - split; inversion 1; subst; constructor; by apply IHa || apply IHb.
  - split.
    + intros (x & y & -> & Hx & Hy)%lang_cat_inv. apply IHa in Hx. by apply (lang_star_cons _ (String c x)).
    + intros (x & y & -> & Hx & Hy)%lang_star_string. constructor; [by apply IHa|done].
Qed.

(** Matching decides the language. *)
Lemma MatchString_spec r s : MatchString r s = true ↔ lang r s.
Proof.
  revert r. induction s as [|c s IH]; intros r; simpl; [apply nullable_spec|].
  by rewrite IH, derive_spec.
Qed.

Fixpoint all_chars (p : ascii → bool) (s : string) : bool :=
  match s with
  | EmptyString => true
  | String c s' => p c && all_chars p s'
  end.

Lemma lang_star_chr p s : lang (Star (Chr p)) s ↔ all_chars p s = true.
Proof.
  induction s as [|c s IH]; simpl; [split; [done|constructor]|].
  rewrite andb_true_iff, <- IH. split.
  - intros (x & y & -> & Hx & Hy)%lang_star_string. by inversion Hx; subst.
  - intros [Hp Hs]. apply (lang_star_cons _ (String c "")); [by constructor|done].
Qed.

Lemma lang_opt r s : lang (Opt r) s ↔ s = "" ∨ lang r s.
Proof.
  unfold Opt. split.
  - inversion 1 as [| | |? ? ? He|? ? ? Hr| |]; subst; [left; by inversion He|by right].
  - intros [-> |?]; [apply lang_alt_l; constructor|by apply lang_alt_r].
Qed.

Lemma lang_alt a b s : lang (Alt a b) s ↔ lang a s ∨ lang b s.
Proof. split; [inversion 1; auto|]. intros [?|?]; by constructor. Qed.

Lemma lang_literal_fold lit s : ToLower lit = lit → lang (literal_fold lit) s ↔ ToLower s = lit.
Proof.
  revert s. induction lit as [|c lit IH]; intros s Hl; simpl in *.
  - split; [by inversion 1|]. destruct s; [constructor|done].
  - injection Hl as Hc Hl. split.
    + intros (x & y & -> & Hx & Hy)%lang_cat_inv. inversion Hx; subst. simpl.
      apply IH in Hy; [|done]. by rewrite Hy, (proj1 (Ascii.eqb_eq _ _) H0).
    + destruct s as [|d s]; simpl; [done|]. intros [= Hd Hs].
      apply (lang_cat _ _ (String d "")); [|by apply IH]. constructor. by apply Ascii.eqb_eq.
Qed.

(** ** What [validate] accepts *)

(** A name lvm and Kubernetes accept: it starts and ends with an
    alphanumeric character and holds only those, '-', '_' and '.'. *)
Definition good_name (n : string) : Prop :=
  ∃ c, alnum c = true ∧
    (n = String c "" ∨
     ∃ mid d, alnum d = true ∧ all_chars name_char mid = true ∧ n = String c mid +:+ String d "").

Lemma diskName_spec n : MatchString diskNameRegexp n = true ↔ good_name n.
Proof.
  rewrite MatchString_spec. unfold diskNameRegexp, good_name. split.
  - intros (x & y & -> & Hx & Hy)%lang_cat_inv.
    inversion Hy as [|p d Hd| | | | |]; subst. apply lang_opt in Hx as [-> |Hx].
    + exists d. auto.
    + apply lang_cat_inv in Hx as (u & mid & -> & Hu & Hm). inversion Hu as [|p' c Hc| | | | |]; subst.
      apply lang_star_chr in Hm. exists c. split; [done|]. right. exists mid, d. auto.
  - intros (c & Hc & [-> |(mid & d & Hd & Hm & ->)]).
    + apply (lang_cat _ _ ""); [by apply lang_opt; left|by constructor].
    + constructor; [|by constructor]. apply lang_opt. right.
      apply (lang_cat _ _ (String c "")); [by constructor|by apply lang_star_chr].
Qed.

Lemma validate_items_spec l (seen : gmap string bool) :
  (∀ n b, seen !! n = Some b → b = true) →
  validate_items l seen = None ↔
    Forall good_name (ds_Name <$> l) ∧ NoDup (ds_Name <$> l) ∧
    ∀ n, n ∈ ds_Name <$> l → seen !! n = None.
Proof.
  revert seen. induction l as [|dc l IH]; intros seen Hseen; cbn [validate_items].
  { split; [|done]. intros _. rewrite fmap_nil. split_and!; [constructor|constructor|].
    intros n Hn. by apply not_elem_of_nil in Hn. }
  rewrite fmap_cons, Forall_cons, NoDup_cons. unfold validate_item.
  destruct (String.eqb_spec (ds_Name dc) "") as [He|Hne].
  { split; [done|]. intros ((Hg & _) & _). rewrite He in Hg.
    destruct Hg as (c & _ & [?|(? & ? & _ & _ & ?)]); done. }
  destruct (MatchString diskNameRegexp (ds_Name dc)) eqn:Hm; cbn [negb]; last first.
  { split; [done|]. intros ((Hg & _) & _). apply diskName_spec in Hg. congruence. }
  apply diskName_spec in Hm. destruct (seen !! ds_Name dc) as [b|] eqn:Hs; cbn [default].
  { rewrite (Hseen _ _ Hs). simpl. split; [done|]. intros (_ & _ & Hn).
    rewrite Hn in Hs; [done|]. by left. }
  rewrite IH.
  2:{ intros n b. destruct (decide (n = ds_Name dc)) as [-> |Hn].
      - rewrite lookup_insert_eq. by intros [= <-].
      - rewrite lookup_insert_ne by done. apply Hseen. }
  split.
  - intros (Hg & Hnd & Hn). split_and!; try done.
    + intros Hin. specialize (Hn _ Hin). by rewrite lookup_insert_eq in Hn.
    + intros n [-> |Hin]%elem_of_cons; [done|]. specialize (Hn _ Hin).
      apply lookup_insert_None in Hn. apply Hn.
  - intros ([_ Hg] & [Hin Hnd] & Hn). split_and!; try done.
    intros n Hn'. rewrite lookup_insert_ne; [apply Hn; by right|]. by intros <-.
Qed.

Lemma digit_between d : 0 <= d < 10 → between "0" "9" (digit d) = true.
Proof.
  intros Hd. assert (d = 0 ∨ d = 1 ∨ d = 2 ∨ d = 3 ∨ d = 4 ∨ d = 5 ∨ d = 6 ∨ d = 7 ∨ d = 8 ∨ d = 9) as Hc by lia.
  by repeat destruct Hc as [-> |Hc]; subst.
Qed.

Lemma digits_chars n : 0 <= n → all_chars (between "0" "9") (FormatUint n) = true.
Proof.
  intros Hn. unfold FormatUint.
  assert (∀ fuel n acc, 0 <= n → all_chars (between "0" "9") acc = true →
    all_chars (between "0" "9") (format_go fuel n acc) = true) as Hgo.
  { induction fuel as [|fuel IH]; intros k acc Hk Hacc; cbn [format_go]; [done|].
    assert (between "0" "9" (digit (k mod 10)) = true) as Hd.
    { apply digit_between, Z.mod_pos_bound. lia. }
    assert (all_chars (between "0" "9") (String (digit (k mod 10)) acc) = true) as Hacc'.
    { cbn [all_chars]. by rewrite Hd, Hacc. }
    destruct (k <? 10); [done|]. apply IH; [|done]. apply Z.div_pos; lia. }
  by apply Hgo.
Qed.

Lemma scan_spec z : MatchString diskScanRegexp (FormatInt z) = true ↔ 0 <= z.
Proof.
  rewrite MatchString_spec. unfold diskScanRegexp. rewrite lang_opt, lang_star_chr. unfold FormatInt.
  destruct (Z.ltb_spec z 0) as [Hz|Hz].
  - split; [|lia]. cbn. intros [?|?]; done.
  - split; [done|]. intros _. right. by apply digits_chars.
Qed.

Lemma strategy_spec s :
  MatchString schedulerStrategyRegexp s = true ↔
    s = "" ∨ ToLower s = Schedulerspreadout ∨ ToLower s = SchedulerBinpack.
Proof.
  rewrite MatchString_spec. unfold schedulerStrategyRegexp.
  by rewrite lang_opt, lang_alt, !lang_literal_fold.
Qed.

(** ** Theorems *)

(** [C37] [validate] accepts exactly the configurations whose scan interval is
    not negative, whose strategy is absent, binpack or spreadout in any case,
    and whose disk groups have distinct, well-formed names. *)
Theorem validate_exact (d : Disk) :
  validate d = None ↔
    0 <= dk_DiskScanInterval d ∧
    (dk_SchedulerStrategy d = "" ∨ ToLower (dk_SchedulerStrategy d) = Schedulerspreadout ∨
     ToLower (dk_SchedulerStrategy d) = SchedulerBinpack) ∧
    Forall good_name (ds_Name <$> dk_DiskSelectors d) ∧ NoDup (ds_Name <$> dk_DiskSelectors d).
Proof.
  unfold validate. pose proof (scan_spec (dk_DiskScanInterval d)) as Hz.
  pose proof (strategy_spec (dk_SchedulerStrategy d)) as Hs.
  destruct (MatchString diskScanRegexp _); cbn [negb]; [|naive_solver].
  destruct (MatchString schedulerStrategyRegexp _); cbn [negb]; [|naive_solver].
  rewrite validate_items_spec by (by intros ??; rewrite lookup_empty).
  split; [naive_solver|]. intros (_ & _ & ? & ?). by split_and!.
Qed.

(** Every program that reads its configuration with validation starts with a
    valid one; the scheduler, which reads the same file, may not. *)
Lemma initConfig_valid read scan strategy unmarshal cfg :
  initConfig read scan strategy unmarshal = Some cfg →
  validate (cfg_diskConfig cfg) = None ∧ SchedulerConfig.initConfig read scan strategy unmarshal = Some cfg.
Proof.
  unfold initConfig, SchedulerConfig.initConfig. destruct read; [done|]. destruct (unmarshal _) as [d [e|]]; [done|].
  destruct (validate d) eqn:E; [done|]. by intros [= <-].
Qed.

(** A configuration change that does not pass validation is logged as
    ignored, but it has been decoded into the live configuration by then: the
    selectors in force are the rejected ones, and only the notification is
    left out. *)
Theorem rejected_config_is_live (unmarshal : Disk → Disk * option error) (listeners : nat)
    (cfg : Settings) (d : Disk) (e : error)
    (Hun : unmarshal (cfg_diskConfig cfg) = (d, None)) (Hbad : validate d = Some e)
    (Htest : cfg_TestAssist cfg = []) :
  on_config_change unmarshal listeners cfg =
    (mkSettings d (cfg_diskScanInterval cfg) (cfg_schedulerStrategy cfg) [], 0%nat) ∧
  DiskSelector (on_config_change unmarshal listeners cfg).1 = dk_DiskSelectors d.
Proof. unfold on_config_change, DiskSelector. by rewrite Hun, Hbad, Htest. Qed.

Definition bad_disk : Disk := mkDiskConfig [mkSelector "-bad" ["vd[b-d]+"] "LVM" ""] 300 "binpack".
Definition empty_settings : Settings := mkSettings (mkDiskConfig [] 300 "binpack") 300 "binpack" [].

Lemma rejected_config_is_live_witness :
  on_config_change (λ _, (bad_disk, None)) 1 empty_settings = (mkSettings bad_disk 300 "binpack" [], 0%nat) /\
  DiskSelector (on_config_change (λ _, (bad_disk, None)) 1 empty_settings).1 = dk_DiskSelectors bad_disk.
Proof. eapply (rejected_config_is_live _ 1 empty_settings); reflexivity. Defined.

(** ** The controller and the scheduler read the same groups *)

Lemma foldl_disk_class (l : list DiskSelectorItem) acc :
  foldl (λ acc v, if String.eqb (ToLower (ds_Policy v)) RawVolumeType then acc
                  else acc ++ [ToLower (ds_Name v)]) acc l =
  acc ++ ((λ v, ToLower (ds_Name v)) <$> List.filter (λ v, negb (String.eqb (ToLower (ds_Policy v)) RawVolumeType)) l).
Proof.
  revert acc. induction l as [|v l IH]; intros acc; simpl; [by rewrite app_nil_r|].
  rewrite IH. destruct (String.eqb _ _); simpl; [done|]. by rewrite <- app_assoc.
Qed.

(** The CSI controller and the scheduler resolve the disk group of a
    storage class to the same group, and agree on which groups are raw or
    host groups, as long as the group names in the configuration and in the
    storage class are in lower case. *)
Theorem device_group_agreement (cfg : Settings) (diskType : string)
    (Htest : cfg_TestAssist cfg = [])
    (Hnames : Forall (λ d, ToLower (ds_Name d) = ds_Name d) (dk_DiskSelectors (cfg_diskConfig cfg)))
    (Hlower : ToLower diskType = diskType) :
  GetDeviceGroup cfg diskType = SchedulerConfig.GetDeviceGroup cfg diskType ∧
  CheckRawDeviceGroup cfg diskType = SchedulerConfig.CheckRawDeviceGroup cfg diskType ∧
  CheckHostDeviceGroup cfg diskType = SchedulerConfig.CheckHostDeviceGroup cfg diskType.
Proof.
  unfold GetDeviceGroup, CheckRawDeviceGroup, CheckHostDeviceGroup, DiskSelector. rewrite Htest.
  split_and!; [|done..]. unfold SchedulerConfig.GetDeviceGroup. rewrite foldl_disk_class, Hlower. simpl.
  set (l := dk_DiskSelectors _) in *.
  assert (ContainsString ((λ v, ToLower (ds_Name v)) <$>
      List.filter (λ v, negb (String.eqb (ToLower (ds_Policy v)) RawVolumeType)) l) diskType = true ↔
    existsb (λ d, negb (String.eqb (ToLower (ds_Policy d)) "raw") && String.eqb (ds_Name d) diskType) l = true) as Hiff.
  { rewrite ContainsString_spec, list_elem_of_fmap, existsb_elem. rewrite Forall_forall in Hnames. split.
    - intros (v & -> & Hv). rewrite list_elem_of_In, filter_In, <- list_elem_of_In in Hv. destruct Hv as [Hv Hp].
      exists v. split; [done|]. change "raw" with RawVolumeType. rewrite Hp, (Hnames v Hv). by apply String.eqb_refl.
    - intros (v & Hv & [Hp Hn%String.eqb_eq]%andb_true_iff). exists v. rewrite (Hnames v Hv).
      split; [done|]. by rewrite list_elem_of_In, filter_In, <- list_elem_of_In. }
  destruct (ContainsString _ _), (existsb _ _); naive_solver.
Qed.

Definition sample_settings : Settings :=
  mkSettings (mkDiskConfig [mkSelector "carina-vg-ssd" ["loop2+"] "LVM" "";
                            mkSelector "carina-raw-hdd" ["vd[b-d]+"] "RAW" ""] 300 "") 300 "" [].

Lemma device_group_agreement_witness :
  GetDeviceGroup sample_settings "ssd" = "carina-vg-ssd" /\
  GetDeviceGroup sample_settings "ssd" = SchedulerConfig.GetDeviceGroup sample_settings "ssd" /\
  CheckRawDeviceGroup sample_settings "ssd" = SchedulerConfig.CheckRawDeviceGroup sample_settings "ssd" /\
  CheckHostDeviceGroup sample_settings "ssd" = SchedulerConfig.CheckHostDeviceGroup sample_settings "ssd".
Proof.
  split; [reflexivity|].
  apply (device_group_agreement sample_settings "ssd"); [reflexivity|repeat constructor|reflexivity].
Defined.

(** The strategy is one of the two the selection code knows. *)
Lemma SchedulerStrategy_cases cfg :
  SchedulerStrategy cfg = SchedulerBinpack ∨ SchedulerStrategy cfg = Schedulerspreadout.
Proof.
  unfold SchedulerStrategy. destruct (ContainsString _ _) eqn:Hc; [|by right].
  apply ContainsString_spec in Hc. rewrite elem_of_cons, list_elem_of_singleton in Hc. naive_solver.
Qed.

(** Without a strategy in the configuration the controller spreads
    volumes out while the scheduler packs them, so the two choose nodes by
    opposite orders; with a valid strategy they agree. *)
Theorem default_strategy_differs :
  (∀ cfg, ToLower (cfg_schedulerStrategy cfg) ∈ [SchedulerBinpack; Schedulerspreadout] →
    SchedulerStrategy cfg = SchedulerConfig.SchedulerStrategy cfg) ∧
  (∀ cfg, cfg_schedulerStrategy cfg = "" →
    SchedulerStrategy cfg = Schedulerspreadout ∧ SchedulerConfig.SchedulerStrategy cfg = SchedulerBinpack).
Proof.
  unfold SchedulerStrategy, SchedulerConfig.SchedulerStrategy. split; intros cfg Hs.
  - apply ContainsString_spec in Hs. by rewrite Hs.
  - by rewrite Hs.
Qed.
