(* ===== verification/NodeService.v ===== *)
(** * [pkg/csidriver/driver/k8s/node_service.go]: choosing a node and a disk group

    What the API server answers during one call is a parameter, the record
    [Reads]; every answer may be an error.  The order in which Go ranges over
    the capacity maps and the unstable sort are the [GoRuntime]'s. *)

From S2P Require Import Prelude GoStrings Api GoRuntime Mutx Exec Utils Config.

#[local] Open Scope string_scope.
#[local] Open Scope list_scope.
#[local] Open Scope Z_scope.

(** ** The objects read *)

(** [labels] is nil or a map; [ready] lists the conditions (type, status). *)
Record KNode := mkKNode {
  kn_Name : string;
  kn_Labels : option (gmap string string);
  kn_Conditions : list (string * string)
}.

(** A disk of the status: its name and the names of its partitions. *)
Record NsrDisk := mkNsrDisk {
  nd_DiskName : string;
  nd_Partitions : list string
}.

Record NodeStorageResource := mkNsr {
  nsr_Name : string;
  nsr_Capacity : gmap string Z;
  nsr_Allocatable : gmap string Z;
  nsr_VgGroups : list VgGroup;
  nsr_Disks : list NsrDisk
}.

(** [csi.TopologyRequirement]: preferred and requisite segments. *)
Record TopologyRequirement := mkTopology {
  tr_Preferred : list (gmap string string);
  tr_Requisite : list (gmap string string)
}.

(** The answers to [List] of nodes (by label selector), to the retried [Get]
    of a storage resource, and to the list of the logic volumes of a node. *)
Record Reads := mkReads {
  rd_nodes : gmap string string → res (list KNode);
  rd_nsr : string → res NodeStorageResource;
  rd_lvs : string → res (list LogicVolume)
}.

(** [labels.SelectorFromSet(set).Matches(labels)]. *)
Definition SelectorMatches (set labels : gmap string string) : bool :=
  forallb (λ kv, match labels !! kv.1 with Some v => String.eqb v kv.2 | None => false end)
    (map_to_list set).

Definition readyNode (node : KNode) : bool :=
  existsb (λ s, String.eqb s.1 "Ready" && String.eqb s.2 "True") (kn_Conditions node).

Definition topologyMatchNodeLabels (nodeLabels : option (gmap string string))
    (requirement : option TopologyRequirement) : bool :=
  match nodeLabels, requirement with
  | Some labels, Some req =>
      existsb (λ topo, SelectorMatches topo labels) (tr_Preferred req) ||
      existsb (λ topo, SelectorMatches topo labels) (tr_Requisite req)
  | _, _ => false
  end.

(** ** Reading *)

Section select.
Context `{GoRuntime} (cfg : Settings) (rd : Reads).

Definition getLvExclusivityDisks (nodeName : string) : res (list string) :=
  match rd_lvs rd nodeName with
  | (_, Some _) => ([], Some (ErrStatus Internal ("can not get logic volumes for nodeName " +:+ nodeName)))
  | (lvs, None) =>
      (foldl (λ acc lv, if String.eqb (mget (lv_Annotations lv) ExclusivityDisk) "true"
                        then acc ++ [ls_DeviceGroup (lv_Spec lv)] else acc) [] lvs, None)
  end.

Record groupPair := mkPair {
  gp_nodeName : string;
  gp_group : string;
  gp_allocatable : Z
}.

(** [strings.Split(group, "/")[0]]. *)
Definition group_name (group : string) : string := default "" (head (Split group "/")).

(** A disk of the group that an exclusive volume cannot have. *)
Definition existPartition (nsr : NodeStorageResource) (group : string) (exclusivityDisk : bool) : bool :=
  existsb (λ disk, Contains group (nd_DiskName disk) && exclusivityDisk &&
                   (1 <? Z.of_nat (length (nd_Partitions disk)))) (nsr_Disks nsr).

(** The body of the loop over the allocatable map in [SelectDeviceGroup]. *)
Definition device_candidate (nsr : NodeStorageResource) (lvExclusivityDisks : list string)
    (requestGb : Z) (exclusivityDisk : bool) (volumeType scDeviceGroup : string)
    (preselectNode : list groupPair) (entry : string * Z) : list groupPair :=
  let '(groupDetail, allocatable) := entry in
  if allocatable <? requestGb then preselectNode
  else if negb (HasPrefix groupDetail DeviceCapacityKeyPrefix) then preselectNode
  else
    let group := TrimPrefix groupDetail DeviceCapacityKeyPrefix in
    let isRawDevice := CheckRawDeviceGroup cfg (group_name group) in
    if String.eqb volumeType RawVolumeType && isRawDevice then
      if negb (String.eqb scDeviceGroup "") && negb (String.eqb scDeviceGroup (group_name group)) then
        preselectNode
      else if ContainsString lvExclusivityDisks group then preselectNode
      else if existPartition nsr group exclusivityDisk then preselectNode
      else preselectNode ++ [mkPair "" group allocatable]
    else if String.eqb volumeType LvmVolumeType && negb isRawDevice then
      preselectNode ++ [mkPair "" group allocatable]
    else preselectNode.

(** [sort.Slice] by allocatable and the choice of the configured strategy. *)
Definition by_allocatable (a b : groupPair) : bool := gp_allocatable a <? gp_allocatable b.

Definition strategy_pick (preselectNode : list groupPair) : groupPair + error :=
  let sorted := sort_slice by_allocatable preselectNode in
  if String.eqb (SchedulerStrategy cfg) SchedulerBinpack then
    match head sorted with Some p => inl p | None => inr ErrNodeNotFound end
  else if String.eqb (SchedulerStrategy cfg) Schedulerspreadout then
    match last sorted with Some p => inl p | None => inr ErrNodeNotFound end
  else inr (ErrString ("Unsupported scheduling policies " +:+ SchedulerStrategy cfg)).

Definition SelectDeviceGroup (requestGb : Z) (exclusivityDisk : bool)
    (nodeName volumeType scDeviceGroup : string) : res string :=
  if String.eqb volumeType LvmVolumeType && negb (String.eqb scDeviceGroup "") then (scDeviceGroup, None)
  else
    match rd_nsr rd nodeName with
    | (_, Some err) => ("", Some err)
    | (nsr, None) =>
        let lvs := if String.eqb volumeType RawVolumeType then getLvExclusivityDisks nodeName else ([], None) in
        match lvs with
        | (_, Some err) => ("", Some err)
        | (lvExclusivityDisks, None) =>
            let preselectNode :=
              foldl (device_candidate nsr lvExclusivityDisks requestGb exclusivityDisk volumeType scDeviceGroup)
                [] (map_range 20 (nsr_Allocatable nsr)) in
            match preselectNode with
            | [] => ("", Some ErrNodeNotFound)
            | [p] => (gp_group p, None)
            | _ =>
                match strategy_pick preselectNode with
                | inl p => (gp_group p, None)
                | inr e => ("", Some e)
                end
            end
        end
    end.

(** The body of the loop over the allocatable map in [SelectNode]. *)
Definition node_candidate (nodeName : string) (nsr : NodeStorageResource) (lvExclusivityDisks : list string)
    (requestGb : Z) (exclusivityDisk : bool) (volumeType scDeviceGroup : string)
    (preselectNode : list groupPair) (entry : string * Z) : list groupPair :=
  let '(groupDetail, allocatable) := entry in
  if allocatable <? requestGb then preselectNode
  else if negb (HasPrefix groupDetail DeviceCapacityKeyPrefix) then preselectNode
  else
    let group := TrimPrefix groupDetail DeviceCapacityKeyPrefix in
    if negb (String.eqb scDeviceGroup "") && negb (String.eqb scDeviceGroup (group_name group)) then
      preselectNode
    else
      let isRawDevice := CheckRawDeviceGroup cfg (group_name group) in
      if String.eqb volumeType RawVolumeType && isRawDevice then
        if ContainsString lvExclusivityDisks group then preselectNode
        else if existPartition nsr group exclusivityDisk then preselectNode
        else preselectNode ++ [mkPair nodeName group allocatable]
      else if String.eqb volumeType LvmVolumeType && negb isRawDevice then
        preselectNode ++ [mkPair nodeName group allocatable]
      else preselectNode.

(** The body of the loop over the nodes. *)
Definition node_candidates (requestGb : Z) (volumeType scDeviceGroup : string)
    (requirement : option TopologyRequirement) (exclusivityDisk : bool)
    (preselectNode : list groupPair) (node : KNode) : list groupPair :=
  if negb (readyNode node) then preselectNode
  else if negb (topologyMatchNodeLabels (kn_Labels node) requirement) then preselectNode
  else
    match rd_nsr rd (kn_Name node) with
    | (_, Some _) => preselectNode
    | (nsr, None) =>
        let lvs := if String.eqb volumeType RawVolumeType then getLvExclusivityDisks (kn_Name node)
                   else ([], None) in
        match lvs with
        | (_, Some _) => preselectNode
        | (lvExclusivityDisks, None) =>
            foldl (node_candidate (kn_Name node) nsr lvExclusivityDisks requestGb exclusivityDisk
                     volumeType scDeviceGroup)
              preselectNode (map_range 21 (nsr_Allocatable nsr))
        end
    end.

Definition SelectNode (requestGb : Z) (volumeType scDeviceGroup : string)
    (requirement : option TopologyRequirement) (exclusivityDisk : bool) : res (string * string) :=
  match rd_nodes rd ∅ with
  | (_, Some err) => (("", ""), Some err)
  | (nodeList, None) =>
      let preselectNode :=
        foldl (node_candidates requestGb volumeType scDeviceGroup requirement exclusivityDisk) [] nodeList in
      match preselectNode with
      | [] => (("", ""), Some ErrNodeNotFound)
      | [p] => ((gp_nodeName p, gp_group p), None)
      | _ =>
          match strategy_pick preselectNode with
          | inl p => ((gp_nodeName p, gp_group p), None)
          | inr e => (("", ""), Some e)
          end
      end
  end.

Definition GetCapacityByNodeName (nodeName lvDeviceGroup : string) : res Z :=
  match rd_nsr rd nodeName with
  | (_, Some err) => (0, Some err)
  | (nsr, None) =>
      match List.find (λ e, String.eqb e.1 (DeviceCapacityKeyPrefix +:+ lvDeviceGroup))
              (map_range 22 (nsr_Allocatable nsr)) with
      | Some e => (e.2, None)
      | None => (0, Some (ErrString "device group not found"))
      end
  end.

(** The body of the loop over the capacity map in [GetTotalCapacity]. *)
Definition add_capacity (nsr : NodeStorageResource) (lvExclusivityDisks : list string)
    (exclusivityDisk : bool) (volumeType scDeviceGroup : string)
    (capacity : Z) (entry : string * Z) : Z :=
  let '(groupDetail, allocatable) := entry in
  if negb (HasPrefix groupDetail DeviceCapacityKeyPrefix) then capacity
  else
    let group := TrimPrefix groupDetail DeviceCapacityKeyPrefix in
    if negb (String.eqb scDeviceGroup "") && negb (String.eqb scDeviceGroup (group_name group)) then capacity
    else
      let isRawDevice := CheckRawDeviceGroup cfg (group_name group) in
      if String.eqb volumeType RawVolumeType && isRawDevice then
        if ContainsString lvExclusivityDisks group then capacity
        else if existPartition nsr group exclusivityDisk then capacity
        else i64 (capacity + allocatable)
      else if String.eqb volumeType LvmVolumeType && negb isRawDevice then i64 (capacity + allocatable)
      else capacity.

Definition add_node_capacity (exclusivityDisk : bool) (volumeType scDeviceGroup : string)
    (capacity : Z) (node : KNode) : Z :=
  if negb (readyNode node) then capacity
  else
    match rd_nsr rd (kn_Name node) with
    | (_, Some _) => capacity
    | (nsr, None) =>
        let lvs := if String.eqb volumeType RawVolumeType then getLvExclusivityDisks (kn_Name node)
                   else ([], None) in
        match lvs with
        | (_, Some _) => capacity
        | (lvExclusivityDisks, None) =>
            foldl (add_capacity nsr lvExclusivityDisks exclusivityDisk volumeType scDeviceGroup)
              capacity (map_range 23 (nsr_Capacity nsr))
        end
    end.

Definition GetTotalCapacity (scDeviceGroup : string) (topology : gmap string string)
    (exclusivityDisk : bool) : res Z :=
  match rd_nodes rd topology with
  | (_, Some err) => (0, Some err)
  | (nodes, None) =>
      let volumeType := if CheckRawDeviceGroup cfg scDeviceGroup then RawVolumeType else LvmVolumeType in
      (foldl (add_node_capacity exclusivityDisk volumeType scDeviceGroup) 0 nodes, None)
  end.

(** The nodes that fit both volumes of a cached volume; readiness is not
    looked at. *)
Definition multi_candidates (backendDeviceGroup cacheDeviceGroup : string)
    (backendRequestGb cacheRequestGb : Z) (requirement : option TopologyRequirement)
    (preselectNode : list groupPair) (node : KNode) : list groupPair :=
  if negb (topologyMatchNodeLabels (kn_Labels node) requirement) then preselectNode
  else
    match rd_nsr rd (kn_Name node) with
    | (_, Some _) => preselectNode
    | (nsr, None) =>
        let cacheFit :=
          existsb (λ e, HasPrefix e.1 DeviceCapacityKeyPrefix && Contains e.1 cacheDeviceGroup &&
                        (cacheRequestGb <=? e.2)) (map_range 24 (nsr_Allocatable nsr)) in
        if negb cacheFit then preselectNode
        else
          foldl (λ pre e,
            if negb (HasPrefix e.1 DeviceCapacityKeyPrefix) || negb (Contains e.1 backendDeviceGroup) then pre
            else if e.2 <? backendRequestGb then pre
            else pre ++ [mkPair (kn_Name node) "" e.2])
            preselectNode (map_range 25 (nsr_Allocatable nsr))
    end.

Definition SelectMultiVolumeNode (backendDeviceGroup cacheDeviceGroup : string)
    (backendRequestGb cacheRequestGb : Z) (requirement : option TopologyRequirement) : res string :=
  match rd_nodes rd ∅ with
  | (_, Some err) => ("", Some err)
  | (nodeList, None) =>
      let preselectNode :=
        foldl (multi_candidates backendDeviceGroup cacheDeviceGroup backendRequestGb cacheRequestGb requirement)
          [] nodeList in
      match preselectNode with
      | [] => ("", Some ErrNodeNotFound)
      | _ =>
          match strategy_pick preselectNode with
          | inl p => (gp_nodeName p, None)
          | inr e => ("", Some e)
          end
      end
  end.
End select.

(** ** The choice *)

Section choice.
Context `{GoRuntimeLaws} (cfg : Settings).

Lemma foldl_collect {A B} (f : A → option B) (step : list B → A → list B) (l : list A) acc :
  (∀ acc x, step acc x = acc ++ option_list (f x)) → foldl step acc l = acc ++ omap f l.
Proof.
  intros Hs. revert acc. induction l as [|x l IH]; intros acc; simpl; [by rewrite app_nil_r|].
  rewrite IH, Hs, <- app_assoc. destruct (f x); done.
Qed.

(** The strategy returns an element of the list, the smallest for binpack and
    the largest for spreadout. *)
Definition best (p : groupPair) (l : list groupPair) : Prop :=
  p ∈ l ∧
  (SchedulerStrategy cfg = SchedulerBinpack → ∀ q, q ∈ l → gp_allocatable p <= gp_allocatable q) ∧
  (SchedulerStrategy cfg = Schedulerspreadout → ∀ q, q ∈ l → gp_allocatable q <= gp_allocatable p).

Lemma strategy_pick_best l : l ≠ [] → ∃ p, strategy_pick cfg l = inl p ∧ best p l.
Proof.
  intros Hne. unfold strategy_pick, best. set (s := sort_slice by_allocatable l).
  assert (s ≠ []) as Hs.
  { intros E. apply (f_equal length) in E. unfold s in E. rewrite length_sort_slice in E.
    by destruct l. }
  destruct (SchedulerStrategy_cases cfg) as [E|E]; rewrite E; simpl.
  - destruct (head s) as [p|] eqn:Hh; [|by destruct s].
    destruct (sorted_head_least gp_allocatable l p Hh) as [Hin Hle]. exists p. naive_solver.
  - destruct (last s) as [p|] eqn:Hl; [|by apply last_None in Hl].
    destruct (sorted_last_greatest gp_allocatable l p Hl) as [Hin Hle]. exists p. naive_solver.
Qed.

Lemma best_single p : best p [p].
Proof. split; [by left|]. split; intros _ q ->%list_elem_of_singleton; lia. Qed.

(** *** Which entries of a status are candidates *)

Context (rd : Reads).

(** What makes the group [g] with [a] GiB allocatable eligible. *)
Record Eligible (nsr : NodeStorageResource) (excl : list string) (requestGb : Z) (exclusivityDisk : bool)
    (volumeType scDeviceGroup : string) (g : string) (a : Z) : Prop := {
  el_entry : nsr_Allocatable nsr !! (DeviceCapacityKeyPrefix +:+ g) = Some a;
  el_fits : requestGb <= a;
  el_group : scDeviceGroup = "" ∨ scDeviceGroup = group_name g;
  el_kind :
    (volumeType = RawVolumeType ∧ CheckRawDeviceGroup cfg (group_name g) = true ∧ g ∉ excl ∧
     existPartition nsr g exclusivityDisk = false) ∨
    (volumeType = LvmVolumeType ∧ CheckRawDeviceGroup cfg (group_name g) = false)
}.

Definition entry_pair (nodeName : string) (nsr : NodeStorageResource) (excl : list string)
    (requestGb : Z) (exclusivityDisk : bool) (volumeType scDeviceGroup : string) (e : string * Z)
  : option groupPair :=
  match node_candidate cfg nodeName nsr excl requestGb exclusivityDisk volumeType scDeviceGroup [] e with
  | [p] => Some p
  | _ => None
  end.

Lemma node_candidate_app nodeName nsr excl r x vt sc acc e :
  node_candidate cfg nodeName nsr excl r x vt sc acc e =
    acc ++ option_list (entry_pair nodeName nsr excl r x vt sc e).
Proof.
  unfold entry_pair, node_candidate. destruct e as [gd a].
  repeat case_match; simplify_eq/=; rewrite ?app_nil_r; done.
Qed.

Lemma entry_pair_Some nodeName nsr excl r x vt sc gd a p :
  entry_pair nodeName nsr excl r x vt sc (gd, a) = Some p ↔
    ∃ g, gd = DeviceCapacityKeyPrefix +:+ g ∧ p = mkPair nodeName g a ∧ r <= a ∧
      (sc = "" ∨ sc = group_name g) ∧
      ((vt = RawVolumeType ∧ CheckRawDeviceGroup cfg (group_name g) = true ∧ g ∉ excl ∧
        existPartition nsr g x = false) ∨
       (vt = LvmVolumeType ∧ CheckRawDeviceGroup cfg (group_name g) = false)).
Proof.
  unfold entry_pair, node_candidate. destruct (Z.ltb_spec a r) as [Ha|Ha].
  { split; [done|]. intros (g & _ & _ & ? & _). lia. }
  destruct (HasPrefix gd DeviceCapacityKeyPrefix) eqn:Hp; cbn [negb]; last first.
  { split; [done|]. intros (g & -> & _). by rewrite HasPrefix_app in Hp. }
  apply prefix_spec in Hp as [g ->]. rewrite TrimPrefix_app.
  assert ((negb (String.eqb sc "") && negb (String.eqb sc (group_name g))) = false ↔
          (sc = "" ∨ sc = group_name g)) as Hsc.
  { destruct (String.eqb_spec sc ""), (String.eqb_spec sc (group_name g)); simpl; naive_solver. }
  destruct (negb (String.eqb sc "") && _) eqn:Esc.
  { split; [done|]. intros (g' & ?%sapp_inj_l & _ & _ & Hs & _). subst g'.
    apply Hsc in Hs. congruence. }
  apply proj1 in Hsc. specialize (Hsc eq_refl).
  assert (RawVolumeType ≠ LvmVolumeType) as Hdiff by done.
  assert (String.eqb RawVolumeType LvmVolumeType = false) as Hne by done.
  pose proof (ContainsString_spec excl g) as Hex.
  destruct (String.eqb_spec vt RawVolumeType) as [->|Hr]; cbn [andb negb].
  - destruct (CheckRawDeviceGroup cfg (group_name g)) eqn:Er; cbn [andb negb].
    + destruct (ContainsString excl g) eqn:Ec; [|destruct (existPartition nsr g x) eqn:Ee].
      * split; [done|]. intros (g' & ?%sapp_inj_l & _ & _ & _ & Hk). subst g'. naive_solver.
      * split; [done|]. intros (g' & ?%sapp_inj_l & _ & _ & _ & Hk). subst g'. naive_solver.
      * split.
        -- intros [= <-]. exists g. split_and!; try done. left. split_and!; try done.
           intros Hin%Hex. congruence.
        -- intros (g' & ?%sapp_inj_l & -> & _). by subst g'.
    + rewrite Hne. split; [done|]. intros (g' & ?%sapp_inj_l & _ & _ & _ & Hk). subst g'.
      destruct Hk as [(_ & ? & _)|[? _]]; congruence.
  - destruct (String.eqb_spec vt LvmVolumeType) as [->|Hl]; cbn [andb negb].
    + destruct (CheckRawDeviceGroup cfg (group_name g)) eqn:Er; cbn [andb negb].
      * split; [done|]. intros (g' & ?%sapp_inj_l & _ & _ & _ & Hk). subst g'.
        destruct Hk as [(? & _)|[_ ?]]; congruence.
      * split.
        -- intros [= <-]. exists g. auto 10.
        -- intros (g' & ?%sapp_inj_l & -> & _). by subst g'.
    + split; [done|]. intros (g' & ?%sapp_inj_l & _ & _ & _ & Hk). subst g'.
      destruct Hk as [(? & _)|[? _]]; congruence.
Qed.

(** The candidates of one status, whatever order the map is ranged in. *)
Lemma elem_of_status_candidates site nodeName nsr excl r x vt sc p :
  p ∈ omap (entry_pair nodeName nsr excl r x vt sc) (map_range site (nsr_Allocatable nsr)) ↔
    gp_nodeName p = nodeName ∧ Eligible nsr excl r x vt sc (gp_group p) (gp_allocatable p).
Proof.
  rewrite list_elem_of_omap. split.
  - intros ([gd a] & He%elem_of_map_range & Hp). apply entry_pair_Some in Hp as (g & -> & -> & ? & ? & ?).
    simpl. split; [done|]. by split.
  - destruct p as [n g a]. simpl. intros [-> []]. exists (DeviceCapacityKeyPrefix +:+ g, a).
    split; [by apply elem_of_map_range|]. apply entry_pair_Some. exists g. auto.
Qed.

(** *** Which nodes are looked at *)

Lemma readyNode_spec node : readyNode node = true ↔ ("Ready", "True") ∈ kn_Conditions node.
Proof.
  unfold readyNode. rewrite existsb_elem. split.
  - intros ([t v] & Hin & [Ht%String.eqb_eq Hv%String.eqb_eq]%andb_prop). by simplify_eq/=.
  - intros Hin. by exists ("Ready", "True").
Qed.

Lemma SelectorMatches_spec set labels : SelectorMatches set labels = true ↔ set ⊆ labels.
Proof.
  unfold SelectorMatches. rewrite forallb_forall, map_subseteq_spec. split.
  - intros Hall k v Hk. specialize (Hall (k, v)). simpl in Hall.
    destruct (labels !! k) as [w|] eqn:El.
    + f_equal. apply String.eqb_eq, Hall, list_elem_of_In, elem_of_map_to_list, Hk.
    + assert (false = true); [|done]. by apply Hall, list_elem_of_In, elem_of_map_to_list.
  - intros Hsub [k v] Hin%list_elem_of_In%elem_of_map_to_list. simpl.
    rewrite (Hsub _ _ Hin). apply String.eqb_refl.
Qed.

Lemma topology_spec nodeLabels requirement :
  topologyMatchNodeLabels nodeLabels requirement = true ↔
    ∃ labels req topo, nodeLabels = Some labels ∧ requirement = Some req ∧
      topo ∈ tr_Preferred req ++ tr_Requisite req ∧ topo ⊆ labels.
Proof.
  unfold topologyMatchNodeLabels. destruct nodeLabels as [ls|], requirement as [req|]; try naive_solver.
  rewrite orb_true_iff, !existsb_elem. setoid_rewrite SelectorMatches_spec.
  setoid_rewrite elem_of_app. naive_solver.
Qed.

(** The group [g] of the node [n], [a] GiB allocatable, can take the volume. *)
Definition Candidate (nodes : list KNode) (requestGb : Z) (volumeType scDeviceGroup : string)
    (requirement : option TopologyRequirement) (exclusivityDisk : bool) (n g : string) (a : Z) : Prop :=
  ∃ node nsr excl, node ∈ nodes ∧ kn_Name node = n ∧
    ("Ready", "True") ∈ kn_Conditions node ∧
    topologyMatchNodeLabels (kn_Labels node) requirement = true ∧
    rd_nsr rd n = (nsr, None) ∧
    (if String.eqb volumeType RawVolumeType then getLvExclusivityDisks rd n else ([], None)) = (excl, None) ∧
    Eligible nsr excl requestGb exclusivityDisk volumeType scDeviceGroup g a.

Definition node_list (requestGb : Z) (volumeType scDeviceGroup : string)
    (requirement : option TopologyRequirement) (exclusivityDisk : bool) (node : KNode) : list groupPair :=
  node_candidates cfg rd requestGb volumeType scDeviceGroup requirement exclusivityDisk [] node.

Lemma node_candidates_app r vt sc req x acc node :
  node_candidates cfg rd r vt sc req x acc node = acc ++ node_list r vt sc req x node.
Proof.
  unfold node_list, node_candidates.
  destruct (readyNode node); cbn [negb]; [|by rewrite app_nil_r].
  destruct (topologyMatchNodeLabels _ _); cbn [negb]; [|by rewrite app_nil_r].
  destruct (rd_nsr rd (kn_Name node)) as [nsr [e|]]; [by rewrite app_nil_r|].
  destruct (if String.eqb vt RawVolumeType then _ else _) as [excl [e|]]; [by rewrite app_nil_r|].
  by rewrite !(foldl_collect _ _ _ _ (node_candidate_app (kn_Name node) nsr excl r x vt sc)).
Qed.

Lemma elem_of_node_list r vt sc req x node p :
  p ∈ node_list r vt sc req x node ↔
    gp_nodeName p = kn_Name node ∧
    Candidate [node] r vt sc req x (gp_nodeName p) (gp_group p) (gp_allocatable p).
Proof.
  unfold node_list, node_candidates, Candidate. setoid_rewrite <- readyNode_spec.
  setoid_rewrite list_elem_of_singleton.
  destruct (readyNode node) eqn:Er; cbn [negb]; last first.
  { split; [by intros ?%not_elem_of_nil|]. intros [_ (? & ? & ? & -> & ? & ? & _)]. congruence. }
  destruct (topologyMatchNodeLabels _ _) eqn:Et; cbn [negb]; last first.
  { split; [by intros ?%not_elem_of_nil|]. intros [_ (? & ? & ? & -> & ? & ? & ? & _)]. congruence. }
  destruct (rd_nsr rd (kn_Name node)) as [nsr [e|]] eqn:En.
  { split; [by intros ?%not_elem_of_nil|]. intros [Hn (? & ? & ? & -> & ? & ? & ? & Hr & ?)]. congruence. }
  destruct (if String.eqb vt RawVolumeType then getLvExclusivityDisks rd (kn_Name node) else _)
    as [excl [e|]] eqn:Ex.
  { split; [by intros ?%not_elem_of_nil|]. intros [Hn (? & ? & ? & -> & ? & ? & ? & Hr & Hx & _)].
    rewrite Hn in Hx. congruence. }
  rewrite (foldl_collect _ _ _ _ (node_candidate_app (kn_Name node) nsr excl r x vt sc)); simpl.
  rewrite elem_of_status_candidates. split.
  - intros [-> Hel]. split; [done|]. exists node, nsr, excl. auto 10.
  - intros [Hn (? & ? & ? & -> & ? & ? & ? & Hr & Hx & Hel)]. split; [done|].
    rewrite Hn in Hr, Hx. congruence.
Qed.

Lemma foldl_append {A B} (f : A → list B) (step : list B → A → list B) (l : list A) acc :
  (∀ acc x, step acc x = acc ++ f x) → foldl step acc l = acc ++ (l ≫= f).
Proof.
  intros Hs. revert acc. induction l as [|x l IH]; intros acc; simpl; [by rewrite app_nil_r|].
  by rewrite IH, Hs, <- app_assoc.
Qed.

(** The preselection of [SelectNode] holds the candidates and nothing else. *)
Lemma preselect_spec nodes r vt sc req x p :
  p ∈ foldl (node_candidates cfg rd r vt sc req x) [] nodes ↔
    Candidate nodes r vt sc req x (gp_nodeName p) (gp_group p) (gp_allocatable p).
Proof.
  rewrite (foldl_append _ _ _ _ (node_candidates_app r vt sc req x)); simpl.
  rewrite list_elem_of_bind. split.
  - intros (node & Hp & Hin). apply elem_of_node_list in Hp as [Hn (? & ? & ? & Hs & ?)].
    apply list_elem_of_singleton in Hs as ->. unfold Candidate. naive_solver.
  - intros (node & nsr & excl & Hin & Hn & Hc). exists node. split; [|done].
    apply elem_of_node_list. split; [done|]. exists node, nsr, excl. split; [by left|done].
Qed.

(** The result of choosing from a preselection. *)
Lemma pick_spec {A} (f : groupPair → A) (dflt : A) (l : list groupPair) :
  match (match l with
         | [] => (dflt, Some ErrNodeNotFound)
         | [p] => (f p, None)
         | _ => match strategy_pick cfg l with
                | inl p => (f p, None)
                | inr e => (dflt, Some e)
                end
         end) with
  | (v, None) => ∃ p, v = f p ∧ best p l
  | (_, Some e) => e = ErrNodeNotFound ∧ l = []
  end.
Proof.
  destruct l as [|p [|q l]]; [done| |].
  - exists p. split; [done|]. apply best_single.
  - destruct (strategy_pick_best (p :: q :: l)) as (b & -> & Hb); [done|]. by exists b.
Qed.

(** *** [SelectNode] *)


(** What is chosen is a candidate. *)
Lemma SelectNode_candidate r vt sc req x n g :
  SelectNode cfg rd r vt sc req x = ((n, g), None) →
  ∃ nodes a, rd_nodes rd ∅ = (nodes, None) ∧ Candidate nodes r vt sc req x n g a.
Proof.
  unfold SelectNode. destruct (rd_nodes rd ∅) as [nodes [e|]]; [done|]. cbv zeta.
  set (l := foldl _ _ _). pose proof (pick_spec (λ p, (gp_nodeName p, gp_group p)) ("", "") l) as Hp.
  destruct (match l with [] => _ | _ => _ end) as [[n' g'] [e|]]; [done|]. intros [= -> ->].
  destruct Hp as (p & [= -> ->] & Hin & _). exists nodes, (gp_allocatable p). split; [done|]. by apply preselect_spec.
Qed.

(** *** [SelectDeviceGroup] *)

Lemma device_candidate_node nsr excl r x vt sc acc e :
  (vt = LvmVolumeType → sc = "") →
  device_candidate cfg nsr excl r x vt sc acc e = node_candidate cfg "" nsr excl r x vt sc acc e.
Proof.
  intros Hlvm. unfold device_candidate, node_candidate. destruct e as [gd a].
  destruct (a <? r); [done|]. destruct (negb (HasPrefix gd _)); [done|].
  set (g := TrimPrefix gd _).
  destruct (String.eqb_spec vt RawVolumeType) as [->|Hr]; cbn [andb].
  - destruct (CheckRawDeviceGroup cfg (group_name g)); cbn [andb negb]; [done|].
    change (String.eqb RawVolumeType LvmVolumeType) with false. cbn [andb]. by destruct (_ && _).
  - destruct (String.eqb_spec vt LvmVolumeType) as [->|Hl]; cbn [andb]; [|by destruct (_ && _)].
    rewrite (Hlvm eq_refl). done.
Qed.

(** [SelectDeviceGroup] returns the disk group the storage class names
    for an LVM volume; otherwise it returns an eligible group of the node, the
    smallest under binpack and the largest under spreadout, and it reports
    "node not found" exactly when the node has no eligible group. *)
Theorem SelectDeviceGroup_correct (nsr : NodeStorageResource) (excl : list string) (requestGb : Z)
    (exclusivityDisk : bool) (nodeName volumeType scDeviceGroup : string)
    (Hnsr : rd_nsr rd nodeName = (nsr, None))
    (Hexcl : (if String.eqb volumeType RawVolumeType then getLvExclusivityDisks rd nodeName
              else ([], None)) = (excl, None)) :
  let E := Eligible nsr excl requestGb exclusivityDisk volumeType scDeviceGroup in
  match SelectDeviceGroup cfg rd requestGb exclusivityDisk nodeName volumeType scDeviceGroup with
  | (g, None) =>
      (volumeType = LvmVolumeType ∧ scDeviceGroup ≠ "" ∧ g = scDeviceGroup) ∨
      ∃ a, E g a ∧
        (SchedulerStrategy cfg = SchedulerBinpack → ∀ g' a', E g' a' → a <= a') ∧
        (SchedulerStrategy cfg = Schedulerspreadout → ∀ g' a', E g' a' → a' <= a)
  | (_, Some e) => e = ErrNodeNotFound ∧ ∀ g a, ¬ E g a
  end.
Proof.
  intros E. unfold SelectDeviceGroup.
  destruct (String.eqb volumeType LvmVolumeType && negb (String.eqb scDeviceGroup "")) eqn:Ee.
  { apply andb_prop in Ee as [->%String.eqb_eq Hsc%negb_true_iff%String.eqb_neq]. by left. }
  rewrite Hnsr. cbv zeta. rewrite Hexcl.
  rewrite (foldl_collect (entry_pair "" nsr excl requestGb exclusivityDisk volumeType scDeviceGroup)).
  2:{ intros acc e. rewrite device_candidate_node; [apply node_candidate_app|]. intros ->.
      rewrite String.eqb_refl in Ee. by apply negb_false_iff, String.eqb_eq in Ee. }
  cbn [app]. set (l := omap _ _).
  assert (∀ p, p ∈ l ↔ gp_nodeName p = "" ∧ E (gp_group p) (gp_allocatable p)) as Hl
    by (intros p; apply elem_of_status_candidates).
  pose proof (pick_spec gp_group "" l) as Hp.
  destruct (match l with [] => _ | _ => _ end) as [g [e|]].
  - destruct Hp as [-> Hnil]. split; [done|]. intros g' a' Hc.
    apply (not_elem_of_nil (mkPair "" g' a')). rewrite <- Hnil. by apply Hl.
  - destruct Hp as (p & -> & Hin & Hb & Hs). right. exists (gp_allocatable p).
    split; [by apply Hl|]. split.
    + intros Eb g' a' Hc. apply (Hb Eb (mkPair "" g' a')). by apply Hl.
    + intros Es g' a' Hc. apply (Hs Es (mkPair "" g' a')). by apply Hl.
Qed.

(** *** [GetTotalCapacity] *)

(** What one node adds: the sizes of its groups of the right kind, each
    counted once, whatever fits. *)
Definition status_capacity (name : string) (nsr : NodeStorageResource) (excl : list string)
    (exclusivityDisk : bool) (volumeType scDeviceGroup : string) (l : list (string * Z)) : Z :=
  sumZ (omap (λ e, gp_allocatable <$>
                entry_pair name nsr excl e.2 exclusivityDisk volumeType scDeviceGroup e) l).

Definition node_capacity (exclusivityDisk : bool) (volumeType scDeviceGroup : string) (node : KNode) : Z :=
  if negb (readyNode node) then 0
  else
    match rd_nsr rd (kn_Name node),
          (if String.eqb volumeType RawVolumeType then getLvExclusivityDisks rd (kn_Name node) else ([], None)) with
    | (nsr, None), (excl, None) =>
        status_capacity (kn_Name node) nsr excl exclusivityDisk volumeType scDeviceGroup
          (map_to_list (nsr_Capacity nsr))
    | _, _ => 0
    end.

Lemma add_capacity_entry name nsr excl x vt sc cap e :
  add_capacity cfg nsr excl x vt sc cap e =
    match entry_pair name nsr excl e.2 x vt sc e with
    | Some p => i64 (cap + gp_allocatable p)
    | None => cap
    end.
Proof.
  unfold entry_pair, node_candidate, add_capacity. destruct e as [gd a]. cbn [snd].
  rewrite Z.ltb_irrefl. by repeat case_match; simplify_eq/=.
Qed.

Lemma foldl_add_capacity name nsr excl x vt sc z l :
  foldl (add_capacity cfg nsr excl x vt sc) (i64 z) l =
    i64 (z + status_capacity name nsr excl x vt sc l).
Proof.
  unfold status_capacity. revert z. induction l as [|e l IH]; intros z; cbn [foldl omap list_omap].
  { f_equal. simpl. lia. }
  rewrite (add_capacity_entry name).
  destruct (entry_pair name nsr excl e.2 x vt sc e) as [p|]; cbn [fmap option_fmap option_map].
  - rewrite i64_add_l, IH. f_equal. unfold sumZ. simpl. lia.
  - apply IH.
Qed.

Lemma add_node_capacity_spec x vt sc z node :
  add_node_capacity cfg rd x vt sc (i64 z) node = i64 (z + node_capacity x vt sc node).
Proof.
  unfold add_node_capacity, node_capacity.
  destruct (readyNode node); cbn [negb]; [|by rewrite Z.add_0_r].
  destruct (rd_nsr rd (kn_Name node)) as [nsr [e|]]; [by rewrite Z.add_0_r|].
  destruct (if String.eqb vt RawVolumeType then _ else _) as [excl [e|]]; [by rewrite Z.add_0_r|].
  rewrite (foldl_add_capacity (kn_Name node)). do 2 f_equal. unfold status_capacity.
  by rewrite map_range_perm.
Qed.

(** [GetTotalCapacity] is the sum, modulo the width of [int64], over the
    ready nodes of the topology of the sizes of their groups of the requested
    kind, each group counted once; a node whose status cannot be read adds
    nothing, and the result does not depend on the order the maps are
    visited in. *)
Theorem GetTotalCapacity_sum (nodes : list KNode) (scDeviceGroup : string) (topology : gmap string string)
    (exclusivityDisk : bool) (Hread : rd_nodes rd topology = (nodes, None)) :
  GetTotalCapacity cfg rd scDeviceGroup topology exclusivityDisk =
    (i64 (sumZ (node_capacity exclusivityDisk
                  (if CheckRawDeviceGroup cfg scDeviceGroup then RawVolumeType else LvmVolumeType)
                  scDeviceGroup <$> nodes)), None).
Proof.
  unfold GetTotalCapacity. rewrite Hread. cbv zeta. f_equal.
  set (vt := if CheckRawDeviceGroup cfg scDeviceGroup then _ else _). clearbody vt.
  change 0 with (i64 0) at 1.
  assert (∀ z l, foldl (add_node_capacity cfg rd exclusivityDisk vt scDeviceGroup) (i64 z) l =
    i64 (z + sumZ (node_capacity exclusivityDisk vt scDeviceGroup <$> l))) as Hgen; [|apply Hgen].
  intros z l. revert z. induction l as [|n l IH]; intros z; cbn [foldl fmap list_fmap sumZ foldr].
  - f_equal. lia.
  - rewrite add_node_capacity_spec, IH. f_equal. unfold sumZ. simpl. lia.
Qed.

(** *** [SelectMultiVolumeNode] *)

(** The node [n] has a backend group of [a] GiB and a cache group that fit. *)
Definition MultiCandidate (nodes : list KNode) (backend cache : string) (backendGb cacheGb : Z)
    (requirement : option TopologyRequirement) (n : string) (a : Z) : Prop :=
  ∃ node nsr, node ∈ nodes ∧ kn_Name node = n ∧
    topologyMatchNodeLabels (kn_Labels node) requirement = true ∧ rd_nsr rd n = (nsr, None) ∧
    (∃ g b, nsr_Allocatable nsr !! (DeviceCapacityKeyPrefix +:+ g) = Some b ∧
            Contains (DeviceCapacityKeyPrefix +:+ g) cache = true ∧ cacheGb <= b) ∧
    (∃ g, nsr_Allocatable nsr !! (DeviceCapacityKeyPrefix +:+ g) = Some a ∧
            Contains (DeviceCapacityKeyPrefix +:+ g) backend = true ∧ backendGb <= a).

Lemma cache_fit_spec site nsr cache cacheGb :
  existsb (λ e, HasPrefix e.1 DeviceCapacityKeyPrefix && Contains e.1 cache && (cacheGb <=? e.2))
    (map_range site (nsr_Allocatable nsr)) = true ↔
  ∃ g b, nsr_Allocatable nsr !! (DeviceCapacityKeyPrefix +:+ g) = Some b ∧
         Contains (DeviceCapacityKeyPrefix +:+ g) cache = true ∧ cacheGb <= b.
Proof.
  rewrite existsb_elem. split.
  - intros ([k b] & Hin%elem_of_map_range & [[Hp Hc]%andb_prop Hle%Z.leb_le]%andb_prop).
    apply prefix_spec in Hp as [g Hg]. cbn [fst snd] in *. subst k. by exists g, b.
  - intros (g & b & Hin & Hc & Hle). exists (DeviceCapacityKeyPrefix +:+ g, b).
    split; [by apply elem_of_map_range|]. cbn [fst snd]. rewrite HasPrefix_app, Hc. cbn [andb]. by apply Z.leb_le.
Qed.

Definition backend_pair (name backend : string) (backendGb : Z) (e : string * Z) : option groupPair :=
  if negb (HasPrefix e.1 DeviceCapacityKeyPrefix) || negb (Contains e.1 backend) then None
  else if e.2 <? backendGb then None
  else Some (mkPair name "" e.2).

Lemma multi_candidates_app backend cache bGb cGb req acc node :
  multi_candidates rd backend cache bGb cGb req acc node =
    acc ++ multi_candidates rd backend cache bGb cGb req [] node.
Proof.
  unfold multi_candidates. destruct (negb (topologyMatchNodeLabels _ _)); [by rewrite app_nil_r|].
  destruct (rd_nsr rd (kn_Name node)) as [nsr [e|]]; [by rewrite app_nil_r|].
  cbv zeta. destruct (negb (existsb _ _)); [by rewrite app_nil_r|].
  rewrite !(foldl_collect (backend_pair (kn_Name node) backend bGb)); [done|..];
    intros acc' e; unfold backend_pair; repeat case_match; simpl; by rewrite ?app_nil_r.
Qed.

Lemma elem_of_multi_candidates backend cache bGb cGb req node p :
  p ∈ multi_candidates rd backend cache bGb cGb req [] node ↔
    gp_group p = "" ∧ gp_nodeName p = kn_Name node ∧
    MultiCandidate [node] backend cache bGb cGb req (gp_nodeName p) (gp_allocatable p).
Proof.
  unfold multi_candidates, MultiCandidate. setoid_rewrite list_elem_of_singleton.
  destruct (topologyMatchNodeLabels _ _) eqn:Et; cbn [negb]; last first.
  { split; [by intros ?%not_elem_of_nil|]. intros (_ & _ & ? & ? & -> & _ & ? & _). congruence. }
  destruct (rd_nsr rd (kn_Name node)) as [nsr [e|]] eqn:En.
  { split; [by intros ?%not_elem_of_nil|]. intros (_ & Hn & ? & ? & -> & _ & _ & ? & _). congruence. }
  cbv zeta. destruct (existsb _ _) eqn:Ec; cbn [negb]; last first.
  { split; [by intros ?%not_elem_of_nil|]. intros (_ & Hn & ? & ? & -> & _ & _ & Hr & Hfit & _).
    rewrite Hn, En in Hr. simplify_eq. apply (cache_fit_spec 24) in Hfit. congruence. }
  apply cache_fit_spec in Ec. rewrite (foldl_collect (backend_pair (kn_Name node) backend bGb)); last first.
  { intros acc e. unfold backend_pair. repeat case_match; simpl; by rewrite ?app_nil_r. }
  cbn [app]. rewrite list_elem_of_omap. unfold backend_pair. split.
  - intros ([k a] & Hin%elem_of_map_range & Hp). cbn [fst snd] in Hp.
    destruct (HasPrefix k _) eqn:Hk; cbn [negb orb] in Hp; [|done].
    destruct (Contains k backend) eqn:Hb; cbn [negb] in Hp; [|done].
    destruct (Z.ltb_spec a bGb) as [|Ha]; [done|]. injection Hp as <-.
    apply prefix_spec in Hk as [g ->]. cbn [gp_group gp_nodeName gp_allocatable].
    split; [done|]. split; [done|]. exists node, nsr. eauto 10.
  - destruct p as [n g a]. cbn [gp_group gp_nodeName gp_allocatable].
    intros (-> & -> & ? & ? & -> & _ & _ & Hr & _ & g' & Hin & Hb & Ha). rewrite En in Hr. injection Hr as <-.
    exists (DeviceCapacityKeyPrefix +:+ g', a). split; [by apply elem_of_map_range|].
    cbn [fst snd]. rewrite HasPrefix_app, Hb. cbn [negb orb]. destruct (Z.ltb_spec a bGb); [lia|done].
Qed.

(** [SelectMultiVolumeNode] answers with a node of the topology that has
    room for both the backend and the cache volume, with the smallest (binpack)
    or largest (spreadout) backend group among them, and reports "node not
    found" exactly when no node has room for both.  Readiness of the node is
    not part of the condition. *)
Theorem SelectMultiVolumeNode_correct (nodes : list KNode) (backend cache : string) (backendGb cacheGb : Z)
    (requirement : option TopologyRequirement) (Hread : rd_nodes rd ∅ = (nodes, None)) :
  let C := MultiCandidate nodes backend cache backendGb cacheGb requirement in
  match SelectMultiVolumeNode cfg rd backend cache backendGb cacheGb requirement with
  | (n, None) =>
      ∃ a, C n a ∧
        (SchedulerStrategy cfg = SchedulerBinpack → ∀ n' a', C n' a' → a <= a') ∧
        (SchedulerStrategy cfg = Schedulerspreadout → ∀ n' a', C n' a' → a' <= a)
  | (_, Some e) => e = ErrNodeNotFound ∧ ∀ n a, ¬ C n a
  end.
Proof.
  intros C. unfold SelectMultiVolumeNode. rewrite Hread. cbv zeta.
  rewrite (foldl_append _ _ _ _ (multi_candidates_app backend cache backendGb cacheGb requirement)); cbn [app].
  set (l := nodes ≫= _).
  assert (∀ p, p ∈ l ↔ gp_group p = "" ∧ C (gp_nodeName p) (gp_allocatable p)) as Hl.
  { intros p. unfold l. rewrite list_elem_of_bind. setoid_rewrite elem_of_multi_candidates. split.
    - intros (node & (Hg & _ & n & nsr & ->%list_elem_of_singleton & Hc) & Hin). split; [done|].
      by exists node, nsr.
    - intros (Hg & node & nsr & Hin & Hn & Hc). exists node. split; [|done]. split; [done|].
      split; [done|]. exists node, nsr. split; [by left|done]. }
  clearbody l. destruct l as [|p l].
  - split; [done|]. intros n a Hc. apply (not_elem_of_nil (mkPair n "" a)). by apply Hl.
  - destruct (strategy_pick_best (p :: l)) as (b & -> & Hin & Hb & Hs); [done|].
    exists (gp_allocatable b). split; [by apply Hl|]. split.
    + intros E n' a' Hc. apply (Hb E (mkPair n' "" a')). by apply Hl.
    + intros E n' a' Hc. apply (Hs E (mkPair n' "" a')). by apply Hl.
Qed.
End choice.

(** ** A cluster of three nodes *)

Definition sample_node (name : string) : KNode :=
  mkKNode name (Some {["zone" := "a"]}) [("Ready", if String.eqb name "n3" then "False" else "True")].

Definition sample_nsr (name : string) : NodeStorageResource :=
  mkNsr name
    (list_to_map [(DeviceCapacityKeyPrefix +:+ "carina-vg-ssd", 100); (DeviceCapacityKeyPrefix +:+ "carina-raw-hdd/vdb", 40)])
    (list_to_map [(DeviceCapacityKeyPrefix +:+ "carina-vg-ssd", if String.eqb name "n1" then 20 else if String.eqb name "n2" then 50 else 80);
                  (DeviceCapacityKeyPrefix +:+ "carina-raw-hdd/vdb", 40)])
    [] [mkNsrDisk "vdb" ["carina.io/p1"]].

Definition sample_reads : Reads :=
  mkReads (λ _, (sample_node <$> ["n1"; "n2"; "n3"], None)) (λ n, (sample_nsr n, None)) (λ _, ([], None)).

Definition sample_topology : option TopologyRequirement := Some (mkTopology [] [{["zone" := "a"]}]).


Lemma SelectDeviceGroup_correct_witness :
  SelectDeviceGroup sample_settings sample_reads 10 true "n1" RawVolumeType "" = ("carina-raw-hdd/vdb", None) ∧
  ∃ a, Eligible sample_settings (sample_nsr "n1") [] 10 true RawVolumeType "" "carina-raw-hdd/vdb" a.
Proof.
  assert (SelectDeviceGroup sample_settings sample_reads 10 true "n1" RawVolumeType "" =
    ("carina-raw-hdd/vdb", None)) as E by (vm_compute; reflexivity).
  split; [exact E|].
  pose proof (SelectDeviceGroup_correct sample_settings sample_reads (sample_nsr "n1") [] 10 true "n1"
    RawVolumeType "" eq_refl eq_refl) as Hc.
  cbv zeta in Hc. rewrite E in Hc. destruct Hc as [(Hv & _)|(a & Ha & _)]; [discriminate Hv|by exists a].
Defined.

Lemma GetTotalCapacity_sum_witness :
  GetTotalCapacity sample_settings sample_reads "carina-vg-ssd" ∅ false = (200, None).
Proof.
  rewrite (GetTotalCapacity_sum sample_settings sample_reads (sample_node <$> ["n1"; "n2"; "n3"])) by reflexivity.
  vm_compute. reflexivity.
Defined.

Lemma SelectMultiVolumeNode_correct_witness :
  SelectMultiVolumeNode sample_settings sample_reads "carina-vg-ssd" "carina-raw-hdd" 10 10 sample_topology =
    ("n3", None) ∧
  ∃ a, MultiCandidate sample_reads (sample_node <$> ["n1"; "n2"; "n3"]) "carina-vg-ssd" "carina-raw-hdd" 10 10
         sample_topology "n3" a.
Proof.
  assert (SelectMultiVolumeNode sample_settings sample_reads "carina-vg-ssd" "carina-raw-hdd" 10 10
    sample_topology = ("n3", None)) as E by (vm_compute; reflexivity).
  split; [exact E|].
  pose proof (SelectMultiVolumeNode_correct sample_settings sample_reads (sample_node <$> ["n1"; "n2"; "n3"])
    "carina-vg-ssd" "carina-raw-hdd" 10 10 sample_topology eq_refl) as Hc.
  cbv zeta in Hc. rewrite E in Hc. destruct Hc as (a & Ha & _). by exists a.
Defined.
