(* ===== verification/Scheduler.v ===== *)
(** * [scheduler/schedulerplugin/localstorage]: the scheduler plugin

    [storage-plugins.go] and [k8s.go].  What the listers and the API server
    answer is the record [Listers]; the conversions of unstructured objects are
    part of the answers.  Scores are IEEE double precision numbers. *)

From S2P Require Import Prelude GoFloat GoStrings Api GoRuntime Mutx Exec Utils Config NodeService.

#[local] Open Scope string_scope.
#[local] Open Scope list_scope.
#[local] Open Scope Z_scope.

(** ** Objects *)

Record PersistentVolumeClaim := mkPvc {
  pvc_StorageClassName : option string;
  pvc_Bound : bool;
  pvc_VolumeName : string;
  pvc_Storage : Z
}.

Record StorageClass := mkSc {
  sc_Name : string;
  sc_Provisioner : string;
  sc_Parameters : gmap string string
}.

(** The attributes of the CSI source of a volume, if it has one. *)
Record PersistentVolume := mkPersistentVolume {
  pv_CSI : option (gmap string string)
}.

(** The claim a volume of a pod refers to, if any. *)
Record Pod := mkPod {
  pod_Name : string;
  pod_Namespace : string;
  pod_Claims : list (option string)
}.

(** The cache of logic volumes holds objects whose conversion may fail. *)
Record Listers := mkListers {
  li_pvc : string → string → res PersistentVolumeClaim;
  li_sc : string → res StorageClass;
  li_pv : string → res PersistentVolume;
  li_lvs : res (list (res LogicVolume));
  li_api_lvs : res (list LogicVolume);
  li_nsr : string → res (res NodeStorageResource);
  li_api_nsr : string → res NodeStorageResource
}.

Record pvcRequest := mkRequest {
  rq_exclusive : bool;
  rq_request : Z
}.

Inductive Status :=
| Success
| StatusError (msg : string)
| UnschedulableAndUnresolvable (msg : string).

(** ** [k8s.go] *)

Definition getNodeStorageResource (li : Listers) (nodeName : string) : res NodeStorageResource :=
  match li_nsr li nodeName with
  | (_, Some _) => li_api_nsr li nodeName
  | (converted, None) => converted
  end.

(** The cached volumes, up to the first that cannot be converted. *)
Fixpoint convert_all (l : list (res LogicVolume)) : res (list LogicVolume) :=
  match l with
  | [] => ([], None)
  | (_, Some e) :: _ => ([], Some e)
  | (lv, None) :: l' =>
      match convert_all l' with
      | (_, Some e) => ([], Some e)
      | (lvs, None) => (lv :: lvs, None)
      end
  end.

Definition getLvExclusivityDisks (li : Listers) (nodeName : string) : res (list string) :=
  let lvs := match li_lvs li with
             | (_, Some _) => li_api_lvs li
             | (objs, None) => convert_all objs
             end in
  match lvs with
  | (_, Some e) => ([], Some e)
  | (lvs, None) =>
      (foldl (λ acc lv,
         if String.eqb (ls_NodeName (lv_Spec lv)) nodeName && String.eqb (mget (lv_Annotations lv) ExclusivityDisk) "true"
         then acc ++ [ls_DeviceGroup (lv_Spec lv)] else acc) [] lvs, None)
  end.

(** ** [storage-plugins.go] *)

(** Bytes to GiB, rounded up. *)
Definition request_gb (bytes : Z) : Z := i64 (Z.shiftr (i64 (bytes - 1)) 30 + 1).

Section plugin.
Context `{GoRuntime} (cfg : Settings).

(** The first index from [i] on whose value is large enough. *)
Fixpoint first_fit (requestGb : Z) (i : nat) (l : list Z) : option nat :=
  match l with
  | [] => None
  | a :: l' => if requestGb <=? a then Some i else first_fit requestGb (S i) l'
  end.

(** The index, and the array after the call, which sorts it in place. *)
Definition minimumValueMinus (array : list Z) (pvcR : pvcRequest) : Z * list Z :=
  let array := sort_slice (λ x y, x <? y) array in
  let requestGb := request_gb (rq_request pvcR) in
  match first_fit requestGb O array with
  | None => (-1, array)
  | Some index =>
      let a := default 0 (array !! index) in
      (Z.of_nat index, <[index := if rq_exclusive pvcR then 0 else i64 (a - requestGb)]> array)
  end.

Abbreviation requests := (gmap string (list pvcRequest)).

(** The map of requests, the node of the bound volumes, and whether a raw
    group is used; an error comes with what was collected. *)
Definition pvc_result : Type := (requests * string * bool) * option error.

(** One volume of the pod; [exclusive] stays set from one volume to the next. *)
Inductive vol_step :=
| VolNext (m : requests) (nodeName : string) (useRaw exclusive : bool)
| VolStop (e : error) (m : requests) (nodeName : string) (useRaw : bool)
| VolPanic.

Definition bad_ratio : error := ErrString "carina.storage.io/cache-disk-ratio should be in 1-100".

(** A claim that is not bound yet. *)
Definition unbound_claim (sc : StorageClass) (pvc : PersistentVolumeClaim)
    (m : requests) (nodeName : string) (useRaw exclusive : bool) : vol_step :=
  let deviceGroup := mget (sc_Parameters sc) DeviceDiskKey in
  if SchedulerConfig.CheckHostDeviceGroup cfg deviceGroup then VolNext m nodeName useRaw exclusive
  else
  let useRaw := useRaw || SchedulerConfig.CheckRawDeviceGroup cfg deviceGroup in
  let deviceGroup := if String.eqb deviceGroup "" then mget (sc_Parameters sc) VolumeBackendDiskType else deviceGroup in
  let cacheGroup := mget (sc_Parameters sc) VolumeCacheDiskType in
  let cached :=
    if String.eqb cacheGroup "" then inl (cacheGroup, m)
    else
      let cacheGroup := SchedulerConfig.GetDeviceGroup cfg deviceGroup in
      match ParseInt64 (mget (sc_Parameters sc) VolumeCacheDiskRatio) with
      | (_, Some _) => inr bad_ratio
      | (ratio, None) =>
          if (ratio <? 1) || (100 <=? ratio) then inr bad_ratio
          else
            let cacheRequestBytes := Z.quot (i64 (pvc_Storage pvc * ratio)) 100 in
            inl (cacheGroup,
                 <[cacheGroup := default [] (m !! cacheGroup) ++ [mkRequest false cacheRequestBytes]]> m)
      end in
  match cached with
  | inr e => VolStop e m nodeName useRaw
  | inl (cacheGroup, m) =>
      if String.eqb deviceGroup "" then
        VolStop (ErrString ("not set deviceGroup in storageClass " +:+ sc_Name sc)) m nodeName useRaw
      else
        let deviceGroup := SchedulerConfig.GetDeviceGroup cfg deviceGroup in
        let exclusive := exclusive || String.eqb (mget (sc_Parameters sc) ExclusivityDisk) "true" in
        VolNext (<[deviceGroup := default [] (m !! cacheGroup) ++ [mkRequest exclusive (pvc_Storage pvc)]]> m)
          nodeName useRaw exclusive
  end.

Definition pod_volume (li : Listers) (pod : Pod) (claim : option string)
    (m : requests) (nodeName : string) (useRaw exclusive : bool) : vol_step :=
  match claim with
  | None => VolNext m nodeName useRaw exclusive
  | Some pvcName =>
  match li_pvc li (pod_Namespace pod) pvcName with
  | (_, Some e) => VolStop e m nodeName useRaw
  | (pvc, None) =>
  match pvc_StorageClassName pvc with
  | None => VolNext m nodeName useRaw exclusive
  | Some class =>
  match li_sc li class with
  | (_, Some e) => VolStop e m nodeName useRaw
  | (sc, None) =>
  if negb (String.eqb (sc_Provisioner sc) CSIPluginName) then VolNext m nodeName useRaw exclusive
  else if pvc_Bound pvc then
    match li_pv li (pvc_VolumeName pvc) with
    | (_, Some e) => VolStop e m nodeName useRaw
    | (pv, None) =>
        match pv_CSI pv with
        | None => VolPanic
        | Some attributes =>
            let node := mget attributes VolumeDeviceNode in
            if String.eqb nodeName "" then VolNext m node useRaw exclusive
            else if negb (String.eqb nodeName node) then VolStop (ErrString "pvc node clash") m nodeName useRaw
            else VolNext m nodeName useRaw exclusive
        end
    end
  else unbound_claim sc pvc m nodeName useRaw exclusive
  end end end end.

Fixpoint pod_volumes (li : Listers) (pod : Pod) (l : list (option string))
    (m : requests) (nodeName : string) (useRaw exclusive : bool) : outcome pvc_result :=
  match l with
  | [] => Done ((m, nodeName, useRaw), None)
  | claim :: l' =>
      match pod_volume li pod claim m nodeName useRaw exclusive with
      | VolNext m nodeName useRaw exclusive => pod_volumes li pod l' m nodeName useRaw exclusive
      | VolStop e m nodeName useRaw => Done ((m, nodeName, useRaw), Some e)
      | VolPanic => Panic nil_deref
      end
  end.

Definition getPvcRequestMap (li : Listers) (pod : Pod) : outcome pvc_result :=
  pod_volumes li pod (pod_Claims pod) ∅ "" false false.

Definition getAllocatableMap (li : Listers) (useRaw : bool) (nodeName : string) : res (gmap string Z) :=
  let lvs := if useRaw then getLvExclusivityDisks li nodeName else ([], None) in
  match lvs with
  | (_, Some e) => (∅, Some (ErrString ("failed to obtain node lvs, " +:+ Error e)))
  | (lvExclusivityDisks, None) =>
  match getNodeStorageResource li nodeName with
  | (_, Some e) => (∅, Some (ErrString ("Failed to obtain node storages, " +:+ Error e)))
  | (nsr, None) =>
      let allocatableMap :=
        foldl (λ acc kv,
          if negb (HasPrefix kv.1 DeviceCapacityKeyPrefix) then acc
          else
            let lvGroup := TrimPrefix kv.1 DeviceCapacityKeyPrefix in
            if SchedulerConfig.CheckRawDeviceGroup cfg (group_name lvGroup) && ContainsString lvExclusivityDisks lvGroup
            then acc
            else <[lvGroup := kv.2]> acc) ∅ (map_range 50 (nsr_Allocatable nsr)) in
      if decide (allocatableMap = ∅) then (∅, Some (ErrString "can't get device allocatableMap"))
      else (allocatableMap, None)
  end end.

(** *** [Filter] *)

(** The requests of a raw group against the free spaces. *)
Fixpoint place_all (array : list Z) (l : list pvcRequest) : bool :=
  match l with
  | [] => true
  | r :: l' =>
      let '(index, array) := minimumValueMinus array r in
      if index <? 0 then false else place_all array l'
  end.

Definition total_bytes (l : list pvcRequest) : Z := foldl (λ acc r, i64 (acc + rq_request r)) 0 l.

(** The disks whose name contains the group's. *)
Definition matching_disks (allocatableMap : gmap string Z) (scDeviceGroup : string) (site : nat) : list Z :=
  (List.filter (λ kv, Contains kv.1 scDeviceGroup) (map_range site allocatableMap)).*2.

Definition group_fits (allocatableMap : gmap string Z) (scDeviceGroup : string) (pvcRequests : list pvcRequest) : bool :=
  let pvcRequests := sort_slice (λ x y, rq_request y <? rq_request x) pvcRequests in
  if SchedulerConfig.CheckRawDeviceGroup cfg scDeviceGroup then
    place_all (matching_disks allocatableMap scDeviceGroup 52) pvcRequests
  else
    negb (default 0 (allocatableMap !! scDeviceGroup) <? request_gb (total_bytes pvcRequests)).

Definition Filter (li : Listers) (pod : Pod) (node : string) : outcome Status :=
  r ← getPvcRequestMap li pod;
  match r with
  | (_, Some e) => Done (StatusError (Error e))
  | ((pvcRequestMap, nodeName, useRaw), None) =>
      if negb (String.eqb nodeName "") && negb (String.eqb nodeName node) then
        Done (UnschedulableAndUnresolvable "pv node mismatch")
      else if decide (pvcRequestMap = ∅) then Done Success
      else
        match getAllocatableMap li useRaw node with
        | (_, Some e) => Done (UnschedulableAndUnresolvable (Error e))
        | (allocatableMap, None) =>
            if forallb (λ kv, group_fits allocatableMap kv.1 kv.2) (map_range 51 pvcRequestMap) then Done Success
            else Done (UnschedulableAndUnresolvable "node storage resource insufficient")
        end
  end.

(** *** [Score] *)

Definition MaxScore : Z := 10.

(** What one group adds to the score. *)
Definition group_score (allocatableMap : gmap string Z) (scoref : float64) (kv : string * list pvcRequest) : float64 :=
  let requestTotalGb := request_gb (total_bytes kv.2) in
  let allocatableTotal :=
    if SchedulerConfig.CheckRawDeviceGroup cfg kv.1
    then foldl (λ acc a, i64 (acc + a)) 0 (matching_disks allocatableMap kv.1 54)
    else default 0 (allocatableMap !! kv.1) in
  let ratio := f_div (float_of_int requestTotalGb) (float_of_int allocatableTotal) in
  let strategy := SchedulerConfig.SchedulerStrategy cfg in
  let scoref := if String.eqb strategy Schedulerspreadout then f_add scoref (f_sub (float_of_int 1) ratio) else scoref in
  if String.eqb strategy SchedulerBinpack then f_add scoref ratio else scoref.

(** [oob] is the result of converting a number that is no [int64]. *)
Definition Score (oob : float64 → Z) (li : Listers) (pod : Pod) (nodeName : string) : outcome (Z * Status) :=
  r ← getPvcRequestMap li pod;
  match r with
  | (_, Some e) => Done (0, UnschedulableAndUnresolvable (Error e))
  | ((pvcRequestMap, node, useRaw), None) =>
      if String.eqb node nodeName then Done (MaxScore, Success)
      else if decide (pvcRequestMap = ∅) then Done (5, Success)
      else
        match getAllocatableMap li useRaw nodeName with
        | (_, Some e) => Done (0, UnschedulableAndUnresolvable (Error e))
        | (allocatableMap, None) =>
            let groups := map_range 53 pvcRequestMap in
            let scoref := foldl (group_score allocatableMap) (S754_zero false) groups in
            let x := f_mul (f_div scoref (float_of_int (Z.of_nat (length groups)))) (float_of_int MaxScore) in
            Done (default (oob x) (int_of_float x), Success)
        end
  end.
End plugin.
