(* ===== verification/SchedulerTheorems.v ===== *)
(** * The scheduler plugin: theorems

    What it means that a node passes the filter, and which requests of a pod
    the filter sees. *)

From S2P Require Import Prelude GoStrings Api GoRuntime Mutx Exec Utils Config NodeService Scheduler.

#[local] Open Scope string_scope.
#[local] Open Scope list_scope.
#[local] Open Scope Z_scope.

(** ** Best fit *)

Lemma request_gb_spec b : 0 <= b < 2^63 → 0 <= request_gb b < 2^34 ∧ b <= request_gb b * GiB < b + GiB.
Proof.
  intros Hb. unfold request_gb. rewrite (i64_id (b - 1)) by (unfold is_i64; lia).
  pose proof (shiftr30_spec (b - 1)) as Hs. unfold GiB in *.
  rewrite i64_id by (unfold is_i64; lia). lia.
Qed.

Lemma first_fit_spec gb l i :
  match first_fit gb i l with
  | None => ∀ a, a ∈ l → a < gb
  | Some k => ∃ l1 a l2, l = l1 ++ a :: l2 ∧ k = (i + length l1)%nat ∧ gb <= a ∧ ∀ b, b ∈ l1 → b < gb
  end.
Proof.
  revert i. induction l as [|a l IH]; intros i; cbn [first_fit]; [by intros ? ?%not_elem_of_nil|].
  destruct (Z.leb_spec gb a) as [Ha|Ha].
  - exists [], a, l. split_and!; [done|simpl; lia|done|by intros ? ?%not_elem_of_nil].
  - specialize (IH (S i)). destruct (first_fit gb (S i) l) as [k|].
    + destruct IH as (l1 & b & l2 & -> & -> & Hb & Hl1). exists (a :: l1), b, l2.
      split_and!; [done|simpl; lia|done|]. intros c [->|Hc]%elem_of_cons; [lia|auto].
    + intros b [->|Hb]%elem_of_cons; [lia|auto].
Qed.

Section fit.
Context `{GoRuntimeLaws}.

(** [minimumValueMinus] takes the request from the smallest value that is
    large enough, and fails only when there is none. *)
Lemma minimumValueMinus_spec array r :
  match minimumValueMinus array r with
  | (index, array') =>
      (index = -1 ∧ ∀ a, a ∈ array → a < request_gb (rq_request r)) ∨
      (0 <= index ∧ ∃ a rest, array ≡ₚ a :: rest ∧ request_gb (rq_request r) <= a ∧
        (∀ b, b ∈ array → request_gb (rq_request r) <= b → a <= b) ∧
        array' ≡ₚ (if rq_exclusive r then 0 else i64 (a - request_gb (rq_request r))) :: rest)
  end.
Proof.
  unfold minimumValueMinus. set (gb := request_gb _). set (s := sort_slice _ array).
  pose proof (sort_slice_perm (λ x y, x <? y) array) as Hperm. fold s in Hperm.
  pose proof (sort_slice_ascending id array) as Hs. change (sort_slice _ array) with s in Hs.
  pose proof (first_fit_spec gb s O) as Hf. destruct (first_fit gb O s) as [k|].
  - destruct Hf as (l1 & a & l2 & Hl & -> & Ha & Hl1). right. split; [lia|]. exists a, (l1 ++ l2).
    rewrite Hl in *. cbn [Nat.add]. rewrite list_lookup_middle, insert_app_r_alt, Nat.sub_diag by done. cbn.
    split; [by rewrite <- Hperm, Permutation_middle|]. split; [done|].
    split; [|by rewrite Permutation_middle].
    intros b Hb Hgb. rewrite <- Hperm in Hb. apply elem_of_app in Hb as [Hb%Hl1|Hb]; [lia|].
    apply elem_of_cons in Hb as [->|Hb]; [done|].
    clear -Hs Hb. induction l1 as [|c l1 IH]; cbn in Hs; inversion_clear Hs as [|?? Hs' Hall]; [|auto].
    rewrite Forall_forall in Hall. by apply Hall.
  - left. split; [done|]. intros a Ha. apply Hf. by rewrite Hperm.
Qed.

(** ** Packing *)

(** The GiB the requests take. *)
Definition used (rs : list pvcRequest) : Z := sumZ ((λ r, request_gb (rq_request r)) <$> rs).

(** A distribution of requests over disks of the given sizes in which no disk
    holds more than it has. *)
Definition packing (disks : list Z) (reqs : list pvcRequest) (bins : list (Z * list pvcRequest)) : Prop :=
  bins.*1 ≡ₚ disks ∧ concat bins.*2 ≡ₚ reqs ∧
  ∀ a rs, (a, rs) ∈ bins → rs ≠ [] → used rs <= a.

(** The state of the loop: [f] bounds what is left on the disk [b]. *)
Definition room_ok (f : Z) (b : Z * list pvcRequest) : Prop :=
  is_i64 f ∧ (b.2 = [] ∨ 0 <= f) ∧ f <= b.1 - used b.2.

Lemma place_all_bins (room : list Z) (bins : list (Z * list pvcRequest)) reqs :
  Forall2 room_ok room bins →
  Forall (λ r, 0 <= rq_request r < 2^63) reqs → place_all room reqs = true →
  ∃ bins', bins'.*1 ≡ₚ bins.*1 ∧ concat bins'.*2 ≡ₚ reqs ++ concat bins.*2 ∧
    ∀ a rs, (a, rs) ∈ bins' → rs ≠ [] → used rs <= a.
Proof.
  revert room bins. induction reqs as [|r reqs IH]; intros room bins Hinv Hreqs Hplace.
  - exists bins. split_and!; [done..|]. intros a rs Hin Hne.
    destruct (Forall2_elem_r _ _ _ _ Hinv Hin) as (f & _ & Hf & [Hnil|Hpos] & Hle); cbn [fst snd] in *; [done|lia].
  - apply Forall_cons in Hreqs as [Hr Hreqs]. cbn [place_all] in Hplace.
    pose proof (minimumValueMinus_spec room r) as Hm.
    destruct (minimumValueMinus room r) as [index room']. destruct Hm as [[-> _]|(Hi & f & rest & Hroom & Hfit & _ & Hroom')]; [done|].
    destruct (Z.ltb_spec index 0); [lia|].
    assert (∃ b brest, bins ≡ₚ b :: brest ∧
      Forall2 room_ok (f :: rest) (b :: brest))
      as ([a rs] & brest & Hbins & Hinv').
    { destruct (Permutation_Forall2 Hroom Hinv) as ([|b brest] & Hb & Hf2); [inversion Hf2|].
      by exists b, brest. }
    apply Forall2_cons in Hinv' as [(Hf & _ & Hle) Hrest]. cbn [fst snd] in *.
    destruct (request_gb_spec _ Hr) as [[Hgb0 Hgb1] _].
    set (f' := if rq_exclusive r then 0 else i64 (f - request_gb (rq_request r))) in *.
    assert (is_i64 f' ∧ 0 <= f' ∧ f' <= f - request_gb (rq_request r)) as (Hf1 & Hf2 & Hf3).
    { unfold f'. destruct (rq_exclusive r); [unfold is_i64; lia|].
      rewrite i64_id by (unfold is_i64 in *; lia). unfold is_i64 in *. lia. }
    assert (∃ bins2, (a, r :: rs) :: brest ≡ₚ bins2 ∧
      Forall2 room_ok room' bins2)
      as (bins2 & Hb2 & Hinv2).
    { eapply Permutation_Forall2; [symmetry; exact Hroom'|]. constructor; [|exact Hrest]. cbn [fst snd].
      split_and!; [done|by right|]. cbn [fst snd]. change (used (r :: rs)) with (request_gb (rq_request r) + used rs). lia. }
    destruct (IH room' bins2 Hinv2 Hreqs Hplace) as (bins' & Hb'1 & Hb'2 & Hb'3). exists bins'. split_and!; [..|done].
    + rewrite Hb'1, <- Hb2, Hbins. done.
    + rewrite Hb'2, <- Hb2, Hbins. cbn. symmetry. apply Permutation_middle.
Qed.
End fit.

Section filter.
Context `{GoRuntimeLaws} (cfg : Settings).

Lemma place_all_packing disks reqs :
  Forall is_i64 disks → Forall (λ r, 0 <= rq_request r < 2^63) reqs →
  place_all disks reqs = true → ∃ bins, packing disks reqs bins.
Proof.
  intros Hd Hr Hp.
  destruct (place_all_bins disks ((λ a, (a, [])) <$> disks) reqs) as (bins & Hb1 & Hb2 & Hb3); [|done|done|].
  { apply Forall2_fmap_r, Forall_Forall2_diag, (Forall_impl _ _ _ Hd). intros a Ha.
    split_and!; [done|by left|]. cbn. lia. }
  assert (concat ((λ a : Z, (a, [] : list pvcRequest)) <$> disks).*2 = []) as Hnil.
  { clear. by induction disks. }
  exists bins. split_and!; [|by rewrite Hb2, Hnil, app_nil_r|done].
  rewrite Hb1, <- list_fmap_compose. apply reflexive_eq, list_fmap_id.
Qed.

(** *** Sums *)

Lemma total_bytes_sum reqs :
  Forall (λ r, 0 <= rq_request r) reqs → sumZ (rq_request <$> reqs) < 2^63 →
  total_bytes reqs = sumZ (rq_request <$> reqs).
Proof.
  intros Hr Hs. unfold total_bytes.
  assert (∀ acc, 0 <= acc → acc + sumZ (rq_request <$> reqs) < 2^63 →
    foldl (λ acc r, i64 (acc + rq_request r)) acc reqs = acc + sumZ (rq_request <$> reqs)) as Hgen; [|rewrite Hgen; lia].
  clear Hs. induction Hr as [|r reqs Hr0 Hr IH]; intros acc Ha Hs; cbn [foldl]; [cbn; lia|].
  rewrite fmap_cons, sumZ_cons in *.
  pose proof (sumZ_fmap_nonneg rq_request reqs Hr).
  rewrite i64_id by (unfold is_i64; lia). rewrite IH by lia. lia.
Qed.

(** *** The free space the filter looks at *)

Lemma allocatable_lookup li (useRaw : bool) node nsr excl alloc g :
  (if useRaw then getLvExclusivityDisks li node else ([], None)) = (excl, None) →
  getNodeStorageResource li node = (nsr, None) →
  getAllocatableMap cfg li useRaw node = (alloc, None) →
  alloc !! g = (if SchedulerConfig.CheckRawDeviceGroup cfg (group_name g) && ContainsString excl g then None
                else nsr_Allocatable nsr !! (DeviceCapacityKeyPrefix +:+ g)).
Proof.
  intros Hx Hn. unfold getAllocatableMap. rewrite Hx, Hn. cbv zeta. case_decide as Hne; [done|]. intros [= <-]. clear Hne.
  set (step := λ (acc : gmap string Z) (kv : string * Z), _).
  assert (∀ l acc, NoDup l.*1 → foldl step acc l !! g =
    (if SchedulerConfig.CheckRawDeviceGroup cfg (group_name g) && ContainsString excl g then acc !! g
     else match list_find (λ kv, kv.1 = DeviceCapacityKeyPrefix +:+ g) l with
          | Some (_, kv) => Some kv.2 | None => acc !! g end)) as Hgen.
  { induction l as [|[k a] l IH]; intros acc Hnd; cbn [foldl].
    { by destruct (_ && _). }
    cbn in Hnd. apply NoDup_cons in Hnd as [Hk Hnd]. rewrite IH by done. cbn [list_find].
    assert (step acc (k, a) !! g =
      (if decide (k = DeviceCapacityKeyPrefix +:+ g)
       then (if SchedulerConfig.CheckRawDeviceGroup cfg (group_name g) && ContainsString excl g then acc !! g else Some a)
       else acc !! g)) as ->.
    { unfold step. cbn [fst snd]. destruct (HasPrefix k DeviceCapacityKeyPrefix) eqn:Hp; cbn [negb].
      - apply prefix_spec in Hp as [t ->]. rewrite TrimPrefix_app. destruct (decide (t = g)) as [->|Hne].
        + rewrite decide_True by done. case_match; [done|]. by rewrite lookup_insert_eq.
        + rewrite decide_False by (by intros ?%sapp_inj_l).
          destruct (SchedulerConfig.CheckRawDeviceGroup cfg (group_name t) && ContainsString excl t); [done|]. by rewrite lookup_insert_ne.
      - rewrite decide_False; [done|]. intros ->. by rewrite HasPrefix_app in Hp. }
    destruct (decide (k = DeviceCapacityKeyPrefix +:+ g)) as [->|Hne].
    - rewrite decide_True by done. destruct (_ && _) eqn:E; [done|].
      destruct (list_find _ l) as [[i kv]|] eqn:Hf; [|done]. exfalso. apply Hk.
      apply list_find_Some in Hf as (Hi & Hkv & _). rewrite <- Hkv. by apply list_elem_of_fmap_2, list_elem_of_lookup_2 with i.
    - rewrite decide_False by done. destruct (_ && _); [done|]. by destruct (list_find _ l) as [[]|]. }
  rewrite Hgen by apply map_range_NoDup. destruct (_ && _); [done|].
  destruct (list_find _ _) as [[i [k a]]|] eqn:Hf.
  - apply list_find_Some in Hf as (Hi & Hkv & _). cbn in Hkv. subst k. symmetry.
    by apply (elem_of_map_range 50), list_elem_of_lookup_2 with i.
  - rewrite lookup_empty. destruct (nsr_Allocatable nsr !! _) as [a|] eqn:Ha; [|done].
    apply (elem_of_map_range 50) in Ha. apply list_find_None in Hf. rewrite Forall_forall in Hf. by destruct (Hf _ Ha).
Qed.

Lemma allocatable_lvm li useRaw node nsr alloc g :
  getNodeStorageResource li node = (nsr, None) → getAllocatableMap cfg li useRaw node = (alloc, None) →
  SchedulerConfig.CheckRawDeviceGroup cfg (group_name g) = false →
  alloc !! g = nsr_Allocatable nsr !! (DeviceCapacityKeyPrefix +:+ g).
Proof.
  intros Hn Ha Hraw.
  destruct (if useRaw then getLvExclusivityDisks li node else ([], None)) as [excl [e|]] eqn:Hx.
  { unfold getAllocatableMap in Ha. by rewrite Hx in Ha. }
  by rewrite (allocatable_lookup _ _ _ _ _ _ g Hx Hn Ha), Hraw.
Qed.

(** *** [Filter] *)

(** The node can hold the requests of one group. *)
Definition holds (alloc : gmap string Z) (group : string) (reqs : list pvcRequest) : Prop :=
  if SchedulerConfig.CheckRawDeviceGroup cfg group
  then ∃ bins, packing (List.filter (λ kv, Contains kv.1 group) (map_to_list alloc)).*2 reqs bins
  else request_gb (sumZ (rq_request <$> reqs)) <= default 0 (alloc !! group).

Lemma group_fits_lvm alloc group reqs :
  SchedulerConfig.CheckRawDeviceGroup cfg group = false →
  Forall (λ r, 0 <= rq_request r) reqs → sumZ (rq_request <$> reqs) < 2^63 →
  group_fits cfg alloc group reqs = true →
  request_gb (sumZ (rq_request <$> reqs)) <= default 0 (alloc !! group).
Proof.
  intros Hraw Hr Hs. unfold group_fits. rewrite Hraw. set (sorted := sort_slice _ reqs).
  assert (sorted ≡ₚ reqs) as Hp by apply sort_slice_perm.
  intros Hle%negb_true_iff%Z.ltb_ge. rewrite total_bytes_sum, Hp in Hle by (by rewrite Hp). done.
Qed.

Lemma group_fits_holds alloc group reqs :
  (∀ k a, alloc !! k = Some a → is_i64 a) →
  Forall (λ r, 0 <= rq_request r < 2^63) reqs → sumZ (rq_request <$> reqs) < 2^63 →
  group_fits cfg alloc group reqs = true → holds alloc group reqs.
Proof.
  intros Ha Hr Hs Hfits. unfold holds. destruct (SchedulerConfig.CheckRawDeviceGroup cfg group) eqn:Hraw.
  2:{ apply group_fits_lvm; [done|exact (Forall_impl _ _ _ Hr (λ r Hr, proj1 Hr))|done|done]. }
  unfold group_fits in Hfits. rewrite Hraw in Hfits. set (sorted := sort_slice _ reqs) in *.
  assert (sorted ≡ₚ reqs) as Hp by apply sort_slice_perm.
  assert (matching_disks alloc group 52 ≡ₚ (List.filter (λ kv, Contains kv.1 group) (map_to_list alloc)).*2) as Hm.
  { unfold matching_disks. by rewrite map_range_perm. }
  destruct (place_all_packing (matching_disks alloc group 52) sorted) as (bins & H1 & H2 & H3); [..|done|].
  - rewrite Hm. apply Forall_forall. intros a ([k v] & -> & Hkv)%list_elem_of_fmap.
    apply list_elem_of_In, filter_In in Hkv as [Hkv%list_elem_of_In%elem_of_map_to_list _]. by apply (Ha k).
  - by rewrite Hp.
  - exists bins. split_and!; [by rewrite <- Hm|by rewrite <- Hp|done].
Qed.

(** What passing the filter means for the groups requested. *)
Lemma Filter_success li pod node nodeName useRaw m :
  getPvcRequestMap cfg li pod = Done ((m, nodeName, useRaw), None) → Filter cfg li pod node = Done Success →
  (nodeName = "" ∨ nodeName = node) ∧
  (m = ∅ ∨ ∃ alloc, getAllocatableMap cfg li useRaw node = (alloc, None) ∧
     ∀ group reqs, m !! group = Some reqs → group_fits cfg alloc group reqs = true).
Proof.
  intros Hreq Hfilter. unfold Filter in Hfilter. rewrite Hreq in Hfilter. cbn in Hfilter.
  destruct (String.eqb_spec nodeName "") as [->|Hn]; cbn [negb andb] in Hfilter.
  2: destruct (String.eqb_spec nodeName node) as [->|Hn2]; cbn [negb andb] in Hfilter; [|done].
  all: split; [auto|].
  all: case_decide as Hm; [by left|]; right.
  all: destruct (getAllocatableMap cfg li useRaw node) as [alloc [e|]] eqn:Ha; [done|].
  all: exists alloc; split; [done|]; intros group reqs Hg.
  all: destruct (forallb _ _) eqn:Hall; [|done].
  all: rewrite forallb_forall in Hall; apply (Hall (group, reqs)).
  all: by apply list_elem_of_In, elem_of_map_range.
Qed.

(** [C8] A node that passes the filter can hold the claims the filter has
    collected for the pod: no bound volume of the pod lives on another node;
    for an LVM group the requests together fit the free space of the node; and
    for a raw group there is a distribution of the requests over the disks of
    the group in which no disk holds more than it has free.  This is so for
    every order in which the maps are visited. *)
Theorem Filter_sound (li : Listers) (pod : Pod) (node nodeName : string) (useRaw : bool)
    (m : gmap string (list pvcRequest))
    (Hreq : getPvcRequestMap cfg li pod = Done ((m, nodeName, useRaw), None))
    (Hfilter : Filter cfg li pod node = Done Success)
    (Hint : ∀ alloc k a, getAllocatableMap cfg li useRaw node = (alloc, None) → alloc !! k = Some a → is_i64 a)
    (Hsizes : ∀ group reqs, m !! group = Some reqs →
       Forall (λ r, 0 <= rq_request r < 2^63) reqs ∧ sumZ (rq_request <$> reqs) < 2^63) :
  (nodeName = "" ∨ nodeName = node) ∧
  (m = ∅ ∨ ∃ alloc, getAllocatableMap cfg li useRaw node = (alloc, None) ∧
     ∀ group reqs, m !! group = Some reqs → holds alloc group reqs).
Proof.
  destruct (Filter_success _ _ _ _ _ _ Hreq Hfilter) as [Hn [Hm|(alloc & Ha & Hall)]]; split; auto.
  right. exists alloc. split; [done|]. intros group reqs Hg. destruct (Hsizes _ _ Hg) as [Hr Hs].
  apply group_fits_holds; [intros k a; by apply Hint|done|done|by apply Hall].
Qed.

(** A claim without a cache drops what its group had. *)
Lemma unbound_plain sc pvc m node raw x g :
  mget (sc_Parameters sc) DeviceDiskKey = g → g ≠ "" → SchedulerConfig.CheckHostDeviceGroup cfg g = false →
  mget (sc_Parameters sc) VolumeCacheDiskType = "" → m !! "" = None →
  ∃ raw' x', unbound_claim cfg sc pvc m node raw x =
    VolNext (<[SchedulerConfig.GetDeviceGroup cfg g := [mkRequest x' (pvc_Storage pvc)]]> m) node raw' x'.
Proof.
  intros Hk Hg%String.eqb_neq Hh Hc Hm. unfold unbound_claim. rewrite Hk, Hh, Hc. cbv zeta. rewrite Hg.
  cbn [String.eqb]. rewrite Hg, Hm. by eexists _, _.
Qed.

(** Of several claims of a pod for the same group only the last is seen:
    a claim without a cache replaces the list of its group by the list under
    the empty key, which is never there, extended by its own request.  A node
    can pass the filter that has room for the last claim only. *)
Theorem second_claim_hides_first (li : Listers) (pod : Pod) (c1 c2 sc1 sc2 : string)
    (pvc1 pvc2 : PersistentVolumeClaim) (class1 class2 : StorageClass) (g : string)
    (Hpod : pod_Claims pod = [Some c1; Some c2])
    (Hpvc1 : li_pvc li (pod_Namespace pod) c1 = (pvc1, None)) (Hpvc2 : li_pvc li (pod_Namespace pod) c2 = (pvc2, None))
    (Hsc1 : pvc_StorageClassName pvc1 = Some sc1) (Hsc2 : pvc_StorageClassName pvc2 = Some sc2)
    (Hclass1 : li_sc li sc1 = (class1, None)) (Hclass2 : li_sc li sc2 = (class2, None))
    (Hprov1 : sc_Provisioner class1 = CSIPluginName) (Hprov2 : sc_Provisioner class2 = CSIPluginName)
    (Hfree1 : pvc_Bound pvc1 = false) (Hfree2 : pvc_Bound pvc2 = false)
    (Hgroup1 : mget (sc_Parameters class1) DeviceDiskKey = g) (Hgroup2 : mget (sc_Parameters class2) DeviceDiskKey = g)
    (Hg : g ≠ "") (Hhost : SchedulerConfig.CheckHostDeviceGroup cfg g = false)
    (Hkey : SchedulerConfig.GetDeviceGroup cfg g ≠ "")
    (Hcache1 : mget (sc_Parameters class1) VolumeCacheDiskType = "")
    (Hcache2 : mget (sc_Parameters class2) VolumeCacheDiskType = "") :
  ∃ exclusive useRaw,
    getPvcRequestMap cfg li pod =
      Done (({[SchedulerConfig.GetDeviceGroup cfg g := [mkRequest exclusive (pvc_Storage pvc2)]]}, "", useRaw), None).
Proof.
  unfold getPvcRequestMap. rewrite Hpod. cbn [pod_volumes]. unfold pod_volume.
  rewrite Hpvc1, Hsc1, Hclass1, Hprov1, String.eqb_refl, Hfree1. cbn [negb].
  destruct (unbound_plain class1 pvc1 ∅ "" false false g) as (raw1 & x1 & ->); [done..|].
  rewrite Hpvc2, Hsc2, Hclass2, Hprov2, String.eqb_refl, Hfree2. cbn [negb].
  destruct (unbound_plain class2 pvc2 (<[SchedulerConfig.GetDeviceGroup cfg g := [mkRequest x1 (pvc_Storage pvc1)]]> ∅)
    "" raw1 x1 g) as (raw2 & x2 & ->); [done..|by rewrite lookup_insert_ne|].
  exists x2, raw2. by rewrite insert_insert_eq.
Qed.
End filter.

(** ** Witnesses *)

Definition ssd_class : StorageClass := mkSc "csi-carina" CSIPluginName {[DeviceDiskKey := "carina-vg-ssd"]}.
Definition raw_class : StorageClass := mkSc "csi-raw" CSIPluginName {[DeviceDiskKey := "carina-raw-hdd"]}.

Definition sample_listers : Listers :=
  mkListers
    (λ _ n, (mkPvc (Some (if String.eqb n "raw" then "csi-raw" else "csi-carina")) false "" (30 * GiB), None))
    (λ n, (if String.eqb n "csi-raw" then raw_class else ssd_class, None))
    (λ _, (mkPersistentVolume None, Some (ErrApi ReasonNotFound "not found")))
    ([], None) ([], None) (λ n, ((sample_nsr n, None), None)) (λ n, (sample_nsr n, None)).

Definition mixed_pod : Pod := mkPod "p" "default" [Some "raw"; None; Some "data"].

Definition mixed_requests : gmap string (list pvcRequest) :=
  list_to_map [("carina-raw-hdd", [mkRequest false (30 * GiB)]); ("carina-vg-ssd", [mkRequest false (30 * GiB)])].

#[local] Instance is_i64_dec z : Decision (is_i64 z).
Proof. unfold is_i64. apply _. Defined.

Lemma Filter_sound_witness :
  Filter sample_settings sample_listers mixed_pod "n3" = Done Success ∧
  ∃ alloc, getAllocatableMap sample_settings sample_listers true "n3" = (alloc, None) ∧
    holds sample_settings alloc "carina-raw-hdd" [mkRequest false (30 * GiB)].
Proof.
  assert (Filter sample_settings sample_listers mixed_pod "n3" = Done Success) as Hf by (vm_compute; reflexivity).
  split; [exact Hf|].
  destruct (Filter_sound sample_settings sample_listers mixed_pod "n3" "" true mixed_requests) as [_ [Hm|(alloc & Ha & Hall)]].
  - vm_compute. reflexivity.
  - exact Hf.
  - intros alloc k a Ha. apply (map_Forall_lookup_1 (λ _ a, is_i64 a)).
    replace alloc with ((getAllocatableMap sample_settings sample_listers true "n3").1) by (by rewrite Ha).
    apply (bool_decide_unpack _). vm_compute. exact I.
  - intros g reqs. apply (map_Forall_lookup_1 (λ _ reqs,
      Forall (λ r, 0 <= rq_request r < 2^63) reqs ∧ sumZ (rq_request <$> reqs) < 2^63)).
    apply (bool_decide_unpack _). vm_compute. exact I.
  - exfalso. assert (mixed_requests !! "carina-vg-ssd" = None) as Hn by (rewrite Hm; reflexivity).
    vm_compute in Hn. discriminate Hn.
  - exists alloc. split; [exact Ha|]. apply Hall. vm_compute. reflexivity.
Defined.

(** Two claims of 30 GiB pass on a node with 50 GiB. *)
Definition double_pod : Pod := mkPod "p" "default" [Some "a"; Some "b"].

Lemma second_claim_hides_first_witness :
  Filter sample_settings sample_listers double_pod "n2" = Done Success ∧
  nsr_Allocatable (sample_nsr "n2") !! (DeviceCapacityKeyPrefix +:+ "carina-vg-ssd") = Some 50 ∧
  ∃ exclusive useRaw,
    getPvcRequestMap sample_settings sample_listers double_pod =
      Done (({["carina-vg-ssd" := [mkRequest exclusive (30 * GiB)]]}, "", useRaw), None).
Proof.
  split; [vm_compute; reflexivity|]. split; [vm_compute; reflexivity|].
  exact (second_claim_hides_first sample_settings sample_listers double_pod "a" "b" "csi-carina" "csi-carina"
    (mkPvc (Some "csi-carina") false "" (30 * GiB)) (mkPvc (Some "csi-carina") false "" (30 * GiB)) ssd_class ssd_class
    "carina-vg-ssd" eq_refl eq_refl eq_refl eq_refl eq_refl eq_refl eq_refl eq_refl eq_refl eq_refl eq_refl eq_refl
    eq_refl ltac:(discriminate) eq_refl ltac:(vm_compute; discriminate) eq_refl eq_refl).
Defined.

(** The score of the 30 GiB that are seen, and the values of the unit test of
    [minimumValueMinus]: a request of three bytes takes one GiB. *)
Lemma score_example :
  Score sample_settings (λ _, 0) sample_listers double_pod "n2" = Done (6, Success) ∧
  minimumValueMinus [3; 4; 5; 2; 5; 23; 1] (mkRequest false 3) = (0, [0; 2; 3; 4; 5; 5; 23]).
Proof. split; vm_compute; reflexivity. Qed.
