(* ===== verification/ExamplePlugin.v ===== *)
(** * The example scheduler plugin

    [scheduler/schedulerplugin/example/example-plugins.go]: the extension points
    of a plugin that schedules by the number of pods of a node, and the scaling
    of its scores to the range of the framework. *)

From S2P Require Import Prelude GoStrings Api GoRuntime.

#[local] Open Scope string_scope.
#[local] Open Scope list_scope.
#[local] Open Scope Z_scope.

Module ExamplePlugin.

Definition ExampleName := "Example-schedule".

(** [framework.Status] with its codes. *)
Inductive code := Success | Failure | Unschedulable | Wait.
Record Status := mkStatus { s_code : code; s_reason : string }.

(** The limits of a score of [framework]. *)
Definition MinNodeScore : Z := 0.
Definition MaxNodeScore : Z := 100.
Definition MaxInt64 : Z := 2^63 - 1.

Record QueuedPodInfo := mkQueued { Timestamp : Z }.

(** The fields of a pod the plugin reads; the requests of its containers. *)
Record Pod := mkPod {
  p_Name : string;
  p_SchedulerName : string;
  p_Containers : list (gmap string Z);
  p_CreationTimestamp : Z
}.

Record NodeInfo := mkNodeInfo {
  ni_AllocatableMemory : Z;
  ni_Pods : list string
}.

(** [StateStorage] embeds [framework.Resource]: an empty one and [Add]. *)
Class Resource (R : Type) := {
  empty_resource : R;
  Add : gmap string Z → R → R
}.

Section plugin.
Context {R : Type} `{Resource R}.

(** [framework.CycleState]. *)
Abbreviation CycleState := (gmap string R).

Definition Less (podInfo1 podInfo2 : QueuedPodInfo) : bool :=
  Timestamp podInfo1 <? Timestamp podInfo1.

Definition PreFilter (pod : Pod) : M CycleState Status := λ state,
  let v := fold_left (λ v requests, Add requests v) (p_Containers pod) empty_resource in
  let state := <["example" := v]> state in
  if negb (String.eqb (p_SchedulerName pod) ExampleName)
  then (Done (mkStatus Unschedulable ("rejected schedule " +:+ p_SchedulerName pod)), state)
  else (Done (mkStatus Success ""), state).

(** [Requests.Memory().Value()]: zero where memory is not requested. *)
Definition memory (requests : gmap string Z) : Z := default 0 (requests !! "memory").

Definition Filter (pod : Pod) (node : NodeInfo) : Status :=
  if existsb (λ requests, ni_AllocatableMemory node <? memory requests) (p_Containers pod)
  then mkStatus Unschedulable "out of memory"
  else mkStatus Success "".

Definition PostFilter : M CycleState Status := λ state,
  match state !! "example" with
  | Some _ => (Done (mkStatus Unschedulable ""), delete "example" state)
  | None => (Done (mkStatus Success ""), state)
  end.

(** The verb [%q], on printable ASCII. *)
Fixpoint escape (s : string) : string :=
  match s with
  | EmptyString => EmptyString
  | String c s =>
      if Ascii.eqb c (ascii_of_nat 34) || Ascii.eqb c (ascii_of_nat 92)
      then String (ascii_of_nat 92) (String c (escape s))
      else String c (escape s)
  end.
Definition quoted (s : string) : string :=
  let q := String (ascii_of_nat 34) EmptyString in q +:+ escape s +:+ q.

(** [snapshot] is the lister of the handle. *)
Definition Score (snapshot : string → res NodeInfo) (nodeName : string) : Z * Status :=
  match snapshot nodeName with
  | (_, Some err) =>
      (0, mkStatus Failure ("getting node " +:+ quoted nodeName +:+ " from Snapshot: " +:+ Error err))
  | (nodeInfo, None) => (i64 (Z.of_nat (length (ni_Pods nodeInfo))), mkStatus Success "")
  end.

Definition highest_of (scores : list (string * Z)) : Z :=
  fold_left (λ highest (nodeScore : string * Z), if highest <? nodeScore.2 then nodeScore.2 else highest) scores (- MaxInt64).

Definition lowest_of (scores : list (string * Z)) : Z :=
  fold_left (λ lowest (nodeScore : string * Z), if nodeScore.2 <? lowest then nodeScore.2 else lowest) scores MaxInt64.

(** Arithmetic on [int64]; Go's quotient truncates. *)
Definition scale (lowest oldRange score : Z) : Z :=
  let newRange := MaxNodeScore - MinNodeScore in
  if oldRange =? 0 then MinNodeScore
  else i64 (i64 (Z.quot (i64 (i64 (score - lowest) * newRange)) oldRange) + MinNodeScore).

Definition NormalizeScore (scores : list (string * Z)) : list (string * Z) * Status :=
  let highest := highest_of scores in
  let lowest := lowest_of scores in
  let oldRange := i64 (highest - lowest) in
  ((λ nodeScore, (nodeScore.1, scale lowest oldRange nodeScore.2)) <$> scores, mkStatus Success "").

Definition second : Z := 10^9.

(** Times in nanoseconds; [t.Seconds() < 360] is exact there. *)
Definition Permit (now : Z) (pod : Pod) : Status * Z :=
  let t := now - p_CreationTimestamp pod in
  if t <? 360 * second then (mkStatus Wait "", t)
  else (mkStatus Success "", 0).

(** The extension points that always succeed. *)
Definition AddPod : Status := mkStatus Success "".
Definition RemovePod : Status := mkStatus Success "".
Definition PreScore : Status := mkStatus Success "".
Definition Reserve : Status := mkStatus Success "".
Definition PreBind : Status := mkStatus Success "".
Definition Bind : Status := mkStatus Success "".

(** ** The scaled scores *)

Lemma highest_bound scores : ∀ a, a <= fold_left (λ highest (s : string * Z), if highest <? s.2 then s.2 else highest) scores a ∧
  ∀ s, s ∈ scores → s.2 <= fold_left (λ highest (s : string * Z), if highest <? s.2 then s.2 else highest) scores a.
Proof.
  induction scores as [|x scores IH]; intros a; cbn; [split; [lia|by intros s ?%not_elem_of_nil]|].
  set (a' := if a <? x.2 then x.2 else a). assert (a <= a' ∧ x.2 <= a') as [] by (subst a'; case Z.ltb_spec; lia).
  destruct (IH a') as [Ha Hs]. split; [lia|]. intros s [->|?]%elem_of_cons; [lia|auto].
Qed.

Lemma lowest_bound scores : ∀ a, fold_left (λ lowest (s : string * Z), if s.2 <? lowest then s.2 else lowest) scores a <= a ∧
  ∀ s, s ∈ scores → fold_left (λ lowest (s : string * Z), if s.2 <? lowest then s.2 else lowest) scores a <= s.2.
Proof.
  induction scores as [|x scores IH]; intros a; cbn; [split; [lia|by intros s ?%not_elem_of_nil]|].
  set (a' := if x.2 <? a then x.2 else a). assert (a' <= a ∧ a' <= x.2) as [] by (subst a'; case Z.ltb_spec; lia).
  destruct (IH a') as [Ha Hs]. split; [lia|]. intros s [->|?]%elem_of_cons; [lia|auto].
Qed.

Lemma fold_pick (f : Z → string * Z → Z) scores :
  (∀ a s, f a s = a ∨ f a s = s.2) →
  ∀ a, fold_left f scores a = a ∨ ∃ s, s ∈ scores ∧ fold_left f scores a = s.2.
Proof.
  intros Hf. induction scores as [|x scores IH]; intros a; cbn; [by left|].
  destruct (IH (f a x)) as [->|(s & Hs & ->)].
  - destruct (Hf a x) as [->| ->]; [by left|]. right. exists x. split; [left|done].
  - right. exists s. split; [by right|done].
Qed.

(** Scores an [int64] can scale: the products stay in range. *)
Definition scalable (scores : list (string * Z)) : Prop :=
  ∀ s, s ∈ scores → - (MaxInt64 / 200) <= s.2 <= MaxInt64 / 200.

(** The extremes are the scores of two nodes of the list. *)
Lemma extremes scores s : s ∈ scores → scalable scores →
  (∃ h, h ∈ scores ∧ highest_of scores = h.2) ∧ (∃ l, l ∈ scores ∧ lowest_of scores = l.2) ∧
  ∀ x, x ∈ scores → lowest_of scores <= x.2 <= highest_of scores.
Proof.
  intros Hs Hb. pose proof (Hb s Hs) as Hsb. unfold highest_of, lowest_of, MaxInt64 in *.
  change ((2^63 - 1) / 200) with 46116860184273879 in Hsb.
  destruct (highest_bound scores (- (2^63 - 1))) as [_ Hh]. destruct (lowest_bound scores (2^63 - 1)) as [_ Hl].
  split_and!; [| |by auto].
  - destruct (fold_pick (λ highest (s : string * Z), if highest <? s.2 then s.2 else highest) scores) with (a := - (2^63 - 1))
      as [E|?]; [intros a x; case Z.ltb_spec; auto| |done].
    pose proof (Hh s Hs) as Hx. rewrite E in Hx. lia.
  - destruct (fold_pick (λ lowest (s : string * Z), if s.2 <? lowest then s.2 else lowest) scores) with (a := 2^63 - 1)
      as [E|?]; [intros a x; case Z.ltb_spec; auto| |done].
    pose proof (Hl s Hs) as Hx. rewrite E in Hx. lia.
Qed.

(** Without overflow the scaling is the quotient of the integers. *)
Lemma scale_exact lowest highest score :
  - (MaxInt64 / 200) <= lowest → highest <= MaxInt64 / 200 → lowest <= score <= highest →
  scale lowest (i64 (highest - lowest)) score =
    if highest =? lowest then 0 else (score - lowest) * 100 / (highest - lowest).
Proof.
  unfold MaxInt64, scale. intros. 
  change ((2^63 - 1) / 200) with 46116860184273879 in *. change (MaxNodeScore - MinNodeScore) with 100.
  rewrite !(i64_id (highest - lowest)), (i64_id (score - lowest)) by (unfold is_i64; lia).
  rewrite (i64_id ((score - lowest) * 100)) by (unfold is_i64; lia).
  destruct (Z.eqb_spec highest lowest) as [->|Hne]; [by rewrite Z.sub_diag|].
  destruct (Z.eqb_spec (highest - lowest) 0); [lia|]. rewrite Z.quot_div_nonneg by lia.
  assert (0 <= (score - lowest) * 100 / (highest - lowest) <= 100) as Hq.
  { split; [apply Z.div_pos; lia|]. apply Z.div_le_upper_bound; lia. }
  unfold MinNodeScore. rewrite Z.add_0_r, !i64_id by (unfold is_i64; try rewrite i64_id; unfold is_i64; lia). done.
Qed.

Lemma NormalizeScore_lookup scores i n x :
  scores !! i = Some (n, x) →
  (NormalizeScore scores).1 !! i = Some (n, scale (lowest_of scores) (i64 (highest_of scores - lowest_of scores)) x).
Proof. intros Hi. cbn. by rewrite list_lookup_fmap, Hi. Qed.

(** What a scaled list promises of the list it comes from. *)
Record scaled (scores out : list (string * Z)) : Prop := {
  sc_names : out.*1 = scores.*1;
  sc_range : ∀ s, s ∈ out → MinNodeScore <= s.2 <= MaxNodeScore;
  sc_monotone : ∀ i j s t s' t', scores !! i = Some s → scores !! j = Some t →
    out !! i = Some s' → out !! j = Some t' → s.2 <= t.2 → s'.2 <= t'.2;
  sc_lowest : scores ≠ [] → ∃ s, s ∈ out ∧ s.2 = MinNodeScore;
  sc_highest : ∀ s t, s ∈ scores → t ∈ scores → s.2 ≠ t.2 → ∃ h, h ∈ out ∧ h.2 = MaxNodeScore
}.

(** As long as the scores stay within a two hundredth of an [int64],
    scaling keeps the nodes and their order, brings every score into the range
    of the framework, gives the worst node the least score and, when two scores
    differ, the best node the greatest. *)
Theorem NormalizeScore_scaled scores :
  scalable scores → scaled scores (NormalizeScore scores).1 ∧ (NormalizeScore scores).2 = mkStatus Success "".
Proof.
  intros Hb. split; [|done].
  assert (∀ i s s', scores !! i = Some s → (NormalizeScore scores).1 !! i = Some s' →
    lowest_of scores <= s.2 <= highest_of scores ∧
    s'.2 = if highest_of scores =? lowest_of scores then 0
           else (s.2 - lowest_of scores) * 100 / (highest_of scores - lowest_of scores)) as Hout.
  { intros i [n x] s' Hi. rewrite (NormalizeScore_lookup _ _ _ _ Hi). intros [= <-].
    apply list_elem_of_lookup_2 in Hi. destruct (extremes scores _ Hi Hb) as ((h & Hh & Eh) & (l & Hl & El) & Hx).
    split; [by apply Hx|]. cbn [snd]. apply scale_exact; [rewrite El; by apply Hb|rewrite Eh; by apply Hb|by apply (Hx (n, x))]. }
  assert (∀ s, s ∈ scores → ∃ i s', scores !! i = Some s ∧ (NormalizeScore scores).1 !! i = Some s') as Hin.
  { intros [n x] [i Hi]%list_elem_of_lookup_1. exists i. eexists. split; [done|]. by apply NormalizeScore_lookup. }
  split.
  - cbn. rewrite <- list_fmap_compose. by apply list_fmap_ext.
  - intros s' [i Hi']%list_elem_of_lookup_1.
    destruct (lookup_lt_is_Some_2 scores i) as [s Hi].
    { apply lookup_lt_Some in Hi'. cbn in Hi'. by rewrite length_fmap in Hi'. }
    destruct (Hout i s s' Hi Hi') as [Hs ->]. unfold MinNodeScore, MaxNodeScore.
    case Z.eqb_spec; [lia|]. intros. split; [apply Z.div_pos; lia|apply Z.div_le_upper_bound; lia].
  - intros i j s t s' t' Hi Hj Hi' Hj' Hle.
    destruct (Hout i s s' Hi Hi') as [Hs ->], (Hout j t t' Hj Hj') as [Ht ->].
    case Z.eqb_spec; [lia|]. intros. apply Z.div_le_mono; lia.
  - intros Hne. destruct scores as [|s0 rest] eqn:E; [done|].
    destruct (extremes (s0 :: rest) s0) as (_ & (l & Hl & El) & _); [left|done|].
    destruct (Hin l Hl) as (i & s' & Hi & Hi'). exists s'. split; [by eapply list_elem_of_lookup_2|].
    destruct (Hout i l s' Hi Hi') as [_ ->]. rewrite El, Z.sub_diag. by case Z.eqb_spec.
  - intros s t Hs Ht Hne. destruct (extremes scores s Hs Hb) as ((h & Hh & Eh) & _ & Hx).
    pose proof (Hx s Hs). pose proof (Hx t Ht).
    destruct (Hin h Hh) as (i & s' & Hi & Hi'). exists s'. split; [by eapply list_elem_of_lookup_2|].
    destruct (Hout i h s' Hi Hi') as [_ ->]. rewrite <- Eh. case Z.eqb_spec; [lia|]. intros.
    rewrite Z.mul_comm, Z.div_mul by lia. done.
Qed.

(** Beyond that bound the product wraps: the node with the greater score comes
    out below the range. *)
Lemma NormalizeScore_wraps :
  (NormalizeScore [("a", 0); ("b", 2^62)]).1 = [("a", 0); ("b", 0)] ∧
  (NormalizeScore [("a", 0); ("b", 10^17)]).1 = [("a", 0); ("b", -84)].
Proof. split; reflexivity. Qed.

(** The queue order never puts a pod before another. *)
Lemma Less_never p q : Less p q = false.
Proof. apply Z.ltb_irrefl. Qed.

(** A pod waits for as long as it is old, never for the rest of six minutes. *)
Lemma Permit_waits now pod :
  (Permit now pod).1 = mkStatus Wait "" → (Permit now pod).2 = now - p_CreationTimestamp pod.
Proof. unfold Permit. by case_match. Qed.
End plugin.

Lemma NormalizeScore_scaled_witness :
  (NormalizeScore [("a", 3); ("b", 12); ("c", 6)]).1 = [("a", 0); ("b", 100); ("c", 33)] ∧
  scaled [("a", 3); ("b", 12); ("c", 6)] (NormalizeScore [("a", 3); ("b", 12); ("c", 6)]).1.
Proof.
  split; [reflexivity|].
  refine (proj1 (NormalizeScore_scaled [("a", 3); ("b", 12); ("c", 6)] _)).
  intros s Hs.
  repeat (apply elem_of_cons in Hs as [->|Hs]; [split; vm_compute; discriminate|]). by apply not_elem_of_nil in Hs.
Defined.
End ExamplePlugin.
