(* ===== verification/HostPath.v ===== *)
(** * [pkg/devicemanager/hostpath] and the bind mounts of [pkg/csidriver/filesystem/host.go]

    Volumes that are directories of the node.  The calls of package [os] are
    the class [Files]; [FilesLaws] says what they do to the directories. *)

From S2P Require Import Prelude GoStrings Api GoRuntime Mutx Exec Utils Config.

#[local] Open Scope string_scope.
#[local] Open Scope list_scope.
#[local] Open Scope Z_scope.

(** ** [path/filepath] *)

Definition IsAbs (path : string) : bool := HasPrefix path "/".

(** One component onto the reversed list of those kept. *)
Definition clean_step (rooted : bool) (stack : list string) (comp : string) : list string :=
  if String.eqb comp "" || String.eqb comp "." then stack
  else if String.eqb comp ".." then
    match stack with
    | top :: rest => if String.eqb top ".." then comp :: stack else rest
    | [] => if rooted then [] else [comp]
    end
  else comp :: stack.

Definition Clean (path : string) : string :=
  let rooted := IsAbs path in
  let out := Join (reverse (foldl (clean_step rooted) [] (Split path "/"))) "/" in
  if rooted then "/" +:+ out else if String.eqb out "" then "." else out.

(** [filepath.Join(a, b)] of two elements that are not empty. *)
Definition Join2 (a b : string) : string := Clean (a +:+ "/" +:+ b).

(** ** The file system *)

(** [0777]. *)
Definition perm_all : Z := 511.

Class Files (W : Type) := {
  os_MkdirAll : string → Z → W → option error * W;
  os_Chmod : string → Z → W → option error * W;
  os_RemoveAll : string → W → option error * W
}.

Section files.
Context {W : Type} `{OS W, Files W}.

Definition file_op (f : W → option error * W) : M (Node W) (option error) := λ n,
  let '(e, w) := f (nd_world n) in (Done e, mkNode (nd_locks n) (nd_parts n) w (nd_trace n)).

Definition BindMount (source target : string) : M (Node W) (option error) :=
  r ← spawn "mount" ["--bind"; source; target];
  match proc_error (pr_end r) with
  | Some e => mret (Some (ErrString ("绑定挂载失败: " +:+ Error e +:+ ", 输出: " +:+ pr_both r)))
  | None => mret None
  end.

Definition UnbindMount (target : string) : M (Node W) (option error) :=
  p ← exists_ target;
  if negb p.2 then mret (Some (ErrString ("目标目录不存在或不是一个目录: " +:+ target)))
  else
    r ← spawn "umount" [target];
    match proc_error (pr_end r) with
    | Some e => mret (Some (ErrString ("解除绑定挂载失败: " +:+ Error e +:+ ", 输出: " +:+ pr_both r)))
    | None => mret None
    end.
End files.

Module LocalHostImplement.

Definition VOLUMEMUTEX := "VolumeHostMutex".

(** The loop over the selectors: the first host group of that name that has a
    path gives the directory, or the error if the path is not absolute. *)
Fixpoint work_dir (deviceGroup : string) (l : list DiskSelectorItem) : string + error :=
  match l with
  | [] => inl DefaultHostPath
  | v :: l' =>
      if String.eqb (ds_Name v) deviceGroup && String.eqb (ToLower (ds_Policy v)) HostVolumeType then
        match ds_Re v with
        | [] => work_dir deviceGroup l'
        | p :: _ =>
            if negb (IsAbs p) then inr (ErrString ("path must be absolute: %s" +:+ p)) else inl p
        end
      else work_dir deviceGroup l'
  end.

Section impl.
Context {W : Type} `{OS W, Files W} (cfg : Settings).

Definition locked (body : M (Node W) (option error)) : M (Node W) (option error) :=
  with_lock VOLUMEMUTEX (Some (ErrString "get global mutex failed")) body.

Definition CreateVolume (name deviceGroup : string) : M (Node W) (option error) :=
  locked (
    match work_dir deviceGroup (DiskSelector cfg) with
    | inr e => mret (Some e)
    | inl workDir =>
        let device := Join2 workDir (HostPrefix +:+ name) in
        b ← DirExists device;
        if (b : bool) then mret None
        else
          err ← file_op (os_MkdirAll device perm_all);
          match err with
          | Some e => mret (Some e)
          | None => file_op (os_Chmod device perm_all)
          end
    end).

Definition DeleteVolume (name deviceGroup : string) : M (Node W) (option error) :=
  locked (
    match work_dir deviceGroup (DiskSelector cfg) with
    | inr e => mret (Some e)
    | inl workDir =>
        let device := Join2 workDir (HostPrefix +:+ name) in
        b ← DirExists device;
        if negb b then mret None
        else
          _ ← UnbindMount device;
          file_op (os_RemoveAll device)
    end).

Definition ResizeVolume (name deviceGroup : string) : M (Node W) (option error) := locked (mret None).
End impl.
End LocalHostImplement.

(** ** Paths *)

Lemma Split_app_sep x y c : Split (x +:+ String c y) c = Split x c ++ Split y c.
Proof.
  induction x as [|d x IH]; simpl; [by rewrite Ascii.eqb_refl|].
  destruct (Ascii.eqb d c); [by rewrite IH|]. rewrite IH.
  destruct (Split x c) as [|h t] eqn:E; [by apply Split_nonempty in E|done].
Qed.

Lemma Join_snoc l x sep : l ≠ [] → Join (l ++ [x]) sep = Join l sep +:+ sep +:+ x.
Proof.
  induction l as [|y l IH]; intros Hne; [done|]. destruct l as [|z l]; [done|].
  change ((y :: z :: l) ++ [x]) with (y :: ((z :: l) ++ [x])).
  change (Join (y :: z :: l) sep) with (y +:+ sep +:+ Join (z :: l) sep).
  change (Join (y :: (z :: l) ++ [x]) sep) with (y +:+ sep +:+ Join ((z :: l) ++ [x]) sep).
  rewrite IH by done. by rewrite !sapp_assoc.
Qed.

(** A file name is appended to a clean absolute directory, other than the
    root, with one slash: the result is inside the directory. *)
Lemma Join2_inside dir name :
  IsAbs dir = true → Clean dir = dir → dir ≠ "/" →
  has_char "/" name = false → name ∉ [""; "."; ".."] →
  Join2 dir name = dir +:+ "/" +:+ name.
Proof.
  intros Habs Hclean Hroot Hslash Hname. unfold Join2, Clean.
  assert (IsAbs (dir +:+ "/" +:+ name) = true) as ->.
  { apply prefix_spec in Habs as [t ->]. rewrite sapp_assoc. apply HasPrefix_app. }
  change ("/" +:+ name) with (String "/" name).
  rewrite Split_app_sep, (Split_none name), foldl_app by done. cbn [foldl].
  unfold Clean in Hclean. rewrite Habs in Hclean. set (st := foldl _ _ (Split dir "/")) in *.
  unfold clean_step. destruct (String.eqb_spec name "") as [->|]; [set_solver|].
  destruct (String.eqb_spec name ".") as [->|]; [set_solver|].
  destruct (String.eqb_spec name "..") as [->|]; [set_solver|]. cbn [orb].
  rewrite reverse_cons. destruct st as [|x st].
  { simpl in Hclean. by destruct Hroot. }
  rewrite Join_snoc; [|by rewrite reverse_cons; destruct (reverse st)].
  rewrite <- sapp_assoc. by rewrite Hclean.
Qed.

Lemma host_name_ok name : (HostPrefix +:+ name) ∉ [""; "."; ".."].
Proof. rewrite !not_elem_of_cons. split_and!; [done..|apply not_elem_of_nil]. Qed.

(** ** What the calls do to the directories *)

(** [q] is [p] or below it. *)
Definition under (p q : string) : Prop := q = p ∨ HasPrefix q (p +:+ "/") = true.

Class FilesLaws (W : Type) `{OS W, Files W} := {
  dirs : W → gset string;
  Stat_law path w : os_stat path w = StatDir ↔ path ∈ dirs w;
  MkdirAll_law path mode w :
    dirs w ⊆ dirs (os_MkdirAll path mode w).2 ∧
    ((os_MkdirAll path mode w).1 = None → path ∈ dirs (os_MkdirAll path mode w).2);
  Chmod_law path mode w : dirs (os_Chmod path mode w).2 = dirs w;
  RemoveAll_law path w :
    (∀ q, ¬ under path q → q ∈ dirs (os_RemoveAll path w).2 ↔ q ∈ dirs w) ∧
    ((os_RemoveAll path w).1 = None → ∀ q, under path q → q ∉ dirs (os_RemoveAll path w).2);
  umount_law path w q : ¬ under path q → q ∈ dirs (os_run "umount" [path] w).2 ↔ q ∈ dirs w
}.

Section correct.
Context {W : Type} `{FilesLaws W} (cfg : Settings).

Lemma wp_file_op (f : W → option error * W) (Q : option error → Node W → Prop) n :
  Q (f (nd_world n)).1 (mkNode (nd_locks n) (nd_parts n) (f (nd_world n)).2 (nd_trace n)) →
  wp (file_op f) Q n.
Proof. unfold wp, file_op. by destruct (f (nd_world n)). Qed.

Lemma wp_DirExists path (Q : bool → Node W → Prop) n :
  os_stat path (nd_world n) ≠ StatError →
  Q (bool_decide (path ∈ dirs (nd_world n))) n → wp (DirExists path) Q n.
Proof.
  intros He HQ. pose proof (Stat_law path (nd_world n)) as Hs. unfold DirExists, exists_, wp, mbind, M_bind.
  destruct (os_stat path (nd_world n)) eqn:E; simpl; try done.
  1,2,4: rewrite bool_decide_eq_false_2 in HQ; [done|]; intros ?%Hs; done.
  rewrite bool_decide_eq_true_2 in HQ; [done|]. by apply Hs.
Qed.

Lemma wp_UnbindMount path n :
  wp (UnbindMount path) (λ _ n', nd_locks n' = nd_locks n ∧
    ∀ q, ¬ under path q → q ∈ dirs (nd_world n') ↔ q ∈ dirs (nd_world n)) n.
Proof.
  unfold UnbindMount. apply wp_bind. unfold exists_, wp at 1.
  assert (∀ b : bool, wp (if negb b then mret (Some (ErrString ("目标目录不存在或不是一个目录: " +:+ path)))
    else r ← spawn "umount" [path];
      match proc_error (pr_end r) with
      | Some e => mret (Some (ErrString ("解除绑定挂载失败: " +:+ Error e +:+ ", 输出: " +:+ pr_both r)))
      | None => mret None
      end) (λ _ n', nd_locks n' = nd_locks n ∧
    ∀ q, ¬ under path q → q ∈ dirs (nd_world n') ↔ q ∈ dirs (nd_world n)) n) as Hb; [|by destruct (os_stat _ _)].
  intros []; cbn [negb]; [|by apply wp_ret]. apply wp_bind. unfold wp, spawn.
  pose proof (umount_law path (nd_world n)) as Hu. destruct (os_run _ _ _) as [r w].
  by destruct (proc_error (pr_end r)).
Qed.

Section locked.
Context (n : Node W) (Hlock : LocalHostImplement.VOLUMEMUTEX ∉ nd_locks n).

Lemma wp_host_locked (body : M (Node W) (option error)) (Q : option error → gset string → Prop) :
  (∀ n1, nd_world n1 = nd_world n → nd_locks n1 = {[LocalHostImplement.VOLUMEMUTEX]} ∪ nd_locks n →
    wp body (λ e n2, nd_locks n2 = nd_locks n1 ∧ Q e (dirs (nd_world n2))) n1) →
  wp (LocalHostImplement.locked body) (λ e n', nd_locks n' = nd_locks n ∧ Q e (dirs (nd_world n'))) n.
Proof.
  intros Hb. apply wp_with_lock; [done|]. eapply wp_mono; [by apply Hb|].
  intros e n2 [Hl HQ]. simpl. split; [|done]. rewrite Hl. simpl. set_solver.
Qed.

(** A host volume is the directory <group path>/host-<name>.  Creating
    it leaves every existing directory in place and, on success, that one
    exists; deleting it removes, on success, that directory and what is below
    it, and never anything outside of it. *)
Theorem host_volume_directory (name deviceGroup dir : string)
    (Hdir : LocalHostImplement.work_dir deviceGroup (DiskSelector cfg) = inl dir)
    (Habs : IsAbs dir = true) (Hclean : Clean dir = dir) (Hroot : dir ≠ "/")
    (Hname : has_char "/" name = false)
    (Hstat : os_stat (dir +:+ "/" +:+ HostPrefix +:+ name) (nd_world n) ≠ StatError) :
  let device := dir +:+ "/" +:+ HostPrefix +:+ name in
  wp (LocalHostImplement.CreateVolume cfg name deviceGroup) (λ err n', nd_locks n' = nd_locks n ∧
    (dirs (nd_world n) ⊆ dirs (nd_world n') ∧ (err = None → device ∈ dirs (nd_world n')))) n ∧
  wp (LocalHostImplement.DeleteVolume cfg name deviceGroup) (λ err n', nd_locks n' = nd_locks n ∧
    ((∀ q, ¬ under device q → q ∈ dirs (nd_world n') ↔ q ∈ dirs (nd_world n)) ∧
     (err = None → device ∉ dirs (nd_world n')))) n.
Proof.
  intros device. unfold LocalHostImplement.CreateVolume, LocalHostImplement.DeleteVolume.
  assert (Join2 dir (HostPrefix +:+ name) = device) as Hj.
  { apply Join2_inside; [done..| |apply host_name_ok]. by rewrite has_char_app. }
  rewrite Hdir. cbv zeta. rewrite Hj. split.
  - apply (wp_host_locked _ (λ e ds, dirs (nd_world n) ⊆ ds ∧ (e = None → device ∈ ds))).
    intros n1 Hw Hl. rewrite <- Hw. apply wp_bind, wp_DirExists; [by rewrite Hw|].
    case_bool_decide as Hin; [by apply wp_ret|]. apply wp_bind, wp_file_op.
    destruct (MkdirAll_law device perm_all (nd_world n1)) as [Hsub Hok].
    destruct (os_MkdirAll device perm_all (nd_world n1)) as [[e|] w]; cbn [fst snd] in *; [by apply wp_ret|].
    apply wp_file_op. cbn [nd_world]. rewrite Chmod_law. auto.
  - apply (wp_host_locked _ (λ e ds, (∀ q, ¬ under device q → q ∈ ds ↔ q ∈ dirs (nd_world n)) ∧
                                      (e = None → device ∉ ds))).
    intros n1 Hw Hl. rewrite <- Hw. apply wp_bind, wp_DirExists; [by rewrite Hw|].
    case_bool_decide as Hin; cbn [negb]; [|by apply wp_ret]. apply wp_bind.
    eapply wp_mono; [apply wp_UnbindMount|]. intros _ n2 [Hl2 Hd2]. apply wp_file_op.
    destruct (RemoveAll_law device (nd_world n2)) as [Hkeep Hgone]. cbn [nd_locks nd_world].
    split; [done|]. split.
    + intros q Hq. by rewrite Hkeep, Hd2.
    + intros He. apply (Hgone He). by left.
Qed.
End locked.
End correct.

(** ** A file system of directories *)

#[export] Instance dir_sim_os : OS (gset string) := {|
  os_run _ _ w := (mkProc "" "" "" ExitOk, w);
  os_stat p w := if decide (p ∈ w) then StatDir else StatNotExist
|}.

#[export] Instance dir_sim : Files (gset string) := {|
  os_MkdirAll p _ w := (None, {[p]} ∪ w);
  os_Chmod _ _ w := (None, w);
  os_RemoveAll p w := (None, filter (λ q, ¬ (q = p ∨ HasPrefix q (p +:+ "/") = true)) w)
|}.

#[export] Instance dir_sim_laws : FilesLaws (gset string).
Proof.
  refine {| dirs w := w |}; intros; simpl; try done.
  - by case_decide.
  - set_solver.
  - unfold under. split; [|intros _]; intros q Hq; rewrite elem_of_filter; tauto.
Defined.

Definition host_settings : Settings :=
  mkSettings (mkDiskConfig [mkSelector "carina-host" ["/data/host"] "host" ""] 300 "") 300 "" [].

Definition host_node : Node (gset string) := mkNode ∅ ∅ {["/data/host"; "/data/host/host-old"]} [].

Lemma host_volume_directory_witness :
  (LocalHostImplement.DeleteVolume host_settings "old" "carina-host" host_node).1 = Done None ∧
  wp (LocalHostImplement.CreateVolume host_settings "old" "carina-host") (λ err n', nd_locks n' = ∅ ∧
    (dirs (nd_world host_node) ⊆ dirs (nd_world n') ∧
     (err = None → "/data/host/host-old" ∈ dirs (nd_world n')))) host_node.
Proof.
  split; [vm_compute; reflexivity|].
  refine (proj1 (host_volume_directory host_settings host_node _ "old" "carina-host" "/data/host"
    eq_refl eq_refl eq_refl _ eq_refl _)); [set_solver|discriminate|].
  vm_compute. discriminate.
Defined.

(** ** The controller and the node agree on the path *)

(** The device path the CSI controller hands out for a host volume is
    the directory the node creates for it, when group names are in lower case
    and distinct and the group's path is a clean absolute one. *)
Theorem host_path_agreement (cfg : Settings) (name deviceGroup dir : string) (sel : DiskSelectorItem)
    (Hsel : sel ∈ DiskSelector cfg) (Hgroup : ds_Name sel = deviceGroup)
    (Hpolicy : ToLower (ds_Policy sel) = HostVolumeType) (Hre : head (ds_Re sel) = Some dir)
    (Huniq : NoDup (ds_Name <$> DiskSelector cfg)) (Hlower : ToLower deviceGroup = deviceGroup)
    (Habs : IsAbs dir = true) (Hclean : Clean dir = dir) (Hroot : dir ≠ "/")
    (Hname : has_char "/" name = false) :
  LocalHostImplement.work_dir deviceGroup (DiskSelector cfg) = inl dir ∧
  GetHostDevicePath cfg deviceGroup +:+ "/host-" +:+ name = Join2 dir (HostPrefix +:+ name).
Proof.
  rewrite Join2_inside by (done || apply host_name_ok || by rewrite has_char_app).
  unfold GetHostDevicePath. rewrite Hlower. revert Hsel Huniq. generalize (DiskSelector cfg).
  intros l. induction l as [|v l IH]; intros Hin Hnd; [by apply not_elem_of_nil in Hin|].
  rewrite fmap_cons in Hnd. apply NoDup_cons in Hnd as [Hnot Hnd]. cbn [LocalHostImplement.work_dir List.find].
  apply elem_of_cons in Hin as [<-|Hin].
  - rewrite Hgroup, Hpolicy, !String.eqb_refl. cbn [andb].
    destruct (ds_Re sel) as [|p ps]; [done|]. injection Hre as ->. by rewrite Habs.
  - destruct (String.eqb_spec (ds_Name v) deviceGroup) as [E|]; cbn [andb]; [|by apply IH].
    destruct Hnot. rewrite E, <- Hgroup. apply list_elem_of_fmap. by exists sel.
Qed.

Lemma host_path_agreement_witness :
  LocalHostImplement.work_dir "carina-host" (DiskSelector host_settings) = inl "/data/host" ∧
  GetHostDevicePath host_settings "carina-host" +:+ "/host-" +:+ "pvc-1" = Join2 "/data/host" (HostPrefix +:+ "pvc-1").
Proof.
  apply (host_path_agreement host_settings "pvc-1" "carina-host" "/data/host"
    (mkSelector "carina-host" ["/data/host"] "host" "")); try reflexivity.
  - left.
  - apply NoDup_singleton.
  - discriminate.
Defined.
