(* ===== verification/Kube.v ===== *)
(** * The API server as the components see it, and [getter/retry_getter.go]

    Everything the cache and the API server answer is a parameter: other
    processes change the objects at any time, and every call may fail.  A read
    returns a [View], the answers at that moment; a write is an [api_call].
    A context is the number of timer ticks that fire, at each waiting loop,
    before its deadline does. *)

From S2P Require Import Prelude GoStrings Api GoRuntime Mutx Exec Utils Config NodeService.

#[local] Open Scope string_scope.
#[local] Open Scope list_scope.
#[local] Open Scope Z_scope.

(** A [PersistentVolume]: its name, phase and size, and its CSI source, if it
    has one, as the volume handle and the attributes. *)
Record PvObject := mkPvObject {
  po_Name : string;
  po_Phase : string;
  po_Storage : Z;
  po_CSI : option (string * gmap string string)
}.

(** A pod as the controllers read it; a volume is the name of its claim, or
    nothing when its source is another. *)
Record PodObject := mkPodObject {
  pd_Namespace : string;
  pd_Name : string;
  pd_Annotations : gmap string string;
  pd_Volumes : list (option string)
}.

(** A [PersistentVolumeClaim]: its labels and annotations; [pc_Spec] stands for
    the fields of the spec that are copied and never looked at. *)
Record PvcObject := mkPvcObject {
  pc_Namespace : string;
  pc_Name : string;
  pc_Metadata : gmap string string;
  pc_Spec : string;
  pc_StorageClassName : option string;
  pc_VolumeMode : option string
}.

(** A node's phase and conditions, as type and status. *)
Record NodeObject := mkNodeObject {
  no_Name : string;
  no_Deleting : bool;
  no_Phase : string;
  no_Conditions : list (string * string)
}.

(** The objects of other kinds the controllers read: volumes by name and all,
    pods by scheduler and node, claims, nodes, and all logic volumes. *)
Record Objects := mkObjects {
  ob_pv : string → res PvObject;
  ob_pvs : res (list PvObject);
  ob_pods : string → res (list PodObject);
  ob_pvc : string → string → res PvcObject;
  ob_nodes : res (list NodeObject);
  ob_lvs : res (list LogicVolume)
}.

Definition no_objects : Objects :=
  let absent := Some (ErrApi ReasonNotFound "not found") in
  mkObjects (λ _, (mkPvObject "" "" 0 None, absent)) ([], None) (λ _, ([], None))
    (λ _ _, (mkPvcObject "" "" ∅ "" None None, absent)) ([], None) ([], None).

Record View := mkView {
  vw_cache_lv : string → res LogicVolume;
  vw_api_lv : string → res LogicVolume;
  vw_cache_by_id : string → res (list LogicVolume);
  vw_cache_by_node : string → res (list LogicVolume);
  vw_api_lvs : res (list LogicVolume);
  vw_cache_nsr : string → res NodeStorageResource;
  vw_api_nsr : string → res NodeStorageResource;
  vw_cache_node : string → res KNode;
  vw_api_node : string → res KNode;
  vw_nodes : gmap string string → res (list KNode);
  vw_cache_pvc : string → string → res (gmap string string);
  vw_api_pvc : string → string → res (gmap string string);
  vw_objects : Objects
}.

(** The writes; [ApiPatch old new] is a merge patch from [old] to [new]. *)
Inductive api_call :=
| ApiCreate (lv : LogicVolume)
| ApiDelete (lv : LogicVolume)
| ApiUpdate (lv : LogicVolume)
| ApiUpdateStatus (lv : LogicVolume)
| ApiPatch (old new : LogicVolume)
| ApiNsrCreate (name : string)
| ApiNsrStatus (nsr : NodeStorageResource)
| ApiNsrDelete (name : string)
| ApiPodKill (namespace name : string)
| ApiPvcDelete (namespace name : string)
| ApiPvcCreate (pvc : PvcObject).

(** A process that talks to the API server. *)
Class KubeClient (St : Type) := {
  look : M St View;
  call : api_call → M St (option error);
  now : M St string
}.

(** [calls s] lists the writes issued so far; [seen s] the views read. *)
Class KubeLaws (St : Type) `{KubeClient St} := {
  calls : St → list api_call;
  seen : St → list View;
  look_law s : wp look (λ v s', calls s' = calls s ∧ seen s' = seen s ++ [v]) s;
  call_law c s : wp (call c) (λ _ s', calls s' = calls s ++ [c] ∧ seen s' = seen s) s;
  now_law s : wp now (λ _ s', calls s' = calls s ∧ seen s' = seen s) s
}.

(** The ticks before the deadline, by waiting loop, and [ctx.Err()]. *)
Record Ctx := mkCtx {
  ctx_ticks : nat → nat;
  ctx_err : error
}.

(** ** [RetryGetter] *)

(** The answer of the cache, or of the API server when the cache has no such
    object. *)
Definition retry_get {A} (cache api : res A) : res A :=
  match cache with
  | (_, None) => cache
  | (_, Some e) => if IsNotFound e then api else cache
  end.

Module RetryGetter.
Section getter.
Context {St : Type} `{KubeClient St}.

Definition Get {A} (cache api : View → res A) : M St (res A) :=
  v ← look;
  match cache v with
  | (a, None) => mret (a, None)
  | (a, Some e) =>
      if negb (IsNotFound e) then mret (a, Some e)
      else v ← look; mret (api v)
  end.

Definition Get_lv (name : string) : M St (res LogicVolume) :=
  Get (λ v, vw_cache_lv v name) (λ v, vw_api_lv v name).
Definition Get_node (name : string) : M St (res KNode) :=
  Get (λ v, vw_cache_node v name) (λ v, vw_api_node v name).
Definition Get_pvc (namespace name : string) : M St (res (gmap string string)) :=
  Get (λ v, vw_cache_pvc v namespace name) (λ v, vw_api_pvc v namespace name).
End getter.
End RetryGetter.

(** ** One process and its calls *)

Class Kube (C : Type) := {
  kube_view : C → View * C;
  kube_call : api_call → C → option error * C;
  kube_now : C → string
}.

(** A goroutine left running: the expansion of a cache volume. *)
Inductive job := JobExpandCache (lvName cacheDiskRatio : string) (requestGb : Z).

(** The CSI controller process. *)
Record Ctl (C : Type) := mkCtl {
  ct_locks : GlobalLocks.t;
  ct_calls : list api_call;
  ct_seen : list View;
  ct_jobs : list job;
  ct_world : C
}.
Arguments mkCtl {C}.
Arguments ct_locks {C}.
Arguments ct_calls {C}.
Arguments ct_seen {C}.
Arguments ct_jobs {C}.
Arguments ct_world {C}.

#[export] Instance Ctl_locks C : HasLocks (Ctl C) := {|
  get_locks := ct_locks;
  set_locks l s := mkCtl l (ct_calls s) (ct_seen s) (ct_jobs s) (ct_world s)
|}.

#[export] Instance Ctl_locks_laws C : HasLocksLaws (Ctl C).
Proof. by split. Qed.

#[export] Instance Ctl_client C `{Kube C} : KubeClient (Ctl C) := {|
  look s :=
    let '(v, w) := kube_view (ct_world s) in
    (Done v, mkCtl (ct_locks s) (ct_calls s) (ct_seen s ++ [v]) (ct_jobs s) w);
  call c s :=
    let '(e, w) := kube_call c (ct_world s) in
    (Done e, mkCtl (ct_locks s) (ct_calls s ++ [c]) (ct_seen s) (ct_jobs s) w);
  now s := (Done (kube_now (ct_world s)), s)
|}.

#[export] Instance Ctl_laws C `{Kube C} : KubeLaws (Ctl C).
Proof.
  refine {| calls := ct_calls; seen := ct_seen |}.
  - intros s. unfold wp. simpl. by destruct (kube_view _).
  - intros c s. unfold wp. simpl. by destruct (kube_call _ _).
  - done.
Defined.

(** [go f]. *)
Definition go {C} (j : job) : M (Ctl C) unit := λ s,
  (Done (), mkCtl (ct_locks s) (ct_calls s) (ct_seen s) (ct_jobs s ++ [j]) (ct_world s)).

Lemma keeps_look `{Kube C} : keeps_locks (look : M (Ctl C) View).
Proof. intros s. simpl. by destruct (kube_view _). Qed.
Lemma keeps_call `{Kube C} c : keeps_locks (call c : M (Ctl C) (option error)).
Proof. intros s. simpl. by destruct (kube_call _ _). Qed.
Lemma keeps_now `{Kube C} : keeps_locks (now : M (Ctl C) string).
Proof. done. Qed.
Lemma keeps_go {C} j : keeps_locks (go (C:=C) j).
Proof. done. Qed.
#[export] Hint Resolve keeps_look keeps_call keeps_now keeps_go : go_db.

Lemma keeps_Get `{Kube C} {A} (cache api : View → res A) :
  keeps_locks (RetryGetter.Get (St:=Ctl C) cache api).
Proof. unfold RetryGetter.Get. keeps. Qed.
#[export] Hint Resolve keeps_Get : go_db.
