(* ===== verification/LogicVolumeService.v ===== *)
(** * [pkg/csidriver/driver/k8s/logicvolume_service.go]

    The controller's half of the protocol with the nodes: it writes
    [LogicVolume] objects and waits for the node to fill in their status. *)

From S2P Require Import Prelude GoStrings Api GoRuntime Mutx Exec Utils Config NodeService Kube.

#[local] Open Scope string_scope.
#[local] Open Scope list_scope.
#[local] Open Scope Z_scope.

Module LogicVolumeService.

(** A volume id and the device numbers. *)
Abbreviation volume_ids := (string * Z * Z)%type.
Definition none_created : volume_ids := ("", 0, 0).

Section service.
Context {St : Type} `{KubeClient St}.

Definition multiple (volumeID : string) : error :=
  ErrString ("multiple LogicVolume is found for VolumeID " +:+ volumeID).

(** [GetByVolumeId].  In the fallback the address of the loop variable is
    kept, so that what is returned is the variable's last value: the last
    volume of the list, not the one that matched. *)
Definition GetLogicVolumeByVolumeId (volumeID : string) : M St (res (option LogicVolume)) :=
  v ← look;
  match vw_cache_by_id v volumeID with
  | (_, Some e) => mret (None, Some e)
  | (_ :: _ :: _, None) => mret (None, Some (multiple volumeID))
  | ([lv], None) => mret (Some lv, None)
  | ([], None) =>
      v ← look;
      match vw_api_lvs v with
      | (_, Some e) => mret (None, Some e)
      | (items, None) =>
          let count := length (List.filter (λ lv, String.eqb (st_VolumeID (lv_Status lv)) volumeID) items) in
          let foundLv := match count with O => None | S _ => last items end in
          if (1 <? count)%nat then mret (None, Some (multiple volumeID))
          else match foundLv with
               | None => mret (None, Some ErrVolumeNotFound)
               | Some lv => mret (Some lv, None)
               end
      end
  end.

(** [GetByNodeName]. *)
Definition GetLogicVolumesByNodeName (nodeName : string) (tryReader : bool) : M St (res (list LogicVolume)) :=
  v ← look;
  match vw_cache_by_node v nodeName with
  | (_, Some e) => mret ([], Some e)
  | ((_ :: _) as items, None) => mret (items, None)
  | ([], None) =>
      if negb tryReader then mret ([], None)
      else
        v ← look;
        match vw_api_lvs v with
        | (_, Some e) => mret ([], Some e)
        | (items, None) =>
            mret (List.filter (λ lv, String.eqb (ls_NodeName (lv_Spec lv)) nodeName) items, None)
        end
  end.

(** *** Creating *)

Definition new_lv (namespace pvc node deviceGroup pvName : string) (requestGb : Z)
    (owner : OwnerReference) (annotation : gmap string string) : LogicVolume :=
  mkLogicVolume "LogicVolume" "carina.storage.io/v1" pvName "" annotation [LogicVolumeFinalizer]
    (if String.eqb (or_Name owner) "" then [] else [owner]) false ""
    (mkLvSpec node (i64 (Z.shiftl requestGb 30)) deviceGroup pvc namespace) zero_LvStatus.

(** The loop that waits for the node to set the volume id or an error code. *)
Fixpoint wait_created (ticks : nat) (ctxErr : error) (pvName : string) : M St (res volume_ids) :=
  match ticks with
  | O => mret (none_created, Some ctxErr)
  | S ticks' =>
      r ← RetryGetter.Get_lv pvName;
      match r with
      | (_, Some e) => mret (none_created, Some e)
      | (newLV, None) =>
          let st := lv_Status newLV in
          if negb (String.eqb (st_VolumeID st) "") then
            mret ((st_VolumeID st, st_DeviceMajor st, st_DeviceMinor st), None)
          else if bool_decide (st_Code st = OK) then wait_created ticks' ctxErr pvName
          else
            _ ← call (ApiDelete newLV);
            mret (none_created, Some (ErrStatus (st_Code st) (st_Message st)))
      end
  end.

Definition CreateVolume (ctx : Ctx) (namespace pvc node deviceGroup pvName : string) (requestGb : Z)
    (owner : OwnerReference) (annotation : gmap string string) : M St (res volume_ids) :=
  let lv := new_lv namespace pvc node deviceGroup pvName requestGb owner annotation in
  r ← RetryGetter.Get_lv pvName;
  match r with
  | (_, Some e) =>
      if negb (IsNotFound e) then mret (none_created, Some e)
      else
        err ← call (ApiCreate lv);
        match err with
        | Some e => mret (none_created, Some e)
        | None => wait_created (ctx_ticks ctx 0) (ctx_err ctx) pvName
        end
  | (existingLV, None) =>
      if negb (IsCompatibleWith existingLV lv) then
        mret (none_created, Some (ErrStatus AlreadyExists "Incompatible LogicVolume already exists"))
      else wait_created (ctx_ticks ctx 0) (ctx_err ctx) pvName
  end.

(** *** Deleting *)

Fixpoint wait_deleted (ticks : nat) (ctxErr : error) (name : string) : M St (option error) :=
  match ticks with
  | O => mret (Some ctxErr)
  | S ticks' =>
      r ← RetryGetter.Get_lv name;
      match r.2 with
      | Some e => if IsNotFound e then mret None else mret (Some e)
      | None => wait_deleted ticks' ctxErr name
      end
  end.

Definition DeleteVolume (ctx : Ctx) (volumeID : string) : M St (option error) :=
  r ← GetLogicVolumeByVolumeId volumeID;
  match r with
  | (_, Some e) => if decide (e = ErrVolumeNotFound) then mret None else mret (Some e)
  | (None, None) => panic nil_deref
  | (Some lv, None) =>
      if lv_Deleting lv then mret (Some (ErrString "lv is being deleted"))
      else
        err ← call (ApiDelete lv);
        match err with
        | Some e => if IsNotFound e then mret None else mret (Some e)
        | None =>
            r ← RetryGetter.Get_node (ls_NodeName (lv_Spec lv));
            match r.2 with
            | Some e => mret (Some e)
            | None => wait_deleted (ctx_ticks ctx 1) (ctx_err ctx) (lv_Name lv)
            end
        end
  end.

(** *** Sizes *)

(** The retry loops of the two updates; a conflict starts over. *)
Fixpoint update_status_size (ticks : nat) (ctxErr : error) (volumeID : string) (size : Z)
  : M St (option error) :=
  match ticks with
  | O => mret (Some ctxErr)
  | S ticks' =>
      r ← GetLogicVolumeByVolumeId volumeID;
      match r with
      | (_, Some e) => mret (Some e)
      | (None, None) => panic nil_deref
      | (Some lv, None) =>
          err ← call (ApiUpdateStatus (set_lv_Status (set_st_CurrentSize (Some size) (lv_Status lv)) lv));
          match err with
          | Some e => if IsConflict e then update_status_size ticks' ctxErr volumeID size else mret (Some e)
          | None => mret None
          end
      end
  end.

Definition UpdateLogicVolumeCurrentSize (ctx : Ctx) (volumeID : string) (size : Z) : M St (option error) :=
  update_status_size (ctx_ticks ctx 2) (ctx_err ctx) volumeID size.

Fixpoint update_spec_size (ticks : nat) (ctxErr : error) (volumeID : string) (size : Z)
  : M St (option error) :=
  match ticks with
  | O => mret (Some ctxErr)
  | S ticks' =>
      r ← GetLogicVolumeByVolumeId volumeID;
      match r with
      | (_, Some e) => mret (Some e)
      | (None, None) => panic nil_deref
      | (Some lv, None) =>
          t ← now;
          let lv := set_lv_Spec (set_ls_Size size (lv_Spec lv)) lv in
          let lv := set_lv_Annotations (<[ResizeRequestedAtKey := t]> (lv_Annotations lv)) lv in
          err ← call (ApiUpdate lv);
          match err with
          | Some e => if IsConflict e then update_spec_size ticks' ctxErr volumeID size else mret (Some e)
          | None => mret None
          end
      end
  end.

Definition UpdateLogicVolumeSpecSize (ctx : Ctx) (volumeID : string) (size : Z) : M St (option error) :=
  update_spec_size (ctx_ticks ctx 3) (ctx_err ctx) volumeID size.

(** The loop that waits for the node to reach the requested size; the code of
    the status is looked at only once the sizes agree. *)
Fixpoint wait_expanded (ticks : nat) (ctxErr : error) (name : string) : M St (option error) :=
  match ticks with
  | O => mret (Some ctxErr)
  | S ticks' =>
      r ← RetryGetter.Get_lv name;
      match r with
      | (_, Some e) => mret (Some e)
      | (changedLV, None) =>
          let st := lv_Status changedLV in
          match st_CurrentSize st with
          | None => mret (Some (ErrString "status.currentSize should not be nil"))
          | Some cur =>
              if negb (cur =? ls_Size (lv_Spec changedLV)) then wait_expanded ticks' ctxErr name
              else if negb (bool_decide (st_Code st = OK)) then
                mret (Some (ErrStatus (st_Code st) (st_Message st)))
              else mret None
          end
      end
  end.

Definition ExpandVolume (ctx : Ctx) (volumeID : string) (requestGb : Z) : M St (option error) :=
  r ← GetLogicVolumeByVolumeId volumeID;
  match r with
  | (_, Some e) => mret (Some e)
  | (None, None) => panic nil_deref
  | (Some lv, None) =>
      r ← RetryGetter.Get_node (ls_NodeName (lv_Spec lv));
      match r.2 with
      | Some e => mret (Some e)
      | None =>
          err ← UpdateLogicVolumeSpecSize ctx volumeID (i64 (Z.shiftl requestGb 30));
          match err with
          | Some e => mret (Some e)
          | None => wait_expanded (ctx_ticks ctx 4) (ctx_err ctx) (lv_Name lv)
          end
      end
  end.
End service.
End LogicVolumeService.

Import LogicVolumeService.

(** ** What the service reads and writes *)

Section correct.
Context {St : Type} `{KubeLaws St}.

(** Some view read so far answers [r] to the question, from the cache or from
    the API server. *)
Definition answered {A} (cache api : View → res A) (s : St) (r : res A) : Prop :=
  ∃ v, v ∈ seen s ∧ (cache v = r ∨ api v = r).

Definition observed (name : string) : St → res LogicVolume → Prop :=
  answered (λ v, vw_cache_lv v name) (λ v, vw_api_lv v name).

(** [m] only reads, and what it returns satisfies [P]. *)
Definition only_reads {A} (m : M St A) (P : A → St → Prop) : Prop :=
  ∀ s, wp m (λ a s', calls s' = calls s ∧ (∃ vs, seen s' = seen s ++ vs) ∧ P a s') s.

Lemma answered_mono {A} (cache api : View → res A) s s' vs r :
  seen s' = seen s ++ vs → answered cache api s r → answered cache api s' r.
Proof. intros Hs (v & Hv & Hr). exists v. rewrite Hs. split; [set_solver|done]. Qed.

Lemma wp_Get {A} (cache api : View → res A) :
  only_reads (RetryGetter.Get cache api) (λ r s', answered cache api s' r).
Proof.
  intros s. unfold RetryGetter.Get. apply wp_bind. eapply wp_mono; [apply look_law|].
  intros v s1 [Hc1 Hs1].
  assert (∀ r, cache v = r → answered cache api s1 r) as Hobs.
  { intros r Hr. exists v. rewrite Hs1. split; [set_solver|by left]. }
  destruct (cache v) as [a [e|]].
  - destruct (IsNotFound e); cbn [negb].
    + apply wp_bind. eapply wp_mono; [apply look_law|]. intros v2 s2 [Hc2 Hs2]. apply wp_ret.
      rewrite Hc2, Hs2, Hs1. split; [done|]. split; [exists [v; v2]; by rewrite <- app_assoc|].
      exists v2. rewrite Hs2. split; [set_solver|by right].
    + apply wp_ret. rewrite Hc1, Hs1. split; [done|]. split; [by exists [v]|by apply Hobs].
  - apply wp_ret. rewrite Hc1, Hs1. split; [done|]. split; [by exists [v]|by apply Hobs].
Qed.

(** *** Creating *)

(** What the waiting loop may do: nothing but read, unless the node reported a
    failure, in which case the object is deleted. *)
Definition wait_outcome (name : string) (ctxErr : error) (cs : list api_call) (r : res volume_ids) (s' : St) : Prop :=
  match r with
  | ((id, major, minor), None) =>
      cs = [] ∧ id ≠ "" ∧
      ∃ o, observed name s' (o, None) ∧ st_VolumeID (lv_Status o) = id ∧
        st_DeviceMajor (lv_Status o) = major ∧ st_DeviceMinor (lv_Status o) = minor
  | (_, Some e) =>
      (cs = [] ∧ (e = ctxErr ∨ ∃ o, observed name s' (o, Some e))) ∨
      ∃ o, observed name s' (o, None) ∧ cs = [ApiDelete o] ∧
        st_VolumeID (lv_Status o) = "" ∧ st_Code (lv_Status o) ≠ OK ∧
        e = ErrStatus (st_Code (lv_Status o)) (st_Message (lv_Status o))
  end.

Lemma wait_created_spec ticks ctxErr name s :
  wp (wait_created ticks ctxErr name) (λ r s', ∃ cs vs,
    calls s' = calls s ++ cs ∧ seen s' = seen s ++ vs ∧ wait_outcome name ctxErr cs r s') s.
Proof.
  revert s. induction ticks as [|ticks IH]; intros s; cbn [wait_created].
  { apply wp_ret. exists [], []. rewrite !app_nil_r. split_and!; [done..|]. simpl. left. auto. }
  apply wp_bind. eapply wp_mono; [apply wp_Get|]. intros [o [e|]] s1 (Hc1 & [vs1 Hs1] & Ho).
  { apply wp_ret. exists [], vs1. rewrite app_nil_r. split_and!; [done..|]. simpl. left. eauto. }
  cbv zeta. destruct (String.eqb_spec (st_VolumeID (lv_Status o)) "") as [Hid|Hid]; cbn [negb]; last first.
  { apply wp_ret. exists [], vs1. rewrite app_nil_r. split_and!; [done..|]. split; [done|]. split; [done|]. eauto. }
  case_bool_decide as Hcode.
  - eapply wp_mono; [apply IH|]. intros r s2 (cs & vs & Hc2 & Hs2 & Hw).
    exists cs, (vs1 ++ vs). rewrite Hc2, Hs2, Hc1, Hs1, app_assoc. done.
  - apply wp_bind. eapply wp_mono; [apply call_law|]. intros _ s2 [Hc2 Hs2]. apply wp_ret.
    exists [ApiDelete o], vs1. rewrite Hc2, Hs2, Hc1, Hs1. split; [done|]. split; [done|]. right.
    exists o. split; [|done]. eapply answered_mono with (vs := []); [|exact Ho]. by rewrite app_nil_r.
Qed.

(** [CreateVolume] writes at most one new object, and deletes an object only
    when the node reported a failure for it. *)
Lemma CreateVolume_spec (ctx : Ctx) (namespace pvc node deviceGroup pvName : string) (requestGb : Z)
    (owner : OwnerReference) (annotation : gmap string string) (s : St) :
  let lv := new_lv namespace pvc node deviceGroup pvName requestGb owner annotation in
  wp (CreateVolume ctx namespace pvc node deviceGroup pvName requestGb owner annotation) (λ r s',
    (∃ vs, seen s' = seen s ++ vs) ∧
    ∃ pre cs, calls s' = calls s ++ pre ++ cs ∧ (pre = [] ∨ pre = [ApiCreate lv]) ∧
      ((cs = [] ∧ ∃ e, r = (none_created, Some e)) ∨ wait_outcome pvName (ctx_err ctx) cs r s')) s.
Proof.
  intros lv. unfold CreateVolume. apply wp_bind. eapply wp_mono; [apply wp_Get|].
  intros [o [e|]] s1 (Hc1 & [vs1 Hs1] & _).
  - destruct (IsNotFound e); cbn [negb].
    + apply wp_bind. eapply wp_mono; [apply call_law|]. intros [e2|] s2 [Hc2 Hs2].
      { apply wp_ret. rewrite Hs2. split; [by eexists|]. exists [ApiCreate lv], []. rewrite Hc2, Hc1. eauto 10. }
      eapply wp_mono; [apply wait_created_spec|]. intros r s3 (cs & vs & Hc3 & Hs3 & Hw).
      split; [rewrite Hs3, Hs2, Hs1, <- app_assoc; by eexists|].
      exists [ApiCreate lv], cs. rewrite Hc3, Hc2, Hc1, <- app_assoc. auto.
    + apply wp_ret. split; [by eexists|]. exists [], []. rewrite !app_nil_r. eauto 10.
  - destruct (IsCompatibleWith o _); cbn [negb].
    + eapply wp_mono; [apply wait_created_spec|]. intros r s3 (cs & vs & Hc3 & Hs3 & Hw).
      split; [rewrite Hs3, Hs1, <- app_assoc; by eexists|]. exists [], cs. rewrite Hc3, Hc1. auto.
    + apply wp_ret. split; [by eexists|]. exists [], []. rewrite !app_nil_r. eauto 10.
Qed.

(** *** Deleting *)

Lemma wait_deleted_spec ticks ctxErr name :
  only_reads (wait_deleted ticks ctxErr name) (λ err s',
    err = None → ∃ o e, observed name s' (o, Some e) ∧ IsNotFound e = true).
Proof.
  induction ticks as [|ticks IH]; intros s; cbn [wait_deleted].
  { apply wp_ret. split; [done|]. split; [exists []; by rewrite app_nil_r|done]. }
  apply wp_bind. eapply wp_mono; [apply wp_Get|]. intros [o [e|]] s1 (Hc1 & [vs1 Hs1] & Ho); cbn [snd].
  - destruct (IsNotFound e) eqn:En; apply wp_ret; (split; [done|]); (split; [by exists vs1|]); [|done].
    intros _. by exists o, e.
  - eapply wp_mono; [apply IH|]. intros r s2 (Hc2 & [vs2 Hs2] & Hr). rewrite Hc2, Hs2, Hs1.
    split; [done|]. split; [exists (vs1 ++ vs2); by rewrite app_assoc|done].
Qed.

(** What a lookup by volume id returns. *)
Lemma GetLogicVolumeByVolumeId_spec id :
  only_reads (GetLogicVolumeByVolumeId id) (λ r s',
    match r with
    | (Some lv, None) => ∃ v, v ∈ seen s' ∧
        (vw_cache_by_id v id = ([lv], None) ∨
         ∃ items, vw_api_lvs v = (items, None) ∧ last items = Some lv ∧
           ∃ m, m ∈ items ∧ st_VolumeID (lv_Status m) = id)
    | (None, None) => False
    | (_, Some _) => True
    end).
Proof.
  intros s. unfold GetLogicVolumeByVolumeId. apply wp_bind. eapply wp_mono; [apply look_law|].
  intros v s1 [Hc1 Hs1].
  assert (∃ vs, seen s1 = seen s ++ vs) as Hvs by (by exists [v]).
  destruct (vw_cache_by_id v id) as [l [e|]] eqn:Ec; [by destruct l as [|? [|? ?]]; apply wp_ret|].
  destruct l as [|lv [|lv2 l]].
  - apply wp_bind. eapply wp_mono; [apply look_law|]. intros v2 s2 [Hc2 Hs2].
    assert (∃ vs, seen s2 = seen s ++ vs) as Hvs2 by (exists [v; v2]; by rewrite Hs2, Hs1, <- app_assoc).
    destruct (vw_api_lvs v2) as [items [e|]] eqn:Ea; [apply wp_ret; by rewrite Hc2|]. cbv zeta.
    destruct (List.filter _ items) as [|m ms] eqn:Ef; [apply wp_ret; by rewrite Hc2|].
    destruct (1 <? length (m :: ms))%nat; [apply wp_ret; by rewrite Hc2|].
    assert (In m items ∧ String.eqb (st_VolumeID (lv_Status m)) id = true) as [Hm Hid%String.eqb_eq].
    { apply (filter_In (λ lv, String.eqb (st_VolumeID (lv_Status lv)) id)). rewrite Ef. by left. }
    cbn [length]. destruct (last items) as [lv|] eqn:El; apply wp_ret; rewrite Hc2; (split; [done|]);
      (split; [done|]); [|done]. exists v2. rewrite Hs2. split; [set_solver|]. right. exists items.
    split; [done|]. split; [done|]. exists m. by rewrite list_elem_of_In.
  - apply wp_ret. split; [done|]. split; [done|]. exists v. rewrite Hs1. split; [set_solver|by left].
  - apply wp_ret. auto.
Qed.

(** *** Sizes *)

(** The writes of an update of a size. *)
Definition writes_size (status : bool) (size : Z) (c : api_call) : Prop :=
  match c with
  | ApiUpdateStatus o => status = true ∧ st_CurrentSize (lv_Status o) = Some size
  | ApiUpdate o => status = false ∧ ls_Size (lv_Spec o) = size
  | _ => False
  end.

(** [m] writes only objects in [P] and, when it succeeds, does. *)
Definition only_writes (m : M St (option error)) (P : api_call → Prop) : Prop :=
  ∀ s, wp m (λ err s', (∃ vs, seen s' = seen s ++ vs) ∧
    ∃ cs, calls s' = calls s ++ cs ∧ Forall P cs ∧ (err = None → cs ≠ [])) s.

Lemma only_writes_fails e P : only_writes (mret (Some e)) P.
Proof. intros s. apply wp_ret. split; [exists []; by rewrite app_nil_r|]. exists []. by rewrite app_nil_r. Qed.

(** A write that starts over on a conflict. *)
Lemma only_writes_retry c (again : M St (option error)) P s :
  P c → only_writes again P →
  wp (err ← call c; match err with
                    | Some e => if IsConflict e then again else mret (Some e)
                    | None => mret None
                    end)
     (λ err s', (∃ vs, seen s' = seen s ++ vs) ∧
        ∃ cs, calls s' = calls s ++ cs ∧ Forall P cs ∧ (err = None → cs ≠ [])) s.
Proof.
  intros Hc Hagain. apply wp_bind. eapply wp_mono; [apply call_law|]. intros err s1 [Hc1 Hs1].
  assert (∃ vs, seen s1 = seen s ++ vs) as Hvs by (exists []; by rewrite app_nil_r).
  destruct err as [e|]; [destruct (IsConflict e)|].
  - eapply wp_mono; [apply Hagain|]. intros err s2 ([vs Hs2] & cs & Hc2 & Hall & _).
    rewrite Hs2, Hs1. split; [by exists vs|]. exists (c :: cs). rewrite Hc2, Hc1, <- app_assoc.
    split; [done|]. split; [by constructor|done].
  - apply wp_ret. split; [done|]. exists [c]. split; [done|]. split; [by repeat constructor|done].
  - apply wp_ret. split; [done|]. exists [c]. split; [done|]. split; [by repeat constructor|done].
Qed.

(** The same after reads. *)
Lemma only_writes_after {A} (m : M St A) (k : A → M St (option error)) P Q :
  only_reads m Q → (∀ a s, Q a s → wp (k a) (λ err s', (∃ vs, seen s' = seen s ++ vs) ∧
    ∃ cs, calls s' = calls s ++ cs ∧ Forall P cs ∧ (err = None → cs ≠ [])) s) →
  only_writes (m ≫= k) P.
Proof.
  intros Hm Hk s. apply wp_bind. eapply wp_mono; [apply Hm|]. intros a s1 (Hc1 & [vs1 Hs1] & Ha).
  eapply wp_mono; [by apply Hk|]. intros err s2 ([vs Hs2] & cs & Hcs).
  rewrite Hs2, Hs1, <- app_assoc. split; [by eexists|]. exists cs. by rewrite <- Hc1.
Qed.

Lemma update_status_size_spec ticks e id size :
  only_writes (update_status_size ticks e id size) (writes_size true size).
Proof.
  induction ticks as [|ticks IH]; cbn [update_status_size]; [apply only_writes_fails|].
  eapply only_writes_after; [apply GetLogicVolumeByVolumeId_spec|].
  intros [[lv|] [err|]] s Hr; [apply only_writes_fails| |apply only_writes_fails|done].
  apply only_writes_retry; [|done].
  split; [done|]. by destruct lv as [? ? ? ? ? ? ? ? ? [] []].
Qed.

Lemma update_spec_size_spec ticks e id size :
  only_writes (update_spec_size ticks e id size) (writes_size false size).
Proof.
  induction ticks as [|ticks IH]; cbn [update_spec_size]; [apply only_writes_fails|].
  eapply only_writes_after; [apply GetLogicVolumeByVolumeId_spec|].
  intros [[lv|] [err|]] s Hr; [apply only_writes_fails| |apply only_writes_fails|done].
  apply wp_bind. eapply wp_mono; [apply now_law|]. intros t s1 [<- <-]. apply only_writes_retry; [|done].
  split; [done|]. by destruct lv as [? ? ? ? ? ? ? ? ? [] []].
Qed.

Lemma wait_expanded_spec ticks e name :
  only_reads (wait_expanded ticks e name) (λ err s', err = None →
    ∃ o, observed name s' (o, None) ∧ st_CurrentSize (lv_Status o) = Some (ls_Size (lv_Spec o)) ∧
      st_Code (lv_Status o) = OK).
Proof.
  induction ticks as [|ticks IH]; intros s; cbn [wait_expanded].
  { apply wp_ret. split; [done|]. split; [exists []; by rewrite app_nil_r|done]. }
  apply wp_bind. eapply wp_mono; [apply wp_Get|]. intros [o [err|]] s1 (Hc1 & Hs1 & Ho).
  { apply wp_ret. done. }
  cbv zeta. destruct (st_CurrentSize (lv_Status o)) as [cur|] eqn:Hcur; [|by apply wp_ret].
  destruct (Z.eqb_spec cur (ls_Size (lv_Spec o))) as [->|Hne]; cbn [negb].
  - case_bool_decide as Hok; apply wp_ret; cbn; [|done]. split; [done|]. split; [done|]. intros _. by exists o.
  - eapply wp_mono; [apply IH|]. intros r s2 (Hc2 & [vs2 Hs2] & Hr). destruct Hs1 as [vs1 Hs1].
    rewrite Hc2, Hs2, Hs1. split; [done|]. split; [exists (vs1 ++ vs2); by rewrite app_assoc|done].
Qed.

(** [ExpandVolume] writes the new size into the spec, and succeeds once the
    node reports the size of the spec. *)
Definition expand_outcome (size : Z) (s : St) (err : option error) (s' : St) : Prop :=
  (∃ vs, seen s' = seen s ++ vs) ∧
  (∃ cs, calls s' = calls s ++ cs ∧ Forall (writes_size false size) cs ∧ (err = None → cs ≠ [])) ∧
  (err = None → ∃ name o, observed name s' (o, None) ∧
    st_CurrentSize (lv_Status o) = Some (ls_Size (lv_Spec o)) ∧ st_Code (lv_Status o) = OK).

Lemma ExpandVolume_spec ctx id requestGb s :
  wp (ExpandVolume ctx id requestGb) (expand_outcome (i64 (Z.shiftl requestGb 30)) s) s.
Proof.
  assert (∀ s1 (e : error), calls s1 = calls s → (∃ vs, seen s1 = seen s ++ vs) →
    wp (mret (Some e)) (expand_outcome (i64 (Z.shiftl requestGb 30)) s) s1) as Hfail.
  { intros s1 e Hc Hs. apply wp_ret. split; [done|]. split; [|done]. exists []. by rewrite app_nil_r. }
  unfold ExpandVolume. apply wp_bind. eapply wp_mono; [apply GetLogicVolumeByVolumeId_spec|].
  intros [[lv|] [e|]] s1 (Hc1 & Hs1 & Hr); [by apply Hfail| |by apply Hfail|done].
  apply wp_bind. eapply wp_mono; [apply wp_Get|]. intros [n [e|]] s2 (Hc2 & [vs2 Hs2] & _); cbn [snd].
  { apply Hfail; [congruence|]. destruct Hs1 as [vs1 Hs1]. exists (vs1 ++ vs2). by rewrite Hs2, Hs1, app_assoc. }
  destruct Hs1 as [vs1 Hs1]. apply wp_bind. eapply wp_mono; [apply update_spec_size_spec|].
  intros err s3 ([vs3 Hs3] & cs & Hc3 & Hall & Hne). rewrite Hc2, Hc1 in Hc3.
  rewrite Hs2, Hs1, <- !app_assoc in Hs3. destruct err as [e|].
  { apply wp_ret. split; [by eexists|]. split; [|done]. by exists cs. }
  eapply wp_mono; [apply wait_expanded_spec|]. intros err s4 (Hc4 & [vs4 Hs4] & Hr4).
  unfold expand_outcome. rewrite Hs4, Hs3, Hc4, <- !app_assoc. split; [by eexists|]. split; [exists cs; auto|].
  intros E. destruct (Hr4 E) as (o & Ho). by exists (lv_Name lv), o.
Qed.

(** The controller's [DeleteVolume] deletes at most one object.  It
    returns success only when the lookup said that there is no such volume, or
    the API server answered that the object is gone, to the deletion itself or
    to a later read. *)
Theorem service_delete_volume (ctx : Ctx) (id : string) (s : St) :
  wp (DeleteVolume ctx id) (λ err s',
    (calls s' = calls s ∨ ∃ lv, calls s' = calls s ++ [ApiDelete lv] ∧ lv_Deleting lv = false) ∧
    (err = None →
      calls s' = calls s ∨
      ∃ lv, calls s' = calls s ++ [ApiDelete lv] ∧
        ((∃ e s1, call (ApiDelete lv) s1 = (Done (Some e), s') ∧ calls s1 = calls s ∧ IsNotFound e = true) ∨
         ∃ o e, observed (lv_Name lv) s' (o, Some e) ∧ IsNotFound e = true))) s.
Proof.
  unfold DeleteVolume. apply wp_bind. eapply wp_mono; [apply GetLogicVolumeByVolumeId_spec|].
  intros [[lv|] [e|]] s1 (Hc1 & _ & Hlv); [..|done].
  1,3: by case_decide; apply wp_ret; auto.
  destruct (lv_Deleting lv) eqn:Hdel; [apply wp_ret; auto|]. apply wp_bind, wp_exists.
  destruct (proj1 (wp_exists _ _ _) (call_law (ApiDelete lv) s1)) as (err & s2 & Hrun & Hc2 & Hs2).
  exists err, s2. split; [done|]. rewrite Hc1 in Hc2. destruct err as [e|].
  - destruct (IsNotFound e) eqn:En; apply wp_ret; (split; [right; by exists lv|]); [|done].
    intros _. right. exists lv. split; [done|]. left. by exists e, s1.
  - apply wp_bind. eapply wp_mono; [apply wp_Get|]. intros [o [e|]] s3 (Hc3 & _ & _); cbn [snd].
    + apply wp_ret. rewrite Hc3, Hc2. split; [right; by exists lv|done].
    + eapply wp_mono; [apply wait_deleted_spec|]. intros r s4 (Hc4 & _ & Hr). rewrite Hc4, Hc3, Hc2.
      split; [right; by exists lv|]. intros Hn. right. exists lv. split; [done|]. right. by apply Hr.
Qed.

(** [C38] When the cache does not know a volume id yet and the API server is
    asked, the volume returned is the last one of its list, whatever volume
    matched: a deletion then goes to another volume. *)
Theorem stale_cache_deletes_other_volume (ctx : Ctx) (id : string) (s s1 s2 : St) (v1 v2 : View)
    (items : list LogicVolume) (m other : LogicVolume)
    (Hlook1 : look s = (Done v1, s1)) (Hlook2 : look s1 = (Done v2, s2))
    (Hcache : vw_cache_by_id v1 id = ([], None)) (Hapi : vw_api_lvs v2 = (items, None))
    (Hmatch : List.filter (λ lv, String.eqb (st_VolumeID (lv_Status lv)) id) items = [m])
    (Hlast : last items = Some other) (Hlive : lv_Deleting other = false) :
  ∃ cs, calls (DeleteVolume ctx id s).2 = calls s ++ ApiDelete other :: cs.
Proof.
  assert (GetLogicVolumeByVolumeId id s = (Done (Some other, None), s2)) as Hget.
  { unfold GetLogicVolumeByVolumeId. rewrite (bind_done _ _ _ _ _ Hlook1), Hcache.
    rewrite (bind_done _ _ _ _ _ Hlook2), Hapi. cbv zeta. by rewrite Hmatch, Hlast. }
  assert (calls s2 = calls s) as Hc.
  { pose proof (wp_run _ _ _ _ _ (look_law s) Hlook1) as [<- _].
    by pose proof (wp_run _ _ _ _ _ (look_law s1) Hlook2) as [<- _]. }
  assert (wp (DeleteVolume ctx id) (λ _ s', ∃ cs, calls s' = calls s ++ ApiDelete other :: cs) s) as Hwp.
  { unfold DeleteVolume, wp. rewrite (bind_done _ _ _ _ _ Hget), Hlive.
    apply wp_bind. eapply wp_mono; [apply call_law|]. intros err s3 [Hc3 _]. rewrite Hc in Hc3.
    destruct err as [e|]; [destruct (IsNotFound e); apply wp_ret; by exists []|].
    apply wp_bind. eapply wp_mono; [apply wp_Get|]. intros [o [e|]] s4 (Hc4 & _ & _); cbn [snd].
    - apply wp_ret. exists []. by rewrite Hc4.
    - eapply wp_mono; [apply wait_deleted_spec|]. intros r s5 (Hc5 & _ & _). exists []. by rewrite Hc5, Hc4. }
  apply wp_exists in Hwp as (a & s' & -> & Hcs). done.
Qed.
End correct.

(** ** A static API server *)

(** A server whose objects are a list, and an empty cache. *)
#[export] Instance static_kube : Kube (list LogicVolume) := {|
  kube_view lvs :=
    let by_name n := match List.find (λ lv, String.eqb (lv_Name lv) n) lvs with
                     | Some lv => (lv, None)
                     | None => (new_lv "" "" "" "" n 0 (mkOwner "" "" "" "" None None) ∅,
                                Some (ErrApi ReasonNotFound "not found"))
                     end in
    (mkView by_name by_name (λ _, ([], None)) (λ _, ([], None)) (lvs, None)
       (λ n, (sample_nsr n, None)) (λ n, (sample_nsr n, None))
       (λ n, (sample_node n, None)) (λ n, (sample_node n, None)) (λ _, ([], None))
       (λ _ _, (∅, None)) (λ _ _, (∅, None)) no_objects, lvs);
  kube_call c lvs :=
    match c with
    | ApiCreate lv => (None, lvs ++ [lv])
    | ApiDelete lv => (None, List.filter (λ l, negb (String.eqb (lv_Name l) (lv_Name lv))) lvs)
    | ApiUpdate lv | ApiUpdateStatus lv | ApiPatch _ lv =>
        (None, (λ l, if String.eqb (lv_Name l) (lv_Name lv) then lv else l) <$> lvs)
    | _ => (None, lvs)
    end;
  kube_now _ := "now"
|}.

Definition sample_lv (name id : string) : LogicVolume :=
  set_lv_Status (mkLvStatus id OK "" (Some (10 * GiB)) "Success" 252 1)
    (new_lv "default" "pvc" "n1" "carina-vg-ssd" name 10 (mkOwner "" "" "" "" None None) ∅).

Definition sample_ctl (lvs : list LogicVolume) : Ctl (list LogicVolume) := mkCtl ∅ [] [] [] lvs.

Definition sample_ctx : Ctx := mkCtx (λ _, 3%nat) (ErrCtx "context deadline exceeded").

Lemma stale_cache_deletes_other_volume_witness :
  ∃ cs, calls (DeleteVolume sample_ctx "volume-pvc-a"
                 (sample_ctl [sample_lv "pvc-a" "volume-pvc-a"; sample_lv "pvc-b" "volume-pvc-b"])).2 =
        ApiDelete (sample_lv "pvc-b" "volume-pvc-b") :: cs.
Proof.
  refine (stale_cache_deletes_other_volume sample_ctx "volume-pvc-a"
    (sample_ctl [sample_lv "pvc-a" "volume-pvc-a"; sample_lv "pvc-b" "volume-pvc-b"]) _ _ _ _
    [sample_lv "pvc-a" "volume-pvc-a"; sample_lv "pvc-b" "volume-pvc-b"] (sample_lv "pvc-a" "volume-pvc-a")
    (sample_lv "pvc-b" "volume-pvc-b") _ _ _ _ _ _ _); reflexivity.
Defined.
