(* ===== verification/NodeController.v ===== *)
(** * [controllers/node_controller.go]: volumes of nodes that are gone

    When a node is not ready the controller kills the pods that may move and
    rebuilds their claims elsewhere; objects without a [PersistentVolume] are
    removed.  The timer and the event filter of [SetupWithManager] decide when a
    pass runs. *)

From S2P Require Import Prelude GoStrings Api GoRuntime Mutx Exec Utils Config NodeService Kube.

#[local] Open Scope string_scope.
#[local] Open Scope list_scope.
#[local] Open Scope Z_scope.

Module NodeReconciler.

Inductive nodeStatusType := Abnormal | Normal.

#[export] Instance nodeStatusType_eq_dec : EqDecision nodeStatusType.
Proof. solve_decision. Defined.

Definition NodeTerminated := "Terminated".
Definition NodeReady := "Ready".
Definition ConditionTrue := "True".
Definition VolumeBound := "Bound".

(** The key of a claim. *)
Abbreviation ObjectKey := (string * string)%type.

Definition node_status (n : NodeObject) : nodeStatusType :=
  let s := if no_Deleting n || String.eqb (no_Phase n) NodeTerminated then Abnormal else Normal in
  foldl (λ s c, if String.eqb c.1 NodeReady && negb (String.eqb c.2 ConditionTrue) then Abnormal else s)
    s (no_Conditions n).

Definition status_map (nodes : list NodeObject) : gmap string nodeStatusType :=
  foldl (λ m n, <[no_Name n := node_status n]> m) ∅ nodes.

Definition phase_map (pvs : list PvObject) : gmap string string :=
  foldl (λ m pv, <[po_Name pv := po_Phase pv]> m) ∅ pvs.

(** Whether the pod may move when its node is not ready. *)
Definition may_migrate (p : PodObject) : bool :=
  match pd_Annotations p !! AllowPodMigrationIfNodeNotready with
  | None => false
  | Some a => negb (String.eqb a "false")
  end.

(** The first volume with that claim decides; the name of the claim is logged
    before the source looks whether the volume has one. *)
Fixpoint skip_volumes (pvc : string) (p : PodObject) (vols : list (option string)) : outcome (option bool) :=
  match vols with
  | [] => Done None
  | None :: _ => Panic nil_deref
  | Some claim :: rest =>
      if negb (String.eqb claim pvc) then skip_volumes pvc p rest
      else Done (Some (negb (may_migrate p)))
  end.

Fixpoint skip_pods (pvc : string) (pods : list PodObject) : outcome (bool * option error) :=
  match pods with
  | [] => Done (true, Some (ErrString "skipLv did not found pod, skip"))
  | p :: rest =>
      r ← skip_volumes pvc p (pd_Volumes p);
      match r with
      | Some b => Done (b, None)
      | None => skip_pods pvc rest
      end
  end.

Definition combinedIndex (nodeName : string) : string := CarinaSchedule +:+ "-" +:+ nodeName.

Definition has_finalizer (lv : LogicVolume) : bool := ContainsString (lv_Finalizers lv) LogicVolumeFinalizer.
Definition without_finalizer (lv : LogicVolume) : LogicVolume :=
  set_lv_Finalizers (SliceRemoveString (lv_Finalizers lv) LogicVolumeFinalizer) lv.

(** The claim that is created again: the spec without its volume, and no
    labels or annotations. *)
Definition new_claim (o : ObjectKey) (pvc : PvcObject) : PvcObject :=
  mkPvcObject o.1 o.2 ∅ (pc_Spec pvc) (pc_StorageClassName pvc) (pc_VolumeMode pvc).

Section impl.
Context {K : Type} `{KubeClient K, GoRuntime}.

Definition skipLv (lv : LogicVolume) : M K (bool * option error) :=
  v ← look;
  match ob_pods (vw_objects v) (combinedIndex (ls_NodeName (lv_Spec lv))) with
  | (_, Some err) => mret (true, Some err)
  | (pods, None) => lift_outcome (skip_pods (ls_Pvc (lv_Spec lv)) pods)
  end.

Definition killPod (p : PodObject) : M K (option error) :=
  err ← call (ApiPodKill (pd_Namespace p) (pd_Name p));
  match err with
  | Some e => if IsNotFound e then mret None else mret (Some e)
  | None => mret None
  end.

Definition clearPod (nodeName : string) : M K (option error) :=
  v ← look;
  match ob_pods (vw_objects v) (combinedIndex nodeName) with
  | (_, Some err) => mret (Some err)
  | (pods, None) =>
      r ← range pods () (λ p _,
        if negb (may_migrate p) then mret (Next ())
        else
          err ← killPod p;
          match err with
          | Some e => mret (Return e)
          | None => mret (Next ())
          end);
      match r with
      | inl _ => mret None
      | inr e => mret (Some e)
      end
  end.

Definition nodeStatusList : M K (res (gmap string nodeStatusType)) :=
  v ← look;
  match ob_nodes (vw_objects v) with
  | (_, Some err) => mret (∅, Some err)
  | (nodes, None) => mret (status_map nodes, None)
  end.

Definition pvMap : M K (res (gmap string string)) :=
  v ← look;
  match ob_pvs (vw_objects v) with
  | (_, Some err) => mret (∅, Some err)
  | (pvs, None) => mret (phase_map pvs, None)
  end.

(** An object without a [PersistentVolume]. *)
Definition remove_object (lv : LogicVolume) : M K (option error) :=
  if has_finalizer lv then
    err ← call (ApiDelete lv);
    match err with
    | Some e => mret (Some e)
    | None => call (ApiPatch lv (without_finalizer lv))
    end
  else mret None.

(** A bound volume of a node that is not ready. *)
Definition rebuild_lv (lv : LogicVolume) (m : gmap string ObjectKey)
  : M K (ctl (gmap string ObjectKey) (gmap string ObjectKey * error)) :=
  r ← skipLv lv;
  match r with
  | (_, Some _) => mret (Next m)
  | (true, None) => mret (Next m)
  | (false, None) =>
      err ← clearPod (ls_NodeName (lv_Spec lv));
      match err with
      | Some e => mret (Return (m, e))
      | None =>
          let m := <[lv_Name lv := (ls_NameSpace (lv_Spec lv), ls_Pvc (lv_Spec lv))]> m in
          if has_finalizer lv then
            err ← call (ApiPatch lv (without_finalizer lv));
            match err with
            | Some e => mret (Return (m, e))
            | None => mret (Next m)
            end
          else mret (Next m)
      end
  end.

(** One object; the claims to rebuild so far. *)
Definition check_lv (nodeStatus : gmap string nodeStatusType) (pvs : gmap string string)
    (lv : LogicVolume) (m : gmap string ObjectKey) : M K (ctl (gmap string ObjectKey) (gmap string ObjectKey * error)) :=
  match lv_OwnerReferences lv with
  | _ :: _ => mret (Next m)
  | [] =>
  if negb (String.eqb (st_Status (lv_Status lv)) "") && bool_decide (pvs !! lv_Name lv = None) then
    err ← remove_object lv;
    match err with
    | Some e => mret (Return (m, e))
    | None => mret (Next m)
    end
  else if negb (String.eqb (mget pvs (lv_Name lv)) VolumeBound) then mret (Next m)
  else if bool_decide (nodeStatus !! ls_NodeName (lv_Spec lv) = Some Normal) then mret (Next m)
  else rebuild_lv lv m
  end.

Definition getNeedRebuildVolume : M K (res (gmap string ObjectKey)) :=
  v ← look;
  match ob_lvs (vw_objects v) with
  | (_, Some err) => mret (∅, Some err)
  | ([], None) => mret (∅, None)
  | (lvs, None) =>
      r ← nodeStatusList;
      match r with
      | (_, Some err) => mret (∅, Some err)
      | (nodeStatus, None) =>
          r ← pvMap;
          match r with
          | (_, Some err) => mret (∅, Some err)
          | (pvs, None) =>
              r ← range lvs ∅ (check_lv nodeStatus pvs);
              match r with
              | inl m => mret (m, None)
              | inr (m, err) => mret (m, Some err)
              end
          end
      end
  end.

(** One attempt to create the claim; it counts if there is one that is not
    being deleted. *)
Definition create_claim (pvc : PvcObject) : M K (option error) :=
  err ← call (ApiPvcCreate pvc);
  match err with
  | Some (ErrApi ReasonAlreadyExists msg) =>
      if negb (HasPrefix msg "object is being deleted") then mret None else mret err
  | _ => mret err
  end.

Definition rebuild_one (o : ObjectKey) : M K (option error) :=
  v ← look;
  match ob_pvc (vw_objects v) o.1 o.2 with
  | (_, Some _) => mret None
  | (pvc, None) =>
      let newPvc := new_claim o pvc in
      _ ← call (ApiPvcDelete o.1 o.2);
      err ← UntilMaxRetry (create_claim newPvc) 12;
      match err with
      | None => mret None
      | Some e =>
          match pc_StorageClassName newPvc, pc_VolumeMode newPvc with
          | Some _, Some _ => mret (Some e)
          | _, _ => panic nil_deref
          end
      end
  end.

Definition rebuildVolume (volumeObjectMap : gmap string ObjectKey) : M K (option error) :=
  r ← range (map_range 66 volumeObjectMap) () (λ ko _,
    err ← rebuild_one ko.2;
    match err with
    | Some e => mret (Return e)
    | None => mret (Next ())
    end);
  match r with
  | inl _ => mret None
  | inr e => mret (Some e)
  end.

Definition resourceReconcile : M K (option error) :=
  r ← getNeedRebuildVolume;
  match r with
  | (_, Some err) => mret (Some err)
  | (o, None) =>
      err ← rebuildVolume o;
      match err with
      | Some e => mret (Some e)
      | None => mret None
      end
  end.

Definition Reconcile (name : string) : M K (option error) := resourceReconcile.

(** *** When a pass runs *)

(** The objects the controller watches; of a pod, which may be a nil pointer,
    the name of its scheduler. *)
Inductive watched :=
| WatchedNode (name : string)
| WatchedPod (name : string) (schedulerName : option string).

Inductive watch_event :=
| CreateEvent (o : watched)
| UpdateEvent (old new : watched)
| DeleteEvent (o : watched)
| GenericEvent (o : watched).

Definition not_a_pod : string := "interface conversion: client.Object is *v1.Node, not *v1.Pod".

(** The functions of [pred].  [WithEventFilter] applies them to every watch of
    the controller, of nodes as well as of pods. *)
Definition pred (e : watch_event) : outcome bool :=
  match e with
  | CreateEvent _ | UpdateEvent _ _ | GenericEvent _ => Done false
  | DeleteEvent (WatchedNode _) => Panic not_a_pod
  | DeleteEvent (WatchedPod _ None) => Done true
  | DeleteEvent (WatchedPod _ (Some schedulerName)) => Done (String.eqb schedulerName CarinaSchedule)
  end.

Definition watched_name (e : watch_event) : string :=
  match e with
  | CreateEvent o | UpdateEvent _ o | DeleteEvent o | GenericEvent o =>
      match o with WatchedNode n | WatchedPod n _ => n end
  end.

(** What the process does next: a tick of the timer, whose error is dropped, or
    an event, whose object is reconciled if it passes the filter. *)
Inductive occurrence := TimerTick | Watched (e : watch_event).

Definition occur (o : occurrence) : M K (option error) :=
  match o with
  | TimerTick => _ ← resourceReconcile; mret None
  | Watched e =>
      pass ← lift_outcome (pred e);
      if pass : bool then Reconcile (watched_name e) else mret None
  end.
End impl.
End NodeReconciler.
