(* ===== verification/NodeControllerTheorems.v ===== *)
(** * What the node controller may remove

    Every write of a pass is justified by what the pass has read: objects go
    only without a [PersistentVolume], pods and claims only for bound volumes
    of nodes that are not ready, when a pod with such a claim may move. *)

From S2P Require Import Prelude GoStrings Api GoRuntime Mutx Exec Utils Config NodeService Kube NodeController.
From S2P Require Import LogicVolumeService.

#[local] Open Scope string_scope.
#[local] Open Scope list_scope.
#[local] Open Scope Z_scope.

Import NodeReconciler.

(** ** The two maps *)

Definition ready (n : NodeObject) : Prop :=
  no_Deleting n = false ∧ no_Phase n ≠ NodeTerminated ∧
  ∀ c, c ∈ no_Conditions n → c.1 = NodeReady → c.2 = ConditionTrue.

Lemma node_status_spec n : node_status n = Normal ↔ ready n.
Proof.
  unfold node_status, ready.
  assert (∀ s cs, foldl (λ s c, if String.eqb c.1 NodeReady && negb (String.eqb c.2 ConditionTrue) then Abnormal else s)
    s cs = Normal ↔ s = Normal ∧ ∀ c : string * string, c ∈ cs → c.1 = NodeReady → c.2 = ConditionTrue) as ->.
  { intros s cs. revert s. induction cs as [|c cs IH]; intros s; simpl.
    { split; [|by intros []]. intros ->. split; [done|]. by intros c ?%not_elem_of_nil. }
    rewrite IH. setoid_rewrite elem_of_cons.
    destruct (String.eqb_spec c.1 NodeReady) as [Hr|Hr], (String.eqb_spec c.2 ConditionTrue) as [Ht|Ht]; cbn [andb negb];
      split; intros [Hs Hc]; (split; [first [done|congruence|exfalso; apply Ht, Hc; [by left|done]]|]);
      try congruence; intros c' Hc'; auto; destruct Hc' as [->|?]; auto; done. }
  destruct (no_Deleting n); cbn [orb]; [naive_solver|].
  destruct (String.eqb_spec (no_Phase n) NodeTerminated); naive_solver.
Qed.

(** A map filled in order shows the last entry of a key. *)
Lemma foldl_insert_lookup {A V} (key : A → string) (val : A → V) (l : list A) (m : gmap string V) k :
  (foldl (λ m a, <[key a := val a]> m) m l !! k = m !! k ∧ ∀ a, a ∈ l → key a ≠ k) ∨
  ∃ a, a ∈ l ∧ key a = k ∧ foldl (λ m a, <[key a := val a]> m) m l !! k = Some (val a).
Proof.
  revert m. induction l as [|a l IH]; intros m; simpl; [left; split; [done|]; by intros ? ?%not_elem_of_nil|].
  destruct (IH (<[key a := val a]> m)) as [[E Hne]|(b & Hb & Hk & E)].
  - destruct (decide (key a = k)) as [<-|Hak].
    + right. exists a. rewrite E, lookup_insert_eq. split; [by left|done].
    + left. rewrite E, lookup_insert_ne by done. split; [done|]. intros b [->|?]%elem_of_cons; auto.
  - right. exists b. split; [by right|done].
Qed.

(** ** Justified writes *)

Section writes.
Context (vs : list View).

Definition listed (lv : LogicVolume) : Prop :=
  ∃ v lvs, v ∈ vs ∧ ob_lvs (vw_objects v) = (lvs, None) ∧ lv ∈ lvs ∧ lv_OwnerReferences lv = [].

Definition no_pv (name : string) : Prop :=
  ∃ v pvs, v ∈ vs ∧ ob_pvs (vw_objects v) = (pvs, None) ∧ ∀ pv, pv ∈ pvs → po_Name pv ≠ name.

Definition bound (name : string) : Prop :=
  ∃ v pvs pv, v ∈ vs ∧ ob_pvs (vw_objects v) = (pvs, None) ∧ pv ∈ pvs ∧ po_Name pv = name ∧ po_Phase pv = VolumeBound.

(** The node is not known, or known and not ready. *)
Definition down (node : string) : Prop :=
  ∃ v nodes, v ∈ vs ∧ ob_nodes (vw_objects v) = (nodes, None) ∧
    ((∀ n, n ∈ nodes → no_Name n ≠ node) ∨ ∃ n, n ∈ nodes ∧ no_Name n = node ∧ ¬ ready n).

Definition pod_on (node : string) (p : PodObject) : Prop :=
  ∃ v pods, v ∈ vs ∧ ob_pods (vw_objects v) (combinedIndex node) = (pods, None) ∧ p ∈ pods.

(** The volume is to be rebuilt. *)
Definition rebuilt (lv : LogicVolume) : Prop :=
  let node := ls_NodeName (lv_Spec lv) in
  listed lv ∧ bound (lv_Name lv) ∧ down node ∧
  ∃ p, pod_on node p ∧ Some (ls_Pvc (lv_Spec lv)) ∈ pd_Volumes p ∧ may_migrate p = true.

(** The object is to be removed. *)
Definition abandoned (lv : LogicVolume) : Prop :=
  listed lv ∧ st_Status (lv_Status lv) ≠ "" ∧ has_finalizer lv = true ∧ no_pv (lv_Name lv).

Definition claim_of (lv : LogicVolume) (o : ObjectKey) : Prop :=
  rebuilt lv ∧ o = (ls_NameSpace (lv_Spec lv), ls_Pvc (lv_Spec lv)).

Definition justified (c : api_call) : Prop :=
  match c with
  | ApiDelete lv => abandoned lv
  | ApiPatch lv lv' => lv' = without_finalizer lv ∧ (abandoned lv ∨ rebuilt lv)
  | ApiPodKill namespace name => ∃ lv p, rebuilt lv ∧ pod_on (ls_NodeName (lv_Spec lv)) p ∧
      may_migrate p = true ∧ pd_Namespace p = namespace ∧ pd_Name p = name
  | ApiPvcDelete namespace name => ∃ lv, claim_of lv (namespace, name)
  | ApiPvcCreate pvc => ∃ lv o v old, claim_of lv o ∧ v ∈ vs ∧ ob_pvc (vw_objects v) o.1 o.2 = (old, None) ∧
      pvc = new_claim o old
  | _ => False
  end.
End writes.

Section mono.
Context (vs vs' : list View) (Hsub : vs ⊆ vs').

Lemma listed_mono lv : listed vs lv → listed vs' lv.
Proof. intros (v & lvs & Hv & ?). exists v, lvs. auto. Qed.
Lemma no_pv_mono name : no_pv vs name → no_pv vs' name.
Proof. intros (v & pvs & Hv & ?). exists v, pvs. auto. Qed.
Lemma bound_mono name : bound vs name → bound vs' name.
Proof. intros (v & pvs & pv & Hv & ?). exists v, pvs, pv. auto. Qed.
Lemma down_mono node : down vs node → down vs' node.
Proof. intros (v & nodes & Hv & ?). exists v, nodes. auto. Qed.
Lemma pod_on_mono node p : pod_on vs node p → pod_on vs' node p.
Proof. intros (v & pods & Hv & ?). exists v, pods. auto. Qed.
Lemma rebuilt_mono lv : rebuilt vs lv → rebuilt vs' lv.
Proof.
  intros (Hl & Hb & Hd & p & Hp & ?). split_and!; [by apply listed_mono|by apply bound_mono|by apply down_mono|].
  exists p. split; [by apply pod_on_mono|done].
Qed.
Lemma abandoned_mono lv : abandoned vs lv → abandoned vs' lv.
Proof. intros (Hl & ? & ? & Hn). split_and!; [by apply listed_mono|done|done|by apply no_pv_mono]. Qed.

Lemma justified_mono c : justified vs c → justified vs' c.
Proof.
  destruct c; simpl; try done.
  - apply abandoned_mono.
  - intros [? [?|?]]; (split; [done|]); [left; by apply abandoned_mono|right; by apply rebuilt_mono].
  - intros (lv & p & Hr & Hp & ?). exists lv, p. split_and!; [by apply rebuilt_mono|by apply pod_on_mono|naive_solver..].
  - intros (lv & Hr & ?). exists lv. split; [by apply rebuilt_mono|done].
  - intros (lv & o & v & old & [Hr ?] & Hv & ?). exists lv, o, v, old. split; [|auto]. split; [by apply rebuilt_mono|done].
Qed.
End mono.

(** ** A pass *)

Section pass.
Context {K : Type} `{KubeClient K} `{!KubeLaws K} `{GoRuntimeLaws}.
Context (k0 : K).

(** The pass that started in [k0] has read [vs], and its writes so far are
    justified by that. *)
Definition tracked (vs : list View) (k : K) : Prop :=
  seen k = seen k0 ++ vs ∧ ∃ cs, calls k = calls k0 ++ cs ∧ Forall (justified vs) cs.

(** [m] goes on from what [vs] shows. *)
Definition goes_on {A} (m : M K A) (vs : list View) (Q : A → list View → Prop) : Prop :=
  ∀ k, tracked vs k → wp m (λ a k', ∃ vs', tracked (vs ++ vs') k' ∧ calls k ⊆ calls k' ∧ Q a (vs ++ vs')) k.

Lemma tracked_look vs k : tracked vs k → wp look (λ v k', tracked (vs ++ [v]) k' ∧ calls k' = calls k) k.
Proof.
  intros [Hs (cs & Hc & Hj)]. eapply wp_mono; [apply look_law|]. intros v k' [Hc' Hs']. split; [|done].
  split; [by rewrite Hs', Hs, app_assoc|]. exists cs. split; [congruence|].
  eapply Forall_impl; [exact Hj|]. intros c. apply justified_mono. set_solver.
Qed.

Lemma tracked_call vs k c : tracked vs k → justified vs c →
  wp (call c) (λ _ k', tracked vs k' ∧ calls k ⊆ calls k' ∧ c ∈ calls k') k.
Proof.
  intros [Hs (cs & Hc & Hj)] Hnew. eapply wp_mono; [apply call_law|]. intros e k' [Hc' Hs']. rewrite Hc'.
  split_and!; [|set_solver|set_solver]. split; [congruence|]. exists (cs ++ [c]). rewrite Hc', Hc, app_assoc.
  split; [done|]. apply Forall_app. split; [done|by apply Forall_singleton].
Qed.

(** *** Pods *)

(** Every volume of the pods is a claim, and every claim says its class and
    mode; otherwise the source dereferences a nil pointer. *)
Definition only_claims : Prop := ∀ k v k', look k = (Done v, k') →
  (∀ index pods p, ob_pods (vw_objects v) index = (pods, None) → p ∈ pods → Forall is_Some (pd_Volumes p)) ∧
  (∀ ns name pvc, ob_pvc (vw_objects v) ns name = (pvc, None) →
    is_Some (pc_StorageClassName pvc) ∧ is_Some (pc_VolumeMode pvc)).

Lemma skip_volumes_spec pvc p vols : Forall is_Some vols →
  ∃ r, skip_volumes pvc p vols = Done r ∧
    match r with None => Some pvc ∉ vols | Some b => Some pvc ∈ vols ∧ b = negb (may_migrate p) end.
Proof.
  induction 1 as [|vol vols [c ->] _ (r & E & Hr)]; simpl; [exists None; split; [done|]; apply not_elem_of_nil|].
  destruct (String.eqb_spec c pvc) as [->|Hne]; cbn [negb].
  - eexists. split; [done|]. split; [by left|done].
  - exists r. split; [done|]. destruct r as [b|]; [|by rewrite not_elem_of_cons; split; [congruence|]].
    destruct Hr. split; [by right|done].
Qed.

Lemma skip_pods_spec pvc pods : (∀ p, p ∈ pods → Forall is_Some (pd_Volumes p)) →
  ∃ b err, skip_pods pvc pods = Done (b, err) ∧
    (b = false → err = None → ∃ p, p ∈ pods ∧ Some pvc ∈ pd_Volumes p ∧ may_migrate p = true).
Proof.
  induction pods as [|p pods IH]; intros Hall; simpl; [by eexists _, _|].
  destruct (skip_volumes_spec pvc p (pd_Volumes p)) as (r & -> & Hr); [apply Hall; by left|]. cbn [mbind outcome_bind].
  destruct r as [b|].
  - eexists _, _. split; [done|]. destruct Hr as [Hin ->]. intros Hb _. exists p. split_and!; [by left|done|].
    by destruct (may_migrate p).
  - destruct IH as (b & err & -> & Hp); [intros; apply Hall; by right|]. eexists _, _. split; [done|].
    intros Hb He. destruct (Hp Hb He) as (q & Hq & ?). exists q. split; [by right|done].
Qed.

Lemma skipLv_ok vs lv : only_claims → goes_on (skipLv lv) vs (λ r vs', r = (false, None) →
  ∃ p, pod_on vs' (ls_NodeName (lv_Spec lv)) p ∧ Some (ls_Pvc (lv_Spec lv)) ∈ pd_Volumes p ∧ may_migrate p = true).
Proof.
  intros Hclaims k Hk. unfold skipLv. pose proof (tracked_look vs k Hk) as Hl.
  apply wp_exists in Hl as (v & k' & Hlook & Hk' & Hc). eapply wp_bind_run; [exact Hlook|].
  destruct (ob_pods _ _) as [pods [e|]] eqn:Hpods.
  { apply wp_ret. exists [v]. rewrite Hc. split_and!; done. }
  destruct (Hclaims _ _ _ Hlook) as [Hp _].
  destruct (skip_pods_spec (ls_Pvc (lv_Spec lv)) pods) as (b & err & E & Hq); [intros; by eapply Hp|].
  unfold wp, lift_outcome. rewrite E. exists [v]. rewrite Hc. split_and!; [done|done|]. intros [= -> ->].
  destruct (Hq eq_refl eq_refl) as (p & Hin & ?). exists p. split; [|done]. exists v, pods. split_and!; [set_solver|done|done].
Qed.

Lemma clearPod_ok vs lv : rebuilt vs lv → goes_on (clearPod (ls_NodeName (lv_Spec lv))) vs (λ _ _, True).
Proof.
  intros Hr k Hk. unfold clearPod. apply wp_bind. eapply wp_mono; [by apply tracked_look|]. intros v k1 [Hk1 Hc].
  assert (∀ k2, tracked (vs ++ [v]) k2 → calls k1 ⊆ calls k2 →
    ∃ vs', tracked (vs ++ vs') k2 ∧ calls k ⊆ calls k2 ∧ True) as Hend.
  { intros k2 Hk2 Hsub. exists [v]. rewrite <- Hc. done. }
  destruct (ob_pods _ _) as [pods [e|]] eqn:Hpods; [by apply wp_ret, Hend|].
  assert (∀ p, p ∈ pods → pod_on (vs ++ [v]) (ls_NodeName (lv_Spec lv)) p) as Hon.
  { intros p Hp. exists v, pods. split_and!; [set_solver|done|done]. }
  apply wp_bind. eapply wp_mono; [apply (wp_range _ _ _ (λ rest _ k2, tracked (vs ++ [v]) k2 ∧ calls k1 ⊆ calls k2 ∧
    ∀ p, p ∈ rest → p ∈ pods) (λ _ k2, tracked (vs ++ [v]) k2 ∧ calls k1 ⊆ calls k2))|].
  - by split_and!.
  - intros p rest _ k2 (Hk2 & Hsub & Hrest).
    assert (∀ p, p ∈ rest → p ∈ pods) as Hrest' by (intros; apply Hrest; by right).
    destruct (may_migrate p) eqn:Hm; cbn [negb]; [|by apply wp_ret].
    apply wp_bind, wp_bind. eapply wp_mono; [apply tracked_call; [done|]|].
    + exists lv, p. split_and!; try done; [eapply rebuilt_mono; [|done]; set_solver|apply Hon, Hrest; by left].
    + intros [e|] k3 (Hk3 & Hsub3 & _); [destruct (IsNotFound e)|]; apply wp_ret, wp_ret; split_and!; try done; by etrans.
  - by intros _ k2 (? & ? & _).
  - intros [[]|e] k2 [Hk2 Hsub]; by apply wp_ret, Hend.
Qed.

(** *** Objects *)

(** The lists a pass works on, read in [vs]. *)
Record working (vs : list View) (lvs : list LogicVolume) (nodes : list NodeObject) (pvs : list PvObject) : Prop := {
  wk_lvs : ∃ v, v ∈ vs ∧ ob_lvs (vw_objects v) = (lvs, None);
  wk_nodes : ∃ v, v ∈ vs ∧ ob_nodes (vw_objects v) = (nodes, None);
  wk_pvs : ∃ v, v ∈ vs ∧ ob_pvs (vw_objects v) = (pvs, None)
}.

Lemma working_mono vs vs' lvs nodes pvs : vs ⊆ vs' → working vs lvs nodes pvs → working vs' lvs nodes pvs.
Proof.
  intros Hsub [(v1 & ? & ?) (v2 & ? & ?) (v3 & ? & ?)]. split; [exists v1|exists v2|exists v3]; auto.
Qed.

(** The object has to be removed. *)
Definition to_remove (pvs : list PvObject) (lv : LogicVolume) : Prop :=
  lv_OwnerReferences lv = [] ∧ st_Status (lv_Status lv) ≠ "" ∧ has_finalizer lv = true ∧
  ∀ pv, pv ∈ pvs → po_Name pv ≠ lv_Name lv.

Lemma phase_map_None pvs name : phase_map pvs !! name = None ↔ ∀ pv, pv ∈ pvs → po_Name pv ≠ name.
Proof.
  unfold phase_map. destruct (foldl_insert_lookup po_Name po_Phase pvs ∅ name) as [[-> Hne]|(pv & Hin & Hn & ->)].
  - by rewrite lookup_empty.
  - split; [done|]. intros Hall. by destruct (Hall pv Hin).
Qed.

Lemma phase_map_Some pvs name phase : phase_map pvs !! name = Some phase →
  ∃ pv, pv ∈ pvs ∧ po_Name pv = name ∧ po_Phase pv = phase.
Proof.
  unfold phase_map. destruct (foldl_insert_lookup po_Name po_Phase pvs ∅ name) as [[-> Hne]|(pv & Hin & Hn & ->)].
  - by rewrite lookup_empty.
  - intros [= <-]. by exists pv.
Qed.

Lemma status_map_down nodes node : status_map nodes !! node ≠ Some Normal →
  (∀ n, n ∈ nodes → no_Name n ≠ node) ∨ ∃ n, n ∈ nodes ∧ no_Name n = node ∧ ¬ ready n.
Proof.
  unfold status_map. destruct (foldl_insert_lookup no_Name node_status nodes ∅ node) as [[-> Hne]|(n & Hin & Hn & ->)]; [auto|].
  intros Hs. right. exists n. split_and!; [done|done|]. rewrite <- node_status_spec. congruence.
Qed.

Definition claims_ok (vs : list View) (m : gmap string ObjectKey) : Prop :=
  ∀ name o, m !! name = Some o → ∃ lv, claim_of vs lv o.

Lemma claims_ok_mono vs vs' m : vs ⊆ vs' → claims_ok vs m → claims_ok vs' m.
Proof. intros Hsub Hm name o Ho. destruct (Hm name o Ho) as (lv & Hr & ?). exists lv. split; [by eapply rebuilt_mono|done]. Qed.

Lemma remove_object_ok vs lv : abandoned vs lv ∨ has_finalizer lv = false →
  ∀ k, tracked vs k → wp (remove_object lv) (λ err k', tracked vs k' ∧ calls k ⊆ calls k' ∧
    (err = None → has_finalizer lv = true → ApiDelete lv ∈ calls k')) k.
Proof.
  intros Hlv k Hk. unfold remove_object. destruct (has_finalizer lv) eqn:Hf; [|by apply wp_ret].
  destruct Hlv as [Hlv|]; [|done]. apply wp_bind. eapply wp_mono; [by apply (tracked_call vs k (ApiDelete lv))|].
  intros [e|] k1 (Hk1 & Hsub & Hin); [by apply wp_ret|].
  eapply wp_mono; [apply (tracked_call vs k1); [done|split; [done|by left]]|].
  intros err k2 (Hk2 & Hsub2 & _). split_and!; [done|by etrans|auto].
Qed.

Lemma rebuild_lv_ok vs lv m :
  only_claims → claims_ok vs m → listed vs lv → bound vs (lv_Name lv) → down vs (ls_NodeName (lv_Spec lv)) →
  ∀ k, tracked vs k → wp (rebuild_lv lv m) (λ c k', ∃ vs', tracked (vs ++ vs') k' ∧ calls k ⊆ calls k' ∧
    match c with
    | Next m' => claims_ok (vs ++ vs') m'
    | Break _ => False
    | Return _ => True
    end) k.
Proof.
  intros Hcl Hm Hl Hb Hd k Hk. unfold rebuild_lv. apply wp_bind. eapply wp_mono; [by apply (skipLv_ok vs lv)|].
  intros [skip err] k1 (vs1 & Hk1 & Hsub1 & Hskip).
  assert (claims_ok (vs ++ vs1) m) as Hm1 by (eapply claims_ok_mono; [|done]; set_solver).
  destruct err as [e|], skip; try by apply wp_ret; exists vs1.
  assert (rebuilt (vs ++ vs1) lv) as Hr.
  { assert (vs ⊆ vs ++ vs1) as Hs by set_solver. unfold rebuilt. cbv zeta.
    split_and!; [by eapply listed_mono|by eapply bound_mono|by eapply down_mono|by apply Hskip]. }
  apply wp_bind. eapply wp_mono; [by apply (clearPod_ok (vs ++ vs1) lv)|].
  intros [e|] k2 (vs2 & Hk2 & Hsub2 & _).
  { apply wp_ret. exists (vs1 ++ vs2). rewrite app_assoc. split_and!; [done|by etrans|done]. }
  rewrite <- app_assoc in Hk2.
  assert (rebuilt (vs ++ vs1 ++ vs2) lv) as Hr2 by (eapply rebuilt_mono; [|exact Hr]; set_solver).
  assert (claims_ok (vs ++ vs1 ++ vs2) (<[lv_Name lv := (ls_NameSpace (lv_Spec lv), ls_Pvc (lv_Spec lv))]> m)) as Hm2.
  { intros name o [[<- <-]|[_ Ho]]%lookup_insert_Some; [by exists lv|].
    eapply (claims_ok_mono (vs ++ vs1)); [set_solver|done|exact Ho]. }
  destruct (has_finalizer lv).
  - apply wp_bind. eapply wp_mono; [apply (tracked_call (vs ++ vs1 ++ vs2)); [done|split; [done|by right]]|].
    intros err k3 (Hk3 & Hsub3 & _). assert (calls k ⊆ calls k3) by set_solver.
    destruct err; by apply wp_ret; exists (vs1 ++ vs2).
  - apply wp_ret. exists (vs1 ++ vs2). split_and!; [done|by etrans|done].
Qed.

Lemma check_lv_ok vs lvs nodes pvs lv m :
  only_claims → working vs lvs nodes pvs → lv ∈ lvs → claims_ok vs m →
  ∀ k, tracked vs k → wp (check_lv (status_map nodes) (phase_map pvs) lv m) (λ c k', ∃ vs',
    tracked (vs ++ vs') k' ∧ calls k ⊆ calls k' ∧
    match c with
    | Next m' => claims_ok (vs ++ vs') m' ∧ (to_remove pvs lv → ApiDelete lv ∈ calls k')
    | Break _ => False
    | Return _ => True
    end) k.
Proof.
  intros Hcl Hw Hin Hm k Hk. unfold check_lv.
  assert (∀ k', tracked vs k' → tracked (vs ++ []) k') as Hnil by by intros; rewrite app_nil_r.
  assert (claims_ok (vs ++ []) m) as Hm0 by by rewrite app_nil_r.
  destruct (lv_OwnerReferences lv) as [|o os] eqn:Hown; last first.
  { apply wp_ret. exists []. split_and!; [auto|done|done|]. intros [? _]. congruence. }
  assert (listed vs lv) as Hlist by (destruct (wk_lvs _ _ _ _ Hw) as (v & Hv & E); by exists v, lvs).
  destruct (String.eqb_spec (st_Status (lv_Status lv)) "") as [Hst|Hst]; cbn [negb andb].
  2: destruct (decide (phase_map pvs !! lv_Name lv = None)) as [Hno|Hpv];
    [rewrite bool_decide_eq_true_2 by done|rewrite bool_decide_eq_false_2 by done].
  2:{ apply wp_bind. eapply wp_mono; [apply (remove_object_ok vs lv); [|done]|].
      - destruct (has_finalizer lv) eqn:Hf; [|by right]. left. split_and!; [done|done|done|].
        destruct (wk_pvs _ _ _ _ Hw) as (v & Hv & E). exists v, pvs. split_and!; [done|done|by apply phase_map_None].
      - intros [e|] k1 (Hk1 & Hsub & Hdel); apply wp_ret; exists []; split_and!; auto.
        intros (_ & _ & Hf & _). by apply Hdel. }
  all: assert (¬ to_remove pvs lv) as Hnot by
    (intros (_ & ? & _ & Hall); first [done|apply phase_map_None in Hall; done]).
  all: destruct (String.eqb_spec (mget (phase_map pvs) (lv_Name lv)) VolumeBound) as [Hb|]; cbn [negb];
    [|apply wp_ret; exists []; by split_and!; auto].
  all: case_bool_decide as Hnode; [apply wp_ret; exists []; by split_and!; auto|].
  all: assert (¬ to_remove pvs lv) as Hn by done; clear Hnot.
  all: eapply wp_mono; [eapply (rebuild_lv_ok vs lv m); try done|].
  all: try (destruct (phase_map pvs !! lv_Name lv) as [ph|] eqn:Hph; unfold mget in Hb; rewrite Hph in Hb; [|done];
    cbn in Hb; subst ph; apply phase_map_Some in Hph as (pv & ? & ? & ?);
    destruct (wk_pvs _ _ _ _ Hw) as (v & Hv & E); by exists v, pvs, pv).
  all: try (destruct (wk_nodes _ _ _ _ Hw) as (v & Hv & E); exists v, nodes; split_and!; [done|done|by apply status_map_down]).
  all: intros [m'|m'|r] k' (vs' & ? & ? & ?); exists vs'; by split_and!.
Qed.

(** The loop over the objects. *)
Lemma check_lvs_ok vs lvs nodes pvs : only_claims → working vs lvs nodes pvs →
  ∀ k, tracked vs k → wp (range lvs ∅ (check_lv (status_map nodes) (phase_map pvs))) (λ r k', ∃ vs',
    tracked (vs ++ vs') k' ∧
    match r with
    | inl m => claims_ok (vs ++ vs') m ∧ ∀ lv, lv ∈ lvs → to_remove pvs lv → ApiDelete lv ∈ calls k'
    | inr _ => True
    end) k.
Proof.
  intros Hcl Hw k Hk.
  apply (wp_range _ _ _ (λ rest m k', ∃ vs', tracked (vs ++ vs') k' ∧ claims_ok (vs ++ vs') m ∧
    (∀ lv, lv ∈ rest → lv ∈ lvs) ∧ ∀ lv, lv ∈ lvs → to_remove pvs lv → lv ∈ rest ∨ ApiDelete lv ∈ calls k')).
  - exists []. rewrite app_nil_r. split_and!; [done|by intros name o|done|auto].
  - intros lv rest m k1 (vs1 & Hk1 & Hm1 & Hrest & Hall).
    eapply wp_mono; [eapply (check_lv_ok (vs ++ vs1) lvs nodes pvs); try done|].
    + eapply working_mono; [|exact Hw]. set_solver.
    + apply Hrest. by left.
    + intros c k2 (vs2 & Hk2 & Hsub & Hc). rewrite <- app_assoc in *.
      destruct c as [m'|m'|r]; [|done|by exists (vs1 ++ vs2)]. destruct Hc as [Hm' Hdel].
      exists (vs1 ++ vs2). split_and!; [done|done|intros; apply Hrest; by right|].
      intros lv' Hin Hto. destruct (Hall lv' Hin Hto) as [[->|?]%elem_of_cons|?]; auto.
  - intros m k1 (vs1 & Hk1 & Hm1 & _ & Hall). exists vs1. split_and!; [done|done|].
    intros lv Hin Hto. by destruct (Hall lv Hin Hto) as [?%not_elem_of_nil|?].
Qed.

(** What the first half of a pass finds. *)
Lemma getNeedRebuildVolume_ok k : only_claims → tracked [] k →
  wp getNeedRebuildVolume (λ r k', ∃ vs, tracked vs k' ∧
    match r with
    | (m, None) => claims_ok vs m ∧ ∃ v lvs, v ∈ vs ∧ ob_lvs (vw_objects v) = (lvs, None) ∧
        (lvs = [] ∨ ∃ w pvs, w ∈ vs ∧ ob_pvs (vw_objects w) = (pvs, None) ∧
          ∀ lv, lv ∈ lvs → to_remove pvs lv → ApiDelete lv ∈ calls k')
    | (_, Some _) => True
    end) k.
Proof.
  intros Hcl Hk. unfold getNeedRebuildVolume. apply wp_bind. eapply wp_mono; [by apply tracked_look|].
  intros v k1 [Hk1 _]. destruct (ob_lvs _) as [lvs [e|]] eqn:Hlvs.
  { destruct lvs; apply wp_ret; by exists [v]. }
  destruct lvs as [|lv lvs].
  { apply wp_ret. exists [v]. split_and!; [done|by intros name o|]. exists v, []. split_and!; [set_solver|done|by left]. }
  set (all := lv :: lvs) in *. unfold nodeStatusList. apply wp_bind, wp_bind. eapply wp_mono; [by apply tracked_look|].
  intros v2 k2 [Hk2 _]. destruct (ob_nodes _) as [nodes [e|]] eqn:Hnodes; apply wp_ret; [by apply wp_ret; eexists|].
  unfold pvMap. apply wp_bind, wp_bind. eapply wp_mono; [by apply tracked_look|].
  intros v3 k3 [Hk3 _]. destruct (ob_pvs _) as [pvs [e|]] eqn:Hpvs; apply wp_ret; [by apply wp_ret; eexists|].
  set (vs := (([] ++ [v]) ++ [v2]) ++ [v3]) in *. apply wp_bind.
  eapply wp_mono; [apply (check_lvs_ok vs all nodes pvs); [done| |done]|].
  { split; [exists v|exists v2|exists v3]; (split; [set_solver|done]). }
  intros [m|[m e]] k4 (vs' & Hk4 & Hr); apply wp_ret; exists (vs ++ vs'); (split; [done|]); [|done].
  destruct Hr as [Hm Hdel]. split; [done|]. exists v, all. split_and!; [set_solver|done|]. right.
  exists v3, pvs. split_and!; [set_solver|done|done].
Qed.

(** *** Claims *)

Lemma rebuild_one_ok vs o lv : only_claims → claim_of vs lv o → goes_on (rebuild_one o) vs (λ _ _, True).
Proof.
  intros Hcl [Hr Ho] k Hk. unfold rebuild_one. pose proof (tracked_look vs k Hk) as Hl.
  apply wp_exists in Hl as (v & k1 & Hlook & Hk1 & Hc). eapply wp_bind_run; [exact Hlook|].
  assert (∀ k2, tracked (vs ++ [v]) k2 → calls k1 ⊆ calls k2 →
    ∃ vs', tracked (vs ++ vs') k2 ∧ calls k ⊆ calls k2 ∧ True) as Hend.
  { intros k2 Hk2 Hsub. exists [v]. by rewrite <- Hc. }
  destruct (ob_pvc _ _ _) as [pvc [e|]] eqn:Hpvc; [by apply wp_ret, Hend|].
  destruct (Hcl _ _ _ Hlook) as [_ Hmode]. destruct (Hmode _ _ _ Hpvc) as [[sc Hsc] [mode Hvm]].
  assert (claim_of (vs ++ [v]) lv o) as Hclaim by (split; [eapply rebuilt_mono; [|done]; set_solver|done]).
  apply wp_bind. eapply wp_mono; [apply (tracked_call (vs ++ [v]) k1 (ApiPvcDelete o.1 o.2)); [done|]|].
  { exists lv. by destruct o. }
  intros _ k2 (Hk2 & Hsub2 & _). apply wp_bind.
  eapply wp_mono; [apply (wp_until_max_retry _ _ (λ _ k3, tracked (vs ++ [v]) k3 ∧ calls k1 ⊆ calls k3)
    (λ _ k3, tracked (vs ++ [v]) k3 ∧ calls k1 ⊆ calls k3)); [done| |done]|].
  - intros _ k3 [Hk3 Hsub3]. unfold create_claim. apply wp_bind.
    eapply wp_mono; [apply (tracked_call (vs ++ [v]) k3); [done|]|].
    { exists lv, o, v, pvc. split_and!; [apply Hclaim..|set_solver|done|done]. }
    intros err k4 (Hk4 & Hsub4 & _). assert (calls k1 ⊆ calls k4) by set_solver.
    destruct err as [[| |[] msg| | | |]|]; try by apply wp_ret. by destruct (HasPrefix _ _); apply wp_ret.
  - intros [e|] k3 [Hk3 Hsub3]; [|by apply wp_ret, Hend]. cbn [new_claim pc_StorageClassName pc_VolumeMode].
    rewrite Hsc, Hvm. by apply wp_ret, Hend.
Qed.

Lemma rebuildVolume_ok vs m : only_claims → claims_ok vs m → goes_on (rebuildVolume m) vs (λ _ _, True).
Proof.
  intros Hcl Hm k Hk. unfold rebuildVolume. apply wp_bind.
  eapply wp_mono; [apply (wp_range _ _ _ (λ rest _ k', (∃ vs', tracked (vs ++ vs') k' ∧ calls k ⊆ calls k') ∧
    ∀ ko, ko ∈ rest → ko ∈ map_range 66 m) (λ _ k', ∃ vs', tracked (vs ++ vs') k' ∧ calls k ⊆ calls k'))|].
  - split; [|done]. exists []. by rewrite app_nil_r.
  - intros [name o] rest _ k1 [(vs1 & Hk1 & Hsub1) Hrest]. cbn [snd].
    destruct (Hm name o) as (lv & Hr & Ho); [apply elem_of_map_range with (site := 66%nat), Hrest; by left|].
    apply wp_bind. eapply wp_mono; [eapply (rebuild_one_ok (vs ++ vs1) o lv); [done| |done]|].
    { split; [|done]. eapply rebuilt_mono; [|done]. set_solver. }
    intros err k2 (vs2 & Hk2 & Hsub2 & _). rewrite <- app_assoc in Hk2.
    assert (∃ vs', tracked (vs ++ vs') k2 ∧ calls k ⊆ calls k2) as Hdone by (eexists; split; [done|by etrans]).
    destruct err; apply wp_ret; [done|]. split; [done|]. intros; apply Hrest; by right.
  - by intros _ k1 [? _].
  - intros [[]|e] k1 (vs1 & Hk1 & Hsub1); apply wp_ret; by exists vs1.
Qed.
End pass.


(** What makes the node controller run: the timer, and the deletion of a
    pod of carina's scheduler.  No other event of a pod and no change of a node
    starts a pass, and the deletion of a node ends the process: the filter, which
    applies to both watches, takes every deleted object for a pod.  The pass that
    would rebuild the volumes of that node does not run. *)
Theorem node_events {K : Type} `{KubeClient K} `{GoRuntime} (k : K) :
  (∀ name, occur (Watched (DeleteEvent (WatchedNode name))) k = (Panic not_a_pod, k)) ∧
  (∀ o, occur (Watched (CreateEvent o)) k = (Done None, k) ∧ occur (Watched (GenericEvent o)) k = (Done None, k)) ∧
  (∀ old new, occur (Watched (UpdateEvent old new)) k = (Done None, k)) ∧
  (∀ name scheduler, occur (Watched (DeleteEvent (WatchedPod name (Some scheduler)))) k =
    if decide (scheduler = CarinaSchedule) then Reconcile name k else (Done None, k)) ∧
  (occur TimerTick k).2 = (Reconcile "" k).2.
Proof.
  split_and!; try done.
  - intros name scheduler. unfold occur. cbn. destruct (String.eqb_spec scheduler CarinaSchedule) as [->|Hne].
    + by rewrite decide_True.
    + by rewrite decide_False.
  - unfold occur, Reconcile, mbind, M_bind. by destruct (resourceReconcile k) as [[]].
Qed.

(** A volume of a pod that is not a claim, such as the projected token
    every pod has, makes the controller panic: the name of its claim is logged
    before the source looks whether there is one.  One such pod on a node that
    is not ready is enough, if the node has a bound volume. *)
Theorem non_claim_volume_panics {K : Type} `{KubeClient K} `{GoRuntime} (name : string) (k : K) (v : View)
    (lv : LogicVolume) (lvs : list LogicVolume) (nodes : list NodeObject) (pvs : list PvObject)
    (p : PodObject) (pods : list PodObject) (vols : list (option string))
    (Hlook : ∀ k, ∃ k', look k = (Done v, k'))
    (Hlvs : ob_lvs (vw_objects v) = (lv :: lvs, None)) (Hnodes : ob_nodes (vw_objects v) = (nodes, None))
    (Hpvs : ob_pvs (vw_objects v) = (pvs, None)) (Hown : lv_OwnerReferences lv = [])
    (Hbound : phase_map pvs !! lv_Name lv = Some VolumeBound)
    (Hdown : status_map nodes !! ls_NodeName (lv_Spec lv) ≠ Some Normal)
    (Hpods : ob_pods (vw_objects v) (combinedIndex (ls_NodeName (lv_Spec lv))) = (p :: pods, None))
    (Hvols : pd_Volumes p = None :: vols) :
  (Reconcile name k).1 = Panic nil_deref.
Proof.
  assert (∀ k1, (check_lv (status_map nodes) (phase_map pvs) lv ∅ k1).1 = Panic nil_deref) as Hcheck.
  { intros k1. unfold check_lv. rewrite Hown, (bool_decide_eq_false_2 (phase_map pvs !! lv_Name lv = None)) by congruence.
    rewrite andb_false_r. unfold mget. rewrite Hbound. cbn [default from_option id String.eqb negb].
    rewrite bool_decide_eq_false_2 by done. unfold rebuild_lv, skipLv. apply bind_panics.
    destruct (Hlook k1) as [k2 E]. eapply bind_run_panics; [exact E|]. rewrite Hpods. unfold lift_outcome. simpl.
    by rewrite Hvols. }
  unfold Reconcile, resourceReconcile, getNeedRebuildVolume. apply bind_panics.
  destruct (Hlook k) as [k1 E1]. eapply bind_run_panics; [exact E1|]. rewrite Hlvs.
  destruct (Hlook k1) as [k2 E2]. eapply bind_run_panics.
  { unfold nodeStatusList. rewrite (bind_done _ _ _ _ _ E2), Hnodes. reflexivity. }
  destruct (Hlook k2) as [k3 E3]. eapply bind_run_panics.
  { unfold pvMap. rewrite (bind_done _ _ _ _ _ E3), Hpvs. reflexivity. }
  cbn [range]. by apply bind_panics, bind_panics.
Qed.

(** ** A cluster with a node that is down *)

Definition down_lv (name pvc : string) : LogicVolume :=
  set_lv_Status (mkLvStatus ("volume-" +:+ name) OK "" None "Success" 252 0)
    (LogicVolumeService.new_lv "prod" pvc "n1" "carina-vg-ssd" name 5 (mkOwner "" "" "" "" None None) ∅).

(** A pod on the node that may move, with these volumes. *)
Definition moving_pod (vols : list (option string)) : PodObject :=
  mkPodObject "test" "web" {[AllowPodMigrationIfNodeNotready := "true"]} vols.

Definition old_claim : PvcObject := mkPvcObject "prod" "data" {["app" := "db"]} "5Gi" (Some "csi-carina") (Some "Filesystem").

(** The second object has no [PersistentVolume]; the claim of the first has
    the name of a claim of a pod in another namespace. *)
Definition down_objects (vols : list (option string)) : Objects :=
  let absent := Some (ErrApi ReasonNotFound "not found") in
  mkObjects (λ _, (mkPvObject "" "" 0 None, absent)) ([mkPvObject "pvc-a" VolumeBound (5 * GiB) None], None)
    (λ index, (if String.eqb index (combinedIndex "n1") then [moving_pod vols] else [], None))
    (λ _ _, (old_claim, None)) ([mkNodeObject "n1" false "" [(NodeReady, "False")]], None)
    ([down_lv "pvc-a" "data"; down_lv "pvc-b" "old"], None).

(** An API server that shows these objects and accepts every write. *)
Definition down_kube (vols : list (option string)) : Kube unit := {|
  kube_view _ :=
    (mkView (λ n, (down_lv n "data", None)) (λ n, (down_lv n "data", None)) (λ _, ([], None)) (λ _, ([], None)) ([], None)
       (λ n, (sample_nsr n, None)) (λ n, (sample_nsr n, None))
       (λ n, (sample_node n, None)) (λ n, (sample_node n, None)) (λ _, ([], None))
       (λ _ _, (∅, None)) (λ _ _, (∅, None)) (down_objects vols), ());
  kube_call _ _ := (None, ());
  kube_now _ := "now"
|}.

Definition down_start : Ctl unit := mkCtl ∅ [] [] [] ().

#[local] Instance down_cluster : Kube unit := down_kube [Some "data"].


Lemma non_claim_volume_panics_witness :
  (Reconcile (H:=Ctl_client unit (H:=down_kube [None; Some "data"])) "n1" down_start).1 = Panic nil_deref.
Proof.
  refine (non_claim_volume_panics (H:=Ctl_client unit (H:=down_kube [None; Some "data"])) "n1" down_start
    (kube_view (Kube:=down_kube [None; Some "data"]) ()).1 (down_lv "pvc-a" "data") [down_lv "pvc-b" "old"] _ _
    (moving_pod [None; Some "data"]) [] [Some "data"] _ eq_refl eq_refl eq_refl eq_refl _ _ eq_refl eq_refl).
  - intros [L cs vs js []]. by eexists.
  - reflexivity.
  - by vm_compute.
Defined.
