(* ===== verification/CsiController.v ===== *)
(** * [pkg/csidriver/driver/controller.go]: the CSI controller service

    The requests of the CSI sidecars.  The service has its own set of named
    locks; it reads and writes through the API server client of [Kube], and
    chooses nodes with [NodeService]. *)

From S2P Require Import Prelude GoStrings Api GoRuntime Mutx Exec Utils Config NodeService Kube LogicVolumeService.

#[local] Open Scope string_scope.
#[local] Open Scope list_scope.
#[local] Open Scope Z_scope.

(** ** The messages *)

Inductive access_type := AccessBlock | AccessMount | AccessUnknown.

(** The only supported mode, and any other by its name. *)
Inductive access_mode := SINGLE_NODE_WRITER | OtherMode (name : string).

Record VolumeCapability := mkCapability {
  vc_type : access_type;
  vc_mode : option access_mode
}.

(** A map or a slice of a message may be nil. *)
Record CreateVolumeRequest := mkCreateRequest {
  cr_Name : string;
  cr_Parameters : option (gmap string string);
  cr_Capabilities : option (list VolumeCapability);
  cr_ContentSource : bool;
  cr_RequiredBytes : Z;
  cr_LimitBytes : Z;
  cr_Topology : option TopologyRequirement
}.

Record Volume := mkVolume {
  v_CapacityBytes : Z;
  v_VolumeId : string;
  v_VolumeContext : gmap string string;
  v_Node : string
}.

Record ExpandVolumeRequest := mkExpandRequest {
  er_VolumeId : string;
  er_RequiredBytes : Z;
  er_LimitBytes : Z
}.

(** Reading and writing a map that may be nil. *)
Definition param (m : option (gmap string string)) (k : string) : string :=
  match m with Some m => mget m k | None => "" end.

Definition nil_map_write : string := "assignment to entry in nil map".

Definition assign_all {St} (m : option (gmap string string)) (kvs : list (string * string))
  : M St (gmap string string) :=
  match m with
  | Some m => mret (foldl (λ m kv, <[kv.1 := kv.2]> m) m kvs)
  | None => panic nil_map_write
  end.

(** [pvName[6:]]. *)
Definition drop6 {St} (s : string) : M St string :=
  if (6 <=? String.length s)%nat then mret (sdrop 6 s)
  else panic ("slice bounds out of range [6:" +:+ FormatUint (Z.of_nat (String.length s)) +:+ "]").

(** An error that has no gRPC status becomes an internal one. *)
Definition as_status (e : error) : error :=
  match e with ErrStatus _ _ => e | _ => ErrStatus Internal (Error e) end.

(** [status.FromError(err)] then [Code()]. *)
Definition status_code (e : error) : code :=
  match e with ErrStatus c _ => c | _ => Unknown end.

Definition convertRequestCapacity (requestBytes limitBytes : Z) : res Z :=
  if requestBytes <? 0 then (0, Some (ErrString "required capacity must not be negative"))
  else if limitBytes <? 0 then (0, Some (ErrString "capacity limit must not be negative"))
  else if negb (limitBytes =? 0) && (limitBytes <? requestBytes) then
    (0, Some (ErrString ("requested capacity exceeds limit capacity: request=" +:+ FormatInt requestBytes +:+
                         " limit=" +:+ FormatInt limitBytes)))
  else if requestBytes =? 0 then (MinRequestSizeGb, None)
  else (i64 (Z.shiftr (i64 (requestBytes - 1)) 30 + 1), None).

(** The check of the capabilities: the first one that is not supported. *)
Fixpoint check_capabilities (l : list VolumeCapability) : option error :=
  match l with
  | [] => None
  | c :: l' =>
      match vc_type c with
      | AccessUnknown => Some (ErrStatus InvalidArgument "unknown or empty access_type")
      | _ =>
          match vc_mode c with
          | Some (OtherMode name) => Some (ErrStatus InvalidArgument ("unsupported access mode: " +:+ name))
          | _ => check_capabilities l'
          end
      end
  end.

Definition PvcName := "csi.storage.k8s.io/pvc/name".
Definition PvcNamespace := "csi.storage.k8s.io/pvc/namespace".
Definition annAlphaSelectedNode := "volume.alpha.kubernetes.io/selected-node".

(** ** Reading *)

(** The logic volumes of a node, as [GetLogicVolumesByNodeName] finds them. *)
Definition view_lvs (v : View) (nodeName : string) : res (list LogicVolume) :=
  match vw_cache_by_node v nodeName with
  | (_, Some e) => ([], Some e)
  | ((_ :: _) as items, None) => (items, None)
  | ([], None) =>
      match vw_api_lvs v with
      | (_, Some e) => ([], Some e)
      | (items, None) => (List.filter (λ lv, String.eqb (ls_NodeName (lv_Spec lv)) nodeName) items, None)
      end
  end.

(** The answers one selection gets.  It asks for each object once, so that a
    view, an arbitrary function of the names, covers answers given at different
    moments. *)
Definition view_reads (v : View) : Reads :=
  mkReads (vw_nodes v) (λ n, retry_get (vw_cache_nsr v n) (vw_api_nsr v n)) (view_lvs v).

Module controllerService.
Section service.
Context {C : Type} `{Kube C} `{GoRuntime} (cfg : Settings).

Definition HaveSelectedNode (namespace name : string) : M (Ctl C) (res string) :=
  r ← RetryGetter.Get_pvc namespace name;
  match r with
  | (_, Some e) => mret ("", Some e)
  | (annotations, None) =>
      let node := mget annotations AnnSelectedNode in
      mret (if String.eqb node "" then mget annotations annAlphaSelectedNode else node, None)
  end.

(** A selection against the answers of the moment. *)
Definition select {A} (f : Reads → res A) : M (Ctl C) (res A) :=
  v ← look; mret (f (view_reads v)).

Definition no_owner : OwnerReference := mkOwner "" "" "" "" None None.

(** *** Volumes with a cache *)

Definition CreateBcacheVolume (ctx : Ctx) (req : CreateVolumeRequest) (nodeName : string) (requestGb : Z)
  : M (Ctl C) (res (option Volume)) :=
  let fail e := mret (None, Some e) in
  if String.eqb (cr_Name req) "" then fail (ErrStatus InvalidArgument "invalid pv name")
  else
  let pvName := ToLower (cr_Name req) in
  let backendDeviceGroup := param (cr_Parameters req) VolumeBackendDiskType in
  let cacheDeviceGroup := param (cr_Parameters req) VolumeCacheDiskType in
  let cacheDiskRatio := param (cr_Parameters req) VolumeCacheDiskRatio in
  let cachePolicy := param (cr_Parameters req) VolumeCachePolicy in
  if String.eqb backendDeviceGroup "" then
    fail (ErrStatus FailedPrecondition (VolumeBackendDiskType +:+ " " +:+ backendDeviceGroup +:+ ", can not be empty"))
  else if String.eqb cacheDeviceGroup "" then
    fail (ErrStatus FailedPrecondition (VolumeCacheDiskType +:+ " " +:+ cacheDeviceGroup +:+ ", can not be empty"))
  else
  let backendDeviceGroup := ToLower backendDeviceGroup in
  let cacheDeviceGroup := ToLower cacheDeviceGroup in
  let cachePolicy :=
    if ContainsString ["writethrough"; "writeback"; "writearound"] cachePolicy then cachePolicy else "writethrough" in
  let bad_ratio := ErrStatus FailedPrecondition (VolumeCacheDiskRatio +:+ " " +:+ cacheDiskRatio +:+ ", Should be in 1-100") in
  let '(ratio, err) := ParseInt64 cacheDiskRatio in
  if err then fail bad_ratio
  else if (ratio <? 1) || (100 <=? ratio) then fail bad_ratio
  else
  let cacheRequestGb := Z.quot (i64 (requestGb * ratio)) 100 in
  let backendRequestGb := requestGb in
  if (cacheRequestGb <=? 0) || (backendRequestGb <=? 0) then
    fail (ErrStatus FailedPrecondition
      ("pvc request capacity and cache ratio are inappropriate, cacheRequestGb is " +:+ FormatInt cacheRequestGb))
  else
  suffix ← drop6 pvName;
  let backendVolumeName := pvName in
  let cacheVolumeName := "cache-" +:+ suffix in
  let pvcName := param (cr_Parameters req) PvcName in
  let namespace := param (cr_Parameters req) PvcNamespace in
  (** the node selected here is bound to a new variable of the block *)
  sel ← (if String.eqb nodeName "" then
           r ← select (λ rd, SelectMultiVolumeNode cfg rd backendDeviceGroup cacheDeviceGroup
                               backendRequestGb cacheRequestGb (cr_Topology req));
           match r with
           | (_, Some e) => mret (Some (ErrStatus Internal ("failed to select node, err: " +:+ Error e)))
           | (n, None) => mret (if String.eqb n "" then Some (ErrStatus Internal "can not find any node") else None)
           end
         else mret None);
  match sel with
  | Some e => fail e
  | None =>
  let annotation := list_to_map [(VolumeCacheDiskRatio, cacheDiskRatio); (VolumeManagerType, LvmVolumeType)] in
  r ← LogicVolumeService.CreateVolume ctx namespace pvcName nodeName backendDeviceGroup backendVolumeName
        backendRequestGb no_owner annotation;
  let '((backendId, backendMajor, backendMinor), err) := r in
  let fatal := match err with
               | Some e => if decide (status_code e = AlreadyExists) then None else Some (as_status e)
               | None => None
               end in
  match fatal with
  | Some e => fail e
  | None =>
  r ← LogicVolumeService.GetLogicVolumeByVolumeId backendId;
  match r with
  | (_, Some e) =>
      fail (if decide (e = ErrVolumeNotFound)
            then ErrStatus NotFound ("LogicalVolume for volume id " +:+ backendId +:+ " is not found")
            else ErrStatus Internal (Error e))
  | (None, None) => panic nil_deref
  | (Some lv, None) =>
  let owner := mkOwner (lv_APIVersion lv) (lv_Kind lv) (lv_Name lv) (lv_UID lv) (Some true) (Some true) in
  r ← LogicVolumeService.CreateVolume ctx namespace pvcName nodeName cacheDeviceGroup cacheVolumeName
        cacheRequestGb owner annotation;
  match r with
  | (_, Some e) => fail (as_status e)
  | ((cacheId, cacheMajor, cacheMinor), None) =>
  volumeContext ← assign_all (cr_Parameters req)
    [(DeviceDiskKey, backendDeviceGroup);
     (VolumeDevicePath, "/dev/" +:+ backendDeviceGroup +:+ "/volume-" +:+ backendVolumeName);
     (VolumeDeviceNode, nodeName);
     (VolumeDeviceMajor, FormatUint backendMajor);
     (VolumeDeviceMinor, FormatUint backendMinor);
     (VolumeCacheDiskType, cacheDeviceGroup);
     (VolumeCacheDevicePath, "/dev/" +:+ cacheDeviceGroup +:+ "/volume-" +:+ cacheVolumeName);
     (VolumeCacheDeviceMajor, FormatUint cacheMajor);
     (VolumeCacheDeviceMinor, FormatUint cacheMinor);
     (VolumeCachePolicy, cachePolicy);
     (VolumeCacheDiskRatio, cacheDiskRatio);
     (VolumeCacheId, cacheId)];
  mret (Some (mkVolume (i64 (Z.shiftl requestGb 30)) backendId volumeContext nodeName), None)
  end end end end.

(** *** Volumes *)

(** The manager of a group. *)
Definition group_type (deviceGroup : string) : string :=
  if CheckRawDeviceGroup cfg deviceGroup then RawVolumeType
  else if CheckHostDeviceGroup cfg deviceGroup then HostVolumeType
  else LvmVolumeType.

Definition device_path (deviceGroup pvName : string) : string :=
  if CheckHostDeviceGroup cfg deviceGroup then GetHostDevicePath cfg deviceGroup +:+ "/host-" +:+ pvName
  else "/dev/" +:+ deviceGroup +:+ "/volume-" +:+ pvName.

(** The node and the group of a new volume: those of the scheduler, completed
    by the group, or those [SelectNode] chooses. *)
Definition place (req : CreateVolumeRequest) (requestGb : Z) (nodeName volumeType deviceGroup : string)
    (exclusivityDisk : bool) : M (Ctl C) ((string * string) + error) :=
  if negb (String.eqb nodeName "") then
    if String.eqb volumeType HostVolumeType then mret (inl (nodeName, deviceGroup))
    else
      r ← select (λ rd, SelectDeviceGroup cfg rd requestGb exclusivityDisk nodeName volumeType deviceGroup);
      match r with
      | (_, Some e) => mret (inr (ErrStatus Internal ("failed to get device group " +:+ Error e)))
      | (deviceGroup, None) =>
          if String.eqb deviceGroup "" then mret (inr (ErrStatus Internal "can not find any device group"))
          else mret (inl (nodeName, deviceGroup))
      end
  else
    r ← select (λ rd, SelectNode cfg rd requestGb volumeType deviceGroup (cr_Topology req) exclusivityDisk);
    match r with
    | (_, Some e) => mret (inr (ErrStatus Internal ("failed to select node,  err: " +:+ Error e)))
    | ((nodeName, deviceGroup), None) =>
        if String.eqb nodeName "" then mret (inr (ErrStatus Internal "can not find any node"))
        else if String.eqb deviceGroup "" then mret (inr (ErrStatus Internal "can not find any device group"))
        else mret (inl (nodeName, deviceGroup))
    end.

(** The annotations of the object of a volume. *)
Definition annotation_for (volumeType : string) (exclusivityDisk : bool) : gmap string string :=
  if String.eqb volumeType RawVolumeType
  then list_to_map [(VolumeManagerType, volumeType); (ExclusivityDisk, if exclusivityDisk then "true" else "false")]
  else {[VolumeManagerType := volumeType]}.

(** [CreateVolume] below its lock. *)
Definition create_locked (ctx : Ctx) (req : CreateVolumeRequest) (pvName deviceGroup : string)
    (capabilities : list VolumeCapability) : M (Ctl C) (res (option Volume)) :=
  let fail e := mret (None, Some e) in
  match check_capabilities capabilities with
  | Some e => fail e
  | None =>
  match convertRequestCapacity (cr_RequiredBytes req) (cr_LimitBytes req) with
  | (_, Some e) => fail (ErrStatus InvalidArgument (Error e))
  | (requestGb, None) =>
  let pvcName := param (cr_Parameters req) PvcName in
  let namespace := param (cr_Parameters req) PvcNamespace in
  r ← HaveSelectedNode namespace pvcName;
  match r with
  | (_, Some _) => fail (ErrStatus Internal ("can not find pvc " +:+ namespace +:+ " " +:+ pvcName))
  | (nodeName, None) =>
  if CheckHostDeviceGroup cfg deviceGroup && negb (String.eqb deviceGroup "") && String.eqb nodeName "" then
    fail (ErrStatus FailedPrecondition "can not support host not select node")
  else
  let volumeType := group_type deviceGroup in
  let devicePath := device_path deviceGroup pvName in
  let exclusivityDisk :=
    String.eqb volumeType RawVolumeType && String.eqb (param (cr_Parameters req) ExclusivityDisk) "true" in
  let cacheDiskRatio := param (cr_Parameters req) VolumeCacheDiskRatio in
  if negb (String.eqb cacheDiskRatio "") && negb (String.eqb cacheDiskRatio "0") then
    CreateBcacheVolume ctx req nodeName requestGb
  else
  r ← place req requestGb nodeName volumeType deviceGroup exclusivityDisk;
  match r with
  | inr e => fail e
  | inl (nodeName, deviceGroup) =>
  r ← LogicVolumeService.CreateVolume ctx namespace pvcName nodeName deviceGroup pvName requestGb no_owner
        (annotation_for volumeType exclusivityDisk);
  match r with
  | (_, Some e) => fail (as_status e)
  | ((volumeID, deviceMajor, deviceMinor), None) =>
  volumeContext ← assign_all (cr_Parameters req)
    [(DeviceDiskKey, deviceGroup);
     (VolumeDevicePath, devicePath);
     (VolumeDeviceNode, nodeName);
     (VolumeDeviceMajor, FormatUint deviceMajor);
     (VolumeDeviceMinor, FormatUint deviceMinor)];
  mret (Some (mkVolume (i64 (Z.shiftl requestGb 30)) volumeID volumeContext nodeName), None)
  end end end end end.

Definition in_progress (what id : string) : error :=
  ErrStatus Aborted ("an operation with the given " +:+ what +:+ " " +:+ id +:+ " already exists").

Definition CreateVolume (ctx : Ctx) (req : CreateVolumeRequest) : M (Ctl C) (res (option Volume)) :=
  if String.eqb (cr_Name req) "" then mret (None, Some (ErrStatus InvalidArgument "invalid name"))
  else
  let pvName := ToLower (cr_Name req) in
  let deviceGroup := GetDeviceGroup cfg (param (cr_Parameters req) DeviceDiskKey) in
  if cr_ContentSource req then
    mret (None, Some (ErrStatus InvalidArgument "volume_content_source not supported"))
  else
  match cr_Capabilities req with
  | None => mret (None, Some (ErrStatus InvalidArgument "no volume capabilities are provided"))
  | Some capabilities =>
      with_lock pvName (None, Some (in_progress "volume" pvName))
        (create_locked ctx req pvName deviceGroup capabilities)
  end.

Definition DeleteVolume (ctx : Ctx) (volumeId : string) : M (Ctl C) (option error) :=
  if String.eqb volumeId "" then mret (Some (ErrStatus InvalidArgument "volume_id is not provided"))
  else
    err ← LogicVolumeService.DeleteVolume ctx volumeId;
    mret (as_status <$> err).

(** Confirmed, with the fields of the request. *)
Definition ValidateVolumeCapabilities (volumeId : string) (capabilities : list VolumeCapability)
  : M (Ctl C) (option error) :=
  if String.eqb volumeId "" then mret (Some (ErrStatus InvalidArgument "volume id is nil"))
  else match capabilities with
  | [] => mret (Some (ErrStatus InvalidArgument "volume capabilities are empty"))
  | _ =>
      r ← LogicVolumeService.GetLogicVolumeByVolumeId volumeId;
      mret match r.2 with
           | None => None
           | Some e =>
               Some (if decide (e = ErrVolumeNotFound)
                     then ErrStatus NotFound ("LogicalVolume for volume id " +:+ volumeId +:+ " is not found")
                     else ErrStatus Internal (Error e))
           end
  end.

(** [AvailableCapacity], in the unit of the status of the nodes. *)
Definition GetCapacity (parameters : option (gmap string string)) (topology : gmap string string)
  : M (Ctl C) (res Z) :=
  let deviceGroup := GetDeviceGroup cfg (param parameters DeviceDiskKey) in
  let volumeType := if CheckRawDeviceGroup cfg deviceGroup then RawVolumeType else LvmVolumeType in
  let exclusivityDisk :=
    String.eqb volumeType RawVolumeType && String.eqb (param parameters ExclusivityDisk) "true" in
  r ← select (λ rd, GetTotalCapacity cfg rd deviceGroup topology exclusivityDisk);
  match r with
  | (_, Some e) => mret (0, Some (ErrStatus Internal (Error e)))
  | (capacity, None) => mret (capacity, None)
  end.

(** [ControllerExpandVolume] below its lock; the result is [CapacityBytes]. *)
Definition expand_locked (ctx : Ctx) (req : ExpandVolumeRequest) : M (Ctl C) (res Z) :=
  let volumeID := er_VolumeId req in
  let fail e := mret (0, Some e) in
  r ← LogicVolumeService.GetLogicVolumeByVolumeId volumeID;
  match r with
  | (_, Some e) =>
      fail (if decide (e = ErrVolumeNotFound)
            then ErrStatus NotFound ("LogicalVolume for volume id " +:+ volumeID +:+ " is not found")
            else ErrStatus Internal (Error e))
  | (None, None) => panic nil_deref
  | (Some lv, None) =>
  if String.eqb (mget (lv_Annotations lv) VolumeManagerType) "raw" &&
     String.eqb (mget (lv_Annotations lv) ExclusivityDisk) "false" then
    fail (ErrStatus Internal "can not expand no exclusivity disk")
  else
  match convertRequestCapacity (er_RequiredBytes req) (er_LimitBytes req) with
  | (_, Some e) => fail (ErrStatus InvalidArgument (Error e))
  | (requestGb, None) =>
  r ← match st_CurrentSize (lv_Status lv) with
      | Some size => mret (size, None)
      | None =>
          err ← LogicVolumeService.UpdateLogicVolumeCurrentSize ctx volumeID (ls_Size (lv_Spec lv));
          mret (ls_Size (lv_Spec lv), err)
      end;
  match r with
  | (_, Some e) => fail (ErrStatus Internal (Error e))
  | (currentSize, None) =>
  let currentGb := Z.shiftr currentSize 30 in
  let current := i64 (Z.shiftl currentGb 30) in
  let requested := i64 (Z.shiftl requestGb 30) in
  if requestGb <=? currentGb then mret (current, None)
  else if CheckHostDeviceGroup cfg (ls_DeviceGroup (lv_Spec lv)) then
    err ← LogicVolumeService.UpdateLogicVolumeSpecSize ctx volumeID requested;
    match err with
    | Some e => fail (ErrStatus Internal (Error e))
    | None =>
        err ← LogicVolumeService.UpdateLogicVolumeCurrentSize ctx volumeID requested;
        match err with
        | Some e => fail (ErrStatus Internal (Error e))
        | None => mret (current, None)
        end
    end
  else
  r ← select (λ rd, GetCapacityByNodeName rd (ls_NodeName (lv_Spec lv)) (ls_DeviceGroup (lv_Spec lv)));
  match r with
  | (_, Some e) => fail (ErrStatus Internal (Error e))
  | (capacity, None) =>
  if capacity <? i64 (requestGb - currentGb) then fail (ErrStatus Internal "not enough space")
  else
  err ← LogicVolumeService.ExpandVolume ctx volumeID requestGb;
  match err with
  | Some e => fail (as_status e)
  | None =>
  let cacheDiskRatio := mget (lv_Annotations lv) VolumeCacheDiskRatio in
  (if String.eqb cacheDiskRatio "" then mret ()
   else go (JobExpandCache (lv_Name lv) cacheDiskRatio requestGb)) ;;
  mret (requested, None)
  end end end end end.

Definition ControllerExpandVolume (ctx : Ctx) (req : ExpandVolumeRequest) : M (Ctl C) (res Z) :=
  let volumeID := er_VolumeId req in
  if String.eqb volumeID "" then mret (0, Some (ErrStatus InvalidArgument "volume id is nil"))
  else with_lock volumeID (0, Some (in_progress "Volume ID" volumeID)) (expand_locked ctx req).

(** The goroutine that expands the cache: a ratio that is no number or out of
    range is logged and used. *)
Definition run_job (ctx : Ctx) (j : job) : M (Ctl C) unit :=
  match j with
  | JobExpandCache lvName cacheDiskRatio requestGb =>
      let ratio := (ParseInt64 cacheDiskRatio).1 in
      suffix ← drop6 lvName;
      let cacheRequestGb := Z.quot (i64 (requestGb * ratio)) 100 in
      _ ← LogicVolumeService.ExpandVolume ctx ("volume-cache-" +:+ suffix) cacheRequestGb;
      mret ()
  end.

Inductive controller_capability := CREATE_DELETE_VOLUME | GET_CAPACITY | EXPAND_VOLUME.

Definition ControllerGetCapabilities : list controller_capability :=
  [CREATE_DELETE_VOLUME; GET_CAPACITY; EXPAND_VOLUME].
End service.
End controllerService.
