(* ===== verification/CsiControllerTheorems.v ===== *)
(** * The CSI controller service: theorems

    What a request returns and which objects it writes, whatever the other
    processes of the cluster do meanwhile. *)

From S2P Require Import Prelude GoStrings Api GoRuntime Mutx Exec Utils Config NodeService Kube LogicVolumeService.
From S2P Require Import CsiController.

#[local] Open Scope string_scope.
#[local] Open Scope list_scope.
#[local] Open Scope Z_scope.

Import controllerService.

(** ** Sizes *)

Lemma round_up r : 1 <= r →
  r <= (Z.shiftr (r - 1) 30 + 1) * GiB ∧ ∀ g, r <= g * GiB → Z.shiftr (r - 1) 30 + 1 <= g.
Proof.
  intros Hr. pose proof (shiftr30_spec (r - 1)) as Hs. unfold GiB in *.
  split; [lia|]. intros g Hg. nia.
Qed.

Lemma convert_exact (requestBytes limitBytes : Z)
    (Hreq : is_i64 requestBytes) (Hlim : is_i64 limitBytes) :
  match convertRequestCapacity requestBytes limitBytes with
  | (gb, None) =>
      0 <= requestBytes ∧ 0 <= limitBytes ∧ (limitBytes = 0 ∨ requestBytes <= limitBytes) ∧
      1 <= gb ∧ requestBytes <= gb * GiB ∧ ∀ g, 1 <= g → requestBytes <= g * GiB → gb <= g
  | (_, Some _) => requestBytes < 0 ∨ limitBytes < 0 ∨ limitBytes ≠ 0 ∧ limitBytes < requestBytes
  end ∧
  convertRequestCapacity 1 1 = (1, None).
Proof.
  split; [|reflexivity]. unfold convertRequestCapacity.
  destruct (Z.ltb_spec requestBytes 0); [by left|]. destruct (Z.ltb_spec limitBytes 0); [by right; left|].
  destruct (Z.eqb_spec limitBytes 0) as [->|Hl]; cbn [negb andb].
  2: destruct (Z.ltb_spec limitBytes requestBytes); [by right; right|].
  all: destruct (Z.eqb_spec requestBytes 0) as [->|Hr]; [cbv [MinRequestSizeGb GiB]; split_and!; try lia; intros; lia|].
  all: pose proof (round_up requestBytes ltac:(lia)) as [Hup Hleast]; unfold is_i64 in *.
  all: rewrite (i64_id (requestBytes - 1)) by (unfold is_i64; lia).
  all: assert (0 <= Z.shiftr (requestBytes - 1) 30 < 2^33) as Hb
    by (rewrite Z.shiftr_div_pow2 by lia; split; [apply Z.div_pos; lia|apply Z.div_lt_upper_bound; lia]).
  all: rewrite i64_id by (unfold is_i64; lia).
  all: split_and!; try lia; auto.
Qed.

(** [C36] The requested bytes are rounded up to the least number of whole GiB
    that holds them, at least one, and the errors are exactly the negative and
    the contradictory ranges.  The limit is compared before the rounding: a
    volume can be larger than its limit. *)
Theorem convertRequestCapacity_exact (requestBytes limitBytes : Z)
    (Hreq : is_i64 requestBytes) (Hlim : is_i64 limitBytes) :
  match convertRequestCapacity requestBytes limitBytes with
  | (gb, None) =>
      0 <= requestBytes ∧ 0 <= limitBytes ∧ (limitBytes = 0 ∨ requestBytes <= limitBytes) ∧
      1 <= gb ∧ requestBytes <= gb * GiB ∧ ∀ g, 1 <= g → requestBytes <= g * GiB → gb <= g
  | (_, Some _) => requestBytes < 0 ∨ limitBytes < 0 ∨ limitBytes ≠ 0 ∧ limitBytes < requestBytes
  end ∧
  convertRequestCapacity 1 1 = (1, None).
Proof. by apply convert_exact. Qed.

Lemma convertRequestCapacity_exact_witness :
  is_i64 (5 * GiB + 1) ∧ convertRequestCapacity (5 * GiB + 1) 0 = (6, None) ∧
  convertRequestCapacity 1 1 = (1, None).
Proof.
  assert (is_i64 (5 * GiB + 1)) as Hi by (unfold is_i64, GiB; lia).
  assert (is_i64 0) as H0 by (unfold is_i64; lia).
  split; [exact Hi|]. split; [reflexivity|].
  exact (proj2 (convertRequestCapacity_exact (5 * GiB + 1) 0 Hi H0)).
Defined.

(** ** Below the locks *)

Section locks.
Context {C : Type} `{Kube C}.

Lemma keeps_wait_created ticks e name : keeps_locks (LogicVolumeService.wait_created (St:=Ctl C) ticks e name).
Proof. induction ticks; cbn [LogicVolumeService.wait_created]; unfold RetryGetter.Get_lv; keeps. Qed.
Lemma keeps_wait_expanded ticks e name : keeps_locks (LogicVolumeService.wait_expanded (St:=Ctl C) ticks e name).
Proof. induction ticks; cbn [LogicVolumeService.wait_expanded]; unfold RetryGetter.Get_lv; keeps. Qed.
Lemma keeps_by_id id : keeps_locks (LogicVolumeService.GetLogicVolumeByVolumeId (St:=Ctl C) id).
Proof. unfold LogicVolumeService.GetLogicVolumeByVolumeId. keeps. Qed.
#[local] Hint Resolve keeps_wait_created keeps_wait_expanded keeps_by_id : go_db.

Lemma keeps_update_status_size ticks e id size :
  keeps_locks (LogicVolumeService.update_status_size (St:=Ctl C) ticks e id size).
Proof. induction ticks; cbn [LogicVolumeService.update_status_size]; keeps. Qed.
Lemma keeps_update_spec_size ticks e id size :
  keeps_locks (LogicVolumeService.update_spec_size (St:=Ctl C) ticks e id size).
Proof. induction ticks; cbn [LogicVolumeService.update_spec_size]; keeps. Qed.
#[local] Hint Resolve keeps_update_status_size keeps_update_spec_size : go_db.

Lemma keeps_create ctx a b c d e f g h :
  keeps_locks (LogicVolumeService.CreateVolume (St:=Ctl C) ctx a b c d e f g h).
Proof. unfold LogicVolumeService.CreateVolume, RetryGetter.Get_lv. keeps. Qed.
Lemma keeps_expand ctx id gb : keeps_locks (LogicVolumeService.ExpandVolume (St:=Ctl C) ctx id gb).
Proof.
  unfold LogicVolumeService.ExpandVolume, LogicVolumeService.UpdateLogicVolumeSpecSize, RetryGetter.Get_node. keeps.
Qed.
Lemma keeps_assign m kvs : keeps_locks (assign_all (St:=Ctl C) m kvs).
Proof. unfold assign_all. keeps. Qed.
Lemma keeps_drop6 s : keeps_locks (drop6 (St:=Ctl C) s).
Proof. unfold drop6. keeps. Qed.
Lemma keeps_select {A} (f : Reads → res A) : keeps_locks (select (C:=C) f).
Proof. unfold select. keeps. Qed.
#[local] Hint Resolve keeps_create keeps_expand keeps_assign keeps_drop6 @keeps_select : go_db.

Context `{GoRuntime} (cfg : Settings).

Lemma keeps_bcache ctx req node gb : keeps_locks (CreateBcacheVolume (C:=C) cfg ctx req node gb).
Proof. unfold CreateBcacheVolume. keeps. Qed.
#[local] Hint Resolve keeps_bcache : go_db.

Lemma keeps_create_locked ctx req pv g caps : keeps_locks (create_locked (C:=C) cfg ctx req pv g caps).
Proof. unfold create_locked, HaveSelectedNode, place, RetryGetter.Get_pvc. keeps. Qed.

Lemma keeps_expand_locked ctx req : keeps_locks (expand_locked (C:=C) cfg ctx req).
Proof.
  unfold expand_locked, LogicVolumeService.UpdateLogicVolumeCurrentSize, LogicVolumeService.UpdateLogicVolumeSpecSize.
  keeps.
Qed.

(** An operation under the controller's lock. *)
Lemma wp_ctl_locked {A} id (busy : A) (body : M (Ctl C) A) (Q : A → Ctl C → Prop) s :
  keeps_locks body → (id ∈ get_locks s → ∀ L, Q busy (set_locks L s)) →
  (id ∉ get_locks s → ∀ L, wp body Q (set_locks L s)) →
  (∀ a s1 L, Q a s1 → Q a (set_locks L s1)) →
  wp (with_lock id busy body) (λ a s', get_locks s' = get_locks s ∧ Q a s') s.
Proof.
  intros Hk Hbusy Hbody HQ. destruct (decide (id ∈ get_locks s)) as [Hin|Hout].
  { unfold wp. rewrite with_lock_busy by done. split; [done|auto]. }
  pose proof (keeps_with_lock id busy body Hk s) as Hkeep.
  assert (wp (with_lock id busy body) Q s) as Hwp.
  { apply wp_with_lock; [done|]. eapply wp_mono; [by apply Hbody|]. auto. }
  unfold wp in *. by destruct (with_lock id busy body s) as [[a|] s'].
Qed.
End locks.

(** ** Creating *)

Section create.
Context {C : Type} `{Kube C} `{GoRuntimeLaws} (cfg : Settings).

(** The node the scheduler chose for the claim, as some view showed it. *)
Definition selected_node (namespace pvc node : string) (s : Ctl C) : Prop :=
  ∃ annotations,
    answered (λ v, vw_cache_pvc v namespace pvc) (λ v, vw_api_pvc v namespace pvc) s (annotations, None) ∧
    node = (if String.eqb (mget annotations AnnSelectedNode) "" then mget annotations annAlphaSelectedNode
            else mget annotations AnnSelectedNode).

(** How a volume gets its node and its group: the scheduler's node, with the
    group of the class for a host path and a group chosen on the node
    otherwise; or a ready node of the topology and a group of it that fits. *)
Definition placed (req : CreateVolumeRequest) (gb : Z) (volumeType scDeviceGroup : string)
    (exclusivityDisk : bool) (node group : string) (s : Ctl C) : Prop :=
  (selected_node (param (cr_Parameters req) PvcNamespace) (param (cr_Parameters req) PvcName) node s ∧
   (volumeType = HostVolumeType ∧ group = scDeviceGroup ∨
    ∃ v, v ∈ seen s ∧
      SelectDeviceGroup cfg (view_reads v) gb exclusivityDisk node volumeType scDeviceGroup = (group, None))) ∨
  ∃ v nodes a, v ∈ seen s ∧ vw_nodes v ∅ = (nodes, None) ∧
    Candidate cfg (view_reads v) nodes gb volumeType scDeviceGroup (cr_Topology req) exclusivityDisk node group a.

Lemma answered_later {A} (cache api : View → res A) (s s' : Ctl C) r :
  (∃ vs, seen s' = seen s ++ vs) → answered cache api s r → answered cache api s' r.
Proof. intros [vs Hs]. by apply answered_mono with (vs := vs). Qed.

Lemma HaveSelectedNode_spec namespace pvc :
  only_reads (HaveSelectedNode (C:=C) namespace pvc) (λ r s',
    match r with (node, None) => selected_node namespace pvc node s' | _ => True end).
Proof.
  intros s. unfold HaveSelectedNode, RetryGetter.Get_pvc. apply wp_bind. eapply wp_mono; [apply wp_Get|].
  intros [an [e|]] s1 (Hc & Hs & Ha); apply wp_ret; (split; [done|]); (split; [done|]); [done|]. by exists an.
Qed.

Lemma select_spec {A} (f : Reads → res A) :
  only_reads (select (C:=C) f) (λ r s', ∃ v, v ∈ seen s' ∧ r = f (view_reads v)).
Proof.
  intros s. apply wp_bind. eapply wp_mono; [apply look_law|]. intros v s1 [Hc Hs]. apply wp_ret.
  rewrite Hs. split; [done|]. split; [by eexists|]. exists v. split; [set_solver|done].
Qed.

Lemma placed_later req gb vt sc x node group (s s' : Ctl C) :
  (∃ vs, seen s' = seen s ++ vs) → placed req gb vt sc x node group s → placed req gb vt sc x node group s'.
Proof.
  intros Hs [[(an & Ha & Hn) Hg]|(v & nodes & a & Hv & Hr)].
  - left. split; [exists an; split; [by eapply answered_later|done]|].
    destruct Hg as [Hg|(v & Hv & Hg)]; [by left|]. right. exists v. destruct Hs as [vs ->]. split; [set_solver|done].
  - right. exists v, nodes, a. destruct Hs as [vs ->]. split; [set_solver|done].
Qed.

Lemma place_spec req gb node0 vt sc x (s : Ctl C) :
  selected_node (param (cr_Parameters req) PvcNamespace) (param (cr_Parameters req) PvcName) node0 s →
  wp (place cfg req gb node0 vt sc x) (λ r s', calls s' = calls s ∧ (∃ vs, seen s' = seen s ++ vs) ∧
    match r with
    | inl (node, group) => node ≠ "" ∧ placed req gb vt sc x node group s'
    | inr e => ∃ m, e = ErrStatus Internal m
    end) s.
Proof.
  intros (an & Ha & Hnode). unfold place. destruct (String.eqb_spec node0 "") as [->|Hne]; cbn [negb].
  - apply wp_bind. eapply wp_mono; [apply select_spec|]. intros [[n g] [e|]] s1 (Hc & Hs & v & Hv & Hr); [by apply wp_ret; eauto|].
    destruct (String.eqb_spec n "") as [->|Hn]; [by apply wp_ret; eauto|].
    destruct (String.eqb_spec g "") as [->|Hg]; [by apply wp_ret; eauto|].
    apply wp_ret. split; [done|]. split; [done|]. split; [done|]. right. symmetry in Hr.
    apply SelectNode_candidate in Hr as (nodes & a & Hn' & Hcand). by exists v, nodes, a.
  - destruct (String.eqb_spec vt HostVolumeType) as [->|Hvt].
    { apply wp_ret. split; [done|]. split; [exists []; by rewrite app_nil_r|]. split; [done|]. left.
      split; [by exists an|by left]. }
    apply wp_bind. eapply wp_mono; [apply select_spec|]. intros [g [e|]] s1 (Hc & Hs & v & Hv & Hr); [by apply wp_ret; eauto|].
    destruct (String.eqb_spec g "") as [->|Hg]; [by apply wp_ret; eauto|].
    apply wp_ret. split; [done|]. split; [done|]. split; [done|]. left.
    split; [exists an; split; [by eapply answered_later|done]|]. right. by exists v.
Qed.

(** What a request without a cache may leave behind and return. *)
Definition create_outcome (req : CreateVolumeRequest) (params : gmap string string) (s : Ctl C)
    (r : res (option Volume)) (s' : Ctl C) : Prop :=
  let pvName := ToLower (cr_Name req) in
  let scDeviceGroup := GetDeviceGroup cfg (mget params DeviceDiskKey) in
  let volumeType := group_type cfg scDeviceGroup in
  let exclusivityDisk := String.eqb volumeType RawVolumeType && String.eqb (mget params ExclusivityDisk) "true" in
  match r with
  | (Some vol, None) =>
      ∃ gb group o pre,
        convertRequestCapacity (cr_RequiredBytes req) (cr_LimitBytes req) = (gb, None) ∧
        v_CapacityBytes vol = i64 (Z.shiftl gb 30) ∧ v_Node vol ≠ "" ∧
        placed req gb volumeType scDeviceGroup exclusivityDisk (v_Node vol) group s' ∧
        calls s' = calls s ++ pre ∧
        (pre = [] ∨
         pre = [ApiCreate (LogicVolumeService.new_lv (mget params PvcNamespace) (mget params PvcName) (v_Node vol) group
                  pvName gb no_owner (annotation_for volumeType exclusivityDisk))]) ∧
        observed pvName s' (o, None) ∧ st_VolumeID (lv_Status o) = v_VolumeId vol ∧ v_VolumeId vol ≠ "" ∧
        v_VolumeContext vol =
          <[VolumeDeviceMinor := FormatUint (st_DeviceMinor (lv_Status o))]>
          (<[VolumeDeviceMajor := FormatUint (st_DeviceMajor (lv_Status o))]>
           (<[VolumeDeviceNode := v_Node vol]>
            (<[VolumeDevicePath := device_path cfg scDeviceGroup pvName]> (<[DeviceDiskKey := group]> params))))
  | (None, Some e) => (∃ c m, e = ErrStatus c m) ∧
      ∃ pre cs, calls s' = calls s ++ pre ++ cs ∧ (pre = [] ∨ ∃ lv, pre = [ApiCreate lv] ∧ lv_Name lv = pvName) ∧
        (cs = [] ∨ ∃ o, cs = [ApiDelete o] ∧ st_VolumeID (lv_Status o) = "" ∧ st_Code (lv_Status o) ≠ OK)
  | _ => False
  end.

Lemma create_refused req params s s' e :
  (∃ c m, e = ErrStatus c m) → calls s' = calls s → create_outcome req params s (None, Some e) s'.
Proof. intros He Hc. split; [done|]. exists [], []. rewrite Hc, app_nil_r. auto. Qed.

Lemma as_status_status e : ∃ c m, as_status e = ErrStatus c m.
Proof. destruct e; simpl; eauto. Qed.

(** What the service returns for a new volume. *)
Lemma service_created ctx ns pvc node group name gb an (s : Ctl C) :
  wp (LogicVolumeService.CreateVolume ctx ns pvc node group name gb no_owner an) (λ r s',
    (∃ vs, seen s' = seen s ++ vs) ∧
    ∃ pre cs, calls s' = calls s ++ pre ++ cs ∧
      (pre = [] ∨ pre = [ApiCreate (LogicVolumeService.new_lv ns pvc node group name gb no_owner an)]) ∧
      match r with
      | ((id, major, minor), None) => cs = [] ∧ id ≠ "" ∧ ∃ o, observed name s' (o, None) ∧
          st_VolumeID (lv_Status o) = id ∧ st_DeviceMajor (lv_Status o) = major ∧ st_DeviceMinor (lv_Status o) = minor
      | (_, Some _) => cs = [] ∨ ∃ o, cs = [ApiDelete o] ∧ st_VolumeID (lv_Status o) = "" ∧ st_Code (lv_Status o) ≠ OK
      end) s.
Proof.
  eapply wp_mono; [apply CreateVolume_spec|]. intros r s' (Hs & pre & cs & Hc & Hpre & Hr). split; [done|].
  exists pre, cs. split; [done|]. split; [done|]. destruct Hr as [[-> [e ->]]|Hr]; [by left|].
  destruct r as [[[id major] minor] [e|]]; simpl in Hr; [|done].
  destruct Hr as [[-> _]|(o & _ & -> & Hid & Hcode & _)]; [by left|]. right. by exists o.
Qed.

Lemma create_locked_spec ctx req params caps (s : Ctl C) :
  cr_Parameters req = Some params →
  mget params VolumeCacheDiskRatio = "" ∨ mget params VolumeCacheDiskRatio = "0" →
  wp (create_locked cfg ctx req (ToLower (cr_Name req)) (GetDeviceGroup cfg (mget params DeviceDiskKey)) caps)
    (create_outcome req params s) s.
Proof.
  intros Hp Hratio. set (g := GetDeviceGroup cfg _). unfold create_locked.
  destruct (check_capabilities caps) as [e|] eqn:Hcaps.
  { apply wp_ret, create_refused; [|done]. clear -Hcaps. induction caps as [|[t md] caps IH]; [done|].
    cbn in Hcaps. destruct t; [..|injection Hcaps as <-; eauto];
      (destruct md as [[|n]|]; [auto|injection Hcaps as <-; eauto|auto]). }
  destruct (convertRequestCapacity _ _) as [gb [e|]] eqn:Hgb; [apply wp_ret, create_refused; eauto|].
  cbv zeta. rewrite Hp. cbn [param]. apply wp_bind. eapply wp_mono; [apply HaveSelectedNode_spec|].
  intros [node0 [e|]] s1 (Hc1 & Hs1 & Hnode); [apply wp_ret, create_refused; eauto|].
  destruct (_ && _ && _); [apply wp_ret, create_refused; eauto|].
  assert (negb (String.eqb (mget params VolumeCacheDiskRatio) "") &&
          negb (String.eqb (mget params VolumeCacheDiskRatio) "0") = false) as ->.
  { destruct Hratio as [-> | ->]; done. }
  set (vt := group_type cfg g). set (x := String.eqb vt RawVolumeType && _).
  apply wp_bind. eapply wp_mono; [apply (place_spec req gb node0 vt g x)|].
  { by rewrite Hp. }
  intros [[node group]|e] s2 (Hc2 & Hs2 & Hpl); [|apply wp_ret, create_refused; [naive_solver|congruence]].
  destruct Hpl as [Hne Hpl]. apply wp_bind. eapply wp_mono; [apply service_created|].
  intros [[[id major] minor] [e|]] s3 (Hs3 & pre & cs & Hc3 & Hpre & Hr).
  { apply wp_ret. split; [apply as_status_status|]. exists pre, cs. rewrite Hc3, Hc2, Hc1. split; [done|].
    split; [|done]. destruct Hpre as [->|Hpre]; [by left|]. right. by eexists. }
  destruct Hr as (-> & Hid & o & Ho & Hoid & Hmaj & Hmin). apply wp_bind. rewrite app_nil_r in Hc3.
  cbn [assign_all foldl fst snd]. apply wp_ret, wp_ret. exists gb, group, o, pre. cbn [v_CapacityBytes v_VolumeId v_VolumeContext v_Node].
  subst id major minor. split_and!; try done; [by eapply placed_later|congruence].
Qed.

(** [C6] A request for a volume without a cache never panics and gives its
    lock back.  If it succeeds, the volume has the requested size rounded up,
    lies on the node the scheduler chose or on a ready node of the requested
    topology whose group fits it, and its id and device numbers are those of an
    object the node has reported; at most one object was created, for that
    node, group and size.  If it fails, the error has a gRPC status, and an
    object was deleted only after the node reported a failure for it. *)
Theorem controller_create_volume (ctx : Ctx) (req : CreateVolumeRequest) (params : gmap string string) (s : Ctl C)
    (Hparams : cr_Parameters req = Some params)
    (Hratio : mget params VolumeCacheDiskRatio = "" ∨ mget params VolumeCacheDiskRatio = "0") :
  wp (CreateVolume cfg ctx req) (λ r s', get_locks s' = get_locks s ∧ create_outcome req params s r s') s.
Proof.
  assert (∀ e, (∃ c m, e = ErrStatus c m) →
    wp (mret (None, Some e)) (λ r s', get_locks s' = get_locks s ∧ create_outcome req params s r s') s) as Hrefuse.
  { intros e He. apply wp_ret. split; [done|]. by apply create_refused. }
  unfold CreateVolume. destruct (String.eqb _ ""); [eauto|]. cbv zeta.
  destruct (cr_ContentSource req); [eauto|]. destruct (cr_Capabilities req) as [caps|]; [|eauto].
  apply wp_ctl_locked.
  - apply keeps_create_locked.
  - intros _ L. apply create_refused; [by eexists _, _|done].
  - intros _ L. rewrite Hparams. cbn [param].
    eapply wp_mono; [by apply create_locked_spec|]. done.
  - done.
Qed.
End create.

(** ** Growing *)

Section expand.
Context {C : Type} `{Kube C} `{GoRuntime} (cfg : Settings).

(** The size the controller starts from. *)
Definition current_size (lv : LogicVolume) : Z := default (ls_Size (lv_Spec lv)) (st_CurrentSize (lv_Status lv)).

(** An answer that the volume of the request is [lv]. *)
Definition looked_up (id : string) (lv : LogicVolume) (s : Ctl C) : Prop :=
  ∃ v, v ∈ seen s ∧
    (vw_cache_by_id v id = ([lv], None) ∨
     ∃ items, vw_api_lvs v = (items, None) ∧ last items = Some lv ∧
       ∃ m, m ∈ items ∧ st_VolumeID (lv_Status m) = id).

(** The writes an expansion to [gb] GiB of [lv] may make: the requested size,
    only when it is larger, and the current size. *)
Definition expand_write (lv : LogicVolume) (gb : Z) (c : api_call) : Prop :=
  match c with
  | ApiUpdate o => Z.shiftr (current_size lv) 30 < gb ∧ ls_Size (lv_Spec o) = i64 (Z.shiftl gb 30)
  | ApiUpdateStatus o =>
      (st_CurrentSize (lv_Status lv) = None ∧ st_CurrentSize (lv_Status o) = Some (ls_Size (lv_Spec lv))) ∨
      (Z.shiftr (current_size lv) 30 < gb ∧ CheckHostDeviceGroup cfg (ls_DeviceGroup (lv_Spec lv)) = true ∧
       st_CurrentSize (lv_Status o) = Some (i64 (Z.shiftl gb 30)))
  | _ => False
  end.

Definition expand_result (req : ExpandVolumeRequest) (s : Ctl C) (r : res Z) (s' : Ctl C) : Prop :=
  match r with
  | (c, None) =>
      ∃ lv gb cs, looked_up (er_VolumeId req) lv s' ∧
        convertRequestCapacity (er_RequiredBytes req) (er_LimitBytes req) = (gb, None) ∧
        calls s' = calls s ++ cs ∧ Forall (expand_write lv gb) cs ∧
        (c = i64 (Z.shiftl (Z.shiftr (current_size lv) 30) 30) ∧
           (gb <= Z.shiftr (current_size lv) 30 ∨ CheckHostDeviceGroup cfg (ls_DeviceGroup (lv_Spec lv)) = true) ∨
         c = i64 (Z.shiftl gb 30) ∧ Z.shiftr (current_size lv) 30 < gb ∧
           ∃ name o, observed name s' (o, None) ∧
             st_CurrentSize (lv_Status o) = Some (ls_Size (lv_Spec o)) ∧ st_Code (lv_Status o) = OK)
  | (_, Some e) => (∃ c m, e = ErrStatus c m) ∧
      ∃ cs, calls s' = calls s ++ cs ∧
        (cs = [] ∨ ∃ lv gb, looked_up (er_VolumeId req) lv s' ∧
          convertRequestCapacity (er_RequiredBytes req) (er_LimitBytes req) = (gb, None) ∧
          Forall (expand_write lv gb) cs)
  end.

Lemma looked_up_later id lv (s s' : Ctl C) :
  (∃ vs, seen s' = seen s ++ vs) → looked_up id lv s → looked_up id lv s'.
Proof. intros [vs Hs] (v & Hv & Hr). exists v. rewrite Hs. split; [set_solver|done]. Qed.

Lemma expand_refused req s s' e :
  (∃ c m, e = ErrStatus c m) → calls s' = calls s → expand_result req s (0, Some e) s'.
Proof. intros He Hc. split; [done|]. exists []. rewrite Hc, app_nil_r. auto. Qed.

Lemma expand_failed req s s' e lv gb cs :
  (∃ c m, e = ErrStatus c m) → looked_up (er_VolumeId req) lv s' →
  convertRequestCapacity (er_RequiredBytes req) (er_LimitBytes req) = (gb, None) →
  calls s' = calls s ++ cs → Forall (expand_write lv gb) cs → expand_result req s (0, Some e) s'.
Proof. intros He Hl Hgb Hc Hcs. split; [done|]. exists cs. split; [done|]. right. by exists lv, gb. Qed.

(** The current size, filled in when the status has none. *)
Lemma fill_current_size ctx id lv gb (s : Ctl C) :
  wp (match st_CurrentSize (lv_Status lv) with
      | Some size => mret (size, None)
      | None =>
          err ← LogicVolumeService.UpdateLogicVolumeCurrentSize ctx id (ls_Size (lv_Spec lv));
          mret (ls_Size (lv_Spec lv), err)
      end) (λ r s', (∃ vs, seen s' = seen s ++ vs) ∧ r.1 = current_size lv ∧
    ∃ cs, calls s' = calls s ++ cs ∧ Forall (expand_write lv gb) cs) s.
Proof.
  unfold current_size. destruct (st_CurrentSize (lv_Status lv)) as [size|] eqn:Hsz.
  { apply wp_ret. split; [exists []; by rewrite app_nil_r|]. split; [done|]. exists []. by rewrite app_nil_r. }
  apply wp_bind. eapply wp_mono; [apply update_status_size_spec|].
  intros err s1 (Hs & cs & Hc & Hall & _). apply wp_ret. split; [done|]. split; [done|]. exists cs.
  split; [done|]. eapply Forall_impl; [exact Hall|]. intros [] Hw; simpl in *; try done; [naive_solver|left; naive_solver].
Qed.

Lemma expand_locked_spec ctx req (s : Ctl C) : wp (expand_locked cfg ctx req) (expand_result req s) s.
Proof.
  unfold expand_locked. cbv zeta. apply wp_bind. eapply wp_mono; [apply GetLogicVolumeByVolumeId_spec|].
  intros [[lv|] [e|]] s1 (Hc1 & Hs1 & Hlv); [..|done].
  1,3: apply wp_ret, expand_refused; [case_decide; eauto|done].
  destruct (_ && _); [apply wp_ret, expand_refused; eauto|].
  destruct (convertRequestCapacity _ _) as [gb [e|]] eqn:Hgb; [apply wp_ret, expand_refused; eauto|].
  apply wp_bind. eapply wp_mono; [apply (fill_current_size ctx (er_VolumeId req) lv gb)|].
  intros [size err] s2 (Hs2 & Hsize & cs & Hc2 & Hcs). simpl in Hsize. subst size. rewrite Hc1 in Hc2.
  assert (looked_up (er_VolumeId req) lv s2) as Hl2 by (eapply looked_up_later; [exact Hs2|exact Hlv]).
  destruct err as [e|]; [apply wp_ret; eapply expand_failed; eauto|].
  destruct (Z.leb_spec gb (Z.shiftr (current_size lv) 30)) as [Hle|Hgt].
  { apply wp_ret. exists lv, gb, cs. split_and!; auto. }
  destruct (CheckHostDeviceGroup cfg _) eqn:Hhost.
  - apply wp_bind. eapply wp_mono; [apply update_spec_size_spec|].
    intros err s3 (Hs3 & cs3 & Hc3 & Hcs3 & _).
    assert (Forall (expand_write lv gb) (cs ++ cs3)) as Hall3.
    { apply Forall_app. split; [done|]. eapply Forall_impl; [exact Hcs3|]. intros [] Hw; simpl in *; try done; naive_solver. }
    rewrite Hc2, <- app_assoc in Hc3.
    assert (looked_up (er_VolumeId req) lv s3) as Hl3 by (by eapply looked_up_later).
    destruct err as [e|]; [apply wp_ret; eapply expand_failed; eauto|].
    apply wp_bind. eapply wp_mono; [apply update_status_size_spec|].
    intros err s4 (Hs4 & cs4 & Hc4 & Hcs4 & _).
    assert (Forall (expand_write lv gb) ((cs ++ cs3) ++ cs4)) as Hall4.
    { apply Forall_app. split; [done|]. eapply Forall_impl; [exact Hcs4|].
      intros [] Hw; simpl in *; try done; [naive_solver|right; naive_solver]. }
    rewrite Hc3, <- app_assoc in Hc4.
    assert (looked_up (er_VolumeId req) lv s4) as Hl4 by (by eapply looked_up_later).
    destruct err as [e|]; apply wp_ret; [eapply expand_failed; eauto|].
    exists lv, gb, ((cs ++ cs3) ++ cs4). split_and!; auto.
  - apply wp_bind. eapply wp_mono; [apply select_spec|]. intros [cap [e|]] s3 (Hc3 & Hs3 & _).
    all: assert (looked_up (er_VolumeId req) lv s3) as Hl3 by (by eapply looked_up_later).
    { apply wp_ret. eapply expand_failed; eauto. congruence. }
    destruct (_ <? _); [apply wp_ret; eapply expand_failed; eauto; congruence|].
    apply wp_bind. eapply wp_mono; [apply ExpandVolume_spec|].
    intros err s4 (Hs4 & (cs4 & Hc4 & Hcs4 & _) & Hdone).
    assert (Forall (expand_write lv gb) (cs ++ cs4)) as Hall4.
    { apply Forall_app. split; [done|]. eapply Forall_impl; [exact Hcs4|]. intros [] Hw; simpl in *; try done; naive_solver. }
    rewrite Hc3, Hc2, <- app_assoc in Hc4.
    assert (looked_up (er_VolumeId req) lv s4) as Hl4 by (by eapply looked_up_later).
    destruct err as [e|]; [apply wp_ret; eapply expand_failed; eauto; apply as_status_status|].
    destruct (Hdone eq_refl) as (name & o & Ho).
    apply wp_bind. destruct (String.eqb _ ""); [apply wp_ret, wp_ret|unfold wp at 1; simpl; apply wp_ret].
    all: exists lv, gb, (cs ++ cs4); split_and!; auto.
    all: right; split; [done|]; split; [done|]; by exists name, o.
Qed.

End expand.

(** ** Volumes with a cache *)

Section cached.
Context {C : Type} `{Kube C} `{GoRuntime} (cfg : Settings).

(** Objects are created for no node. *)
Definition nodeless (c : api_call) : Prop :=
  match c with ApiCreate lv => ls_NodeName (lv_Spec lv) = "" | _ => True end.

Definition cached_outcome (s : Ctl C) (r : res (option Volume)) (s' : Ctl C) : Prop :=
  (∃ cs, calls s' = calls s ++ cs ∧ Forall nodeless cs) ∧ ∀ vol, r.1 = Some vol → v_Node vol = "".

Lemma cached_refused s s' e : calls s' = calls s → cached_outcome s (None, e) s'.
Proof. intros Hc. split; [|done]. exists []. by rewrite Hc, app_nil_r. Qed.

Lemma nodeless_created ctx ns pvc group name gb owner an (s : Ctl C) :
  wp (LogicVolumeService.CreateVolume ctx ns pvc "" group name gb owner an) (λ _ s',
    ∃ cs, calls s' = calls s ++ cs ∧ Forall nodeless cs) s.
Proof.
  eapply wp_mono; [apply CreateVolume_spec|]. intros r s' (_ & pre & cs & Hc & Hpre & Hr).
  exists (pre ++ cs). split; [done|]. apply Forall_app. split; [destruct Hpre as [-> | ->]; by repeat constructor|].
  destruct Hr as [[-> _]|Hr]; [constructor|]. destruct r as [[[id ma] mi] [e|]]; simpl in Hr.
  - destruct Hr as [[-> _]|(o & _ & -> & _)]; by repeat constructor.
  - destruct Hr as [-> _]. constructor.
Qed.

(** When the scheduler did not choose a node, a volume with a cache is
    created for no node at all: the node that [SelectMultiVolumeNode] chooses
    is bound to a new variable inside the [if] and lost, so that both objects
    carry an empty node name and no node ever picks them up. *)
Theorem cached_volume_loses_node (ctx : Ctx) (req : CreateVolumeRequest) (params : gmap string string)
    (requestGb : Z) (s : Ctl C)
    (Hparams : cr_Parameters req = Some params) (Hname : (6 <= String.length (ToLower (cr_Name req)))%nat) :
  wp (CreateBcacheVolume cfg ctx req "" requestGb) (cached_outcome s) s.
Proof.
  unfold CreateBcacheVolume. repeat (case_match; [by apply wp_ret, cached_refused|]).
  cbv zeta. destruct (ParseInt64 _) as [ratio [err|]]; [by apply wp_ret, cached_refused|].
  repeat (case_match; [by apply wp_ret, cached_refused|]).
  unfold drop6. apply wp_bind. destruct (Nat.leb_spec 6 (String.length (ToLower (cr_Name req)))) as [_|]; [|lia].
  apply wp_ret, wp_bind. cbn [String.eqb]. apply wp_bind.
  eapply wp_mono; [apply select_spec|]. intros [n [e|]] s1 (Hc1 & _ & _); apply wp_ret.
  { by apply wp_ret, cached_refused. }
  destruct (String.eqb n ""); [by apply wp_ret, cached_refused|].
  apply wp_bind. eapply wp_mono; [apply nodeless_created|]. rewrite Hc1.
  intros [[[id ma] mi] err] s2 (cs & Hc2 & Hcs).
  assert (∀ (e : error) s', calls s' = calls s2 → cached_outcome s (None, Some e) s') as Hstop.
  { intros e s' Hc. split; [|done]. exists cs. by rewrite Hc. }
  case_match; [by apply wp_ret, Hstop|].
  apply wp_bind. eapply wp_mono; [apply GetLogicVolumeByVolumeId_spec|].
  intros [[lv|] [e|]] s3 (Hc3 & _ & Hlv); [by apply wp_ret, Hstop| |by apply wp_ret, Hstop|done].
  apply wp_bind. eapply wp_mono; [apply nodeless_created|]. rewrite Hc3, Hc2.
  intros [[[id2 ma2] mi2] err2] s4 (cs2 & Hc4 & Hcs2). rewrite <- app_assoc in Hc4.
  assert (∃ cs, calls s4 = calls s ++ cs ∧ Forall nodeless cs) as Hcalls.
  { exists (cs ++ cs2). split; [done|]. by apply Forall_app. }
  destruct err2 as [e|]; [by apply wp_ret|].
  apply wp_bind. rewrite Hparams. cbn [assign_all]. apply wp_ret, wp_ret. split; [done|]. by intros vol [= <-].
Qed.
End cached.

(** ** Witnesses: a cluster of three nodes whose agents answer at once *)

Definition reported (lv : LogicVolume) : LogicVolume :=
  set_lv_Status (mkLvStatus ("volume-" +:+ lv_Name lv) OK "" (Some (ls_Size (lv_Spec lv))) "Success" 252 7) lv.

Definition prompt_kube : Kube (list LogicVolume) := {|
  kube_view lvs :=
    let get n := match List.find (λ lv, String.eqb (lv_Name lv) n) lvs with
                 | Some lv => (lv, None)
                 | None => (LogicVolumeService.new_lv "" "" "" "" n 0 no_owner ∅,
                            Some (ErrApi ReasonNotFound "not found"))
                 end in
    (mkView get get (λ id, (List.filter (λ lv, String.eqb (st_VolumeID (lv_Status lv)) id) lvs, None))
       (λ n, (List.filter (λ lv, String.eqb (ls_NodeName (lv_Spec lv)) n) lvs, None)) (lvs, None)
       (λ n, (sample_nsr n, None)) (λ n, (sample_nsr n, None))
       (λ n, (sample_node n, None)) (λ n, (sample_node n, None)) (λ _, (sample_node <$> ["n1"; "n2"; "n3"], None))
       (λ _ _, (∅, None)) (λ _ _, (∅, None)) no_objects, lvs);
  kube_call c lvs :=
    match c with
    | ApiCreate lv => (None, lvs ++ [reported lv])
    | ApiUpdate lv => (None, (λ l, if String.eqb (lv_Name l) (lv_Name lv) then reported lv else l) <$> lvs)
    | _ => (None, lvs)
    end;
  kube_now _ := "now"
|}.

Definition sample_request (params : gmap string string) : CreateVolumeRequest :=
  mkCreateRequest "PVC-1234" (Some params) (Some [mkCapability AccessMount (Some SINGLE_NODE_WRITER)]) false
    (5 * GiB + 1) 0 sample_topology.

Definition lvm_params : gmap string string := {[DeviceDiskKey := "carina-vg-ssd"]}.

#[local] Existing Instance prompt_kube.

Lemma controller_create_volume_witness :
  (CreateVolume sample_settings sample_ctx (sample_request lvm_params) (sample_ctl [])).1 =
    Done (Some (mkVolume (6 * GiB) "volume-pvc-1234"
      (list_to_map [(DeviceDiskKey, "carina-vg-ssd"); (VolumeDevicePath, "/dev/carina-vg-ssd/volume-pvc-1234");
                    (VolumeDeviceNode, "n2"); (VolumeDeviceMajor, "252"); (VolumeDeviceMinor, "7")]) "n2"), None) ∧
  wp (CreateVolume sample_settings sample_ctx (sample_request lvm_params)) (λ r s', get_locks s' = ∅ ∧
    create_outcome sample_settings (sample_request lvm_params) lvm_params (sample_ctl []) r s') (sample_ctl []).
Proof.
  split; [vm_compute; reflexivity|].
  refine (controller_create_volume sample_settings sample_ctx (sample_request lvm_params) lvm_params (sample_ctl []) _ _).
  - reflexivity.
  - left. reflexivity.
Defined.

Definition cached_params : gmap string string :=
  list_to_map [(VolumeBackendDiskType, "carina-raw-hdd"); (VolumeCacheDiskType, "carina-vg-ssd");
               (VolumeCacheDiskRatio, "20")].

Lemma cached_volume_loses_node_witness :
  calls (CreateVolume sample_settings sample_ctx (sample_request cached_params) (sample_ctl [])).2 ≠ [] ∧
  wp (CreateBcacheVolume sample_settings sample_ctx (sample_request cached_params) "" 6) (cached_outcome (sample_ctl []))
    (sample_ctl []).
Proof.
  split; [vm_compute; discriminate|].
  refine (cached_volume_loses_node sample_settings sample_ctx (sample_request cached_params) cached_params 6 (sample_ctl []) _ _).
  - reflexivity.
  - vm_compute. lia.
Defined.
