(* ===== verification/LvmParse.v ===== *)
(** * [pkg/devicemanager/lvmd/parse.go]: reading the reports of the lvm2 tools

    The tools are run with [--nameprefixes --noheadings --separator=,], so a
    report is one line per object, a comma separated list of KEY='value'.
    Every case of the source's switches indexes [k[1]], the default one
    included, so a field without '=' panics. *)

From S2P Require Import Prelude GoStrings Api.

#[local] Open Scope string_scope.
#[local] Open Scope list_scope.
#[local] Open Scope Z_scope.

Definition newline : ascii := "010".

(** ** The parsers *)

Definition parse_vg_field (tmp : VgGroup) (v : string) : outcome VgGroup :=
  match Split v "=" with
  | k0 :: k1 :: _ =>
      let '(mkVG name pvc lvc attr size free pvs) := tmp in
      Done
        (if String.eqb k0 "LVM2_VG_NAME" then mkVG k1 pvc lvc attr size free pvs
         else if String.eqb k0 "LVM2_PV_COUNT" then mkVG name (ParseUint k1 64).1 lvc attr size free pvs
         else if String.eqb k0 "LVM2_LV_COUNT" then mkVG name pvc (ParseUint k1 64).1 attr size free pvs
         else if String.eqb k0 "LVM2_VG_ATTR" then mkVG name pvc lvc k1 size free pvs
         else if String.eqb k0 "LVM2_VG_SIZE" then mkVG name pvc lvc attr (ParseUint k1 64).1 free pvs
         else if String.eqb k0 "LVM2_VG_FREE" then mkVG name pvc lvc attr size (ParseUint k1 64).1 pvs
         else tmp)
  | _ => Panic "index out of range"
  end.

Definition parseVgs (vgsString : string) : outcome (list VgGroup) :=
  if String.eqb vgsString "" then Done []
  else
    let vgsString := ReplaceAll vgsString "'" "" in
    let vgsString := ReplaceAll vgsString " " "" in
    mapM (λ vgs, foldM parse_vg_field zero_VgGroup (Split vgs ",")) (Split vgsString newline).

Definition parse_lv_field (tmp : LvInfo) (v : string) : outcome LvInfo :=
  match Split v "=" with
  | k0 :: k1 :: _ =>
      let '(mkLV name vg path size major minor origin osize pool thin tags dp attr active) := tmp in
      Done
        (if String.eqb k0 "LVM2_LV_NAME" then
           mkLV k1 vg path size major minor origin osize pool thin tags dp attr active
         else if String.eqb k0 "LVM2_VG_NAME" then
           mkLV name k1 path size major minor origin osize pool thin tags dp attr active
         else if String.eqb k0 "LVM2_LV_PATH" then
           mkLV name vg k1 size major minor origin osize pool thin tags dp attr active
         else if String.eqb k0 "LVM2_LV_SIZE" then
           mkLV name vg path (ParseUint k1 64).1 major minor origin osize pool thin tags dp attr active
         else if String.eqb k0 "LVM2_LV_KERNEL_MAJOR" then
           mkLV name vg path size (u32 (ParseUint k1 32).1) minor origin osize pool thin tags dp attr active
         else if String.eqb k0 "LVM2_LV_KERNEL_MINOR" then
           mkLV name vg path size major (u32 (ParseUint k1 32).1) origin osize pool thin tags dp attr active
         else if String.eqb k0 "LVM2_ORIGIN" then
           mkLV name vg path size major minor k1 osize pool thin tags dp attr active
         else if String.eqb k0 "LVM2_ORIGIN_SIZE" then
           mkLV name vg path size major minor origin (ParseUint k1 64).1 pool thin tags dp attr active
         else if String.eqb k0 "LVM2_POOL_LV" then
           mkLV name vg path size major minor origin osize k1 thin tags dp attr active
         else if String.eqb k0 "LVM2_THIN_COUNT" then
           mkLV name vg path size major minor origin osize pool (ParseUint k1 64).1 tags dp attr active
         else if String.eqb k0 "LVM2_LV_TAGS" then
           mkLV name vg path size major minor origin osize pool thin k1 dp attr active
         else if String.eqb k0 "LVM2_DATA_PERCENT" then
           mkLV name vg path size major minor origin osize pool thin tags k1 attr active
         else if String.eqb k0 "LVM2_LV_ATTR" then
           mkLV name vg path size major minor origin osize pool thin tags dp k1 active
         else if String.eqb k0 "LVM2_LV_ACTIVE" then
           mkLV name vg path size major minor origin osize pool thin tags dp attr k1
         else tmp)
  | _ => Panic "index out of range"
  end.

(** Only the volumes Carina names are kept. *)
Definition carina_lv (lv : LvInfo) : bool :=
  HasPrefix (lvi_LVName lv) VolumePrefix || HasPrefix (lvi_LVName lv) ThinPrefix.

Definition parseLvs (lvsString : string) : outcome (list LvInfo) :=
  if String.eqb lvsString "" then Done []
  else
    let lvsString := ReplaceAll lvsString "'" "" in
    let lvsString := ReplaceAll lvsString " " "" in
    lvs ← mapM (λ l, foldM parse_lv_field zero_LvInfo (Split l ",")) (Split lvsString newline);
    Done (List.filter carina_lv lvs).

Definition parse_pv_field (tmp : PVInfo) (v : string) : outcome PVInfo :=
  match Split v "=" with
  | k0 :: k1 :: _ =>
      let '(mkPV name vg fmt attr size free) := tmp in
      Done
        (if String.eqb k0 "LVM2_PV_NAME" then mkPV k1 vg fmt attr size free
         else if String.eqb k0 "LVM2_VG_NAME" then mkPV name k1 fmt attr size free
         else if String.eqb k0 "LVM2_PV_FMT" then mkPV name vg k1 attr size free
         else if String.eqb k0 "LVM2_PV_ATTR" then mkPV name vg fmt k1 size free
         else if String.eqb k0 "LVM2_PV_SIZE" then mkPV name vg fmt attr (ParseUint k1 64).1 free
         else if String.eqb k0 "LVM2_PV_FREE" then mkPV name vg fmt attr size (ParseUint k1 64).1
         else tmp)
  | _ => Panic "index out of range"
  end.

Definition parsePvs (pvsString : string) : outcome (list PVInfo) :=
  if String.eqb pvsString "" then Done []
  else
    let pvsString := ReplaceAll pvsString "'" "" in
    let pvsString := ReplaceAll pvsString " " "" in
    mapM (λ pvs, foldM parse_pv_field zero_PVInfo (Split pvs ",")) (Split pvsString newline).

(** ** The reports

    What the tools print, as the comments of [lvm.go] and [parse.go] show it:
    two blanks, the quoted fields separated by commas, a newline. *)

Abbreviation kv := (string * string)%type.

Definition report_field (f : kv) : string := f.1 +:+ "='" +:+ f.2 +:+ "'".
Definition report_line (fs : list kv) : string := "  " +:+ Join (report_field <$> fs) ",".
Definition report (ls : list (list kv)) : string :=
  foldr (λ l r, report_line l +:+ String newline r) "" ls.

(** Numbers the tools leave blank when they do not apply. *)
Definition opt_num (n : Z) : string := if n =? 0 then "" else FormatUint n.

Definition vg_fields (v : VgGroup) : list kv :=
  [("LVM2_VG_NAME", vg_VGName v); ("LVM2_PV_COUNT", FormatUint (vg_PVCount v));
   ("LVM2_LV_COUNT", FormatUint (vg_LVCount v)); ("LVM2_VG_ATTR", vg_VGAttr v);
   ("LVM2_VG_SIZE", FormatUint (vg_VGSize v)); ("LVM2_VG_FREE", FormatUint (vg_VGFree v))].

Definition pv_fields (p : PVInfo) : list kv :=
  [("LVM2_PV_NAME", pv_PVName p); ("LVM2_VG_NAME", pv_VGName p); ("LVM2_PV_FMT", pv_PVFmt p);
   ("LVM2_PV_ATTR", pv_PVAttr p); ("LVM2_PV_SIZE", FormatUint (pv_PVSize p));
   ("LVM2_PV_FREE", FormatUint (pv_PVFree p))].

Definition lv_fields (l : LvInfo) : list kv :=
  [("LVM2_LV_NAME", lvi_LVName l); ("LVM2_VG_NAME", lvi_VGName l); ("LVM2_LV_PATH", lvi_LVPath l);
   ("LVM2_LV_SIZE", FormatUint (lvi_LVSize l)); ("LVM2_DATA_PERCENT", lvi_DataPercent l);
   ("LVM2_LV_ATTR", lvi_LVAttr l); ("LVM2_LV_KERNEL_MAJOR", FormatUint (lvi_LVKernelMajor l));
   ("LVM2_LV_KERNEL_MINOR", FormatUint (lvi_LVKernelMinor l)); ("LVM2_ORIGIN", lvi_Origin l);
   ("LVM2_ORIGIN_SIZE", opt_num (lvi_OriginSize l)); ("LVM2_POOL_LV", lvi_PoolLV l);
   ("LVM2_THIN_COUNT", opt_num (lvi_ThinCount l)); ("LVM2_LV_TAGS", lvi_LVTags l);
   ("LVM2_LV_ACTIVE", lvi_LVActive l)].

(** A value that survives the format: no quote, blank, comma, '=' or newline. *)
Definition separators : list ascii := ["'"; " "; ","; "="; newline]%char.
Definition safe (s : string) : bool := forallb (λ c, negb (has_char c s)) separators.

Definition wf_vg (v : VgGroup) : Prop :=
  safe (vg_VGName v) ∧ safe (vg_VGAttr v) ∧ is_u64 (vg_PVCount v) ∧ is_u64 (vg_LVCount v) ∧
  is_u64 (vg_VGSize v) ∧ is_u64 (vg_VGFree v) ∧ vg_PVS v = [].
Definition wf_pv (p : PVInfo) : Prop :=
  safe (pv_PVName p) ∧ safe (pv_VGName p) ∧ safe (pv_PVFmt p) ∧ safe (pv_PVAttr p) ∧
  is_u64 (pv_PVSize p) ∧ is_u64 (pv_PVFree p).
Definition wf_lv (l : LvInfo) : Prop :=
  (safe (lvi_LVName l) ∧ safe (lvi_VGName l) ∧ safe (lvi_LVPath l) ∧ safe (lvi_DataPercent l) ∧
   safe (lvi_LVAttr l) ∧ safe (lvi_Origin l) ∧ safe (lvi_PoolLV l) ∧ safe (lvi_LVTags l) ∧
   safe (lvi_LVActive l)) ∧
  is_u64 (lvi_LVSize l) ∧ 0 <= lvi_LVKernelMajor l < 2^32 ∧ 0 <= lvi_LVKernelMinor l < 2^32 ∧
  is_u64 (lvi_OriginSize l) ∧ is_u64 (lvi_ThinCount l).

(** *** What the clean-up passes leave of a report *)

Definition plain_field (f : kv) : string := f.1 +:+ String "=" f.2.

Definition strip (s : string) : string := ReplaceAll (ReplaceAll s "'" "") " " "".

Lemma safe_spec s c : safe s → c ∈ separators → has_char c s = false.
Proof.
  unfold safe. intros Hs Hc. apply Is_true_true, forallb_forall with (x:=c) in Hs.
  - by apply negb_true_iff in Hs.
  - by apply list_elem_of_In.
Qed.

(** A key of the lvm2 tools. *)
Definition wf_field (f : kv) : Prop := safe f.1 ∧ safe f.2 ∧ HasPrefix f.1 "L".

Lemma strip_app x y : strip (x +:+ y) = strip x +:+ strip y.
Proof. unfold strip. by rewrite !ReplaceAll_drop, !remove_char_app. Qed.

Lemma strip_Join l sep : strip (Join l sep) = Join (strip <$> l) (strip sep).
Proof.
  unfold strip. rewrite !ReplaceAll_drop, !remove_char_Join, <- list_fmap_compose.
  f_equal. apply list_fmap_ext. intros ? x _. simpl. by rewrite !ReplaceAll_drop.
Qed.

Lemma strip_safe s : safe s → strip s = s.
Proof.
  intros Hs. unfold strip. rewrite !ReplaceAll_drop.
  rewrite (remove_char_id "'"), remove_char_id; [done|apply (safe_spec s); [done|]..]; set_solver.
Qed.

Lemma strip_field f : wf_field f → strip (report_field f) = plain_field f.
Proof.
  intros (Hk & Hv & _). unfold report_field, plain_field.
  rewrite !strip_app, (strip_safe f.1), (strip_safe f.2) by done.
  change (strip "='") with "=". change (strip "'") with "". by rewrite sapp_nil_r.
Qed.

Lemma strip_line fs : Forall wf_field fs →
  strip (Join (report_field <$> fs) ",") = Join (plain_field <$> fs) ",".
Proof.
  intros Hfs. rewrite strip_Join, <- list_fmap_compose. f_equal.
  apply list_fmap_ext. intros i f Hf. apply strip_field.
  by eapply Forall_lookup_1 in Hfs.
Qed.

Lemma report_body ls : ls ≠ [] →
  report ls = "  " +:+ Join ((λ l, Join (report_field <$> l) ",") <$> ls) (String newline "  ")
              +:+ String newline "".
Proof.
  induction ls as [|l ls IH]; intros Hne; [done|]. destruct ls as [|l' ls]; [done|].
  change (report (l :: l' :: ls)) with (report_line l +:+ String newline (report (l' :: ls))).
  rewrite IH by done. unfold report_line.
  change (Join ((λ l, Join (report_field <$> l) ",") <$> l :: l' :: ls) (String newline "  "))
    with (Join (report_field <$> l) "," +:+ String newline "  " +:+
          Join ((λ l, Join (report_field <$> l) ",") <$> l' :: ls) (String newline "  ")).
  rewrite !sapp_assoc. done.
Qed.

Lemma Join_starts sep x l : ∃ t, Join (x :: l) sep = x +:+ t.
Proof. destruct l as [|y l]; simpl; eauto. exists "". by rewrite sapp_nil_r. Qed.

Lemma Join_ends sep l x : ∃ t, Join (l ++ [x]) sep = t +:+ x.
Proof.
  induction l as [|y l [t IH]]; simpl; [by exists ""|].
  destruct (l ++ [x]) as [|z k] eqn:E; [by destruct l|]. rewrite IH.
  exists (y +:+ sep +:+ t). by rewrite !sapp_assoc.
Qed.

Lemma line_ends fs : fs ≠ [] → ∃ t, Join (report_field <$> fs) "," = t +:+ "'".
Proof.
  intros Hne. destruct fs as [|f fs _] using rev_ind; [done|].
  rewrite fmap_app. simpl. destruct (Join_ends "," (report_field <$> fs) (report_field f)) as [t ->].
  unfold report_field. exists (t +:+ f.1 +:+ "='" +:+ f.2). by rewrite !sapp_assoc.
Qed.

(** The blanks around a report are trimmed by the executor. *)
Lemma TrimSpace_report ls :
  ls ≠ [] → Forall (λ l, l ≠ [] ∧ Forall wf_field l) ls →
  TrimSpace (report ls) =
    Join ((λ l, Join (report_field <$> l) ",") <$> ls) (String newline "  ").
Proof.
  intros Hne Hls. rewrite report_body by done.
  set (b := Join _ _).
  assert (∃ t, b = String "L" t) as [t Ht].
  { destruct ls as [|l ls]; [done|]. apply Forall_cons in Hls as [[Hl Hf] _].
    destruct l as [|f l]; [done|]. apply Forall_cons in Hf as [(_ & _ & HL) _].
    apply Is_true_true, prefix_spec in HL as [k Hk].
    destruct (Join_starts (String newline "  ") (Join (report_field <$> f :: l) ",")
      ((λ l, Join (report_field <$> l) ",") <$> ls)) as [t1 E1].
    destruct (Join_starts "," (report_field f) (report_field <$> l)) as [t2 E2].
    unfold b. rewrite fmap_cons, E1, fmap_cons, E2. unfold report_field. rewrite Hk.
    rewrite !sapp_assoc. simpl. eauto. }
  assert (∃ t, b = t +:+ "'") as [u Hu].
  { destruct ls as [|l ls _] using rev_ind; [done|].
    apply Forall_app in Hls as [_ [[Hl _] _]%Forall_cons].
    unfold b. rewrite fmap_app. simpl.
    destruct (Join_ends (String newline "  ") ((λ l, Join (report_field <$> l) ",") <$> ls)
      (Join (report_field <$> l) ",")) as [t1 ->].
    destruct (line_ends l Hl) as [t2 ->]. exists (t1 +:+ t2). by rewrite sapp_assoc. }
  unfold TrimSpace. change (trim_left ("  " +:+ ?x)) with (trim_left x).
  rewrite Ht at 1. cbn [String.append trim_left].
  change (is_space "L") with false. cbv iota.
  change (String "L" (t +:+ ?x)) with (String "L" t +:+ x).
  rewrite <- Ht, Hu, sapp_assoc. simpl ("'" +:+ _). by apply trim_right_drop.
Qed.

Lemma Split_fields fs :
  fs ≠ [] → Forall wf_field fs → Split (Join (plain_field <$> fs) ",") "," = plain_field <$> fs.
Proof.
  intros Hne Hfs. apply Split_Join; [by destruct fs|].
  apply Forall_fmap. eapply Forall_impl; [exact Hfs|]. intros f (Hk & Hv & _).
  unfold compose, plain_field. rewrite has_char_app. cbn [has_char].
  rewrite (safe_spec f.1), (safe_spec f.2) by (done || set_solver). done.
Qed.

(** The lines the parsers' outer loops see. *)
Lemma report_lines ls :
  ls ≠ [] → Forall (λ l, l ≠ [] ∧ Forall wf_field l) ls →
  Split (strip (TrimSpace (report ls))) newline = (λ l, Join (plain_field <$> l) ",") <$> ls.
Proof.
  intros Hne Hls. rewrite TrimSpace_report, strip_Join, <- list_fmap_compose by done.
  change (strip (String newline "  ")) with (String newline "").
  rewrite (list_fmap_ext _ (λ l, Join (plain_field <$> l) ",")).
  - apply Split_Join; [by destruct ls|]. apply Forall_fmap.
    eapply Forall_impl; [exact Hls|]. intros l [_ Hl]. unfold compose.
    apply has_char_Join; [done|]. apply Forall_fmap. eapply Forall_impl; [exact Hl|].
    intros f (Hk & Hv & _). unfold compose, plain_field. rewrite has_char_app. cbn [has_char].
    rewrite (safe_spec f.1), (safe_spec f.2) by (done || set_solver). done.
  - intros i l Hl. eapply Forall_lookup_1 in Hls as [_ Hf]; [|done]. simpl. by apply strip_line.
Qed.

Lemma Split_plain_field f :
  wf_field f → Split (plain_field f) "=" = [f.1; f.2].
Proof.
  intros (Hk & Hv & _). unfold plain_field.
  rewrite Split_cons, Split_none; [done|apply (safe_spec _ _ Hv)|apply (safe_spec _ _ Hk)]; set_solver.
Qed.

(** One report through the outer loop of any of the three parsers. *)
Lemma parse_report {A R} (step : A → string → outcome A) (zero : A)
    (fields : R → list kv) (value : R → A) (rs : list R) :
  rs ≠ [] →
  Forall (λ r, fields r ≠ [] ∧ Forall wf_field (fields r)) rs →
  Forall (λ r, foldM step zero (plain_field <$> fields r) = Done (value r)) rs →
  mapM (λ l, foldM step zero (Split l ","))
    (Split (strip (TrimSpace (report (fields <$> rs)))) newline) = Done (value <$> rs).
Proof.
  intros Hne Hwf Hstep. rewrite report_lines; [|by destruct rs|by apply Forall_fmap].
  clear Hne. induction Hstep as [|r rs Hr _ IH]; [done|].
  apply Forall_cons in Hwf as [[Hf Hwf] Hwfs]. rewrite !fmap_cons. cbn [mapM].
  rewrite Split_fields, Hr by done. cbn [mbind outcome_bind]. by rewrite IH.
Qed.

Lemma report_not_blank ls :
  ls ≠ [] → Forall (λ l, l ≠ [] ∧ Forall wf_field l) ls → String.eqb (TrimSpace (report ls)) "" = false.
Proof.
  intros Hne Hls. destruct (String.eqb_spec (TrimSpace (report ls)) "") as [E|]; [|done].
  pose proof (report_lines ls Hne Hls) as Hl. rewrite E in Hl.
  change (Split (strip "") newline) with [""] in Hl.
  destruct ls as [|l ls]; [done|]. apply Forall_cons in Hls as [[Hl0 Hf] _].
  rewrite fmap_cons in Hl. injection Hl as Hl _. destruct l as [|f l]; [done|]. apply Forall_cons in Hf as [(Hk & _ & HL) _].
  apply Is_true_true, prefix_spec in HL as [k Ek]. rewrite fmap_cons in Hl.
  destruct (Join_starts "," (plain_field f) (plain_field <$> l)) as [t E2].
  rewrite E2 in Hl. unfold plain_field in Hl. by rewrite Ek in Hl.
Qed.

Lemma safe_FormatUint n : 0 <= n → safe (FormatUint n).
Proof.
  intros Hn. unfold safe. apply Is_true_true, forallb_forall.
  intros c Hc. rewrite FormatUint_has; [done|done|].
  repeat (destruct Hc as [<-|Hc]; [done|]). destruct Hc.
Qed.

Lemma safe_opt_num n : 0 <= n → safe (opt_num n).
Proof. unfold opt_num. intros. destruct (n =? 0); [done|]. by apply safe_FormatUint. Qed.

Lemma ParseUint_opt_num n bits : 0 <= n < 2^bits → (ParseUint (opt_num n) bits).1 = n.
Proof.
  unfold opt_num. intros. destruct (Z.eqb_spec n 0) as [->|]; [done|].
  by rewrite ParseUint_FormatUint.
Qed.

#[export] Hint Resolve safe_FormatUint safe_opt_num : go_db.

(** Steps of the inner loop on a concrete list of fields. *)
Ltac wf_fields :=
  repeat (apply Forall_cons; split;
    [split; [done|split; [simpl; first [assumption | (apply safe_FormatUint || apply safe_opt_num);
       unfold is_u64 in *; lia]|done]]|]);
  apply Forall_nil_2.

Ltac eval_fields step :=
  repeat match goal with
  | H : Forall wf_field (_ :: _) |- _ => apply Forall_cons in H as [? H]
  end;
  cbn [fmap list_fmap foldM];
  repeat (unfold step at 1; rewrite Split_plain_field by assumption;
          cbn [fst snd mbind outcome_bind]; cbv iota beta zeta;
          repeat match goal with
          | |- context [String.eqb ?a ?b] =>
              let r := eval vm_compute in (String.eqb a b) in
              change (String.eqb a b) with r
          end; cbv iota; cbn [mbind outcome_bind]; cbv beta).

Lemma vg_fields_ok v : wf_vg v → Forall wf_field (vg_fields v).
Proof. intros (? & ? & ? & ? & ? & ? & _). unfold vg_fields. wf_fields. Qed.

Lemma pv_fields_ok p : wf_pv p → Forall wf_field (pv_fields p).
Proof. intros (? & ? & ? & ? & ? & ?). unfold pv_fields. wf_fields. Qed.

Lemma lv_fields_ok l : wf_lv l → Forall wf_field (lv_fields l).
Proof.
  intros ((? & ? & ? & ? & ? & ? & ? & ? & ?) & ? & ? & ? & ? & ?). unfold lv_fields. wf_fields.
Qed.

Lemma parse_vg_fields v :
  wf_vg v → foldM parse_vg_field zero_VgGroup (plain_field <$> vg_fields v) = Done v.
Proof.
  intros Hv. pose proof (vg_fields_ok v Hv) as Hf. destruct Hv as (_ & _ & ? & ? & ? & ? & Hp).
  unfold vg_fields, zero_VgGroup in *. eval_fields parse_vg_field.
  rewrite !ParseUint_FormatUint by assumption. destruct v; simpl in *; congruence.
Qed.

Lemma parse_pv_fields p :
  wf_pv p → foldM parse_pv_field zero_PVInfo (plain_field <$> pv_fields p) = Done p.
Proof.
  intros Hp. pose proof (pv_fields_ok p Hp) as Hf. destruct Hp as (_ & _ & _ & _ & ? & ?).
  unfold pv_fields, zero_PVInfo in *. eval_fields parse_pv_field.
  rewrite !ParseUint_FormatUint by assumption. by destruct p.
Qed.

Lemma parse_lv_fields l :
  wf_lv l → foldM parse_lv_field zero_LvInfo (plain_field <$> lv_fields l) = Done l.
Proof.
  intros Hl. pose proof (lv_fields_ok l Hl) as Hf. destruct Hl as (_ & ? & ? & ? & ? & ?).
  unfold lv_fields, zero_LvInfo in *. eval_fields parse_lv_field.
  rewrite !ParseUint_FormatUint, !ParseUint_opt_num by assumption.
  cbn [fst]. unfold u32. rewrite !Z.mod_small by assumption. by destruct l.
Qed.

(** The fields of a list of well-formed objects, as [parse_report] wants them. *)
Lemma report_ok {R} (wf : R → Prop) (fields : R → list kv) (rs : list R) :
  (∀ r, fields r ≠ []) → (∀ r, wf r → Forall wf_field (fields r)) → Forall wf rs →
  Forall (λ r, fields r ≠ [] ∧ Forall wf_field (fields r)) rs.
Proof. intros Hne Hok Hwf. eapply Forall_impl; [exact Hwf|]. simpl. auto. Qed.

(** Parsing what [vgs] prints gives the groups back; likewise for the
    other two reports.  The claims follow. *)
Lemma parseVgs_report vgs :
  Forall wf_vg vgs → parseVgs (TrimSpace (report (vg_fields <$> vgs))) = Done vgs.
Proof.
  intros Hwf. destruct vgs as [|v vgs]; [done|].
  pose proof (report_ok wf_vg vg_fields (v :: vgs) ltac:(done) vg_fields_ok Hwf) as Hok.
  unfold parseVgs. rewrite report_not_blank; [|done|by apply Forall_fmap].
  fold (strip (TrimSpace (report (vg_fields <$> v :: vgs)))).
  rewrite (parse_report _ _ _ (λ v, v)); [by rewrite list_fmap_id|done|done|].
  eapply Forall_impl; [exact Hwf|]. intros. by apply parse_vg_fields.
Qed.

Lemma parsePvs_report pvs :
  Forall wf_pv pvs → parsePvs (TrimSpace (report (pv_fields <$> pvs))) = Done pvs.
Proof.
  intros Hwf. destruct pvs as [|p pvs]; [done|].
  pose proof (report_ok wf_pv pv_fields (p :: pvs) ltac:(done) pv_fields_ok Hwf) as Hok.
  unfold parsePvs. rewrite report_not_blank; [|done|by apply Forall_fmap].
  fold (strip (TrimSpace (report (pv_fields <$> p :: pvs)))).
  rewrite (parse_report _ _ _ (λ v, v)); [by rewrite list_fmap_id|done|done|].
  eapply Forall_impl; [exact Hwf|]. intros. by apply parse_pv_fields.
Qed.

Lemma parseLvs_report lvs :
  Forall wf_lv lvs →
  parseLvs (TrimSpace (report (lv_fields <$> lvs))) = Done (List.filter carina_lv lvs).
Proof.
  intros Hwf. destruct lvs as [|l lvs]; [done|].
  pose proof (report_ok wf_lv lv_fields (l :: lvs) ltac:(done) lv_fields_ok Hwf) as Hok.
  unfold parseLvs. rewrite report_not_blank; [|done|by apply Forall_fmap].
  fold (strip (TrimSpace (report (lv_fields <$> l :: lvs)))).
  rewrite (parse_report _ _ _ (λ v, v)); [by rewrite list_fmap_id|done|done|].
  eapply Forall_impl; [exact Hwf|]. intros. by apply parse_lv_fields.
Qed.


Definition sample_vg : VgGroup := mkVG "carina-vg-ssd" 2 1 "wz--n-" 32203866112 (2^64 - 1) [].
Definition sample_pv : PVInfo := mkPV "/dev/loop2" "carina-vg-ssd" "lvm2" "a--" 16101933056 0.
Definition sample_lv : LvInfo :=
  mkLV "volume-pvc-1" "carina-vg-ssd" "/dev/carina-vg-ssd/volume-pvc-1" 1073741824 252 0 "" 0 "" 0
    "" "" "-wi-a-----" "active".

Lemma sample_lv_wf n : safe n → wf_lv (mkLV n "carina-vg-ssd" "" 1 252 0 "" 0 "" 0 "" "" "" "active").
Proof. intros. unfold wf_lv, is_u64; simpl; repeat split; done || lia. Qed.

