(* ===== verification/Lvmd.v ===== *)
(** * [pkg/devicemanager/lvmd]: the lvm2 interface and its implementation

    [Lvm2] is [interface.go], the operations the volume manager calls;
    [Lvm2Implement] is [lvm.go], which runs the lvm2 tools through the
    executor and reads their reports with the parsers of [LvmParse]. *)

From S2P Require Import Prelude GoStrings Api GoRuntime Mutx Exec Utils LvmParse.

#[local] Open Scope string_scope.
#[local] Open Scope list_scope.
#[local] Open Scope Z_scope.

(** ** The interface *)

Class Lvm2 (St : Type) := {
  PVCheck : string → M St (res string);
  PVCreate : string → M St (option error);
  PVRemove : string → M St (option error);
  PVResize : string → M St (option error);
  PVS : M St (res (list PVInfo));
  PVScan : string → M St (option error);
  PVDisplay : string → M St (res (option PVInfo));
  VGCheck : string → M St (option error);
  VGCreate : string → list string → list string → M St (option error);
  VGRemove : string → M St (option error);
  VGS : M St (res (list VgGroup));
  VGDisplay : string → M St (res (option VgGroup));
  VGScan : string → M St (option error);
  VGExtend : string → string → M St (option error);
  VGReduce : string → string → M St (option error);
  CreateThinPool : string → string → Z → M St (option error);
  ResizeThinPool : string → string → Z → M St (option error);
  DeleteThinPool : string → string → M St (option error);
  LVCreateFromPool : string → string → string → Z → M St (option error);
  LVCreateFromVG : string → string → Z → list string → Z → string → M St (option error);
  LVRemove : string → string → M St (option error);
  LVResize : string → string → Z → M St (option error);
  LVDisplay : string → string → M St (res (option LvInfo));
  LVS : string → M St (res (list LvInfo));
  CreateSnapshot : string → string → string → M St (option error);
  DeleteSnapshot : string → string → M St (option error);
  RestoreSnapshot : string → string → M St (option error);
  StartLvm2 : M St (option error);
  RemoveUnknownDevice : string → M St (option error)
}.

(** [fmt.Sprintf("%vg", size>>30)]. *)
Definition size_arg (size : Z) : string := FormatUint (Z.shiftr size 30) +:+ "g".
(** [fmt.Sprintf("%s/%s", vg, lv)]. *)
Definition lv_arg (vg lv : string) : string := vg +:+ "/" +:+ lv.
Definition report_args : list string :=
  ["--noheadings"; "--separator=,"; "--units=b"; "--nosuffix"; "--unbuffered"; "--nameprefixes"].
Definition vgs_fields : list string := ["-o"; "VG_NAME,PV_COUNT,LV_COUNT,VG_ATTR,VG_SIZE,VG_FREE"].
Definition lvs_fields : list string :=
  ["-o"; "lv_name,vg_name,lv_path,lv_size,data_percent,lv_attr,lv_kernel_major,lv_kernel_minor,origin,origin_size,pool_lv,thin_count,lv_tags,lv_active"].
(** The non-empty tags of a create command. *)
Definition tag_args (tags : list string) : list string :=
  foldl (λ args tag, if negb (String.eqb tag "") then args ++ ["--add-tag=" +:+ tag] else args) [] tags.

(** ** The implementation *)

Module Lvm2Implement.
Section impl.
Context {W : Type} `{OS W}.

Definition PVCheck (dev : string) : M (Node W) (res string) :=
  ExecuteCommandWithCombinedOutput "pvck" [dev].

Definition PVCreate (dev : string) : M (Node W) (option error) :=
  ExecuteCommand "pvcreate" [dev].

Definition PVRemove (dev : string) : M (Node W) (option error) :=
  err ← ExecuteCommand "pvremove" [dev];
  match err with
  | Some e => mret (Some e)
  | None => mret None
  end.

Definition PVResize (dev : string) : M (Node W) (option error) :=
  ExecuteCommand "pvresize" [dev].

(** The program name holds its flag, as in the source. *)
Definition PVWipefs (dev : string) : M (Node W) (option error) :=
  ExecuteCommand "wipefs -a" [dev].

Definition PVS : M (Node W) (res (list PVInfo)) :=
  r ← ExecuteCommandWithOutput "pvs" report_args;
  match r with
  | (_, Some e) => mret ([], Some e)
  | (pvsInfo, None) => pvs ← lift_outcome (parsePvs pvsInfo); mret (pvs, None)
  end.

Definition PVDisplay (dev : string) : M (Node W) (res (option PVInfo)) :=
  r ← PVS;
  match r with
  | (_, Some e) => mret (None, Some e)
  | (pvsInfo, None) =>
      match List.find (λ pv, String.eqb (pv_PVName pv) dev) pvsInfo with
      | Some pv => mret (Some pv, None)
      | None => mret (None, Some (ErrString "disk not found"))
      end
  end.

Definition PVScan (dev : string) : M (Node W) (option error) :=
  let args := ["--cache"] in
  let args := if negb (String.eqb dev "") then args ++ [dev] else args in
  ExecuteCommand "pvscan" args.

Definition VGCheck (vg : string) : M (Node W) (option error) :=
  ExecuteCommand "vgck" [vg].

Definition VGCreate (vg : string) (tags pvs : list string) : M (Node W) (option error) :=
  let args := tag_args tags in
  let args := args ++ [vg] in
  let args := args ++ pvs in
  err ← ExecuteCommand "vgcreate" args;
  match err with
  | Some e => mret (Some e)
  | None => mret None
  end.

Definition VGRemove (vg : string) : M (Node W) (option error) :=
  ExecuteCommand "vgremove" ["-f"; vg].

Definition VGS : M (Node W) (res (list VgGroup)) :=
  r ← ExecuteCommandWithOutput "vgs" (vgs_fields ++ report_args);
  match r with
  | (_, Some e) => mret ([], Some e)
  | (vgsInfo, None) => vgs ← lift_outcome (parseVgs vgsInfo); mret (vgs, None)
  end.

Definition VGDisplay (vg : string) : M (Node W) (res (option VgGroup)) :=
  r ← VGS;
  match r with
  | (_, Some e) => mret (None, Some e)
  | (vgsInfo, None) =>
      match List.find (λ vgs, String.eqb (vg_VGName vgs) vg) vgsInfo with
      | Some vgs => mret (Some vgs, None)
      | None => mret (None, Some (ErrString "vg not found"))
      end
  end.

Definition VGScan (vg : string) : M (Node W) (option error) :=
  let args := ["--cache"] in
  let args := if negb (String.eqb vg "") then args ++ [vg] else args in
  ExecuteCommand "vgscan" args.

Definition VGExtend (vg pv : string) : M (Node W) (option error) :=
  err ← ExecuteCommand "vgextend" [vg; pv];
  match err with
  | Some e => mret (Some e)
  | None => mret None
  end.

Definition VGReduce (vg pv : string) : M (Node W) (option error) :=
  r ← ExecuteCommandWithOutput "pvmove" [pv];
  let '(output, err) := r in
  match (if Contains output "No data to move" then None else err) with
  | Some e => mret (Some e)
  | None =>
      err ← ExecuteCommand "vgreduce" [vg; pv];
      match err with
      | Some e => mret (Some e)
      | None =>
          err ← PVRemove pv;
          match err with
          | Some e => mret (Some e)
          | None => mret None
          end
      end
  end.

Definition CreateThinPool (lv vg : string) (size : Z) : M (Node W) (option error) :=
  ExecuteCommand "lvcreate" ["-T"; lv_arg vg lv; "--size"; size_arg size].

Definition ResizeThinPool (lv vg : string) (size : Z) : M (Node W) (option error) :=
  ExecuteCommand "lvresize" ["-f"; "-L"; size_arg size; lv_arg vg lv].

Definition LVRemove (lv vg : string) : M (Node W) (option error) :=
  ExecuteCommand "lvremove" ["-f"; lv_arg vg lv].

Definition DeleteThinPool (lv vg : string) : M (Node W) (option error) := LVRemove lv vg.

Definition LVCreateFromPool (lv thin vg : string) (size : Z) : M (Node W) (option error) :=
  ExecuteCommand "lvcreate" ["-T"; lv_arg vg thin; "-n"; lv; "-V"; size_arg size].

Definition LVCreateFromVG (lv vg : string) (size : Z) (tags : list string) (stripe : Z)
    (stripeSize : string) : M (Node W) (option error) :=
  let args := ["-n"; lv; "-L"; size_arg size; "-W"; "y"; "-y"] in
  let args := args ++ tag_args tags in
  let args :=
    if negb (stripe =? 0) then
      let args := args ++ ["-i"; FormatUint stripe] in
      if negb (String.eqb stripeSize "") then args ++ ["-I"; stripeSize] else args
    else args in
  let args := args ++ [vg] in
  ExecuteCommand "lvcreate" args.

Definition LVResize (lv vg : string) (size : Z) : M (Node W) (option error) :=
  ExecuteCommand "lvresize" ["-L"; size_arg size; lv_arg vg lv].

Definition LVS (lvName : string) : M (Node W) (res (list LvInfo)) :=
  let args := if negb (String.eqb lvName "") then report_args ++ [lvName] else report_args in
  r ← ExecuteCommandWithOutput "lvs" (lvs_fields ++ args);
  match r with
  | (lvsInfo, Some _) =>
      if Contains lvsInfo "Failed to find logical volume" then mret ([], None)
      else mret ([], Some (ErrString lvsInfo))
  | (lvsInfo, None) => lvs ← lift_outcome (parseLvs lvsInfo); mret (lvs, None)
  end.

Definition LVDisplay (lv vg : string) : M (Node W) (res (option LvInfo)) :=
  r ← LVS (lv_arg vg lv);
  match r with
  | (_, Some e) => mret (None, Some e)
  | ([], None) => mret (None, Some (ErrString "not found"))
  | (lvInfo :: _, None) => mret (Some lvInfo, None)
  end.

Definition CreateSnapshot (snap lv vg : string) : M (Node W) (option error) :=
  ExecuteCommand "lvcreate" ["-s"; lv_arg vg lv; "-n"; snap; "-ay"; "-Ky"].

Definition DeleteSnapshot (snap vg : string) : M (Node W) (option error) := LVRemove snap vg.

Definition RestoreSnapshot (snap vg : string) : M (Node W) (option error) :=
  ExecuteCommand "lvconvert" ["--merge"; lv_arg vg snap].

Definition StartLvm2 : M (Node W) (option error) :=
  there ← FileExists "/run/lvm/lvmpolld.socket";
  if negb there then
    err ← ExecuteCommandResidentBinary "lvmpolld" [];
    match err with
    | Some e => mret (Some e)
    | None => mret None
    end
  else mret None.

Definition RemoveUnknownDevice (vg : string) : M (Node W) (option error) :=
  ExecuteCommand "vgreduce" ["--removemissing"; vg].
End impl.
End Lvm2Implement.

#[export] Instance Lvm2_Node {W} `{OS W} : Lvm2 (Node W) := {|
  PVCheck := Lvm2Implement.PVCheck;
  PVCreate := Lvm2Implement.PVCreate;
  PVRemove := Lvm2Implement.PVRemove;
  PVResize := Lvm2Implement.PVResize;
  PVS := Lvm2Implement.PVS;
  PVScan := Lvm2Implement.PVScan;
  PVDisplay := Lvm2Implement.PVDisplay;
  VGCheck := Lvm2Implement.VGCheck;
  VGCreate := Lvm2Implement.VGCreate;
  VGRemove := Lvm2Implement.VGRemove;
  VGS := Lvm2Implement.VGS;
  VGDisplay := Lvm2Implement.VGDisplay;
  VGScan := Lvm2Implement.VGScan;
  VGExtend := Lvm2Implement.VGExtend;
  VGReduce := Lvm2Implement.VGReduce;
  CreateThinPool := Lvm2Implement.CreateThinPool;
  ResizeThinPool := Lvm2Implement.ResizeThinPool;
  DeleteThinPool := Lvm2Implement.DeleteThinPool;
  LVCreateFromPool := Lvm2Implement.LVCreateFromPool;
  LVCreateFromVG := Lvm2Implement.LVCreateFromVG;
  LVRemove := Lvm2Implement.LVRemove;
  LVResize := Lvm2Implement.LVResize;
  LVDisplay := Lvm2Implement.LVDisplay;
  LVS := Lvm2Implement.LVS;
  CreateSnapshot := Lvm2Implement.CreateSnapshot;
  DeleteSnapshot := Lvm2Implement.DeleteSnapshot;
  RestoreSnapshot := Lvm2Implement.RestoreSnapshot;
  StartLvm2 := Lvm2Implement.StartLvm2;
  RemoveUnknownDevice := Lvm2Implement.RemoveUnknownDevice
|}.
