(* ===== verification/Bcache.v ===== *)
(** * [pkg/devicemanager/bcache]: caching a slow device behind a fast one

    [Bcache] is the interface, [BcacheImplement] runs the bcache tools and
    writes the kernel's control files through a shell. *)

From S2P Require Import Prelude GoStrings Api GoRuntime Mutx Exec Utils LvmParse.

#[local] Open Scope string_scope.
#[local] Open Scope list_scope.
#[local] Open Scope Z_scope.

(** ** [parse.go] *)

Definition tab : ascii := "009".
Definition tabs (n : nat) : string := Nat.iter n (String tab) "".
Definition quote : string := String "034" "".

Definition parse_bcache_line (resp : BcacheDeviceInfo) (bi : string) : BcacheDeviceInfo :=
  let k1 := ReplaceAll bi (tabs 3) (tabs 1) in
  let k2 := ReplaceAll k1 (tabs 2) (tabs 1) in
  match Split k2 tab with
  | k0 :: v :: _ =>
      let '(mkBcache mg fs cs lb uu sb sk df cm st cu ve nm bp dp ma mi) := resp in
      if String.eqb k0 "sb.magic" then mkBcache v fs cs lb uu sb sk df cm st cu ve nm bp dp ma mi
      else if String.eqb k0 "sb.first_sector" then
        mkBcache mg v cs lb uu sb sk df cm st cu ve nm bp dp ma mi
      else if String.eqb k0 "sb.csum" then mkBcache mg fs v lb uu sb sk df cm st cu ve nm bp dp ma mi
      else if String.eqb k0 "sb.version" then
        mkBcache mg fs cs lb uu sb sk df cm st cu v nm bp dp ma mi
      else if String.eqb k0 "dev.label" then
        mkBcache mg fs cs v uu sb sk df cm st cu ve nm bp dp ma mi
      else if String.eqb k0 "dev.uuid" then
        mkBcache mg fs cs lb v sb sk df cm st cu ve nm bp dp ma mi
      else if String.eqb k0 "dev.sectors_per_block" then
        mkBcache mg fs cs lb uu v sk df cm st cu ve nm bp dp ma mi
      else if String.eqb k0 "dev.sectors_per_bucket" then
        mkBcache mg fs cs lb uu sb v df cm st cu ve nm bp dp ma mi
      else if String.eqb k0 "dev.data.first_sector" then
        mkBcache mg fs cs lb uu sb sk v cm st cu ve nm bp dp ma mi
      else if String.eqb k0 "dev.data.cache_mode" then
        mkBcache mg fs cs lb uu sb sk df v st cu ve nm bp dp ma mi
      else if String.eqb k0 "dev.data.cache_state" then
        mkBcache mg fs cs lb uu sb sk df cm v cu ve nm bp dp ma mi
      else if String.eqb k0 "cset.uuid" then
        mkBcache mg fs cs lb uu sb sk df cm st v ve nm bp dp ma mi
      else resp
  | _ => resp
  end.

Definition parseBcache (bcacheInfo : string) : BcacheDeviceInfo :=
  foldl parse_bcache_line zero_BcacheDeviceInfo (Split bcacheInfo "010").

(** The fields [parseDevice] fills. *)
Definition set_bc_numbers (major minor : Z) (b : BcacheDeviceInfo) : BcacheDeviceInfo :=
  let '(mkBcache mg fs cs lb uu sb sk df cm st cu ve nm bp dp _ _) := b in
  mkBcache mg fs cs lb uu sb sk df cm st cu ve nm bp dp major minor.
Definition set_bc_Name (nm : string) (b : BcacheDeviceInfo) : BcacheDeviceInfo :=
  let '(mkBcache mg fs cs lb uu sb sk df cm st cu ve _ bp dp ma mi) := b in
  mkBcache mg fs cs lb uu sb sk df cm st cu ve nm bp dp ma mi.
Definition set_bc_BcachePath (bp : string) (b : BcacheDeviceInfo) : BcacheDeviceInfo :=
  let '(mkBcache mg fs cs lb uu sb sk df cm st cu ve nm _ dp ma mi) := b in
  mkBcache mg fs cs lb uu sb sk df cm st cu ve nm bp dp ma mi.
Definition set_bc_DevicePath (dp : string) (b : BcacheDeviceInfo) : BcacheDeviceInfo :=
  let '(mkBcache mg fs cs lb uu sb sk df cm st cu ve nm bp _ ma mi) := b in
  mkBcache mg fs cs lb uu sb sk df cm st cu ve nm bp dp ma mi.

Definition parse_device_field (resp : BcacheDeviceInfo) (cd : string) : outcome BcacheDeviceInfo :=
  match Split cd "=" with
  | k0 :: ks =>
      if String.eqb k0 "MAJ:MIN" then
        match ks with
        | [] => Panic "index out of range"
        | v :: _ =>
            match Split v ":" with
            | k1 :: k2 :: _ =>
                Done (set_bc_numbers (u32 (ParseUint k1 32).1) (u32 (ParseUint k2 32).1) resp)
            | _ => Panic "index out of range"
            end
        end
      else
        match ks with
        | [] => Panic "index out of range"
        | v :: _ => if String.eqb k0 "KNAME" then Done (set_bc_Name v resp) else Done resp
        end
  | [] => Panic "index out of range"
  end.

Definition parseDevice (deviceInfo : string) : outcome BcacheDeviceInfo :=
  if String.eqb deviceInfo "" then Done zero_BcacheDeviceInfo
  else
    let deviceInfo := ReplaceAll deviceInfo quote "" in
    resp ← foldM (λ resp cacheDevice, foldM parse_device_field resp (Split cacheDevice " "))
      zero_BcacheDeviceInfo (Split deviceInfo "010");
    Done (set_bc_BcachePath ("/dev/" +:+ bc_Name resp) resp).

(** ** The interface *)

Class Bcache (St : Type) := {
  CreateBcache : string → string → string → string → M St (option error);
  RemoveBcache : BcacheDeviceInfo → M St (option error);
  GetDeviceBcache : string → M St (res (option BcacheDeviceInfo));
  RegisterDevice : list string → M St (option error);
  ShowDevice : string → M St (res (option BcacheDeviceInfo));
  SetCacheMode : string → string → M St (option error)
}.

(** ** [bcache.go] *)

Module BcacheImplement.
Section impl.
Context {W : Type} `{OS W}.

Definition CreateBcache (dev cacheDev block bucket : string) : M (Node W) (option error) :=
  _ ← ExecuteCommand "wipefs" ["-af"; dev];
  _ ← ExecuteCommand "wipefs" ["-af"; cacheDev];
  if negb (String.eqb block "") && negb (String.eqb bucket "") then
    ExecuteCommand "make-bcache"
      ["--block"; block; "--bucket"; bucket; "-B"; dev; "-C"; cacheDev; "--wipe-bcache"]
  else ExecuteCommand "make-bcache" ["-B"; dev; "-C"; cacheDev; "--wipe-bcache"].

Definition RemoveBcache (bcacheInfo : BcacheDeviceInfo) : M (Node W) (option error) :=
  let cmd := "echo " +:+ bc_CsetUuid bcacheInfo +:+ " > /sys/block/" +:+ bc_Name bcacheInfo
             +:+ "/bcache/detach" in
  err ← ExecuteCommand "/bin/sh" ["-c"; cmd];
  match err with
  | Some e => mret (Some e)
  | None =>
      let cmd := "echo 1 > /sys/fs/bcache/" +:+ bc_CsetUuid bcacheInfo +:+ "/unregister" in
      _ ← ExecuteCommand "/bin/sh" ["-c"; cmd];
      _ ← ExecuteCommand "umount" ["/dev/" +:+ bc_Name bcacheInfo];
      let cmd := "echo 1 > /sys/block/" +:+ bc_Name bcacheInfo +:+ "/bcache/stop" in
      err ← ExecuteCommand "/bin/sh" ["-c"; cmd];
      match err with
      | Some e => mret (Some e)
      | None => mret None
      end
  end.

Definition GetDeviceBcache (dev : string) : M (Node W) (res (option BcacheDeviceInfo)) :=
  r ← ExecuteCommandWithOutput "lsblk" ["--pairs"; "--noheadings"; "--output"; "KNAME,MAJ:MIN"; dev];
  match r with
  | (_, Some e) => mret (None, Some e)
  | (deviceInfo, None) => d ← lift_outcome (parseDevice deviceInfo); mret (Some d, None)
  end.

Fixpoint RegisterDevice (dev : list string) : M (Node W) (option error) :=
  match dev with
  | [] => mret None
  | d :: dev' =>
      err ← ExecuteCommand "bcache-register" [d];
      match err with
      | Some e => mret (Some e)
      | None => RegisterDevice dev'
      end
  end.

Definition ShowDevice (dev : string) : M (Node W) (res (option BcacheDeviceInfo)) :=
  r ← ExecuteCommandWithOutput "bcache-super-show" ["-f"; dev];
  match r with
  | (_, Some e) => mret (None, Some e)
  | (bcacheInfo, None) => mret (Some (parseBcache bcacheInfo), None)
  end.

Definition SetCacheMode (bcache cachePolicy : string) : M (Node W) (option error) :=
  let cmd := "echo " +:+ cachePolicy +:+ " > /sys/block/" +:+ bcache +:+ "/bcache/cache_mode" in
  ExecuteCommand "/bin/sh" ["-c"; cmd].

Lemma keeps_RegisterDevice dev : keeps_locks (RegisterDevice dev).
Proof. induction dev as [|d dev IH]; simpl; keeps. Qed.
End impl.
End BcacheImplement.

#[export] Instance Bcache_Node {W} `{OS W} : Bcache (Node W) := {|
  CreateBcache := BcacheImplement.CreateBcache;
  RemoveBcache := BcacheImplement.RemoveBcache;
  GetDeviceBcache := BcacheImplement.GetDeviceBcache;
  RegisterDevice := BcacheImplement.RegisterDevice;
  ShowDevice := BcacheImplement.ShowDevice;
  SetCacheMode := BcacheImplement.SetCacheMode
|}.

(** ** Reading [lsblk --pairs]: one line per device, KNAME and MAJ:MIN *)

Definition lsblk_line (d : string * (Z * Z)) : string :=
  "KNAME=" +:+ quote +:+ d.1 +:+ quote +:+ " MAJ:MIN=" +:+ quote +:+ FormatUint d.2.1 +:+ ":"
  +:+ FormatUint d.2.2 +:+ quote.

Definition lsblk_report (ds : list (string * (Z * Z))) : string :=
  Join (lsblk_line <$> ds) (String newline "").

Definition wf_dev (d : string * (Z * Z)) : Prop :=
  safe d.1 ∧ has_char "034" d.1 = false ∧ 0 <= d.2.1 < 2^32 ∧ 0 <= d.2.2 < 2^32.

Definition plain_line (d : string * (Z * Z)) : string :=
  "KNAME=" +:+ d.1 +:+ String " " ("MAJ:MIN=" +:+ FormatUint d.2.1 +:+ String ":" (FormatUint d.2.2)).

Lemma unquote_line d : wf_dev d → remove_char "034" (lsblk_line d) = plain_line d.
Proof.
  intros (_ & Hq & [Ha _] & [Hb _]). unfold lsblk_line. rewrite !remove_char_app.
  rewrite (remove_char_id _ d.1), !(remove_char_id _ (FormatUint _)); [|by apply FormatUint_has..|done].
  change (remove_char "034" quote) with "". rewrite sapp_nil_r. done.
Qed.

Lemma plain_line_char d : wf_dev d → has_char newline (plain_line d) = false.
Proof.
  intros (Hs & Hq & [Ha _] & [Hb _]). unfold plain_line. rewrite !has_char_app. cbn [has_char].
  rewrite !has_char_app. cbn [has_char]. rewrite !FormatUint_has by done.
  rewrite (safe_spec d.1) by (done || set_solver). done.
Qed.

Lemma parse_plain_line resp d :
  wf_dev d →
  foldM parse_device_field resp (Split (plain_line d) " ") =
    Done (set_bc_numbers d.2.1 d.2.2 (set_bc_Name d.1 resp)).
Proof.
  intros (Hs & Hq & Ha & Hb). unfold plain_line.
  assert (has_char " " ("KNAME=" +:+ d.1) = false) as H1.
  { rewrite has_char_app, (safe_spec d.1) by (done || set_solver). done. }
  assert (has_char " " ("MAJ:MIN=" +:+ FormatUint d.2.1 +:+ String ":" (FormatUint d.2.2)) = false) as H2.
  { rewrite !has_char_app. cbn [has_char]. rewrite !FormatUint_has by (done || lia). done. }
  assert (Split ("KNAME=" +:+ d.1) "=" = ["KNAME"; d.1]) as E1.
  { pose proof (Split_cons "KNAME" d.1 "=" eq_refl) as E. rewrite (Split_none d.1) in E; [exact E|].
    apply (safe_spec _ _ Hs). set_solver. }
  set (num := FormatUint d.2.1 +:+ String ":" (FormatUint d.2.2)) in *.
  assert (Split ("MAJ:MIN=" +:+ num) "=" = ["MAJ:MIN"; num]) as E2.
  { pose proof (Split_cons "MAJ:MIN" num "=" eq_refl) as E. rewrite (Split_none num) in E; [exact E|].
    unfold num. rewrite has_char_app. cbn [has_char]. rewrite !FormatUint_has by (done || lia). done. }
  rewrite <- sapp_assoc, Split_cons, Split_none by done. cbn [foldM].
  unfold parse_device_field. rewrite E1, E2. cbn -[num Split ParseUint].
  unfold num. rewrite Split_cons, Split_none; [|by apply FormatUint_has; [lia|]..].
  rewrite !ParseUint_FormatUint by done. cbn [fst mbind outcome_bind]. unfold u32.
  by rewrite !Z.mod_small.
Qed.

(** The last device listed is the one returned. *)
Lemma parse_plain_lines ds : ∀ resp, Forall wf_dev ds →
  foldM (λ resp cacheDevice, foldM parse_device_field resp (Split cacheDevice " ")) resp (plain_line <$> ds) =
    Done (foldl (λ resp d, set_bc_numbers d.2.1 d.2.2 (set_bc_Name d.1 resp)) resp ds).
Proof.
  induction ds as [|d ds IH]; intros resp Hds; [done|]. apply Forall_cons in Hds as [Hd Hds].
  rewrite fmap_cons. cbn [foldM foldl]. rewrite parse_plain_line by done. cbn [mbind outcome_bind].
  by apply IH.
Qed.

Lemma foldl_last_device ds d resp :
  foldl (λ resp d, set_bc_numbers d.2.1 d.2.2 (set_bc_Name d.1 resp)) resp (ds ++ [d]) =
    set_bc_numbers d.2.1 d.2.2 (set_bc_Name d.1 resp).
Proof.
  rewrite foldl_app. simpl. revert resp. induction ds as [|e ds IH]; intros resp; [done|].
  simpl. rewrite IH. by destruct resp.
Qed.

Lemma parseDevice_report ds d :
  Forall wf_dev (ds ++ [d]) →
  parseDevice (lsblk_report (ds ++ [d])) =
    Done (mkBcache "" "" "" "" "" "" "" "" "" "" "" "" d.1 ("/dev/" +:+ d.1) "" d.2.1 d.2.2).
Proof.
  intros Hds. unfold parseDevice.
  destruct (String.eqb_spec (lsblk_report (ds ++ [d])) "") as [E|_].
  { exfalso. unfold lsblk_report in E. destruct ds as [|e ds]; [done|].
    destruct (Join_starts (String newline "") (lsblk_line e) (lsblk_line <$> ds ++ [d])) as [t Et].
    cbn [app fmap list_fmap] in E. by rewrite Et in E. }
  unfold quote. rewrite ReplaceAll_drop. unfold lsblk_report. rewrite remove_char_Join.
  change (remove_char "034" (String newline "")) with (String newline "").
  rewrite <- list_fmap_compose, (list_fmap_ext _ plain_line).
  2:{ intros i e He. eapply Forall_lookup_1 in Hds; [|done]. by apply unquote_line. }
  rewrite Split_Join; [|by destruct ds|].
  2:{ apply Forall_fmap. eapply Forall_impl; [exact Hds|]. intros e He.
      unfold compose. by apply plain_line_char. }
  rewrite parse_plain_lines by done. cbn [mbind outcome_bind]. by rewrite foldl_last_device.
Qed.
