(* ===== verification/Partition.v ===== *)
(** * [pkg/devicemanager/partition]: raw disks and their partitions

    The disk library is a parameter, the class [Disko]; the agent's own
    state is the lock set and the cache of partition numbers, [nd_parts]. *)

From S2P Require Import Prelude GoStrings Api GoRuntime Mutx Exec Utils LvmParse Bcache.

#[local] Open Scope string_scope.
#[local] Open Scope list_scope.
#[local] Open Scope Z_scope.

(** ** The disk library *)

(** [disko.Partition], [disko.FreeSpace] and [disko.Disk]: the first and the
    last byte, the partitions by number, the udev properties. *)
Record DiskoPartition := mkPart {
  p_Start : Z;
  p_Last : Z;
  p_Type : string;
  p_Name : string;
  p_Number : Z
}.

Record FreeSpace := mkFree {
  fs_Start : Z;
  fs_Last : Z
}.

Record DiskoDisk := mkDiskoDisk {
  dd_Name : string;
  dd_Path : string;
  dd_Size : Z;
  dd_Partitions : gmap Z DiskoPartition;
  dd_Properties : gmap string string
}.

Definition zero_Partition : DiskoPartition := mkPart 0 0 "" "" 0.
Definition zero_DiskoDisk : DiskoDisk := mkDiskoDisk "" "" 0 ∅ ∅.

(** Its pure functions. *)
Class DiskoMethods := {
  FreeSpaces : DiskoDisk → list FreeSpace;
  FreeSpacesWithMin : DiskoDisk → Z → list FreeSpace;
  FreeSpaceSize : FreeSpace → Z;
  PartitionSize : DiskoPartition → Z;
  GetPartitionKname : string → Z → string;
  partid_LinuxFS : string
}.

(** Its calls on the system. *)
Class Disko (W : Type) := {
  sys_ScanDisks : (DiskoDisk → bool) → list string → W → res (gmap string DiskoDisk) * W;
  sys_ScanAllDisks : (DiskoDisk → bool) → W → res (gmap string DiskoDisk) * W;
  sys_ScanDisk : string → W → res DiskoDisk * W;
  sys_CreatePartition : DiskoDisk → DiskoPartition → W → option error * W;
  sys_DeletePartition : DiskoDisk → Z → W → option error * W;
  sys_Wipe : DiskoDisk → W → option error * W;
  (** [syscall.Statfs]: [Blocks] and [Bavail], zero when the call fails. *)
  sys_Statfs : string → W → Z * Z
}.

(** ** [lsblk] *)

Definition set_ld_HavePartitions (b : bool) (d : LocalDisk) : LocalDisk :=
  let '(mkDisk nm mp sz st ty ro rd fs us pa nu _) := d in mkDisk nm mp sz st ty ro rd fs us pa nu b.

(** One KEY=value of a line; the parents named so far. *)
Definition parse_disk_field (acc : LocalDisk * gmap string Z) (b : string)
  : outcome (LocalDisk * gmap string Z) :=
  let '(tmp, parentDisk) := acc in
  let '(mkDisk nm mp sz st ty ro rd fs us pa nu hp) := tmp in
  match Split b "=" with
  | k0 :: k1 :: _ =>
      Done
        (if String.eqb k0 "NAME" then (mkDisk k1 mp sz st ty ro rd fs us pa nu hp, parentDisk)
         else if String.eqb k0 "MOUNTPOINT" then (mkDisk nm k1 sz st ty ro rd fs us pa nu hp, parentDisk)
         else if String.eqb k0 "SIZE" then
           (mkDisk nm mp (ParseUint k1 64).1 st ty ro rd fs us pa nu hp, parentDisk)
         else if String.eqb k0 "STATE" then (mkDisk nm mp sz k1 ty ro rd fs us pa nu hp, parentDisk)
         else if String.eqb k0 "TYPE" then (mkDisk nm mp sz st k1 ro rd fs us pa nu hp, parentDisk)
         else if String.eqb k0 "ROTA" then (mkDisk nm mp sz st ty k1 rd fs us pa nu hp, parentDisk)
         else if String.eqb k0 "RO" then
           (mkDisk nm mp sz st ty ro (String.eqb k1 "1") fs us pa nu hp, parentDisk)
         else if String.eqb k0 "FSTYPE" then (mkDisk nm mp sz st ty ro rd k1 us pa nu hp, parentDisk)
         else if String.eqb k0 "PKNAME" then
           (mkDisk nm mp sz st ty ro rd fs us k1 nu hp, <[k1 := 1]> parentDisk)
         else if String.eqb k0 "MAJ:MIN" then (mkDisk nm mp sz st ty ro rd fs us pa k1 hp, parentDisk)
         else (tmp, parentDisk))
  | _ => Panic "index out of range"
  end.

Definition parse_disk_line (acc : list LocalDisk * gmap string Z) (blks : string)
  : outcome (list LocalDisk * gmap string Z) :=
  r ← foldM parse_disk_field (zero_LocalDisk, acc.2) (Split blks " ");
  Done (acc.1 ++ [r.1], r.2).

(** Marks the disks that are the parent of another line. *)
Definition mark_parents (resp : list LocalDisk) (parentDisk : gmap string Z) : list LocalDisk :=
  (λ d, if decide (is_Some (parentDisk !! ld_Name d)) then set_ld_HavePartitions true d else d) <$> resp.

Definition parseDiskString (diskString : string) : outcome (list LocalDisk) :=
  if String.eqb diskString "" then Done []
  else
    '(resp, parentDisk) ← foldM parse_disk_line ([], ∅) (Split (ReplaceAll diskString quote "") newline);
    Done (mark_parents resp parentDisk).

Definition filter_disks (disklist : list LocalDisk) : list LocalDisk :=
  List.filter (λ d,
    negb (Contains (ld_Name d) KEYWORD) &&
    negb (ld_Readonly d || (ld_Size d <? Z.shiftl 10 30) || negb (String.eqb (ld_Filesystem d) "")
          || negb (String.eqb (ld_MountPoint d) ""))) disklist.

Definition parseUdevInfo (output : string) : gmap string string :=
  foldl (λ result v, match Split v "=" with
                     | k :: x :: _ => <[k := x]> result
                     | _ => result
                     end) ∅ (Split output newline).

(** ** The implementation *)

Module LocalPartitionImplement.

Definition DISKMUTEX := "DiskMutex".

Section impl.
Context {W : Type} `{OS W, DiskoMethods, Disko W, GoRuntime}.

(** A call of the disk library. *)
Definition sys {A} (f : W → A * W) : M (Node W) A := λ n,
  let '(a, w) := f (nd_world n) in
  (Done a, mkNode (nd_locks n) (nd_parts n) w (nd_trace n)).

Definition CacheParttionNum : M (Node W) (gmap string Z) := λ n, (Done (nd_parts n), n).
Definition set_cache (f : gmap string Z → gmap string Z) : M (Node W) unit := λ n,
  (Done (), mkNode (nd_locks n) (f (nd_parts n)) (nd_world n) (nd_trace n)).

Definition locked (body : M (Node W) (option error)) : M (Node W) (option error) :=
  with_lock DISKMUTEX (Some (ErrString "get global mutex failed")) body.

(** [strings.Split(groups, sep)[1]]. *)
Definition second (groups : string) (sep : ascii) : M (Node W) string :=
  match Split groups sep with
  | _ :: p :: _ => mret p
  | _ => panic "index out of range"
  end.

Definition ScanAllDisk (paths : list string) : M (Node W) (res (gmap string DiskoDisk)) :=
  r ← sys (sys_ScanDisks (λ _, true) paths);
  match r with
  | (_, Some err) => mret (∅, Some err)
  | (diskSet, None) => mret (diskSet, None)
  end.

Definition ScanAllDisks (filter : DiskoDisk → bool) : M (Node W) (res (gmap string DiskoDisk)) :=
  r ← sys (sys_ScanAllDisks filter);
  match r with
  | (_, Some err) => mret (∅, Some err)
  | (diskSet, None) => mret (diskSet, None)
  end.

Definition ScanDisk (groups : string) : M (Node W) (res DiskoDisk) :=
  diskPath ← second groups "/";
  sys (sys_ScanDisk ("/dev/" +:+ diskPath)).

Definition GetPartition (name groups : string) : M (Node W) (res DiskoPartition) :=
  diskPath ← second groups "/";
  r ← ScanDisk groups;
  match r with
  | (_, Some err) => mret (zero_Partition, Some err)
  | (disk, None) =>
      match List.find (λ kp, String.eqb (p_Name kp.2) name) (map_range 30 (dd_Partitions disk)) with
      | Some kp => mret (kp.2, None)
      | None => mret (zero_Partition, None)
      end
  end.

Definition UdevSettle : M (Node W) (option error) :=
  r ← ExecuteCommandWithOutput "udevadm" ["settle"];
  mret r.2.

Definition PartProbe : M (Node W) (option error) := ExecuteCommand "bash" ["-c"; "partprobe"].

(** The first number in 1..127 that the disk does not use; 0 if there is
    none. *)
Definition free_number (parts : gmap Z DiskoPartition) : Z :=
  default 0 (List.find (λ i, negb (bool_decide (is_Some (parts !! i)))) (seqZ 1 127)).

Definition CreatePartition (name groups : string) (size : Z) : M (Node W) (option error) :=
  r ← GetPartition name groups;
  if String.eqb (p_Name r.1) name then mret None
  else
    cache ← CacheParttionNum;
    if bool_decide (is_Some (cache !! name)) then mret None
    else
      diskPath ← second groups "/";
      locked (
        r ← ScanDisk groups;
        match r with
        | (_, Some err) => mret (Some err)
        | (disk, None) =>
            match FreeSpacesWithMin disk size with
            | [] => panic nil_deref                (* [err.Error()] of a nil [err] *)
            | fs :: _ =>
                let partitionNum := free_number (dd_Partitions disk) in
                if partitionNum =? 0 then mret (Some (ErrString ResourceExhausted))
                else
                  let last :=
                    if size <? u64_sub (fs_Last fs) (fs_Start fs)
                    then u64_sub (u64_add (fs_Start fs) size) 1 else fs_Last fs in
                  let part := mkPart (fs_Start fs) last partid_LinuxFS name partitionNum in
                  err ← sys (sys_CreatePartition disk part);
                  match err with
                  | Some e => mret (Some e)
                  | None => set_cache <[name := partitionNum]> ;; PartProbe
                  end
            end
        end).

(** The body of the loop over the partitions in [UpdatePartition]: the number
    of the partition, or the error the function returns. *)
Definition resize_one (name : string) (disk : DiskoDisk) (size : Z) (kp : Z * DiskoPartition)
    (partitionNum : Z) : M (Node W) (ctl Z error) :=
  let p := kp.2 in
  if negb (String.eqb (p_Name p) name) then mret (Next partitionNum)
  else
    let last := u64_sub (u64_add (p_Start p) size) 1 in
    let kname := GetPartitionKname (dd_Path disk) (p_Number p) in
    r ← ExecuteCommandWithOutput "/usr/bin/findmnt" ["-S"; kname; "--noheadings"; "--output=target"];
    let targetpath := TrimSpace (TrimSuffix (ReplaceAll r.1 quote "") (String newline "")) in
    let isMount := Contains targetpath "mount" in
    err ← (if isMount then r ← ExecuteCommandWithOutput "umount" [targetpath]; mret r.2 else mret None);
    match err with
    | Some e => mret (Return e)
    | None =>
        r ← ExecuteCommandWithOutput "parted"
          ["-s"; dd_Path disk; "resizepart"; FormatUint (p_Number p); FormatUint (Z.shiftr last 30) +:+ "g"];
        match r.2 with
        | Some e => mret (Return e)
        | None =>
            err ← (if isMount then r ← ExecuteCommandWithOutput "mount" [kname; targetpath]; mret r.2
                   else mret None);
            match err with
            | Some e => mret (Return e)
            | None => mret (Next (p_Number p))
            end
        end
    end.

Definition UpdatePartition (name groups : string) (size : Z) : M (Node W) (option error) :=
  r ← GetPartition name groups;
  let partition := r.1 in
  if size <=? u64_sub (p_Last partition) (p_Start partition) then mret None
  else
    locked (
      diskPath ← second groups "/";
      r ← ScanDisk groups;
      match r with
      | (_, Some err) => mret (Some err)
      | (disk, None) =>
          match FreeSpacesWithMin disk (u64_sub size (PartitionSize partition)) with
          | [] => mret (Some (ErrString ResourceExhausted))
          | _ =>
              if 1 <? Z.of_nat (map_size (dd_Partitions disk)) then
                mret (Some (ErrString ("disk has mutipod used" +:+ "/dev/" +:+ diskPath)))
              else
                r ← range (map_range 31 (dd_Partitions disk)) 0 (resize_one name disk size);
                match r with
                | inr e => mret (Some e)
                | inl partitionNum => set_cache <[name := partitionNum]> ;; PartProbe
                end
          end
      end).

(** Deleting the partitions of that name; the first failure ends it. *)
Definition delete_one (name diskPath : string) (disk : DiskoDisk) (kp : Z * DiskoPartition) (_ : unit)
  : M (Node W) (ctl unit error) :=
  let p := kp.2 in
  if negb (String.eqb (p_Name p) name) then mret (Next ())
  else
    err ← sys (sys_DeletePartition disk (p_Number p));
    match err with
    | Some _ => mret (Return (ErrString ("Delete partition on disk failed" +:+ "/dev/" +:+ diskPath)))
    | None => mret (Next ())
    end.

Definition DeletePartition (name groups : string) : M (Node W) (option error) :=
  locked (
    diskPath ← second groups "/";
    r ← sys (sys_ScanDisk ("/dev/" +:+ diskPath));
    match r with
    | (_, Some err) => mret (Some err)
    | (disk, None) =>
        r ← range (map_range 32 (dd_Partitions disk)) () (delete_one name diskPath disk);
        match r with
        | inr e => mret (Some e)
        | inl _ => set_cache (delete name) ;; PartProbe
        end
    end).

Definition DeletePartitionByPartNumber (disk : DiskoDisk) (number : Z) : M (Node W) (option error) :=
  locked (
    err ← sys (sys_DeletePartition disk number);
    match err with
    | Some _ => mret (Some (ErrString ("Delete partition on disk failed" +:+ dd_Path disk)))
    | None => set_cache (filter (λ kv, kv.2 ≠ number)) ;; PartProbe
    end).

Definition UpdatePartitionCache (name : string) (number : Z) : M (Node W) (option error) :=
  cache ← CacheParttionNum;
  (if bool_decide (is_Some (cache !! name)) then mret () else set_cache <[name := number]>) ;;
  mret None.

Definition Wipe (name groups : string) : M (Node W) (option error) :=
  locked (
    selectDeviceGroup ← second groups "-";
    diskPath ← second selectDeviceGroup "/";
    r ← sys (sys_ScanDisk ("/dev/" +:+ diskPath));
    match r with
    | (_, Some err) => mret (Some err)
    | (disk, None) =>
        err ← sys (sys_Wipe disk);
        match err with
        | Some e => mret (Some e)
        | None => UdevSettle
        end
    end).

Definition ListDevicesDetailWithoutFilter (device : string) : M (Node W) (res (list LocalDisk)) :=
  let args := ["--pairs"; "--paths"; "--bytes"; "--output";
               "NAME,FSTYPE,MOUNTPOINT,SIZE,STATE,TYPE,ROTA,RO,PKNAME,MAJ:MIN"] ++
              (if String.eqb device "" then [] else [device]) in
  r ← ExecuteCommandWithOutput "lsblk" args;
  match r with
  | (_, Some err) => mret ([], Some err)
  | (devices, None) => l ← lift_outcome (parseDiskString devices); mret (l, None)
  end.

Definition ListDevicesDetail (device : string) : M (Node W) (res (list LocalDisk)) :=
  r ← ListDevicesDetailWithoutFilter device;
  match r with
  | (localDisks, None) => mret (filter_disks localDisks, None)
  | (_, Some err) => mret ([], Some err)
  end.

Definition GetDiskUsed (device : string) : M (Node W) (res Z) := λ n,
  match os_stat device (nd_world n) with
  | StatNotExist => (Done (1, Some (ErrString ("stat " +:+ device +:+ ": no such file or directory"))), n)
  | StatError => (Done (1, Some (ErrString ("stat " +:+ device))), n)
  | _ => let '(blocks, bavail) := sys_Statfs device (nd_world n) in (Done (u64_sub blocks bavail, None), n)
  end.

Definition GetDevice (deviceNumber : string) : M (Node W) (res (option LocalDisk)) :=
  r ← ListDevicesDetailWithoutFilter "";
  match r with
  | (_, Some err) => mret (None, Some err)
  | (localDisks, None) => mret (List.find (λ d, String.eqb (ld_DeviceNumber d) deviceNumber) localDisks, None)
  end.
End impl.
End LocalPartitionImplement.
