(* ===== verification/PartitionCorrect.v ===== *)
(** * Correctness of the partition manager

    [DiskoLaws] states what the disk library documents: a scan reports the
    disk, free spaces are free, a partition that fits is created as asked,
    and deleting removes one number.  Over any such library, partitions never
    overlap, and deleting one never touches the others. *)

From S2P Require Import Prelude GoStrings Api GoRuntime Mutx Exec Utils LvmParse Bcache Partition.

#[local] Open Scope string_scope.
#[local] Open Scope list_scope.
#[local] Open Scope Z_scope.

Import LocalPartitionImplement.

(** ** Disks *)

Definition apart (p q : DiskoPartition) : Prop := p_Last p < p_Start q ∨ p_Last q < p_Start p.

Record wf_disk (d : DiskoDisk) : Prop := {
  wf_part n p : dd_Partitions d !! n = Some p →
    p_Number p = n ∧ 0 <= p_Start p <= p_Last p ∧ p_Last p < 2^64;
  wf_apart n m p q : dd_Partitions d !! n = Some p → dd_Partitions d !! m = Some q → n ≠ m → apart p q
}.

Definition set_parts (ps : gmap Z DiskoPartition) (d : DiskoDisk) : DiskoDisk :=
  mkDiskoDisk (dd_Name d) (dd_Path d) (dd_Size d) ps (dd_Properties d).

Definition with_part (p : DiskoPartition) (d : DiskoDisk) : DiskoDisk :=
  set_parts (<[p_Number p := p]> (dd_Partitions d)) d.

(** The partition can be created on the disk. *)
Record fits (p : DiskoPartition) (d : DiskoDisk) : Prop := {
  fits_number : dd_Partitions d !! p_Number p = None;
  fits_range : 0 <= p_Start p <= p_Last p ∧ p_Last p < 2^64;
  fits_apart n q : dd_Partitions d !! n = Some q → apart p q
}.

Lemma with_part_wf p d : wf_disk d → fits p d → wf_disk (with_part p d).
Proof.
  intros [Hp Ha] [Hn Hr Hf]. split; simpl.
  - intros n q [[<- <-]|[? Hq]]%lookup_insert_Some; [done|by apply Hp].
  - intros n m q r [[<- <-]|[Hne Hq]]%lookup_insert_Some [[<- <-]|[Hne' Hr']]%lookup_insert_Some Hnm; [done|..].
    + by eapply Hf.
    + destruct (Hf _ _ Hq); [by right|by left].
    + by eapply Ha.
Qed.

Lemma wf_disk_sub ps d : wf_disk d → ps ⊆ dd_Partitions d → wf_disk (set_parts ps d).
Proof.
  intros [Hp Ha] Hsub. split; simpl.
  - intros n p Hn. apply Hp. by eapply lookup_weaken.
  - intros n m p q Hn Hm. apply (Ha n m); by eapply lookup_weaken.
Qed.

(** ** What the library documents *)

Class DiskoLaws (W : Type) `{OS W, DiskoMethods, Disko W} := {
  disks : W → gmap string DiskoDisk;
  ScanDisk_law path w :
    disks (sys_ScanDisk path w).2 = disks w ∧
    ((sys_ScanDisk path w).1.2 = None → disks w !! path = Some (sys_ScanDisk path w).1.1);
  FreeSpacesWithMin_law d min fs : fs ∈ FreeSpacesWithMin d min →
    0 <= fs_Start fs <= fs_Last fs ∧ fs_Last fs < 2^64 ∧ min <= fs_Last fs - fs_Start fs + 1 ∧
    ∀ n p, dd_Partitions d !! n = Some p → p_Last p < fs_Start fs ∨ fs_Last fs < p_Start p;
  CreatePartition_law d p w : disks w !! dd_Path d = Some d → fits p d →
    match (sys_CreatePartition d p w).1 with
    | None => disks (sys_CreatePartition d p w).2 = <[dd_Path d := with_part p d]> (disks w)
    | Some _ => disks (sys_CreatePartition d p w).2 = disks w
    end;
  DeletePartition_law d n w :
    match (sys_DeletePartition d n w).1 with
    | None => disks (sys_DeletePartition d n w).2 =
                alter (λ d0, set_parts (delete n (dd_Partitions d0)) d0) (dd_Path d) (disks w)
    | Some _ => disks (sys_DeletePartition d n w).2 = disks w
    end;
  partprobe_law w : disks (os_run "bash" ["-c"; "partprobe"] w).2 = disks w
}.

Section correct.
Context {W : Type} `{DiskoLaws W, GoRuntimeLaws}.

Definition disks_of (n : Node W) : gmap string DiskoDisk := disks (nd_world n).

(** The invariant: every disk is filed under its path and its partitions do
    not overlap. *)
Definition disks_ok (ds : gmap string DiskoDisk) : Prop :=
  ∀ path d, ds !! path = Some d → dd_Path d = path ∧ wf_disk d.

(** ** The steps *)

Lemma wp_sys {A} (f : W → A * W) (Q : A → Node W → Prop) n :
  Q (f (nd_world n)).1 (mkNode (nd_locks n) (nd_parts n) (f (nd_world n)).2 (nd_trace n)) → wp (sys f) Q n.
Proof. unfold wp, sys. by destruct (f (nd_world n)). Qed.

Lemma wp_set_cache f (Q : unit → Node W → Prop) n :
  Q () (mkNode (nd_locks n) (f (nd_parts n)) (nd_world n) (nd_trace n)) → wp (set_cache f) Q n.
Proof. done. Qed.

Lemma wp_second groups sep a b rest (Q : string → Node W → Prop) n :
  Split groups sep = a :: b :: rest → Q b n → wp (second groups sep) Q n.
Proof. intros E HQ. unfold second. rewrite E. done. Qed.

(** The locks, the cache and the disks are those of [n]. *)
Definition quiet (n n' : Node W) : Prop :=
  nd_locks n' = nd_locks n ∧ nd_parts n' = nd_parts n ∧ disks_of n' = disks_of n.

Lemma wp_ScanDisk groups a dev rest n :
  Split groups "/" = a :: dev :: rest →
  wp (ScanDisk groups) (λ r n', quiet n n' ∧
    (r.2 = None → disks_of n !! ("/dev/" +:+ dev) = Some r.1)) n.
Proof.
  intros E. unfold ScanDisk. apply wp_bind, (wp_second _ _ _ _ _ _ _ E), wp_sys.
  destruct (ScanDisk_law ("/dev/" +:+ dev) (nd_world n)) as [Hd Hr]. by split.
Qed.

Lemma wp_PartProbe n : wp PartProbe (λ _ n', quiet n n') n.
Proof.
  unfold PartProbe, ExecuteCommand. apply wp_bind. unfold wp, spawn.
  pose proof (partprobe_law (nd_world n)) as Hp. destruct (os_run _ _ _). by repeat split.
Qed.

Lemma find_number parts :
  free_number parts ≠ 0 →
  1 <= free_number parts <= 127 ∧ (parts : gmap Z DiskoPartition) !! free_number parts = None.
Proof.
  unfold free_number. destruct (List.find _ _) as [i|] eqn:E; [|done]. simpl. intros _.
  apply find_some in E as [Hin Hnone]. apply list_elem_of_In, elem_of_seqZ in Hin. split; [lia|].
  apply negb_true_iff, bool_decide_eq_false in Hnone. by apply eq_None_not_Some.
Qed.

Lemma wp_GetPartition name groups a dev rest n :
  Split groups "/" = a :: dev :: rest →
  wp (GetPartition name groups) (λ r n', quiet n n' ∧
    (r.1 = zero_Partition ∨
     ∃ d k, disks_of n !! ("/dev/" +:+ dev) = Some d ∧ dd_Partitions d !! k = Some r.1 ∧ p_Name r.1 = name)) n.
Proof.
  intros E. unfold GetPartition. apply wp_bind, (wp_second _ _ _ _ _ _ _ E), wp_bind.
  eapply wp_mono; [by eapply wp_ScanDisk|]. intros [d [e|]] n' [Hq Hd]; simpl in Hd.
  { apply wp_ret. split; [done|]. by left. }
  destruct (List.find _ _) as [[k p]|] eqn:Ef; apply wp_ret; (split; [done|]); [right|by left].
  apply find_some in Ef as [Hin Hn]. simpl in Hn. apply String.eqb_eq in Hn.
  apply list_elem_of_In, elem_of_map_range in Hin. exists d, k. auto.
Qed.

(** ** Under the lock *)

(** A locked body proved from a state where the lock is held; the busy path
    returns an error and changes nothing. *)
Lemma wp_locked (body : M (Node W) (option error)) (Q : option error → Node W → Prop) n :
  (∀ n1, quiet (mkNode ({[DISKMUTEX]} ∪ nd_locks n) (nd_parts n) (nd_world n) (nd_trace n)) n1 →
    wp body (λ e n2, nd_locks n2 = {[DISKMUTEX]} ∪ nd_locks n ∧
      ∀ n3, nd_locks n3 = nd_locks n → nd_parts n3 = nd_parts n2 → disks_of n3 = disks_of n2 → Q e n3) n1) →
  (∀ e n3, quiet n n3 → Q (Some e) n3) →
  wp (locked body) Q n.
Proof.
  intros Hbody Hbusy. unfold locked. destruct (decide (DISKMUTEX ∈ nd_locks n)) as [Hin|Hout].
  - unfold wp. rewrite with_lock_busy by done. simpl. by apply Hbusy.
  - apply wp_with_lock; [done|]. eapply wp_mono; [by apply Hbody|].
    intros e n2 [Hl HQ]. apply HQ; [|done..]. simpl. rewrite Hl. set_solver.
Qed.

Definition created (name path : string) (size : Z) (ds ds' : gmap string DiskoDisk) : Prop :=
  ∃ d p, ds !! path = Some d ∧ fits p d ∧ p_Name p = name ∧ 1 <= p_Number p <= 127 ∧
    size <= p_Last p - p_Start p + 1 <= size + 1 ∧ ds' = <[path := with_part p d]> ds.

Definition create_part_contract (name path : string) (size : Z) (cached : Prop)
    (ds : gmap string DiskoDisk) (err : option error) (ds' : gmap string DiskoDisk) : Prop :=
  match err with
  | None =>
      (cached ∧ ds' = ds) ∨
      (∃ d k p, ds !! path = Some d ∧ dd_Partitions d !! k = Some p ∧ p_Name p = name ∧ ds' = ds) ∨
      created name path size ds ds'
  | Some _ => ds' = ds ∨ created name path size ds ds'
  end.

(** The part the source takes of a free space. *)
Definition carve (fs : FreeSpace) (size : Z) (name : string) (num : Z) : DiskoPartition :=
  mkPart (fs_Start fs)
    (if size <? u64_sub (fs_Last fs) (fs_Start fs) then u64_sub (u64_add (fs_Start fs) size) 1 else fs_Last fs)
    partid_LinuxFS name num.

Lemma carve_spec d fs size name :
  1 <= size < 2^64 → fs ∈ FreeSpacesWithMin d size → free_number (dd_Partitions d) ≠ 0 →
  let p := carve fs size name (free_number (dd_Partitions d)) in
  fits p d ∧ size <= p_Last p - p_Start p + 1 <= size + 1.
Proof.
  intros Hs Hfs Hnum p. destruct (FreeSpacesWithMin_law _ _ _ Hfs) as (Hr & Hl & Hmin & Hfree).
  destruct (find_number _ Hnum) as [_ Hnone].
  assert (p_Start p <= p_Last p <= fs_Last fs ∧ size <= p_Last p - p_Start p + 1 <= size + 1) as [Hle Hsz].
  { unfold p, carve. cbn [p_Start p_Last].
    rewrite (u64_sub_fits (fs_Last fs) (fs_Start fs)) by (unfold is_u64; lia).
    destruct (Z.ltb_spec size (fs_Last fs - fs_Start fs)); [|lia]. unfold u64_add.
    rewrite (u64_id (fs_Start fs + size)) by (unfold is_u64; lia).
    rewrite u64_sub_fits by (unfold is_u64; lia). lia. }
  split; [|done]. split; [done| |].
  - change (p_Start p) with (fs_Start fs) in *. lia.
  - intros n q Hq. unfold apart. change (p_Start p) with (fs_Start fs) in *.
    destruct (Hfree _ _ Hq); [right|left]; lia.
Qed.

(** What the locked part of [CreatePartition] does to one disk. *)
Lemma wp_create_on (name path : string) (size : Z) (disk : DiskoDisk) (fs : FreeSpace) n :
  1 <= size < 2^64 → disks_ok (disks_of n) → disks_of n !! path = Some disk → fs ∈ FreeSpacesWithMin disk size →
  free_number (dd_Partitions disk) ≠ 0 →
  wp (err ← sys (sys_CreatePartition disk (carve fs size name (free_number (dd_Partitions disk))));
      match err with
      | Some e => mret (Some e)
      | None => set_cache <[name := free_number (dd_Partitions disk)]> ;; PartProbe
      end)
    (λ err n', nd_locks n' = nd_locks n ∧
      match err with
      | None => created name path size (disks_of n) (disks_of n')
      | Some _ => disks_of n' = disks_of n ∨ created name path size (disks_of n) (disks_of n')
      end) n.
Proof.
  intros Hs Hok Hd Hfs Hnum. destruct (carve_spec disk fs size name Hs Hfs Hnum) as [Hfit Hsz].
  destruct (Hok _ _ Hd) as [Hpath _]. destruct (find_number _ Hnum) as [Hr _].
  apply wp_bind, wp_sys. set (p := carve _ _ _ _) in *.
  pose proof (CreatePartition_law disk p (nd_world n)) as Hlaw. rewrite Hpath in Hlaw.
  specialize (Hlaw Hd Hfit). destruct (sys_CreatePartition disk p (nd_world n)) as [[e|] w]; simpl in *.
  { apply wp_ret. auto. }
  apply wp_bind, wp_set_cache. eapply wp_mono; [apply wp_PartProbe|]. intros e n' (Hl & _ & Hds).
  split; [done|]. assert (created name path size (disks_of n) (disks_of n')) as Hc.
  { exists disk, p. rewrite Hds. auto 10. }
  destruct e; auto.
Qed.

Lemma CreatePartition_ok (name groups a dev : string) rest (size : Z) n :
  Split groups "/" = a :: dev :: rest → name ≠ "" → 1 <= size < 2^64 → disks_ok (disks_of n) →
  (∀ d, disks_of n !! ("/dev/" +:+ dev) = Some d → FreeSpacesWithMin d size ≠ []) →
  wp (CreatePartition name groups size) (λ err n', nd_locks n' = nd_locks n ∧
    create_part_contract name ("/dev/" +:+ dev) size (is_Some (nd_parts n !! name))
      (disks_of n) err (disks_of n')) n.
Proof.
  intros E Hne Hs Hok Hspace. unfold CreatePartition. apply wp_bind.
  eapply wp_mono; [by eapply wp_GetPartition|]. intros [p ee] n1 [(Hl1 & Hp1 & Hd1) Hp]. cbn [fst] in *.
  destruct (String.eqb_spec (p_Name p) name) as [Hn|Hn].
  { apply wp_ret. split; [done|]. right. left. destruct Hp as [->|(d & k & Hd & Hk & _)]; [done|].
    exists d, k, p. auto. }
  apply wp_bind. unfold CacheParttionNum. unfold wp at 1. rewrite Hp1.
  destruct (bool_decide_reflect (is_Some (nd_parts n !! name))) as [Hc|Hc].
  { apply wp_ret. split; [done|]. left. auto. }
  apply wp_bind, (wp_second _ _ _ _ _ _ _ E), wp_locked; last first.
  { intros e n3 (Hl3 & _ & Hd3). split; [congruence|]. left. congruence. }
  intros n2 (Hl2 & Hp2 & Hd2). simpl in Hl2, Hp2. change (disks_of n2 = disks_of n1) in Hd2.
  apply wp_bind. eapply wp_mono; [by eapply wp_ScanDisk|]. intros [disk [e|]] n3 [(Hl3 & Hp3 & Hd3) Hscan].
  { apply wp_ret. split; [congruence|]. intros n4 Hl4 _ Hd4. split; [congruence|]. left. congruence. }
  specialize (Hscan eq_refl). cbn [fst] in Hscan. rewrite Hd2, Hd1 in Hscan.
  destruct (FreeSpacesWithMin disk size) as [|fs fss] eqn:Ef; [by destruct (Hspace _ Hscan)|].
  cbv zeta. destruct (Z.eqb_spec (free_number (dd_Partitions disk)) 0) as [|Hnum].
  { apply wp_ret. split; [congruence|]. intros n4 Hl4 _ Hd4. split; [congruence|]. left. congruence. }
  eapply wp_mono; [apply (wp_create_on name ("/dev/" +:+ dev) size disk fs)|]; [done|..].
  - by rewrite Hd3, Hd2, Hd1.
  - by rewrite Hd3, Hd2, Hd1.
  - rewrite Ef. by left.
  - done.
  - intros e n4 [Hl4 Hc4]. rewrite Hd3, Hd2, Hd1 in Hc4. split; [congruence|].
    intros n5 Hl5 _ Hd5. rewrite Hd5. split; [congruence|]. destruct e; [done|]. right. by right.
Qed.

(** Without room for the partition the code takes the error branch, which
    calls [Error] on the nil error of the scan: the process panics. *)
Lemma CreatePartition_no_space (name groups a dev : string) rest (size : Z) n w1 w2 disk :
  Split groups "/" = a :: dev :: rest → name ≠ "" → nd_parts n !! name = None →
  DISKMUTEX ∉ nd_locks n →
  sys_ScanDisk ("/dev/" +:+ dev) (nd_world n) = ((disk, None), w1) →
  sys_ScanDisk ("/dev/" +:+ dev) w1 = ((disk, None), w2) →
  (∀ k p, dd_Partitions disk !! k = Some p → p_Name p ≠ name) →
  FreeSpacesWithMin disk size = [] →
  (CreatePartition name groups size n).1 = Panic nil_deref.
Proof.
  intros E Hne Hc Hl Hs1 Hs2 Hnone Hf. unfold CreatePartition, GetPartition, ScanDisk, second.
  rewrite E. unfold mbind, M_bind, mret, M_ret, sys at 1. rewrite Hs1.
  destruct (List.find _ _) as [[k p]|] eqn:Ef.
  { apply find_some in Ef as [Hin Hn]. simpl in Hn. apply String.eqb_eq in Hn.
    apply list_elem_of_In, elem_of_map_range in Hin. by destruct (Hnone _ _ Hin). }
  cbn [fst p_Name zero_Partition]. destruct (String.eqb_spec "" name) as [<-|_]; [done|].
  unfold CacheParttionNum. cbn [nd_parts]. rewrite Hc. rewrite bool_decide_eq_false_2 by (by intros []).
  unfold locked, with_lock, mbind, M_bind. rewrite TryAcquire_free by done.
  unfold defer, sys. cbn [nd_world set_locks Node_locks]. rewrite Hs2, Hf. done.
Qed.

Lemma created_ok name path size ds ds' : disks_ok ds → created name path size ds ds' → disks_ok ds'.
Proof.
  intros Hok (d & p & Hd & Hfit & _ & _ & _ & ->) q e [[<- <-]|[_ He]]%lookup_insert_Some; [|by apply Hok].
  destruct (Hok _ _ Hd) as [Hp Hw]. split; [done|]. by apply with_part_wf.
Qed.

Lemma create_part_ok name path size cached ds err ds' :
  disks_ok ds → create_part_contract name path size cached ds err ds' → disks_ok ds'.
Proof.
  intros Hok. destruct err as [e|]; simpl.
  - intros [->|Hc]; [done|]. by eapply created_ok.
  - intros [[_ ->]|[(d & k & p & _ & _ & _ & ->)|Hc]]; [done..|]. by eapply created_ok.
Qed.

(** ** Deleting *)

(** Only partitions called [name] of the disk at [path] are gone. *)
Definition deletes (name path : string) (ds ds' : gmap string DiskoDisk) : Prop :=
  (∀ q, q ≠ path ∨ ds !! q = None → ds' !! q = ds !! q) ∧
  (∀ d, ds !! path = Some d → ∃ ps, ds' !! path = Some (set_parts ps d) ∧ ps ⊆ dd_Partitions d ∧
    ∀ k p, dd_Partitions d !! k = Some p → ps !! k = None → p_Name p = name).

Definition delete_part_contract (name path : string) (ds : gmap string DiskoDisk) (err : option error)
    (ds' : gmap string DiskoDisk) : Prop :=
  deletes name path ds ds' ∧
  (err = None → ∀ d k p, ds' !! path = Some d → dd_Partitions d !! k = Some p → p_Name p ≠ name).

Lemma deletes_refl name path ds : deletes name path ds ds.
Proof.
  split; [done|]. intros d Hd. exists (dd_Partitions d). split; [by destruct d|]. split; [done|].
  intros k p Hk Hn. congruence.
Qed.

Lemma deletes_ok name path ds ds' : disks_ok ds → deletes name path ds ds' → disks_ok ds'.
Proof.
  intros Hok [Hne Hp] q e He.
  destruct (decide (q ≠ path ∨ ds !! q = None)) as [Hq|Hq]; [rewrite Hne in He by done; by apply Hok|].
  assert (q = path) as -> by (destruct (decide (q = path)); tauto).
  destruct (ds !! path) as [d|] eqn:Hd; [|tauto].
  destruct (Hp d eq_refl) as (ps & He' & Hsub & _). rewrite He' in He. injection He as <-.
  destruct (Hok _ _ Hd) as [Hpath Hw]. split; [done|]. by apply wf_disk_sub.
Qed.

(** The state of the loop: the partitions [ps] are left. *)
Definition deleting (name path : string) (d : DiskoDisk) (n0 : Node W)
    (rest : list (Z * DiskoPartition)) (_ : unit) (n : Node W) : Prop :=
  nd_locks n = nd_locks n0 ∧ (∀ kp, kp ∈ rest → dd_Partitions d !! kp.1 = Some kp.2) ∧
  ∃ ps, disks_of n = <[path := set_parts ps d]> (disks_of n0) ∧ ps ⊆ dd_Partitions d ∧
    (∀ k p, dd_Partitions d !! k = Some p → ps !! k = None → p_Name p = name) ∧
    (∀ k p, ps !! k = Some p → p_Name p = name → (k, p) ∈ rest).

Lemma deleting_deletes name path d n0 rest u n :
  disks_of n0 !! path = Some d → deleting name path d n0 rest u n →
  deletes name path (disks_of n0) (disks_of n).
Proof.
  intros Hd (_ & _ & ps & Hds & Hsub & Hgone & _). rewrite Hds. split.
  - intros q Hq. rewrite lookup_insert_ne; [done|]. intros <-. destruct Hq; [done|congruence].
  - intros d' Hd'. simplify_eq. exists ps. by rewrite lookup_insert_eq.
Qed.

Lemma wp_delete_one name dev path d n0 kp rest u n :
  disks_ok (disks_of n0) → disks_of n0 !! path = Some d → deleting name path d n0 (kp :: rest) u n →
  wp (delete_one name dev d kp u) (λ c n', match c with
    | Next u' => deleting name path d n0 rest u' n'
    | Break _ => False
    | Return _ => nd_locks n' = nd_locks n0 ∧ deletes name path (disks_of n0) (disks_of n')
    end) n.
Proof.
  intros Hok Hd HI. pose proof HI as (Hl & Hin & ps & Hds & Hsub & Hgone & Hleft).
  destruct (Hok _ _ Hd) as [Hpath Hwf]. unfold delete_one. cbv zeta.
  destruct (String.eqb_spec (p_Name kp.2) name) as [Hn|Hn]; cbn [negb]; last first.
  { apply wp_ret. split; [done|]. split; [set_solver|]. exists ps. do 3 (split; [done|]).
    intros k p Hk Hp. specialize (Hleft _ _ Hk Hp). apply elem_of_cons in Hleft as [<-|?]; done. }
  assert (dd_Partitions d !! kp.1 = Some kp.2) as Hkp by (apply Hin; by left).
  destruct (wf_part _ Hwf _ _ Hkp) as [Hnum _].
  apply wp_bind, wp_sys. pose proof (DeletePartition_law d (p_Number kp.2) (nd_world n)) as Hlaw.
  destruct (sys_DeletePartition d (p_Number kp.2) (nd_world n)) as [[e|] w]; cbn [fst snd] in *.
  { apply wp_ret. split; [done|]. change (disks_of (mkNode _ _ w _)) with (disks w). rewrite Hlaw.
    by eapply (deleting_deletes _ _ _ _ _ _ n). }
  apply wp_ret. split; [done|]. split; [set_solver|]. exists (delete kp.1 ps).
  change (disks (nd_world n)) with (disks_of n) in Hlaw. rewrite Hds, Hpath in Hlaw. split.
  { unfold disks_of at 1. cbn [nd_world]. rewrite Hlaw, Hnum. apply map_eq. intros q.
    destruct (decide (q = path)) as [->|Hq].
    - by rewrite lookup_alter_eq, !lookup_insert_eq.
    - by rewrite lookup_alter_ne, !lookup_insert_ne. }
  split; [etrans; [apply delete_subseteq|done]|]. split.
  - intros k p Hk [<-|Hnone]%lookup_delete_None; [congruence|by eapply Hgone].
  - intros k p [Hne Hk]%lookup_delete_Some Hp. specialize (Hleft _ _ Hk Hp).
    apply elem_of_cons in Hleft as [<-|?]; done.
Qed.

Lemma DeletePartition_ok (name groups a dev : string) rest n :
  Split groups "/" = a :: dev :: rest → disks_ok (disks_of n) →
  wp (DeletePartition name groups) (λ err n', nd_locks n' = nd_locks n ∧
    delete_part_contract name ("/dev/" +:+ dev) (disks_of n) err (disks_of n')) n.
Proof.
  intros E Hok. unfold DeletePartition. apply wp_locked; last first.
  { intros e n3 (Hl3 & _ & Hd3). rewrite Hd3. split; [done|]. split; [apply deletes_refl|done]. }
  intros n1 (Hl1 & Hp1 & Hd1). simpl in Hl1. change (disks_of n1 = disks_of n) in Hd1.
  apply wp_bind, (wp_second _ _ _ _ _ _ _ E), wp_bind, wp_sys.
  destruct (ScanDisk_law ("/dev/" +:+ dev) (nd_world n1)) as [Hd2 Hr].
  destruct (sys_ScanDisk _ (nd_world n1)) as [[disk [e|]] w]; cbn [fst snd] in *.
  { apply wp_ret. split; [done|]. intros n4 Hl4 _ Hd4. split; [done|]. rewrite Hd4.
    change (disks_of (mkNode _ _ w _)) with (disks w). rewrite Hd2. change (disks (nd_world n1)) with (disks_of n1).
    rewrite Hd1. split; [apply deletes_refl|done]. }
  specialize (Hr eq_refl). set (n2 := mkNode (nd_locks n1) _ w _).
  assert (disks_of n2 = disks_of n) as Hd3 by (etrans; [exact Hd2|exact Hd1]).
  change (disks (nd_world n1)) with (disks_of n1) in Hr. rewrite Hd1, <- Hd3 in Hr.
  apply wp_bind. set (path := "/dev/" +:+ dev) in *.
  apply (wp_range _ _ _ (deleting name path disk n2)).
  - split; [done|]. split.
    + intros [k p] Hk. by apply elem_of_map_range in Hk.
    + exists (dd_Partitions disk). split; [|split; [done|]; split].
      * rewrite insert_id; [done|]. by destruct disk.
      * intros. congruence.
      * intros k p Hk _. by apply elem_of_map_range.
  - intros kp rest' u n3 HI. eapply wp_mono; [eapply wp_delete_one; [by rewrite Hd3|done..]|].
    intros [u'|u'|e] n4 Hc; [done|done|]. destruct Hc as [Hl4 Hdel]. apply wp_ret.
    split; [by rewrite Hl4|]. intros n5 Hl5 _ Hd5. rewrite Hd5, <- Hd3. split; [done|]. by split.
  - intros u n3 HI. apply wp_bind, wp_set_cache. eapply wp_mono; [apply wp_PartProbe|].
    intros e n4 (Hl4 & _ & Hd4). pose proof HI as (Hl3 & _ & ps & Hds & _ & _ & Hleft).
    split; [rewrite Hl4; cbn [nd_locks]; by rewrite Hl3|]. intros n5 Hl5 _ Hd5. split; [done|].
    change (disks_of n4 = disks_of n3) in Hd4. rewrite Hd5, Hd4, <- Hd3. split; [by eapply deleting_deletes|].
    intros _ d k p. rewrite Hds, lookup_insert_eq. intros [= <-] Hk Hp.
    by eapply not_elem_of_nil, Hleft.
Qed.
End correct.

(** ** Reading [lsblk --pairs] *)

Definition disk_fields (d : LocalDisk) : list kv :=
  [("NAME", ld_Name d); ("FSTYPE", ld_Filesystem d); ("MOUNTPOINT", ld_MountPoint d);
   ("SIZE", FormatUint (ld_Size d)); ("STATE", ld_State d); ("TYPE", ld_Type d);
   ("ROTA", ld_Rotational d); ("RO", if ld_Readonly d then "1" else "0");
   ("PKNAME", ld_ParentName d); ("MAJ:MIN", ld_DeviceNumber d)].

Definition pair_field (f : kv) : string := f.1 +:+ "=" +:+ quote +:+ f.2 +:+ quote.

Definition pair_line (d : LocalDisk) : string := Join (pair_field <$> disk_fields d) " ".

Definition lsblk_pairs (ds : list LocalDisk) : string := Join (pair_line <$> ds) (String newline "").

(** A value without quote, blank, '=' or newline. *)
Definition plain (s : string) : Prop := safe s ∧ has_char "034" s = false.

Record wf_local_disk (d : LocalDisk) : Prop := {
  wld_values : Forall (λ f, plain f.2) (disk_fields d);
  wld_size : is_u64 (ld_Size d);
  wld_unread : ld_Used d = 0 ∧ ld_HavePartitions d = false
}.

Lemma disk_keys_plain d : Forall (λ f, plain f.1) (disk_fields d).
Proof. unfold disk_fields. repeat constructor. Qed.

Lemma unquote_pair f : plain f.1 → plain f.2 → remove_char "034" (pair_field f) = plain_field f.
Proof.
  intros [_ Hk] [_ Hv]. unfold pair_field, plain_field.
  rewrite !remove_char_app, (remove_char_id _ f.1), (remove_char_id _ f.2) by done.
  change (remove_char "034" quote) with "". rewrite sapp_nil_r. done.
Qed.

Lemma plain_pair_char c f : plain f.1 → plain f.2 → c ∈ [" "; newline]%char →
  has_char c (plain_field f) = false.
Proof.
  intros [Hk _] [Hv _] Hc. unfold plain_field. rewrite has_char_app. cbn [has_char].
  rewrite (safe_spec f.1), (safe_spec f.2) by (done || set_solver).
  assert (Ascii.eqb "=" c = false) as ->; [|done].
  rewrite !elem_of_cons in Hc. destruct Hc as [->|[->|Hc%not_elem_of_nil]]; done.
Qed.

Lemma fields_plain d : wf_local_disk d → Forall (λ f, plain f.1 ∧ plain f.2) (disk_fields d).
Proof. intros Hd. apply Forall_and. split; [apply disk_keys_plain|apply Hd]. Qed.

Lemma unquote_pair_line d : wf_local_disk d →
  remove_char "034" (pair_line d) = Join (plain_field <$> disk_fields d) " ".
Proof.
  intros Hd%fields_plain. unfold pair_line. rewrite remove_char_Join, <- list_fmap_compose. f_equal.
  apply list_fmap_ext. intros i f Hf. eapply Forall_lookup_1 in Hd as [? ?]; [|done]. by apply unquote_pair.
Qed.

Lemma pair_lines ds : ds ≠ [] → Forall wf_local_disk ds →
  Split (ReplaceAll (lsblk_pairs ds) quote "") newline = (λ d, Join (plain_field <$> disk_fields d) " ") <$> ds.
Proof.
  intros Hne Hds. unfold quote. rewrite ReplaceAll_drop. unfold lsblk_pairs. rewrite remove_char_Join.
  change (remove_char "034" (String newline "")) with (String newline "").
  rewrite <- list_fmap_compose, (list_fmap_ext _ (λ d, Join (plain_field <$> disk_fields d) " ")).
  2:{ intros i d Hd. eapply Forall_lookup_1 in Hds; [|done]. by apply unquote_pair_line. }
  apply Split_Join; [by destruct ds|]. apply Forall_fmap. eapply Forall_impl; [exact Hds|].
  intros d Hd%fields_plain. unfold compose. apply has_char_Join; [done|]. apply Forall_fmap.
  eapply Forall_impl; [exact Hd|]. intros f [? ?]. apply plain_pair_char; [done..|set_solver].
Qed.

Lemma Split_pair_field f : plain f.1 → plain f.2 → Split (plain_field f) "=" = [f.1; f.2].
Proof.
  intros [Hk _] [Hv _]. unfold plain_field.
  rewrite Split_cons, Split_none; [done|apply (safe_spec _ _ Hv)|apply (safe_spec _ _ Hk)]; set_solver.
Qed.

Lemma parse_pair_line d parents : wf_local_disk d →
  foldM parse_disk_field (zero_LocalDisk, parents) (Split (Join (plain_field <$> disk_fields d) " ") " ") =
    Done (d, <[ld_ParentName d := 1]> parents).
Proof.
  intros Hd. pose proof (fields_plain d Hd) as Hf. rewrite Split_Join; [|done|].
  2:{ apply Forall_fmap. eapply Forall_impl; [exact Hf|]. intros f [? ?].
      apply plain_pair_char; [done..|set_solver]. }
  assert (Forall (λ f, Split (plain_field f) "=" = [f.1; f.2]) (disk_fields d)) as Hs.
  { eapply Forall_impl; [exact Hf|]. intros f [? ?]. by apply Split_pair_field. }
  unfold disk_fields in *. rewrite !fmap_cons, fmap_nil. cbn [foldM].
  repeat (apply Forall_cons in Hs as [? Hs]). unfold parse_disk_field.
  repeat match goal with H : Split _ "=" = _ |- _ => rewrite H; clear H; cbn -[plain_field Split ParseUint FormatUint] end.
  rewrite (ParseUint_FormatUint (ld_Size d) 64) by apply Hd. destruct Hd as [_ _ [Hu Hh]].
  destruct d as [? ? ? ? ? ? ro ? ? ? ? ?]. simpl in *. subst. by destruct ro.
Qed.

Lemma parse_pair_lines ds : ∀ resp parents, Forall wf_local_disk ds →
  foldM parse_disk_line (resp, parents) ((λ d, Join (plain_field <$> disk_fields d) " ") <$> ds) =
    Done (resp ++ ds, foldl (λ m d, <[ld_ParentName d := 1]> m) parents ds).
Proof.
  induction ds as [|d ds IH]; intros resp parents Hds; [by rewrite app_nil_r|].
  apply Forall_cons in Hds as [Hd Hds]. rewrite fmap_cons. cbn [foldM foldl].
  assert (parse_disk_line (resp, parents) (Join (plain_field <$> disk_fields d) " ") =
    Done (resp ++ [d], <[ld_ParentName d := 1]> parents)) as ->.
  { unfold parse_disk_line. cbn [fst snd]. by rewrite parse_pair_line. }
  cbn [mbind outcome_bind]. rewrite IH by done. by rewrite <- app_assoc.
Qed.

Lemma foldl_parents ds (m : gmap string Z) k :
  is_Some (foldl (λ m d, <[ld_ParentName d := 1]> m) m ds !! k) ↔
    is_Some (m !! k) ∨ ∃ e, e ∈ ds ∧ ld_ParentName e = k.
Proof.
  revert m. induction ds as [|d ds IH]; intros m; simpl.
  - split; [by left|]. intros [?|(e & He & _)]; [done|]. by apply not_elem_of_nil in He.
  - rewrite IH. destruct (decide (ld_ParentName d = k)) as [<-|Hne].
    + rewrite lookup_insert_eq. split; [|by left]. intros _. right. exists d. split; [by left|done].
    + rewrite lookup_insert_ne by done. setoid_rewrite elem_of_cons. naive_solver.
Qed.

(** *** The filter *)

Definition usable (d : LocalDisk) : Prop :=
  Contains (ld_Name d) KEYWORD = false ∧ ld_Readonly d = false ∧ 10 * GiB <= ld_Size d ∧
  ld_Filesystem d = "" ∧ ld_MountPoint d = "".

Lemma elem_of_filter_disks d ds : d ∈ filter_disks ds ↔ d ∈ ds ∧ usable d.
Proof.
  unfold filter_disks, usable. rewrite list_elem_of_In, filter_In, <- list_elem_of_In.
  apply and_iff_compat_l. change (Z.shiftl 10 30) with (10 * GiB).
  destruct (Contains _ _), (ld_Readonly d); cbn [negb andb orb]; try naive_solver.
  destruct (Z.ltb_spec (ld_Size d) (10 * GiB)), (String.eqb_spec (ld_Filesystem d) ""),
    (String.eqb_spec (ld_MountPoint d) ""); cbn [negb andb orb]; split; intros Hx; try done; exfalso;
    destruct Hx as (_ & _ & ? & ? & ?); (done || lia).
Qed.

(** The report of any list of well-formed devices is read back exactly, and
    a device is marked as partitioned iff another one names it as parent. *)
Lemma parseDiskString_report ds : ds ≠ [] → Forall wf_local_disk ds →
  parseDiskString (lsblk_pairs ds) =
    Done ((λ d, set_ld_HavePartitions (existsb (λ e, String.eqb (ld_ParentName e) (ld_Name d)) ds) d) <$> ds).
Proof.
  intros Hne Hds. unfold parseDiskString. destruct (String.eqb_spec (lsblk_pairs ds) "") as [E|_].
  { exfalso. pose proof (pair_lines ds Hne Hds) as Hl. rewrite E in Hl. destruct ds as [|d ds]; [done|].
    change (Split (ReplaceAll "" quote "") newline) with [""] in Hl. rewrite fmap_cons in Hl.
    injection Hl as Hl _. done. }
  rewrite pair_lines, parse_pair_lines by done. cbn [mbind outcome_bind app]. f_equal. unfold mark_parents.
  apply list_fmap_ext. intros i d Hd. pose proof (foldl_parents ds ∅ (ld_Name d)) as Hp.
  eapply Forall_lookup_1 in Hds as [_ _ [_ Hh]]; [|exact Hd].
  pose proof (existsb_elem (λ e, String.eqb (ld_ParentName e) (ld_Name d)) ds) as Hx.
  setoid_rewrite String.eqb_eq in Hx. rewrite lookup_empty in Hp.
  case_decide as Hdec; destruct (existsb _ ds) eqn:Ex; [done| | |by destruct d; simpl in *; subst].
  - apply Hp in Hdec as [[? ?]|He]; [done|]. apply Hx in He. done.
  - destruct Hdec. apply Hp. right. by apply Hx.
Qed.
