(* ===== verification/PartitionTheorems.v ===== *)
(** * The partition manager: theorems

    The theorems hold for every disk library that obeys [DiskoLaws];
    [disk_sim] is one, used to run the operations on a concrete disk. *)

From S2P Require Import Prelude GoStrings Api GoRuntime Mutx Exec Utils LvmParse Bcache Partition PartitionCorrect.

#[local] Open Scope string_scope.
#[local] Open Scope list_scope.
#[local] Open Scope Z_scope.

Import LocalPartitionImplement.

(** ** A disk library *)

Abbreviation sim_disks := (gmap string DiskoDisk).

Definition sim_start (d : DiskoDisk) : Z :=
  foldr Z.max 1048576 ((λ kp, p_Last kp.2 + 1) <$> map_to_list (dd_Partitions d)).

(** The space after the last partition. *)
Definition sim_free (d : DiskoDisk) (min : Z) : list FreeSpace :=
  if (sim_start d + Z.max 1 min <=? dd_Size d) && (dd_Size d <=? 2^64)
  then [mkFree (sim_start d) (dd_Size d - 1)] else [].

(** What [lsblk] prints of the disks. *)
Definition sim_rows (w : sim_disks) : list LocalDisk :=
  (λ kd, mkDisk kd.1 "" (dd_Size kd.2) "" "disk" "0" false "" 0 "" "252:0" false) <$> map_to_list w.

#[export] Instance disk_sim_os : OS sim_disks := {|
  os_run cmd _ w := (mkProc (if String.eqb cmd "lsblk" then lsblk_pairs (sim_rows w) else "") "" "" ExitOk, w);
  os_stat _ _ := StatOther
|}.

#[export] Instance disk_sim_methods : DiskoMethods := {|
  FreeSpaces d := sim_free d 1;
  FreeSpacesWithMin := sim_free;
  FreeSpaceSize f := fs_Last f - fs_Start f + 1;
  PartitionSize p := p_Last p - p_Start p + 1;
  GetPartitionKname path n := path +:+ FormatUint n;
  partid_LinuxFS := "0FC63DAF"
|}.

#[export] Instance disk_sim : Disko sim_disks := {|
  sys_ScanDisks f ps w := ((filter (λ kv, kv.1 ∈ ps ∧ f kv.2 = true) w, None), w);
  sys_ScanAllDisks f w := ((filter (λ kv, f kv.2 = true) w, None), w);
  sys_ScanDisk path w :=
    match w !! path with
    | Some d => ((d, None), w)
    | None => ((zero_DiskoDisk, Some (ErrString "no such disk")), w)
    end;
  sys_CreatePartition d p w := (None, <[dd_Path d := with_part p d]> w);
  sys_DeletePartition d n w := (None, alter (λ d0, set_parts (delete n (dd_Partitions d0)) d0) (dd_Path d) w);
  sys_Wipe d w := (None, alter (set_parts ∅) (dd_Path d) w);
  sys_Statfs _ _ := (0, 0)
|}.

Lemma foldr_max_ge (l : list Z) z : z <= foldr Z.max z l ∧ ∀ x, x ∈ l → x <= foldr Z.max z l.
Proof.
  induction l as [|y l [IH1 IH2]]; simpl; [split; [lia|]; by intros ? ?%not_elem_of_nil|].
  split; [lia|]. intros x [->|Hx]%elem_of_cons; [lia|]. specialize (IH2 _ Hx). lia.
Qed.

#[export] Instance disk_sim_laws : DiskoLaws sim_disks.
Proof.
  refine {| disks w := w |}.
  - intros path w. simpl. by destruct (w !! path).
  - intros d min fs Hfs. simpl in Hfs. unfold sim_free in Hfs.
    destruct (Z.leb_spec (sim_start d + Z.max 1 min) (dd_Size d)) as [Hs|];
      [|by apply not_elem_of_nil in Hfs].
    destruct (Z.leb_spec (dd_Size d) (2^64)) as [Hs2|]; [|by apply not_elem_of_nil in Hfs].
    apply list_elem_of_singleton in Hfs as ->. cbn [fs_Start fs_Last].
    destruct (foldr_max_ge ((λ kp, p_Last kp.2 + 1) <$> map_to_list (dd_Partitions d)) 1048576) as [H1 H2].
    fold (sim_start d) in H1, H2. do 3 (split; [lia|]). intros n p Hp. left.
    assert (p_Last p + 1 <= sim_start d); [|lia]. apply H2. apply list_elem_of_fmap.
    exists (n, p). split; [done|]. by apply elem_of_map_to_list.
  - done.
  - done.
  - done.
Defined.

(** ** Creating and deleting *)


Definition sample_disk : DiskoDisk :=
  mkDiskoDisk "vdb" "/dev/vdb" (100 * GiB) {[1 := mkPart 1048576 (20 * GiB) "0FC63DAF" "carina.io/a" 1]} ∅.

Definition sample_part_node : Node sim_disks := mkNode ∅ ∅ {["/dev/vdb" := sample_disk]} [].

Lemma sample_disk_only path d : disks_of sample_part_node !! path = Some d → path = "/dev/vdb" ∧ d = sample_disk.
Proof.
  change (disks_of sample_part_node) with ({["/dev/vdb" := sample_disk]} : sim_disks).
  by intros [<- <-]%lookup_singleton_Some.
Qed.

Lemma sample_part_only n p : dd_Partitions sample_disk !! n = Some p →
  n = 1 ∧ p = mkPart 1048576 (20 * GiB) "0FC63DAF" "carina.io/a" 1.
Proof. unfold sample_disk. cbn [dd_Partitions]. by intros [<- <-]%lookup_singleton_Some. Qed.

Lemma sample_disks_ok : disks_ok (disks_of sample_part_node).
Proof.
  intros path d Hd. apply sample_disk_only in Hd as [-> ->]. split; [done|]. split.
  - intros n p Hp. apply sample_part_only in Hp as [-> ->]. split; [done|]. by vm_compute.
  - intros n m p q Hp Hq. apply sample_part_only in Hp as [-> ->], Hq as [-> ->]. done.
Qed.


(** [C19] [DeletePartition] removes partitions of the given name from the
    given disk only: after success none of that name is left, no other
    partition or disk is ever touched, whatever the order the partitions are
    visited in and wherever it fails. *)
Theorem DeletePartition_safe {W : Type} `{DiskoLaws W, GoRuntimeLaws} (name groups a dev : string)
    (rest : list string) (n : Node W)
    (Hgroups : Split groups "/" = a :: dev :: rest) (Hok : disks_ok (disks_of n)) :
  wp (DeletePartition name groups) (λ err n', nd_locks n' = nd_locks n ∧ disks_ok (disks_of n') ∧
    delete_part_contract name ("/dev/" +:+ dev) (disks_of n) err (disks_of n')) n.
Proof.
  eapply wp_mono; [by eapply DeletePartition_ok|]. intros err n' [Hl Hc].
  split; [done|]. split; [by eapply deletes_ok, Hc|done].
Qed.

Lemma DeletePartition_safe_witness :
  (DeletePartition "carina.io/a" "carina-raw-hdd/vdb" sample_part_node).1 = Done None ∧
  wp (DeletePartition "carina.io/a" "carina-raw-hdd/vdb") (λ err n', nd_locks n' = ∅ ∧
    disks_ok (disks_of n') ∧
    delete_part_contract "carina.io/a" "/dev/vdb" (disks_of sample_part_node) err (disks_of n'))
    sample_part_node.
Proof.
  split; [vm_compute; reflexivity|].
  apply (DeletePartition_safe "carina.io/a" "carina-raw-hdd/vdb" "carina-raw-hdd" "vdb" []);
    [reflexivity|exact sample_disks_ok].
Defined.

(** When the disk has no free space of the requested size,
    [CreatePartition] does not return the "don't have enough space" error its
    branch is written for: it calls [Error] on a nil error and panics. *)
Theorem CreatePartition_no_space_panics {W : Type} `{DiskoLaws W, GoRuntimeLaws} (name groups a dev : string)
    (rest : list string) (size : Z) (n : Node W) (w1 w2 : W) (disk : DiskoDisk)
    (Hgroups : Split groups "/" = a :: dev :: rest) (Hname : name ≠ "") (Hcache : nd_parts n !! name = None)
    (Hlock : DISKMUTEX ∉ nd_locks n)
    (Hscan1 : sys_ScanDisk ("/dev/" +:+ dev) (nd_world n) = ((disk, None), w1))
    (Hscan2 : sys_ScanDisk ("/dev/" +:+ dev) w1 = ((disk, None), w2))
    (Hnone : ∀ k p, dd_Partitions disk !! k = Some p → p_Name p ≠ name)
    (Hfull : FreeSpacesWithMin disk size = []) :
  (CreatePartition name groups size n).1 = Panic nil_deref.
Proof. by eapply CreatePartition_no_space. Qed.

Lemma CreatePartition_no_space_panics_witness :
  (CreatePartition "carina.io/b" "carina-raw-hdd/vdb" (200 * GiB) sample_part_node).1 = Panic nil_deref.
Proof.
  apply (CreatePartition_no_space_panics "carina.io/b" "carina-raw-hdd/vdb" "carina-raw-hdd" "vdb" []
    (200 * GiB) sample_part_node (nd_world sample_part_node) (nd_world sample_part_node) sample_disk);
    [reflexivity|discriminate|reflexivity|set_solver|reflexivity|reflexivity| |vm_compute; reflexivity].
  intros k p Hp. apply sample_part_only in Hp as [_ ->]. discriminate.
Defined.

(** ** Reading the block devices *)

(** The text [lsblk] prints for any list of well-formed block devices is
    read back exactly, with a device marked as partitioned iff another names it
    as its parent; the devices then offered to the disk groups are exactly the
    writable ones of at least 10 GiB that hold neither a file system, nor a
    mount, nor one of Carina's own volumes. *)
Theorem lsblk_roundtrip (ds : list LocalDisk) (Hne : ds ≠ []) (Hwf : Forall wf_local_disk ds) :
  let marked := (λ d, set_ld_HavePartitions
                  (existsb (λ e, String.eqb (ld_ParentName e) (ld_Name d)) ds) d) <$> ds in
  parseDiskString (lsblk_pairs ds) = Done marked ∧
  ∀ d, d ∈ filter_disks marked ↔ d ∈ marked ∧ usable d.
Proof.
  split; [by apply parseDiskString_report|]. intros d. apply elem_of_filter_disks.
Qed.

Definition sample_block_devices : list LocalDisk :=
  [mkDisk "/dev/vda" "" (50 * GiB) "" "disk" "1" false "" 0 "" "252:0" false;
   mkDisk "/dev/vda1" "/boot" GiB "" "part" "1" false "ext4" 0 "/dev/vda" "252:1" false].

Lemma lsblk_roundtrip_witness :
  parseDiskString (lsblk_pairs sample_block_devices) =
    Done [mkDisk "/dev/vda" "" (50 * GiB) "" "disk" "1" false "" 0 "" "252:0" true;
          mkDisk "/dev/vda1" "/boot" GiB "" "part" "1" false "ext4" 0 "/dev/vda" "252:1" false].
Proof.
  refine (eq_trans (proj1 (lsblk_roundtrip sample_block_devices _ _)) _); [discriminate| |reflexivity].
  unfold sample_block_devices.
  repeat (apply Forall_cons; split); [split|split|apply Forall_nil; exact I];
    [repeat constructor|vm_compute; split; (discriminate || reflexivity)|done
    |repeat constructor|vm_compute; split; (discriminate || reflexivity)|done].
Defined.

(** A mount point that contains a blank makes the reader of [lsblk]
    index past the end of a field, and the agent panics. *)
Theorem lsblk_blank_panics (pre post : string) (Hpre : has_char " " pre = false)
    (Hpost : has_char " " post = false ∧ has_char "=" post = false ∧ has_char newline post = false ∧
             has_char "034" post = false)
    (Hpre' : has_char newline pre = false ∧ has_char "034" pre = false ∧ has_char "=" pre = false) :
  parseDiskString ("MOUNTPOINT=" +:+ quote +:+ pre +:+ String " " post +:+ quote) = Panic "index out of range".
Proof.
  destruct Hpost as (Hp1 & Hp2 & Hp3 & Hp4), Hpre' as (Hq1 & Hq2 & Hq3). unfold parseDiskString.
  change (String.eqb ("MOUNTPOINT=" +:+ ?x) "") with false. cbv iota. unfold quote. rewrite ReplaceAll_drop.
  change (String " " post +:+ ?x) with (String " " (post +:+ x)).
  rewrite !remove_char_app. change (remove_char "034" (String " " ?x)) with (String " " (remove_char "034" x)).
  rewrite remove_char_app, (remove_char_id _ pre), (remove_char_id _ post) by done.
  change (remove_char "034" (String "034" "")) with "". rewrite sapp_nil_r.
  change (remove_char "034" "MOUNTPOINT=" +:+ "" +:+ pre +:+ String " " post)
    with ("MOUNTPOINT=" +:+ pre +:+ String " " post).
  rewrite Split_none; last first.
  { rewrite !has_char_app. cbn [has_char]. by rewrite Hq1, Hp3. }
  cbn [foldM]. unfold parse_disk_line. cbn [snd].
  rewrite <- sapp_assoc, Split_cons, Split_none; [|done|by rewrite has_char_app, Hpre].
  cbn [foldM]. unfold parse_disk_field at 2. unfold zero_LocalDisk.
  change ("MOUNTPOINT=" +:+ pre) with ("MOUNTPOINT" +:+ String "=" pre).
  rewrite Split_cons, Split_none by done. cbn [mbind outcome_bind].
  unfold parse_disk_field. cbn -[Split]. by rewrite Split_none.
Qed.

Lemma lsblk_blank_panics_witness :
  parseDiskString ("MOUNTPOINT=" +:+ quote +:+ "/mnt/my" +:+ String " " "disk" +:+ quote) =
    Panic "index out of range".
Proof. apply (lsblk_blank_panics "/mnt/my" "disk"); repeat split. Defined.
