(* ===== verification/Volume.v ===== *)
(** * [pkg/devicemanager/volume]: the volume manager

    [LocalVolumeImplement] is written against the [Lvm2] and [Bcache]
    interfaces; every operation that changes the disks runs under the lock
    [VOLUMEMUTEX]. *)

From S2P Require Import Prelude GoStrings Api GoRuntime Mutx Exec Utils LvmParse Lvmd Bcache.

#[local] Open Scope string_scope.
#[local] Open Scope list_scope.
#[local] Open Scope Z_scope.

Module LocalVolumeImplement.

Definition VOLUMEMUTEX := "VolumeMutex".

Section impl.
Context {St : Type} `{Lvm2 St, Bcache St, HasLocks St, GoRuntime}.

Definition locked (body : M St (option error)) : M St (option error) :=
  with_lock VOLUMEMUTEX (Some (ErrString "get global mutex failed")) body.

Definition CreateVolume (lvName vgName : string) (size ratio : Z) : M St (option error) :=
  locked (
    r ← VGDisplay vgName;
    match r with
    | (_, Some err) => mret (Some err)
    | (None, None) => mret (Some (ErrString "cannot find device group info"))
    | (Some vgInfo, None) =>
        if u64_sub (vg_VGFree vgInfo) size <? DefaultReservedSpace - DefaultEdgeSpace then
          mret (Some (ErrString ResourceExhausted))
        else
          let name := VolumePrefix +:+ lvName in
          d ← LVDisplay name vgName;
          match d.1 with
          | Some lvInfo =>
              if String.eqb (lvi_VGName lvInfo) vgName then mret None
              else LVCreateFromVG name vgName size [] 0 ""
          | None => LVCreateFromVG name vgName size [] 0 ""
          end
    end).

(** *** Bcache devices *)

Definition CreateBcache (dev cacheDev block bucket cachePolicy : string)
  : M St (res (option BcacheDeviceInfo)) :=
  err ← Bcache.CreateBcache dev cacheDev block bucket;
  match err with
  | Some e => mret (None, Some e)
  | None =>
      err ← RegisterDevice [dev; cacheDev];
      match err with
      | Some e => mret (None, Some e)
      | None =>
          r ← GetDeviceBcache dev;
          match r with
          | (_, Some e) => mret (None, Some e)
          | (None, None) => panic nil_deref
          | (Some deviceInfo, None) =>
              err ← SetCacheMode (bc_Name deviceInfo) cachePolicy;
              match err with
              | Some e => mret (None, Some e)
              | None => mret (Some deviceInfo, None)
              end
          end
      end
  end.

Definition BcacheDeviceInfo (dev : string) : M St (res (option Api.BcacheDeviceInfo)) :=
  r ← ShowDevice dev;
  match r with
  | (_, Some e) => mret (None, Some e)
  | (None, None) => panic nil_deref
  | (Some bcacheInfo, None) =>
      let bcacheInfo := set_bc_DevicePath dev bcacheInfo in
      r ← GetDeviceBcache dev;
      match r with
      | (_, Some e) => mret (None, Some e)
      | (None, None) => panic nil_deref
      | (Some deviceInfo, None) =>
          let bcacheInfo :=
            set_bc_numbers (bc_KernelMajor deviceInfo) (bc_KernelMinor deviceInfo) bcacheInfo in
          let bcacheInfo := set_bc_Name (bc_Name deviceInfo) bcacheInfo in
          mret (Some (set_bc_BcachePath (bc_BcachePath deviceInfo) bcacheInfo), None)
      end
  end.

Definition DeleteBcache (dev cacheDev : string) : M St (option error) :=
  r ← BcacheDeviceInfo dev;
  let '(deviceInfo, err) := r in
  match err with
  | Some e =>
      if negb (Contains (Error e) "exit status 2") then mret (Some e)
      else
        match deviceInfo with
        | None => mret None
        | Some d => RemoveBcache d
        end
  | None =>
      match deviceInfo with
      | None => mret None
      | Some d => RemoveBcache d
      end
  end.

(** *** Volumes *)

Definition DeleteVolume (lvName vgName : string) : M St (option error) :=
  locked (
    let name := if negb (HasPrefix lvName VolumePrefix) then VolumePrefix +:+ lvName else lvName in
    r ← LVDisplay name vgName;
    let '(lvInfo, err) := r in
    match err with
    | Some e => if Contains (Error e) "not found" then mret None else mret (Some e)
    | None =>
        _ ← DeleteBcache ("/dev/" +:+ vgName +:+ "/" +:+ name) "";
        err ← LVRemove name vgName;
        match err with
        | Some e => mret (Some e)
        | None =>
            match lvInfo with
            | None => panic nil_deref
            | Some lvInfo =>
                t ← LVDisplay (lvi_PoolLV lvInfo) vgName;
                match t.1 with
                | None => mret None
                | Some _ => DeleteThinPool (lvi_PoolLV lvInfo) vgName
                end
            end
        end
    end).

Definition ResizeVolume (lvName vgName : string) (size ratio : Z) : M St (option error) :=
  locked (
    r ← VGDisplay vgName;
    match r with
    | (_, Some err) => mret (Some err)
    | (None, None) => mret (Some (ErrString "cannot find device group info"))
    | (Some vgInfo, None) =>
        let name := VolumePrefix +:+ lvName in
        r ← LVDisplay name vgName;
        match r with
        | (_, Some err) => mret None
        | (None, None) => mret (Some (ErrString "volume don't exists"))
        | (Some lvInfo, None) =>
            if lvi_LVSize lvInfo =? size then mret None
            else if u64_sub (vg_VGFree vgInfo) (u64_sub size (lvi_LVSize lvInfo))
                    <? DefaultReservedSpace - DefaultEdgeSpace then
              mret (Some (ErrString ResourceExhausted))
            else
              t ← LVDisplay (lvi_PoolLV lvInfo) vgName;
              err ← match t.1 with
                    | Some thinInfo =>
                        if lvi_LVSize thinInfo <? size then
                          ResizeThinPool (lvi_PoolLV lvInfo) vgName (u64_mul size ratio)
                        else mret None
                    | None => mret None
                    end;
              match err with
              | Some e => mret (Some e)
              | None => LVResize name vgName size
              end
        end
    end).

Definition VolumeList (lvName vgName : string) : M St (res (list LvInfo)) :=
  let name :=
    if negb (String.eqb lvName "") && negb (String.eqb vgName "") then vgName +:+ "/" +:+ lvName
    else "" in
  LVS name.

Definition VolumeInfo (lvName vgName : string) : M St (res (option LvInfo)) :=
  r ← VolumeList lvName vgName;
  match r with
  | (_, Some err) => mret (None, Some (ErrStatus Internal ("failed to list lv :" +:+ Error err)))
  | (lvs, None) =>
      match List.find (λ v, String.eqb (lvi_LVName v) lvName) lvs with
      | Some v => mret (Some v, None)
      | None => mret (None, Some (ErrString "not found"))
      end
  end.

(** *** Groups *)

Definition add_pv (g : VgGroup) (p : PVInfo) : VgGroup :=
  mkVG (vg_VGName g) (vg_PVCount g) (vg_LVCount g) (vg_VGAttr g) (vg_VGSize g) (vg_VGFree g)
    (vg_PVS g ++ [p]).

(** The groups by name with their devices; the order of the result is the
    runtime's. *)
Definition group_pvs (vgs : list VgGroup) (pvs : list PVInfo) : gmap string VgGroup :=
  let tmp : gmap string VgGroup := foldl (λ tmp v, <[vg_VGName v := v]> tmp) ∅ vgs in
  foldl (λ tmp p,
    if String.eqb (pv_VGName p) "" then tmp
    else match tmp !! pv_VGName p with
         | Some g => <[pv_VGName p := add_pv g p]> tmp
         | None => tmp
         end) tmp pvs.

Definition GetCurrentVgStruct : M St (res (list VgGroup)) :=
  r ← VGS;
  match r with
  | (_, Some err) => mret ([], Some err)
  | (vgs, None) =>
      r ← PVS;
      match r with
      | (_, Some err) => mret ([], Some err)
      | (pvs, None) => mret ((map_range 10 (group_pvs vgs pvs)).*2, None)
      end
  end.

Definition GetCurrentPvStruct : M St (res (list PVInfo)) := PVS.

Definition not_found (err : option error) : bool :=
  match err with Some e => Contains (Error e) "not found" | None => true end.

Definition AddNewDiskToVg (disk vgName : string) : M St (option error) :=
  let vgName := ToLower vgName in
  locked (
    r ← PVDisplay disk;
    let '(pvInfo, err) := r in
    if negb (not_found err) then mret err
    else
      err ← match pvInfo with
            | None => PVCreate disk
            | Some p =>
                if negb (String.eqb (pv_VGName p) "") then
                  mret (Some (ErrString ("pv " +:+ pv_PVName p +:+ " have bind vg " +:+ pv_VGName p +:+ " ")))
                else mret None
            end;
      match err with
      | Some e => mret (Some e)
      | None =>
          r ← VGDisplay vgName;
          let '(vgInfo, err) := r in
          if negb (not_found err) then mret err
          else
            match vgInfo with
            | None => VGCreate vgName [vgName] [disk]
            | Some _ => VGExtend vgName disk
            end
      end).

Definition RemoveDiskInVg (disk vgName : string) : M St (option error) :=
  locked (
    r ← PVDisplay disk;
    match r with
    | (_, Some err) => mret (Some err)
    | (None, None) => mret None
    | (Some pvInfo, None) =>
        if negb (String.eqb (pv_VGName pvInfo) vgName) then
          mret (Some (ErrString ("pv " +:+ pv_PVName pvInfo +:+ " have bind vg " +:+ pv_VGName pvInfo
                                 +:+ " not " +:+ vgName +:+ " ")))
        else if String.eqb (pv_VGName pvInfo) "" then PVRemove disk
        else
          r ← VGDisplay vgName;
          match r with
          | (_, Some err) => mret (Some err)
          | (None, None) => mret (Some (ErrString "not found"))
          | (Some vgInfo, None) =>
              if vg_PVCount vgInfo =? 1 then
                if 0 <? vg_LVCount vgInfo then mret (Some (ErrString "still have logical volumes"))
                else
                  err ← VGRemove vgName;
                  match err with
                  | Some e => mret (Some e)
                  | None => PVRemove disk
                  end
              else if u64_add (u64_sub (vg_VGFree vgInfo) DefaultReservedSpace) DefaultEdgeSpace
                      <? pv_PVSize pvInfo then
                mret (Some (ErrString ResourceExhausted))
              else VGReduce vgName disk
          end
    end).

(** *** Maintenance *)

(** The timeout of the source cannot fire before the first, and only, pass. *)
Definition HealthCheck : M St unit :=
  with_lock VOLUMEMUTEX () (
    _ ← RemoveUnknownDevice DeviceVGHDD;
    _ ← RemoveUnknownDevice DeviceVGSSD;
    mret ()).

Definition RefreshLvmCache : M St unit :=
  _ ← StartLvm2;
  _ ← PVScan "";
  _ ← VGScan "";
  mret ().
End impl.
End LocalVolumeImplement.
