(* ===== verification/Reconciler.v ===== *)
(** * [controllers/logicvolume_controller.go]: the node's half of the protocol

    The reconciler carries out on the node what a [LogicVolume] asks for and
    writes the result into the object's status.  It is written against the
    volume, partition and host managers of the node, [N], and the API server
    and the notification of the capacity reporter, [K]; of the latter only the
    answer within five seconds matters. *)

From S2P Require Import Prelude GoStrings Api GoRuntime Mutx Exec Utils Config NodeService HostPath Kube.
From S2P Require Import LvmParse Lvmd Bcache Partition Volume.

#[local] Open Scope string_scope.
#[local] Open Scope list_scope.
#[local] Open Scope Z_scope.

(** ** The managers *)

Class PartitionManager (St : Type) := {
  CreatePartition : string → string → Z → M St (option error);
  UpdatePartition : string → string → Z → M St (option error);
  DeletePartition : string → string → M St (option error);
  DeletePartitionByPartNumber : DiskoDisk → Z → M St (option error);
  ScanDisk : string → M St (res DiskoDisk);
  ScanAllDisk : list string → M St (res (gmap string DiskoDisk));
  ListDevicesDetail : string → M St (res (list LocalDisk));
  ListDevicesDetailWithoutFilter : string → M St (res (list LocalDisk));
  GetDiskUsed : string → M St (res Z)
}.

Class HostManager (St : Type) := {
  HostCreateVolume : string → string → M St (option error);
  HostDeleteVolume : string → string → M St (option error)
}.

(** [NoticeUpdateCapacity] with a [done] channel: whether it was closed within
    five seconds; [notify] without one does not wait. *)
Class Notifier (St : Type) := {
  notice : string → M St bool;
  notify : string → M St unit
}.

#[export] Instance PartitionManager_Node W `{OS W, DiskoMethods, Disko W, GoRuntime} : PartitionManager (Node W) := {|
  CreatePartition := LocalPartitionImplement.CreatePartition;
  UpdatePartition := LocalPartitionImplement.UpdatePartition;
  DeletePartition := LocalPartitionImplement.DeletePartition;
  DeletePartitionByPartNumber := LocalPartitionImplement.DeletePartitionByPartNumber;
  ScanDisk := LocalPartitionImplement.ScanDisk;
  ScanAllDisk := LocalPartitionImplement.ScanAllDisk;
  ListDevicesDetail := LocalPartitionImplement.ListDevicesDetail;
  ListDevicesDetailWithoutFilter := LocalPartitionImplement.ListDevicesDetailWithoutFilter;
  GetDiskUsed := LocalPartitionImplement.GetDiskUsed
|}.

Definition HostManager_Node W `{OS W, Files W} (cfg : Settings) : HostManager (Node W) := {|
  HostCreateVolume := LocalHostImplement.CreateVolume cfg;
  HostDeleteVolume := LocalHostImplement.DeleteVolume cfg
|}.

Module LogicVolumeReconciler.

(** *** Updates of the status *)

(** The failure of a create: the codes are set ([set_code] is false for raw
    volumes, where only an exhausted disk sets one). *)
Definition failed (set_code : bool) (e : error) (lv : LogicVolume) : LogicVolume :=
  let st := lv_Status lv in
  let c := if String.eqb (Error e) ResourceExhausted then ResourceExhaustedCode
           else if set_code then Internal else st_Code st in
  set_lv_Status (mkLvStatus (st_VolumeID st) c (Error e) (st_CurrentSize st) "Failed"
                   (st_DeviceMajor st) (st_DeviceMinor st)) lv.

Definition succeeded (id : string) (size major minor : Z) (lv : LogicVolume) : LogicVolume :=
  set_lv_Status (mkLvStatus id OK "" (Some size) "Success" major minor) lv.

Definition volume_type (lv : LogicVolume) : string := mget (lv_Annotations lv) VolumeManagerType.

Section impl.
Context {N K : Type} `{Lvm2 N, Bcache N, HasLocks N, GoRuntime, PartitionManager N, HostManager N}.
Context `{KubeClient K, Notifier K}.

Abbreviation Agent := (N * K)%type.

Definition syncNoticeUpdateCapacity : M Agent (option error) :=
  b ← on_snd (notice "logicVolumeController");
  if (b : bool) then mret None else mret (Some (ErrString "update nsr capacity timeout(5s)")).

(** The common end of a create and an expansion. *)
Definition report (lv : LogicVolume) : M Agent (option error) :=
  err ← syncNoticeUpdateCapacity;
  match err with
  | Some e => mret (Some e)
  | None => on_snd (call (ApiUpdateStatus lv))
  end.

Definition removeLVIfExists (lv : LogicVolume) : M Agent (option error) :=
  let group := ls_DeviceGroup (lv_Spec lv) in
  let remove :=
    if String.eqb (volume_type lv) LvmVolumeType then
      Some (LocalVolumeImplement.DeleteVolume (lv_Name lv) group)
    else if String.eqb (volume_type lv) RawVolumeType then
      Some (DeletePartition (PartitionName (lv_Name lv)) group)
    else if String.eqb (volume_type lv) HostVolumeType then Some (HostDeleteVolume (lv_Name lv) group)
    else None in
  match remove with
  | None => mret None
  | Some f =>
      err ← on_fst (UntilMaxRetry f 3);
      match err with
      | Some e => mret (Some e)
      | None =>
          err ← syncNoticeUpdateCapacity;
          match err with
          | Some e => mret (Some e)
          | None =>
              on_snd (call (ApiPatch lv
                (set_lv_Finalizers (SliceRemoveString (lv_Finalizers lv) LogicVolumeFinalizer) lv)))
          end
      end
  end.

Definition createLV (lv : LogicVolume) : M Agent (option error) :=
  let group := ls_DeviceGroup (lv_Spec lv) in
  let reqBytes := ls_Size (lv_Spec lv) in
  let st := lv_Status lv in
  if negb (bool_decide (st_Code st = OK)) then mret None
  else if String.eqb (volume_type lv) LvmVolumeType then
    err ← on_fst (UntilMaxRetry (LocalVolumeImplement.CreateVolume (lv_Name lv) group (u64 reqBytes) 1) 3);
    match err with
    | Some e => report (failed true e lv)
    | None =>
        let id := VolumePrefix +:+ lv_Name lv in
        r ← on_fst (LocalVolumeImplement.VolumeInfo id group);
        match r.1 with
        | Some lvInfo => report (succeeded id reqBytes (lvi_LVKernelMajor lvInfo) (lvi_LVKernelMinor lvInfo) lv)
        | None => report (succeeded id reqBytes (st_DeviceMajor st) (st_DeviceMinor st) lv)
        end
    end
  else if String.eqb (volume_type lv) RawVolumeType then
    err ← on_fst (UntilMaxRetry (CreatePartition (PartitionName (lv_Name lv)) group (u64 reqBytes)) 3);
    match err with
    | Some e => report (failed false e lv)
    | None =>
        r ← on_fst (ScanDisk group);
        match r with
        | (_, Some e) =>
            mret (Some (ErrString ("lv: " +:+ lv_Name lv +:+ ",disk scan group: " +:+ group +:+ ",err:" +:+ Error e)))
        | (diskInfo, None) =>
            let major := (ParseUint (mget (dd_Properties diskInfo) "MAJOR") 32).1 in
            let minor := (ParseUint (mget (dd_Properties diskInfo) "MINOR") 32).1 in
            report (succeeded (VolumePrefix +:+ lv_Name lv) reqBytes (u32 major) (u32 minor) lv)
        end
    end
  else if String.eqb (volume_type lv) HostVolumeType then
    err ← on_fst (UntilMaxRetry (HostCreateVolume (lv_Name lv) group) 3);
    match err with
    | Some e => report (failed true e lv)
    | None => report (succeeded (HostPrefix +:+ lv_Name lv) reqBytes 0 0 lv)
    end
  else mret None.

(** The result of an expansion in the status. *)
Definition expanded (err : option error) (lv : LogicVolume) : LogicVolume :=
  let st := lv_Status lv in
  match err with
  | Some e => failed false e lv
  | None => succeeded (st_VolumeID st) (ls_Size (lv_Spec lv)) (st_DeviceMajor st) (st_DeviceMinor st) lv
  end.

Definition expandLV (lv : LogicVolume) : M Agent (option error) :=
  let group := ls_DeviceGroup (lv_Spec lv) in
  let reqBytes := ls_Size (lv_Spec lv) in
  match st_CurrentSize (lv_Status lv) with
  | None => mret None
  | Some cur =>
      if reqBytes <=? cur then mret None
      else if String.eqb (volume_type lv) LvmVolumeType then
        err ← on_fst (UntilMaxRetry (LocalVolumeImplement.ResizeVolume (lv_Name lv) group (u64 reqBytes) 1) 3);
        report (expanded err lv)
      else if String.eqb (volume_type lv) RawVolumeType then
        match lv_Annotations lv !! ExclusivityDisk with
        | None =>
            mret (Some (ErrString ("Extend lv: " +:+ lv_Name lv +:+
              " doesn't get  annotations: carina.storage.io/exclusively-raw-disk")))
        | Some x =>
            if String.eqb x "false" then
              mret (Some (ErrString ("Extend lv: " +:+ lv_Name lv +:+ " doesn't using an exclusive disk")))
            else
              err ← on_fst (UntilMaxRetry (UpdatePartition (PartitionName (lv_Name lv)) group (u64 reqBytes)) 3);
              report (expanded err lv)
        end
      else mret None
  end.

Definition Reconcile (name : string) : M Agent (option error) :=
  v ← on_snd look;
  match vw_cache_lv v name with
  | (_, Some e) => if negb (IsNotFound e) then mret (Some e) else mret None
  | (lv, None) =>
      if negb (lv_Deleting lv) then
        if String.eqb (st_VolumeID (lv_Status lv)) "" then createLV lv else expandLV lv
      else if negb (ContainsString (lv_Finalizers lv) LogicVolumeFinalizer) then mret None
      else removeLVIfExists lv
  end.
End impl.

(** *** The events a node looks at *)

Definition filter (nodeName : string) (lv : option LogicVolume) : bool :=
  match lv with
  | None => false
  | Some lv => String.eqb (ls_NodeName (lv_Spec lv)) nodeName
  end.

Definition Update (nodeName : string) (oldLogicVolume newLogicVolume : LogicVolume) : bool :=
  if String.eqb (lv_ResourceVersion newLogicVolume) (lv_ResourceVersion oldLogicVolume) then false
  else filter nodeName (Some newLogicVolume) || filter nodeName (Some oldLogicVolume).
End LogicVolumeReconciler.
