(* ===== verification/Capacity.v ===== *)
(** * [runners/nodestorageresource.go]: what a node advertises

    The reporter fills the status of the node's [NodeStorageResource] from the
    volume groups and the raw disks the configuration selects, and
    [GetNodeDiskSelectGroup] of [pkg/devicemanager/manager.go] says which those
    are.  Compiling a user's regular expression is a parameter, [Regexp]; so is
    [Fill], the JSON copy of a disk of the disk library into the API type. *)

From S2P Require Import Prelude GoStrings Api GoRuntime Mutx Exec Utils Config NodeService HostPath Kube.
From S2P Require Import LvmParse Lvmd Bcache Partition Volume Reconciler.

#[local] Open Scope string_scope.
#[local] Open Scope list_scope.
#[local] Open Scope Z_scope.

(** [regexp.Compile]: a matcher, or nothing on a syntax error. *)
Class Regexp := {
  Compile : string → option (string → bool)
}.

(** ** [pkg/devicemanager/manager.go] *)

(** The groups whose node label the node has; none if the node is unknown. *)
Definition select_groups (selectors : list DiskSelectorItem) (node : res KNode) : gmap string DiskSelectorItem :=
  match node with
  | (_, Some _) => ∅
  | (node, None) =>
      foldl (λ diskClass v,
        let diskClass := if String.eqb (ds_NodeLabel v) "" then <[ds_Name v := v]> diskClass else diskClass in
        match kn_Labels node with
        | Some labels =>
            if bool_decide (is_Some (labels !! ds_NodeLabel v)) then <[ds_Name v := v]> diskClass else diskClass
        | None => diskClass
        end) ∅ selectors
  end.

(** ** The status *)

Definition set_VgGroups (vgs : list VgGroup) (s : NodeStorageResource) : NodeStorageResource :=
  mkNsr (nsr_Name s) (nsr_Capacity s) (nsr_Allocatable s) vgs (nsr_Disks s).
Definition add_Disk (d : NsrDisk) (s : NodeStorageResource) : NodeStorageResource :=
  mkNsr (nsr_Name s) (nsr_Capacity s) (nsr_Allocatable s) (nsr_VgGroups s) (nsr_Disks s ++ [d]).
(** One entry of the two maps. *)
Definition advertise (key : string) (size free : Z) (s : NodeStorageResource) : NodeStorageResource :=
  mkNsr (nsr_Name s) (<[key := size]> (nsr_Capacity s)) (<[key := free]> (nsr_Allocatable s))
    (nsr_VgGroups s) (nsr_Disks s).

Definition empty_status (name : string) : NodeStorageResource := mkNsr name ∅ ∅ [] [].

(** The sizes in GiB of a group. *)
Definition sizeGb (v : VgGroup) : Z := i64 (u64_add (Z.shiftr (vg_VGSize v) 30) 1).
Definition freeGb (v : VgGroup) : Z :=
  i64 (if DefaultReservedSpace <? vg_VGFree v
       then u64_add (Z.shiftr (u64_sub (vg_VGFree v) DefaultReservedSpace) 30) 1 else 0).

Definition advertise_vg (s : NodeStorageResource) (v : VgGroup) : NodeStorageResource :=
  advertise (DeviceCapacityKeyPrefix +:+ vg_VGName v) (sizeGb v) (freeGb v) s.

Module nodeStorageResourceReconciler.

Section impl.
Context {N K : Type} `{Lvm2 N, Bcache N, HasLocks N, GoRuntime, PartitionManager N}.
Context `{KubeClient K, Regexp, DiskoMethods}.
Context (Fill : DiskoDisk → NsrDisk) (cfg : Settings) (NodeName : string).

Abbreviation Agent := (N * K)%type.

Definition GetNodeDiskSelectGroup : M Agent (gmap string DiskSelectorItem) :=
  v ← on_snd look;
  mret (select_groups (DiskSelector cfg) (vw_cache_node v NodeName)).

Definition generateLvmStatus (status : NodeStorageResource) : M Agent NodeStorageResource :=
  diskSelectGroup ← GetNodeDiskSelectGroup;
  r ← on_fst LocalVolumeImplement.GetCurrentVgStruct;
  match r with
  | (_, Some _) => mret status
  | (vgs, None) =>
      let groups := nsr_VgGroups status ++
        List.filter (λ vg, bool_decide (is_Some (diskSelectGroup !! vg_VGName vg))) vgs in
      mret (foldl advertise_vg (set_VgGroups groups status) groups)
  end.

(** *** Raw disks *)

(** The disks by group, and the disks that have a group. *)
Definition classify_disk (name : string) (matches : string → bool)
    (acc : gmap string (list string) * gset string) (d : LocalDisk) : gmap string (list string) * gset string :=
  let '(blockClass, hasMatchedDisk) := acc in
  if negb (matches (ld_Name d)) then acc
  else if String.eqb (ld_Type d) "part" then acc
  else
    let l := default [] (blockClass !! name) in
    if ContainsString l (ld_Name d) then acc
    else if bool_decide (ld_Name d ∈ hasMatchedDisk) then acc
    else (<[name := l ++ [ld_Name d]]> blockClass, {[ld_Name d]} ∪ hasMatchedDisk).

Definition classify_group (localDisk : list LocalDisk)
    (acc : gmap string (list string) * gset string) (kv : string * DiskSelectorItem)
  : gmap string (list string) * gset string :=
  let ds := kv.2 in
  if String.eqb (ToLower (ds_Policy ds)) "lvm" then acc
  else match Compile (Join (ds_Re ds) "|") with
       | None => acc
       | Some matches => foldl (classify_disk (ds_Name ds) matches) acc localDisk
       end.

(** A disk's entry: its size and its largest free space. *)
Definition advertise_disk (group : string) (status : NodeStorageResource) (disk : DiskoDisk) : NodeStorageResource :=
  let fs := sort_slice (λ a b, FreeSpaceSize b <? FreeSpaceSize a) (FreeSpaces disk) in
  match fs with
  | [] => status
  | f :: _ =>
      advertise (DeviceCapacityKeyPrefix +:+ group +:+ "/" +:+ dd_Name disk)
        (i64 (Z.shiftr (dd_Size disk) 30)) (i64 (Z.shiftr (FreeSpaceSize f) 30)) status
  end.

Definition generateDiskStatus (status : NodeStorageResource) : M Agent NodeStorageResource :=
  diskSelectGroup ← GetNodeDiskSelectGroup;
  r ← on_fst (ListDevicesDetail "");
  match r with
  | (_, Some _) => mret status
  | (localDisk, None) =>
      let blockClass := (foldl (classify_group localDisk) (∅, ∅) (map_range 40 diskSelectGroup)).1 in
      r ← range (map_range 41 blockClass) (status, ∅)
        (λ kv acc,
          let '(group, v) := kv in
          let '(status, groupDiskos) := acc in
          r ← on_fst (ScanAllDisk v);
          match r with
          | (_, Some _) => mret (Return status)
          | (diskSet, None) =>
              let disks := (map_range 42 diskSet).*2 in
              let status := foldl (λ s d, add_Disk (Fill d) s) status disks in
              mret (Next (status, match disks with
                                  | [] => groupDiskos
                                  | _ => <[group := default [] (groupDiskos !! group) ++ disks]> groupDiskos
                                  end))
          end);
      match r with
      | inr status => mret status
      | inl (status, groupDiskos) =>
          mret (foldl (λ s kv, foldl (advertise_disk kv.1) s kv.2) status
                  (map_range 43 (groupDiskos : gmap string (list DiskoDisk))))
      end
  end.

Definition generateStatus : M Agent NodeStorageResource :=
  status ← generateLvmStatus (empty_status NodeName);
  generateDiskStatus status.

(** *** The reconciler *)

Definition createNodeStorageResource : M Agent (option error) :=
  v ← on_snd look;
  match vw_cache_node v NodeName with
  | (_, Some e) => mret (Some e)
  | (_, None) => on_snd (call (ApiNsrCreate NodeName))
  end.

Definition deleteNodeStorageResource : M Agent (option error) := on_snd (call (ApiNsrDelete NodeName)).

(** What an event leads to: [reconcile] returns without acknowledging it, after
    triggering another event or not, or closes its [Done] channel. *)
Inductive handled := Dropped | Triggered | Acknowledged.

(** [DeepEqual] of two statuses, without the time of the last update. *)
Definition same_status (a b : NodeStorageResource) : Prop :=
  nsr_Capacity a = nsr_Capacity b ∧ nsr_Allocatable a = nsr_Allocatable b ∧
  nsr_VgGroups a = nsr_VgGroups b ∧ nsr_Disks a = nsr_Disks b.

#[global] Instance same_status_dec a b : Decision (same_status a b).
Proof.
  assert (EqDecision NsrDisk) by solve_decision. unfold same_status. apply _.
Defined.

Definition reconcile : M Agent handled :=
  r ← on_snd (RetryGetter.Get (λ v, vw_cache_nsr v NodeName) (λ v, vw_api_nsr v NodeName));
  match r with
  | (_, Some e) =>
      if IsNotFound e then
        err ← createNodeStorageResource;
        match err with
        | Some _ => mret Dropped
        | None => mret Triggered
        end
      else mret Dropped
  | (nsr, None) =>
      newStatus ← generateStatus;
      if decide (same_status nsr newStatus) then mret Acknowledged
      else
        err ← on_snd (call (ApiNsrStatus newStatus));
        match err with
        | Some _ => mret Dropped
        | None => mret Acknowledged
        end
  end.
End impl.
End nodeStorageResourceReconciler.
