(* ===== verification/Filesystem.v ===== *)
(** * [pkg/csidriver/filesystem]: devices, mounts and file systems

    What the CSI node service asks of the node's files.  The system calls, the
    reads of [/proc/mounts] and the mount library are the class [FileSys];
    the programs it starts are those of [OS]. *)

From S2P Require Import Prelude GoStrings Api GoRuntime Mutx Exec Utils Config HostPath LvmParse.

#[local] Open Scope string_scope.
#[local] Open Scope list_scope.
#[local] Open Scope Z_scope.

(** ** The system interface *)

(** The errors of a system call the code tells apart: no such file, one that
    says to try again, any other. *)
Inductive errno := ENOENT | Again (msg : string) | Errno (msg : string).

Definition errno_text (e : errno) : string :=
  match e with ENOENT => "no such file or directory" | Again m | Errno m => m end.

(** The fields the code reads of [unix.Stat_t] and [unix.Statfs_t]. *)
Record Stat_t := mkStat {
  st_Mode : Z;
  st_Rdev : Z;
  st_Ino : Z
}.

Record Statfs_t := mkStatfs {
  sf_Blocks : Z;
  sf_Bfree : Z;
  sf_Bavail : Z;
  sf_Files : Z;
  sf_Ffree : Z;
  sf_Frsize : Z
}.

Definition S_IFMT : Z := 61440.
Definition S_IFDIR : Z := 16384.
Definition S_IFBLK : Z := 24576.

Class FileSys (W : Type) := {
  unix_Stat : string → W → (Stat_t + errno) * W;
  unix_Mknod : string → Z → Z → W → option errno * W;
  unix_Statfs : string → W → (Statfs_t + errno) * W;
  (** Package [os]. *)
  os_Stat : string → W → Stat_t + errno;
  os_Remove : string → W → option errno * W;
  os_Open : string → W → option error;
  os_SeekEnd : string → W → res Z;
  os_Getwd : W → res string;
  EvalSymlinks : string → W → res string;
  (** [io.ConsistentRead] of [/proc/mounts]. *)
  read_mounts : W → res string;
  (** [mountutil.SafeFormatAndMount]. *)
  FormatAndMount : string → string → string → list string → W → option error * W;
  Unmount : string → W → option error * W;
  GetDiskFormat : string → W → res string
}.

Definition blkidCmd := "/sbin/blkid".

(** [filepath.Abs] of a path that is not empty. *)
Definition Abs {W} `{FileSys W} (path : string) (w : W) : res string :=
  if IsAbs path then (Clean path, None)
  else match os_Getwd w with
       | (_, Some e) => ("", Some e)
       | (wd, None) => (Join2 wd path, None)
       end.

Section filesystem.
Context {W : Type} `{OS W, Files W, FileSys W}.

(** A call that changes the system, and one that reads it. *)
Definition on_world {A} (f : W → A * W) : M (Node W) A := λ n,
  let '(a, w) := f (nd_world n) in (Done a, mkNode (nd_locks n) (nd_parts n) w (nd_trace n)).
Definition of_world {A} (f : W → A) : M (Node W) A := λ n, (Done (f (nd_world n)), n).

(** The loop of the three wrappers; it has no bound in the source, [fuel]
    counts the attempts. *)
Fixpoint retry {A} (fuel : nat) (f : W → (A + errno) * W) : M (Node W) (A + errno) :=
  match fuel with
  | O => panic "interrupted too often"
  | S fuel =>
      r ← on_world f;
      match r with
      | inl a => mret (inl a)
      | inr (Again _) => retry fuel f
      | inr e => mret (inr e)
      end
  end.

(** An error result as the sum the loop works on. *)
Definition as_sum (f : W → option errno * W) (w : W) : (unit + errno) * W :=
  let '(e, w') := f w in (match e with Some e => inr e | None => inl () end, w').

Context (fuel : nat).

Definition Stat (path : string) : M (Node W) (Stat_t + errno) := retry fuel (unix_Stat path).
Definition Mknod (path : string) (mode dev : Z) : M (Node W) (unit + errno) := retry fuel (as_sum (unix_Mknod path mode dev)).
Definition Statfs (path : string) : M (Node W) (Statfs_t + errno) := retry fuel (unix_Statfs path).

(** ** Mounts *)

Definition stat_failed (path : string) (e : errno) : error :=
  ErrString ("stat failed for " +:+ path +:+ ": " +:+ errno_text e).

Definition isSameDevice (dev1 dev2 : string) : M (Node W) (res bool) :=
  if String.eqb dev1 dev2 then mret (true, None)
  else
    r1 ← Stat dev1;
    match r1 with
    | inr ENOENT => mret (false, None)
    | inr e => mret (false, Some (stat_failed dev1 e))
    | inl st1 =>
        r2 ← Stat dev2;
        match r2 with
        | inr ENOENT => mret (false, None)
        | inr e => mret (false, Some (stat_failed dev2 e))
        | inl st2 => mret (st_Rdev st1 =? st_Rdev st2, None)
        end
    end.

(** One line of the mount table. *)
Definition check_line (device target line : string) : M (Node W) (ctl unit (res bool)) :=
  match Fields line with
  | src :: dir :: _ =>
      r ← isSameDevice device src;
      match r with
      | (_, Some e) => mret (Return (false, Some e))
      | (false, None) => mret (Next ())
      | (true, None) =>
          r ← of_world (EvalSymlinks dir);
          match r with
          | (_, Some e) => mret (Return (false, Some e))
          | (d, None) => mret (if String.eqb d target then Return (true, None) else Next ())
          end
      end
  | _ => mret (Next ())
  end.

Definition IsMounted (device target : string) : M (Node W) (res bool) :=
  r ← of_world (Abs target);
  match r with
  | (_, Some e) => mret (false, Some e)
  | (abs, None) =>
      r ← of_world (EvalSymlinks abs);
      match r with
      | (_, Some e) => mret (false, Some e)
      | (target, None) =>
          r ← of_world read_mounts;
          match r with
          | (_, Some e) => mret (false, Some (ErrString ("could not read /proc/mounts: " +:+ Error e)))
          | (data, None) =>
              r ← range (Split data newline) () (λ line _, check_line device target line);
              match r with
              | inl _ => mret (false, None)
              | inr answer => mret answer
              end
          end
      end
  end.

(** The value of the first line [TYPE=...]. *)
Fixpoint type_of (lines : list string) : string :=
  match lines with
  | [] => ""
  | line :: lines => if HasPrefix line "TYPE=" then sdrop 5 line else type_of lines
  end.

Definition DetectFilesystem (device : string) : M (Node W) (res string) :=
  err ← of_world (os_Open device);
  match err with
  | Some e => mret ("", Some e)
  | None =>
      r ← spawn blkidCmd ["-c"; "/dev/null"; "-o"; "export"; device];
      match pr_end r with
      | ExitOk => mret (type_of (Split (pr_both r) newline), None)
      | ExitError m =>
          if String.eqb m "exit status 2" then mret ("", None)
          else mret ("", Some (ErrString ("blkid failed: output=" +:+ pr_both r +:+ ", device=" +:+ device +:+ ", error=" +:+ m)))
      | StartError m =>
          mret ("", Some (ErrString ("blkid failed: output=" +:+ pr_both r +:+ ", device=" +:+ device +:+ ", error=" +:+ m)))
      end
  end.

(** [host.go]: the same inode counts as the same directory. *)
Definition CheckBindMountByInode (source target : string) : M (Node W) (res bool) :=
  r1 ← of_world (os_Stat source);
  match r1 with
  | inr e => mret (false, Some (ErrString (errno_text e)))
  | inl src =>
      r2 ← of_world (os_Stat target);
      match r2 with
      | inr e => mret (false, Some (ErrString (errno_text e)))
      | inl tgt => mret (st_Ino src =? st_Ino tgt, None)
      end
  end.

(** ** [resizefs.go] *)

Definition run_resize (cmd : string) (args : list string) (device : string) : M (Node W) (res bool) :=
  r ← spawn cmd args;
  match proc_error (pr_end r) with
  | None => mret (true, None)
  | Some e =>
      mret (false, Some (ErrString ("resize of device " +:+ device +:+ " failed: " +:+ Error e +:+ ". " +:+ cmd +:+
                                    " output: " +:+ pr_both r)))
  end.

Definition extResize (devicePath : string) : M (Node W) (res bool) := run_resize "resize2fs" [devicePath] devicePath.
Definition xfsResize (deviceMountPath : string) : M (Node W) (res bool) :=
  run_resize "xfs_growfs" ["-d"; deviceMountPath] deviceMountPath.

Definition Resize (devicePath deviceMountPath : string) : M (Node W) (res bool) :=
  r ← of_world (GetDiskFormat devicePath);
  match r with
  | (_, Some e) =>
      mret (false, Some (ErrString ("ResizeFS.Resize - error checking format for device " +:+ devicePath +:+ ": " +:+ Error e)))
  | (format, None) =>
      if String.eqb format "" then mret (false, None)
      else if String.eqb format "ext3" || String.eqb format "ext4" then extResize devicePath
      else if String.eqb format "xfs" then xfsResize deviceMountPath
      else mret (false, Some (ErrString ("ResizeFS.Resize - resize of format " +:+ format +:+ " is not supported for device "
                                         +:+ devicePath +:+ " mounted at " +:+ deviceMountPath)))
  end.
End filesystem.
