(* ===== verification/CsiNode.v ===== *)
(** * [pkg/csidriver/driver/node.go]: the CSI node service

    Publishing puts the volume of a pod at its target path, as a block device
    or as a mounted file system; unpublishing takes it away.  The service has
    its own set of named locks, works on the node through the device manager
    and the package [filesystem], and looks volumes up at the API server. *)

From S2P Require Import Prelude GoStrings Api GoRuntime Mutx Exec Utils Config NodeService HostPath Kube.
From S2P Require Import LogicVolumeService CsiController LvmParse Lvmd Bcache Partition Volume Filesystem.

#[local] Open Scope string_scope.
#[local] Open Scope list_scope.
#[local] Open Scope Z_scope.

(** ** The messages *)

(** The access type of a capability: a block device, or a mount with its file
    system and its flags. *)
Inductive access := Block | Mount (FsType : string) (MountFlags : list string) | NoAccess.

Record NodePublishVolumeRequest := mkPublish {
  np_VolumeId : string;
  np_TargetPath : string;
  np_Capability : option (access * option access_mode);
  np_Readonly : bool;
  np_VolumeContext : gmap string string
}.

Record NodeUnpublishVolumeRequest := mkUnpublish {
  nu_VolumeId : string;
  nu_TargetPath : string
}.

Record NodeExpandVolumeRequest := mkNodeExpand {
  ne_VolumeId : string;
  ne_VolumePath : string;
  ne_RequiredBytes : Z;
  ne_LimitBytes : Z
}.

Inductive unit_of_usage := BYTES | INODES.

Record VolumeUsage := mkUsage {
  vu_Unit : unit_of_usage;
  vu_Total : Z;
  vu_Used : Z;
  vu_Available : Z
}.

(** [unix.Mkdev]. *)
Class UnixDev := {
  Mkdev : Z → Z → Z
}.

(** [linux.GetUdevInfo] of the disk library: the properties of a device. *)
Class Udev (W : Type) := {
  GetUdevInfo : string → W → res (gmap string string)
}.

Definition DeviceDirectory := "/dev/carina".
Definition findmntCmd := "/usr/bin/findmnt".
(** [0600 | unix.S_IFBLK]. *)
Definition devicePermission : Z := Z.lor 384 S_IFBLK.
(** [0755], and [0777|os.ModeSetgid]. *)
Definition perm_dir : Z := 493.
Definition perm_setgid : Z := Z.lor perm_all (Z.shiftl 1 22).

(** [path.Dir]: the path up to its last slash, cleaned. *)
Definition Dir (path : string) : string :=
  match reverse (Split path "/") with
  | _ :: (_ :: _) as l => Clean (Join (reverse (tail l)) "/" +:+ "/")
  | _ => "."
  end.

(** ** The state of the service *)

Record NodeSvc (W K : Type) := mkSvc {
  sv_mutex : GlobalLocks.t;
  sv_node : Node W;
  sv_kube : K
}.
Arguments mkSvc {W K}.
Arguments sv_mutex {W K}.
Arguments sv_node {W K}.
Arguments sv_kube {W K}.

#[export] Instance NodeSvc_locks W K : HasLocks (NodeSvc W K) := {|
  get_locks := sv_mutex;
  set_locks l s := mkSvc l (sv_node s) (sv_kube s)
|}.

#[export] Instance NodeSvc_locks_laws W K : HasLocksLaws (NodeSvc W K).
Proof. by split. Qed.

(** A call of the device manager or of the system, and one of the client. *)
Definition on_node {W K A} (m : M (Node W) A) : M (NodeSvc W K) A := λ s,
  let '(o, n) := m (sv_node s) in (o, mkSvc (sv_mutex s) n (sv_kube s)).
Definition on_kube {W K A} (m : M K A) : M (NodeSvc W K) A := λ s,
  let '(o, k) := m (sv_kube s) in (o, mkSvc (sv_mutex s) (sv_node s) k).

Definition internal (msg : string) : option error := Some (ErrStatus Internal msg).

(** The text of an error behind a message. *)
Definition because (msg : string) (e : error) : option error := internal (msg +:+ Error e).

Module nodeService.

Definition right_device `{UnixDev} (st : Stat_t) (major minor : Z) : bool :=
  (st_Rdev st =? Mkdev major minor) && (Z.land (st_Mode st) devicePermission =? devicePermission).

(** The options of a mount; [rw] contradicts a read-only request. *)
Definition mount_options (readonly : bool) (flags : list string) : list string + error :=
  if readonly && ContainsString flags "rw" then
    inr (ErrStatus InvalidArgument ("mount option " +:+ quote +:+ "rw" +:+ quote +:+
                                 " is specified even though read only mode is specified"))
  else inl ((if readonly then ["ro"] else []) ++ flags).

Definition default_fs (FsType : string) : string := if String.eqb FsType "" then "ext4" else FsType.

Definition unsupported_mode (mode : option access_mode) : option error :=
  match mode with
  | Some SINGLE_NODE_WRITER => None
  | Some (OtherMode name) => Some (ErrStatus FailedPrecondition ("unsupported access mode: " +:+ name))
  | None => Some (ErrStatus FailedPrecondition "unsupported access mode: UNKNOWN")
  end.

(** The numbers udev reports; what is missing or malformed counts as zero. *)
Definition udev_number (props : gmap string string) (key : string) : Z :=
  match props !! key with Some str => u32 (ParseUint str 32).1 | None => 0 end.

(** The directory of the host group of that name, or the default one. *)
Fixpoint host_dir (deviceGroup : string) (l : list DiskSelectorItem) : string + error :=
  match l with
  | [] => inl DefaultHostPath
  | v :: l' =>
      if String.eqb (ds_Name v) deviceGroup && String.eqb (ToLower (ds_Policy v)) HostVolumeType then
        match ds_Re v with
        | [] => host_dir deviceGroup l'
        | p :: _ => if negb (IsAbs p) then inr (ErrStatus Internal ("path must be absolute: " +:+ p)) else inl p
        end
      else host_dir deviceGroup l'
  end.

Section node.
Context {W : Type} `{OS W, Files W, FileSys W, DiskoMethods, Disko W, Udev W, UnixDev, GoRuntime}.
Context (fuel : nat) (cfg : Settings).

(** *** Device files *)

Definition createDeviceIfNeeded (device : string) (major minor : Z) : M (Node W) (option error) :=
  let make :=
    r ← Mknod fuel device devicePermission (Mkdev major minor);
    match r with
    | inr e => mret (internal ("mknod failed for " +:+ device +:+ ": error=" +:+ errno_text e))
    | inl _ => mret None
    end in
  r ← Stat fuel device;
  match r with
  | inl st =>
      if right_device st major minor then mret None
      else
        err ← on_world (os_Remove device);
        match err with
        | Some e => mret (internal ("failed to remove device file " +:+ device +:+ ": error=" +:+ errno_text e))
        | None => make
        end
  | inr ENOENT => make
  | inr e => mret (internal ("failed to stat " +:+ device +:+ ": error=" +:+ errno_text e))
  end.

(** The body the three block publishers share. *)
Definition publish_block (target : string) (major minor : Z) : M (Node W) (option error) :=
  let make :=
    err ← file_op (os_MkdirAll (Dir target) perm_dir);
    match err with
    | Some e => mret (because ("mkdir failed: target=" +:+ Dir target +:+ ", error=") e)
    | None =>
        r ← Mknod fuel target devicePermission (Mkdev major minor);
        match r with
        | inr e => mret (internal ("mknod failed for " +:+ target +:+ ": error=" +:+ errno_text e))
        | inl _ => mret None
        end
    end in
  r ← Stat fuel target;
  match r with
  | inl st =>
      if right_device st major minor then mret None
      else
        err ← on_world (os_Remove target);
        match err with
        | Some _ => mret (internal ("failed to remove " +:+ target))
        | None => make
        end
  | inr ENOENT => make
  | inr e => mret (internal ("failed to stat: " +:+ errno_text e))
  end.

(** The numbers of a partition, as udev knows them. *)
Definition partition_numbers (name : string) : M (Node W) (res (Z * Z)) :=
  r ← of_world (GetUdevInfo name);
  match r with
  | (_, Some e) => mret ((0, 0), because "failed to get partinfo " e)
  | (props, None) => mret ((udev_number props "MAJOR", udev_number props "MINOR"), None)
  end.

Definition nodePublishLvmBlockVolume (req : NodePublishVolumeRequest) (lv : LvInfo) : M (Node W) (option error) :=
  publish_block (np_TargetPath req) (lvi_LVKernelMajor lv) (lvi_LVKernelMinor lv).

Definition nodePublishRawBlockVolume (req : NodePublishVolumeRequest) (disk : DiskoDisk) (part : DiskoPartition)
  : M (Node W) (option error) :=
  r ← partition_numbers (GetPartitionKname (dd_Path disk) (p_Number part));
  match r with
  | (_, Some e) => mret (Some e)
  | ((major, minor), None) => publish_block (np_TargetPath req) major minor
  end.

Definition nodePublishBcacheBlockVolume (req : NodePublishVolumeRequest) (cacheDeviceInfo : Api.BcacheDeviceInfo)
  : M (Node W) (option error) :=
  publish_block (np_TargetPath req) (bc_KernelMajor cacheDeviceInfo) (bc_KernelMinor cacheDeviceInfo).

(** *** File systems *)

(** The end of the three file system publishers: unless the device is mounted
    at the target already, it is mounted there, formatted if it has no file
    system; [after] runs on a fresh mount. *)
Definition mount_at (volumeId device target fsType : string) (options : list string) (after : M (Node W) (option error))
  : M (Node W) (option error) :=
  r ← IsMounted fuel device target;
  match r with
  | (_, Some e) => mret (because ("mount check failed: target=" +:+ target +:+ ", error=") e)
  | (true, None) => mret None
  | (false, None) =>
      err ← on_world (FormatAndMount device target fsType options);
      match err with
      | Some e => mret (because ("mount failed: volume=" +:+ volumeId +:+ ", error=") e)
      | None =>
          err ← file_op (os_Chmod target perm_setgid);
          match err with
          | Some e => mret (because ("chmod 2777 failed: target=" +:+ target +:+ ", error=") e)
          | None => after
          end
      end
  end.

(** Making the target directory and looking for a file system on the device
    that is not the requested one. *)
Definition prepare_target (volumeId device target fsType : string) : M (Node W) (option error) :=
  err ← file_op (os_MkdirAll target perm_dir);
  match err with
  | Some e => mret (because ("mkdir failed: target=" +:+ target +:+ ", error=") e)
  | None =>
      r ← DetectFilesystem device;
      match r with
      | (_, Some e) => mret (because ("filesystem check failed: volume=" +:+ volumeId +:+ ", error=") e)
      | (found, None) =>
          if negb (String.eqb found "") && negb (String.eqb found fsType) then
            mret (internal ("target device is already formatted with different filesystem: volume=" +:+ volumeId +:+
                            ", current=" +:+ found +:+ ", new:" +:+ fsType))
          else mret None
      end
  end.

Definition nodePublishLvmFilesystemVolume (req : NodePublishVolumeRequest) (FsType : string) (flags : list string)
    (mode : option access_mode) (lv : LvInfo) : M (Node W) (option error) :=
  let fsType := default_fs FsType in
  let target := np_TargetPath req in
  match unsupported_mode mode with
  | Some e => mret (Some e)
  | None =>
      let device := Join2 DeviceDirectory (np_VolumeId req) in
      err ← createDeviceIfNeeded device (lvi_LVKernelMajor lv) (lvi_LVKernelMinor lv);
      match err with
      | Some e => mret (Some e)
      | None =>
          match mount_options (np_Readonly req) flags with
          | inr e => mret (Some e)
          | inl options =>
              err ← prepare_target (np_VolumeId req) device target fsType;
              match err with
              | Some e => mret (Some e)
              | None =>
                  let options := if String.eqb fsType "xfs" then options ++ ["nouuid"] else options in
                  mount_at (np_VolumeId req) device target fsType options (mret None)
              end
          end
      end
  end.

Definition nodePublishRawFilesystemVolume (req : NodePublishVolumeRequest) (FsType : string) (flags : list string)
    (mode : option access_mode) (disk : DiskoDisk) (part : DiskoPartition) : M (Node W) (option error) :=
  let fsType := default_fs FsType in
  let target := np_TargetPath req in
  match unsupported_mode mode with
  | Some e => mret (Some e)
  | None =>
      let device := GetPartitionKname (dd_Path disk) (p_Number part) in
      r ← partition_numbers device;
      match r with
      | (_, Some e) => mret (Some e)
      | ((major, minor), None) =>
          err ← createDeviceIfNeeded device major minor;
          match err with
          | Some e => mret (Some e)
          | None =>
              match mount_options (np_Readonly req) flags with
              | inr e => mret (Some e)
              | inl options =>
                  err ← prepare_target (np_VolumeId req) device target fsType;
                  match err with
                  | Some e => mret (Some e)
                  | None => mount_at (np_VolumeId req) device target fsType options (mret None)
                  end
              end
          end
      end
  end.

Definition nodePublishBcacheFilesystemVolume (req : NodePublishVolumeRequest) (FsType : string) (flags : list string)
    (mode : option access_mode) (cacheDeviceInfo : Api.BcacheDeviceInfo) : M (Node W) (option error) :=
  let fsType := default_fs FsType in
  let target := np_TargetPath req in
  let device := bc_BcachePath cacheDeviceInfo in
  match unsupported_mode mode with
  | Some e => mret (Some e)
  | None =>
      match mount_options (np_Readonly req) flags with
      | inr e => mret (Some e)
      | inl options =>
          err ← prepare_target (np_VolumeId req) device target fsType;
          match err with
          | Some e => mret (Some e)
          | None =>
              mount_at (np_VolumeId req) device target fsType options (
                r ← Resize device target;
                match r with
                | (_, Some e) => mret (because ("failed to resize filesystem " +:+ device +:+ " (mounted at: " +:+ target +:+ "): ") e)
                | (_, None) => mret None
                end)
          end
      end
  end.

(** *** Host paths *)

Definition host_device (deviceGroup volumeId : string) : string + error :=
  match host_dir deviceGroup (DiskSelector cfg) with
  | inr e => inr e
  | inl workDir => inl (Join2 workDir volumeId)
  end.

Definition nodePublishHostFilesystemVolume (req : NodePublishVolumeRequest) (mode : option access_mode) (deviceGroup : string)
  : M (Node W) (option error) :=
  let target := np_TargetPath req in
  match unsupported_mode mode with
  | Some e => mret (Some e)
  | None =>
      match host_device deviceGroup (np_VolumeId req) with
      | inr e => mret (Some e)
      | inl device =>
          b ← DirExists device;
          err ← (if (b : bool) then mret None
                 else
                   err ← file_op (os_MkdirAll device perm_all);
                   match err with
                   | Some e => mret (because ("mkdir failed: target=" +:+ device +:+ ", error=") e)
                   | None =>
                       err ← file_op (os_Chmod device perm_all);
                       match err with
                       | Some e => mret (because ("chmod failed: target=" +:+ device +:+ ", error=") e)
                       | None => mret None
                       end
                   end);
          match err with
          | Some e => mret (Some e)
          | None =>
              err ← file_op (os_MkdirAll target perm_all);
              match err with
              | Some e => mret (because ("mkdir failed: target=" +:+ target +:+ ", error=") e)
              | None =>
                  err ← file_op (os_Chmod target perm_all);
                  match err with
                  | Some e => mret (because ("chmod failed: target=" +:+ target +:+ ", error=") e)
                  | None =>
                      r ← CheckBindMountByInode device target;
                      match r with
                      | (_, Some e) => mret (because ("mount check failed: target=" +:+ target +:+ ", error=") e)
                      | (true, None) => mret None
                      | (false, None) =>
                          err ← BindMount device target;
                          match err with
                          | Some e => mret (because ("mount failed: volume=" +:+ np_VolumeId req +:+ ", error=") e)
                          | None => mret None
                          end
                      end
                  end
              end
          end
      end
  end.

Definition nodeUnpublishHostVolume (req : NodeUnpublishVolumeRequest) (deviceGroup : string) : M (Node W) (option error) :=
  let target := nu_TargetPath req in
  match host_device deviceGroup (nu_VolumeId req) with
  | inr e => mret (Some e)
  | inl device =>
      r ← CheckBindMountByInode device target;
      match r with
      | (_, Some e) => mret (because ("mount check failed: target=" +:+ target +:+ ", error=") e)
      | (mounted, None) =>
          err ← (if (mounted : bool) then UnbindMount target else mret None);
          match err with
          | Some e => mret (because ("unmount failed for " +:+ target +:+ ": error=") e)
          | None =>
              b ← DirExists target;
              if (b : bool) then
                err ← file_op (os_RemoveAll target);
                match err with
                | Some e => mret (because ("remove dir failed for " +:+ target +:+ ": error=") e)
                | None => mret None
                end
              else mret None
          end
      end
  end.

(** *** Looking volumes up *)

Definition getLvFromContext (deviceGroup volumeID : string) : M (Node W) (res (option LvInfo)) :=
  r ← LocalVolumeImplement.VolumeList volumeID deviceGroup;
  match r with
  | (_, Some e) => mret (None, because "failed to list lv :" e)
  | (lvs, None) =>
      match List.find (λ v, String.eqb (lvi_LVName v) volumeID) lvs with
      | Some v => mret (Some v, None)
      | None => mret (None, Some (ErrString "not found"))
      end
  end.

Definition getPartitionFromContext (deviceGroup volumeID : string) : M (Node W) (res DiskoPartition) :=
  LocalPartitionImplement.GetPartition (PartitionName volumeID) deviceGroup.

(** The groups a cached volume may be in. *)
Definition cache_groups : list string :=
  (λ v, ToLower (ds_Name v)) <$> List.filter (λ v, negb (String.eqb (ToLower (ds_Policy v)) "raw")) (DiskSelector cfg).

Definition getBcacheDevice (volumeID : string) : M (Node W) (res (option Api.BcacheDeviceInfo)) :=
  r ← range cache_groups () (λ d _,
    let devicePath := Join2 ("/dev/" +:+ d) volumeID in
    r ← of_world (os_Stat devicePath);
    match r with
    | inl _ => info ← LocalVolumeImplement.BcacheDeviceInfo devicePath; mret (Return info)
    | inr _ => mret (Next ())
    end);
  match r with
  | inl _ => mret (None, Some (ErrString "not found"))
  | inr (_, Some e) => mret (None, Some e)
  | inr (info, None) => mret (info, None)
  end.

Definition nodePublishBcacheVolume (req : NodePublishVolumeRequest) (acc : access) (mode : option access_mode)
  : M (Node W) (option error) :=
  let ctx := np_VolumeContext req in
  let backendDevice := mget ctx VolumeDevicePath in
  let cacheDevice := mget ctx VolumeCacheDevicePath in
  if String.eqb backendDevice "" || String.eqb cacheDevice "" then
    mret (Some (ErrStatus FailedPrecondition
      ("carina.storage.io/path " +:+ backendDevice +:+ " carina.storage.io/cache/path " +:+ cacheDevice +:+ ", can not be empty")))
  else
    r ← LocalVolumeImplement.CreateBcache backendDevice cacheDevice (mget ctx VolumeCacheBlock) (mget ctx VolumeCacheBucket)
          (mget ctx VolumeCachePolicy);
    match r with
    | (_, Some e) => mret (Some e)
    | (None, None) => panic nil_deref
    | (Some info, None) =>
        match acc with
        | Block => nodePublishBcacheBlockVolume req info
        | Mount FsType flags => nodePublishBcacheFilesystemVolume req FsType flags mode info
        | NoAccess => mret None
        end
    end.

(** *** Taking volumes away *)

(** Unmounting the target and removing it. *)
Definition clear_target (device target : string) (k : M (Node W) (option error)) : M (Node W) (option error) :=
  r ← IsMounted fuel device target;
  match r with
  | (_, Some e) => mret (because ("mount check failed: target=" +:+ target +:+ ", error=") e)
  | (mounted, None) =>
      err ← (if (mounted : bool) then on_world (Unmount target) else mret None);
      match err with
      | Some e => mret (because ("unmount failed for " +:+ target +:+ ": error=") e)
      | None =>
          err ← file_op (os_RemoveAll target);
          match err with
          | Some e => mret (because ("remove dir failed for " +:+ target +:+ ": error=") e)
          | None => k
          end
      end
  end.

Definition nodeUnpublishFilesystemVolume (req : NodeUnpublishVolumeRequest) (device deviceType : string)
  : M (Node W) (option error) :=
  clear_target device (nu_TargetPath req) (
    if String.eqb deviceType RawVolumeType then mret None
    else
      err ← on_world (os_Remove device);
      match err with
      | Some ENOENT => mret None
      | Some e => mret (internal ("remove device failed for " +:+ device +:+ ": error=" +:+ errno_text e))
      | None => mret None
      end).

Definition nodeUnpublishBlockVolume (req : NodeUnpublishVolumeRequest) (device : string) : M (Node W) (option error) :=
  err ← on_world (os_Remove (nu_TargetPath req));
  match err with
  | Some e => mret (internal ("remove failed for " +:+ nu_TargetPath req +:+ ": error=" +:+ errno_text e))
  | None => mret None
  end.

Definition delete_bcache (device backendDevice : string) : M (Node W) (option error) :=
  err ← LocalVolumeImplement.DeleteBcache backendDevice "";
  match err with
  | Some e => mret (because ("remove device failed for " +:+ device +:+ ": error=") e)
  | None => mret None
  end.

Definition nodeUnpublishBFileSystemCacheVolume (req : NodeUnpublishVolumeRequest) (device backendDevice : string)
  : M (Node W) (option error) :=
  clear_target device (nu_TargetPath req) (delete_bcache device backendDevice).

Definition nodeUnpublishBlockCacheVolume (req : NodeUnpublishVolumeRequest) (device backendDevice : string)
  : M (Node W) (option error) :=
  err ← on_world (os_Remove (nu_TargetPath req));
  match err with
  | Some e => mret (internal ("remove failed for " +:+ nu_TargetPath req +:+ ": error=" +:+ errno_text e))
  | None => delete_bcache device backendDevice
  end.

(** From the device of the volume to the end of [NodeUnpublishVolume]: the
    cache device replaces it if there is one. *)
Definition unpublish_device (req : NodeUnpublishVolumeRequest) (device deviceType : string) : M (Node W) (option error) :=
  let target := nu_TargetPath req in
  r ← getBcacheDevice (nu_VolumeId req);
  let '(device, backendDevice) :=
    match r with
    | (Some b, None) => (bc_BcachePath b, bc_DevicePath b)
    | _ => (device, "")
    end in
  info ← of_world (os_stat target);
  match info with
  | StatNotExist =>
      (if negb (String.eqb backendDevice "") then _ ← LocalVolumeImplement.DeleteBcache backendDevice ""; mret () else mret ()) ;;
      (if negb (String.eqb deviceType RawVolumeType) then _ ← on_world (os_Remove device); mret () else mret ()) ;;
      mret None
  | StatError => mret (internal ("stat failed for " +:+ target))
  | StatDir =>
      if negb (String.eqb backendDevice "") then nodeUnpublishBFileSystemCacheVolume req device backendDevice
      else nodeUnpublishFilesystemVolume req device deviceType
  | _ =>
      if negb (String.eqb backendDevice "") then nodeUnpublishBlockCacheVolume req device backendDevice
      else nodeUnpublishBlockVolume req device
  end.

(** The device of a raw volume. *)
Definition raw_device (deviceGroup volumeID : string) : M (Node W) (res string) :=
  r ← getPartitionFromContext deviceGroup volumeID;
  match r with
  | (_, Some e) => mret ("", Some e)
  | (partition, None) =>
      r ← LocalPartitionImplement.ScanDisk deviceGroup;
      match r with
      | (_, Some e) => mret ("", Some e)
      | (disk, None) => mret (GetPartitionKname (dd_Path disk) (p_Number partition), None)
      end
  end.

Definition no_support : error := ErrStatus InvalidArgument "Create with no support type ".
End node.

(** ** The requests *)

Section rpc.
Context {W K : Type} `{OS W, Files W, FileSys W, DiskoMethods, Disko W, Udev W, UnixDev, GoRuntime} `{KubeClient K}.
Context (fuel : nat) (cfg : Settings) (NodeName : string).

Abbreviation Svc := (NodeSvc W K).

(** [GetLogicVolumeByVolumeId] through the service's client. *)
Definition find_lv (volumeID : string) : M Svc (res (option LogicVolume)) :=
  on_kube (LogicVolumeService.GetLogicVolumeByVolumeId volumeID).

Definition volume_type (lvr : LogicVolume) : string := mget (lv_Annotations lvr) VolumeManagerType.

(** Under the lock of the volume. *)
Definition publish_locked (req : NodePublishVolumeRequest) (acc : access) (mode : option access_mode) : M Svc (option error) :=
  let volumeID := np_VolumeId req in
  if negb (String.eqb (mget (np_VolumeContext req) VolumeCacheId) "") then
    on_node (nodePublishBcacheVolume fuel req acc mode)
  else
    r ← find_lv volumeID;
    match r with
    | (_, Some e) => mret (Some e)
    | (None, None) => panic nil_deref
    | (Some lvr, None) =>
        let group := ls_DeviceGroup (lv_Spec lvr) in
        if String.eqb (volume_type lvr) LvmVolumeType then
          r ← on_node (getLvFromContext group volumeID);
          match r with
          | (_, Some e) => mret (Some e)
          | (None, None) => mret (Some (ErrStatus NotFound ("failed to find LV: " +:+ volumeID)))
          | (Some lv, None) =>
              on_node (match acc with
                       | Block => nodePublishLvmBlockVolume fuel req lv
                       | Mount FsType flags => nodePublishLvmFilesystemVolume fuel req FsType flags mode lv
                       | NoAccess => mret None
                       end)
          end
        else if String.eqb (volume_type lvr) RawVolumeType then
          r ← on_node (getPartitionFromContext group volumeID);
          match r with
          | (_, Some e) => mret (Some e)
          | (partition, None) =>
              r ← on_node (LocalPartitionImplement.ScanDisk group);
              match r with
              | (_, Some e) => mret (Some e)
              | (disk, None) =>
                  if String.eqb (p_Name partition) "" then
                    mret (Some (ErrStatus NotFound ("failed to find partition: " +:+ PartitionName volumeID)))
                  else
                    on_node (match acc with
                             | Block => nodePublishRawBlockVolume fuel req disk partition
                             | Mount FsType flags => nodePublishRawFilesystemVolume fuel req FsType flags mode disk partition
                             | NoAccess => mret None
                             end)
              end
          end
        else if String.eqb (volume_type lvr) HostVolumeType then
          on_node (nodePublishHostFilesystemVolume cfg req mode group)
        else mret (Some no_support)
    end.

Definition busy (what volumeID : string) : option error :=
  Some (ErrStatus Aborted ("an " +:+ what +:+ " operation with the given volume " +:+ volumeID +:+ " already exists")).

Definition invalid (msg : string) : option error := Some (ErrStatus InvalidArgument msg).

Definition NodePublishVolume (req : NodePublishVolumeRequest) : M Svc (option error) :=
  if String.eqb (np_VolumeId req) "" then mret (invalid "no volume_id is provided")
  else if String.eqb (np_TargetPath req) "" then mret (invalid "no target_path is provided")
  else
    match np_Capability req with
    | None => mret (invalid "no volume_capability is provided")
    | Some (NoAccess, _) => mret (invalid "no supported volume capability")
    | Some (acc, mode) =>
        with_lock (np_VolumeId req) (busy "publish" (np_VolumeId req)) (publish_locked req acc mode)
    end.

Definition unpublish_locked (req : NodeUnpublishVolumeRequest) : M Svc (option error) :=
  let volID := nu_VolumeId req in
  r ← find_lv volID;
  match r with
  | (_, Some e) => mret (Some e)
  | (None, None) => panic nil_deref
  | (Some lvr, None) =>
      let group := ls_DeviceGroup (lv_Spec lvr) in
      if String.eqb (volume_type lvr) LvmVolumeType then
        on_node (unpublish_device fuel cfg req (Join2 DeviceDirectory volID) LvmVolumeType)
      else if String.eqb (volume_type lvr) RawVolumeType then
        r ← on_node (raw_device group volID);
        match r with
        | (_, Some e) => mret (Some e)
        | (device, None) => on_node (unpublish_device fuel cfg req device RawVolumeType)
        end
      else if String.eqb (volume_type lvr) HostVolumeType then on_node (nodeUnpublishHostVolume cfg req group)
      else mret (Some no_support)
  end.

Definition NodeUnpublishVolume (req : NodeUnpublishVolumeRequest) : M Svc (option error) :=
  if String.eqb (nu_VolumeId req) "" then mret (invalid "no volume_id is provided")
  else if String.eqb (nu_TargetPath req) "" then mret (invalid "no target_path is provided")
  else with_lock (nu_VolumeId req) (busy "unpublish" (nu_VolumeId req)) (unpublish_locked req).

(** *** Statistics *)

Definition bytes_usage (sfs : Statfs_t) : VolumeUsage :=
  mkUsage BYTES (i64 (i64 (sf_Blocks sfs) * sf_Frsize sfs))
    (i64 (i64 (u64_sub (sf_Blocks sfs) (sf_Bfree sfs)) * sf_Frsize sfs))
    (i64 (i64 (sf_Bavail sfs) * sf_Frsize sfs)).

Definition inodes_usage (sfs : Statfs_t) : VolumeUsage :=
  mkUsage INODES (i64 (sf_Files sfs)) (i64 (u64_sub (sf_Files sfs) (sf_Ffree sfs))) (i64 (sf_Ffree sfs)).

Definition NodeGetVolumeStats (volID p : string) : M Svc (res (list VolumeUsage)) :=
  if String.eqb volID "" then mret ([], invalid "no volume_id is provided")
  else if String.eqb p "" then mret ([], invalid "no volume_path is provided")
  else
    r ← on_node (Stat fuel p);
    match r with
    | inr ENOENT => mret ([], Some (ErrStatus NotFound ("Volume is not found at " +:+ p)))
    | inr e => mret ([], internal ("stat on " +:+ p +:+ " was failed: " +:+ errno_text e))
    | inl st =>
        if Z.land (st_Mode st) S_IFMT =? S_IFBLK then
          err ← on_node (of_world (os_Open p));
          match err with
          | Some e => mret ([], because ("open on " +:+ p +:+ " was failed: ") e)
          | None =>
              r ← on_node (of_world (os_SeekEnd p));
              match r with
              | (_, Some e) => mret ([], because ("seek on " +:+ p +:+ " was failed: ") e)
              | (pos, None) => mret ([mkUsage BYTES pos 0 0], None)
              end
          end
        else if Z.land (st_Mode st) S_IFDIR =? 0 then
          mret ([], internal ("invalid mode bits for " +:+ p +:+ ": " +:+ FormatUint (st_Mode st)))
        else
          r ← on_node (Statfs fuel p);
          match r with
          | inr e => mret ([], internal ("statvfs on " +:+ p +:+ " was failed: " +:+ errno_text e))
          | inl sfs =>
              mret ((if 0 <? sf_Blocks sfs then [bytes_usage sfs] else []) ++
                    (if 0 <? sf_Files sfs then [inodes_usage sfs] else []), None)
          end
    end.

(** *** Expanding *)

(** The device to resize; [None] for a host path, where there is nothing to do. *)
Definition expand_device (lvr : LogicVolume) (vid : string) : M Svc (res (option string)) :=
  let group := ls_DeviceGroup (lv_Spec lvr) in
  if String.eqb (volume_type lvr) LvmVolumeType then
    r ← on_node (getLvFromContext group vid);
    match r with
    | (_, Some e) => mret (None, Some e)
    | (None, None) => mret (None, Some (ErrStatus NotFound ("failed to find LV: " +:+ vid)))
    | (Some lv, None) =>
        let device := Join2 DeviceDirectory vid in
        err ← on_node (createDeviceIfNeeded fuel device (lvi_LVKernelMajor lv) (lvi_LVKernelMinor lv));
        mret (Some device, err)
    end
  else if String.eqb (volume_type lvr) RawVolumeType then
    r ← on_node (getPartitionFromContext group vid);
    match r with
    | (_, Some e) => mret (None, Some e)
    | (partition, None) =>
        if String.eqb (p_Name partition) "" then
          mret (None, Some (ErrStatus NotFound ("failed to find partition: " +:+ vid)))
        else
          r ← on_node (LocalPartitionImplement.ScanDisk group);
          match r with
          | (_, Some e) => mret (None, Some e)
          | (disk, None) => mret (Some (GetPartitionKname (dd_Path disk) (p_Number partition)), None)
          end
    end
  else if String.eqb (volume_type lvr) HostVolumeType then mret (None, None)
  else mret (None, Some no_support).

(** The mounted file system behind [vpath] grows to the size of its device. *)
Definition expand_mounted (vid vpath device : string) : M Svc (option error) :=
  r ← on_node (spawn findmntCmd ["-o"; "source"; "--noheadings"; "--target"; vpath]);
  match proc_error (pr_end r) with
  | Some e => mret (because "findmnt error occured: " e)
  | None =>
      if String.eqb (TrimSpace (pr_stdout r)) "" then
        mret (internal ("filesystem " +:+ vid +:+ " is not mounted at " +:+ vpath))
      else
        with_lock vid (busy "expand" vid) (
          r ← on_node (Resize device vpath);
          match r with
          | (_, Some e) => mret (because ("failed to resize filesystem " +:+ vid +:+ " (mounted at: " +:+ vpath +:+ "): ") e)
          | (_, None) => mret None
          end)
  end.

Definition NodeExpandVolume (req : NodeExpandVolumeRequest) : M Svc (option error) :=
  let vid := ne_VolumeId req in
  let vpath := ne_VolumePath req in
  if String.eqb vid "" then mret (invalid "no volume_id is provided")
  else if String.eqb vpath "" then mret (invalid "no volume_path is provided")
  else
    match convertRequestCapacity (ne_RequiredBytes req) (ne_LimitBytes req) with
    | (_, Some e) => mret (invalid (Error e))
    | (_, None) =>
        info ← on_node (of_world (os_stat vpath));
        match info with
        | StatNotExist => mret (Some (ErrStatus NotFound ("volume path is not exist: " +:+ vpath)))
        | StatError => mret (internal ("stat failed for " +:+ vpath))
        | StatDir =>
            r ← find_lv vid;
            match r with
            | (_, Some e) => mret (Some e)
            | (None, None) => panic nil_deref
            | (Some lvr, None) =>
                r ← expand_device lvr vid;
                match r with
                | (_, Some e) => mret (Some e)
                | (None, None) => mret None
                | (Some device, None) => expand_mounted vid vpath device
                end
            end
        | _ => mret None
        end
    end.

(** *** What the service can do *)

Inductive node_capability := GET_VOLUME_STATS | EXPAND_VOLUME.

Definition NodeGetCapabilities : M Svc (list node_capability) := mret [GET_VOLUME_STATS; EXPAND_VOLUME].

(** The id, the number of volumes and the topology of the node. *)
Definition NodeGetInfo : M Svc (string * Z * gmap string string) :=
  mret (NodeName, 1000, {[TopologyNodeKey := NodeName]}).
End rpc.
End nodeService.
