(* ===== verification/PodIO.v ===== *)
(** * [utils/iolimit] and [controllers/pod_io_controller.go]: limits of pod i/o

    The annotations of a pod limit the i/o of its volumes; the node writes the
    limits to the control group of the pod. *)

From S2P Require Import Prelude GoStrings Api GoRuntime Mutx Exec Utils Config HostPath LvmParse Bcache Partition.

#[local] Open Scope string_scope.
#[local] Open Scope list_scope.
#[local] Open Scope Z_scope.

(** ** [model.go] *)

Definition BlkIOThrottleReadBPS := "blkio.throttle.read_bps_device".
Definition BlkIOThrottleReadIOPS := "blkio.throttle.read_iops_device".
Definition BlkIOThrottleWriteBPS := "blkio.throttle.write_bps_device".
Definition BlkIOThrottleWriteIOPS := "blkio.throttle.write_iops_device".
Definition Cgroupv2BlkIOThrottle := "io.max".

Record IOLimit := mkIOLimit {
  Rbps : Z;
  Riops : Z;
  Wbps : Z;
  Wiops : Z
}.

#[export] Instance IOLimit_eq_dec : EqDecision IOLimit.
Proof. solve_decision. Defined.

(** [Equal] of two limits that are there. *)
Definition Equal (bd1 bd2 : IOLimit) : bool :=
  (Riops bd1 =? Riops bd2) && (Rbps bd1 =? Rbps bd2) && (Wiops bd1 =? Wiops bd2) && (Wbps bd1 =? Wbps bd2).

Definition GetSupportedIOThrottles : list string :=
  [BlkIOThrottleReadBPS; BlkIOThrottleReadIOPS; BlkIOThrottleWriteBPS; BlkIOThrottleWriteIOPS].

(** [v1.PodQOSClass]. *)
Inductive qos_class := Guaranteed | Burstable | BestEffort | OtherQos.

(** The limits by device number. *)
Abbreviation DeviceIOSet := (gmap string IOLimit).

Record PodBlkIO := mkPodBlkIO {
  PodUid : string;
  PodQos : qos_class;
  pb_DeviceIOSet : DeviceIOSet
}.

(** ** The system *)

(** Writing a file, whether the second version of control groups is in use,
    and [systemd.ExpandSlice]. *)
Class CgroupSys (W : Type) := {
  os_WriteFile : string → string → W → option error * W;
  IsCgroup2UnifiedMode : W → bool;
  ExpandSlice : string → res string
}.

(** [path.Join]. *)
Definition JoinAll (l : list string) : string :=
  match List.filter (λ x, negb (String.eqb x "")) l with
  | [] => ""
  | l => Clean (Join l "/")
  end.

(** ** [iolimit.go] *)

Definition RootCgroup := "/sys/fs/cgroup".

Inductive CgroupDrivertype := CgroupfsDriver | SystemdDriver.

Definition NewCgroupName (base components : list string) : outcome (list string) :=
  if existsb (λ c, Contains c "/" || Contains c "_") components then Panic "invalid character in component of CgroupName"
  else Done (base ++ components).

Definition escapeSystemdCgroupName (part : string) : string := ReplaceAll part "-" "_".

Definition toSystemd {W} `{CgroupSys W} (cgroupName : list string) : outcome string :=
  match cgroupName with
  | [] => Done "/"
  | [""] => Done "/"
  | _ =>
      match ExpandSlice (Join (escapeSystemdCgroupName <$> cgroupName) "-" +:+ ".slice") with
      | (_, Some e) => Panic ("error converting cgroup name to systemd format: " +:+ Error e)
      | (result, None) => Done result
      end
  end.

Definition toCgroupfs (cgroupName : list string) : string := "/" +:+ JoinAll cgroupName.

Definition generatePodCgroupName (qos : qos_class) (podUid : string) : outcome (list string) :=
  match qos with
  | Guaranteed => NewCgroupName ["kubepods"] ["pod" +:+ podUid]
  | Burstable => NewCgroupName ["kubepods"] ["burstable"; "pod" +:+ podUid]
  | BestEffort => NewCgroupName ["kubepods"] ["besteffort"; "pod" +:+ podUid]
  | OtherQos => NewCgroupName ["kubepods"] [""; "pod" +:+ podUid]
  end.

Definition getCG1IOLimitPaths (blkPath : string) : gmap string string :=
  list_to_map ((λ t, (t, JoinAll [blkPath; t])) <$> GetSupportedIOThrottles).

(** One value of [io.max]; zero is no limit. *)
Definition io_value (key : string) (v : Z) : string :=
  " " +:+ key +:+ "=" +:+ (if v =? 0 then "max" else FormatUint v).

Definition getCG2IOLimitStr (deviceNo : string) (iolt : IOLimit) : string :=
  deviceNo +:+ io_value "rbps" (Rbps iolt) +:+ io_value "riops" (Riops iolt) +:+ io_value "wbps" (Wbps iolt) +:+
  io_value "wiops" (Wiops iolt).

(** The value of a throttle; [None] for one that is not supported. *)
Definition throttle_value (throttle : string) (iolt : IOLimit) : option Z :=
  if String.eqb throttle BlkIOThrottleReadBPS then Some (Rbps iolt)
  else if String.eqb throttle BlkIOThrottleReadIOPS then Some (Riops iolt)
  else if String.eqb throttle BlkIOThrottleWriteBPS then Some (Wbps iolt)
  else if String.eqb throttle BlkIOThrottleWriteIOPS then Some (Wiops iolt)
  else None.

(** The line of the first version of control groups. *)
Definition cg1_line (deviceNo : string) (v : Z) : string :=
  deviceNo +:+ " " +:+ (if v =? 0 then "0" else FormatUint v).

Section iolimit.
Context {W : Type} `{OS W, CgroupSys W, GoRuntime}.

Definition write_file (path data : string) : M (Node W) (option error) := λ n,
  let '(e, w) := os_WriteFile path data (nd_world n) in
  (Done e, mkNode (nd_locks n) (nd_parts n) w (nd_trace n)).

Definition unified : M (Node W) bool := λ n, (Done (IsCgroup2UnifiedMode (nd_world n)), n).

Definition getCgroupDriverType : M (Node W) CgroupDrivertype :=
  b ← DirExists (RootCgroup +:+ "/kubepods.slice");
  if (b : bool) then mret SystemdDriver
  else
    b ← DirExists (RootCgroup +:+ "/systemd/kubepods.slice");
    mret (if (b : bool) then SystemdDriver else CgroupfsDriver).

Definition getPodBlkIOCgroupPath (blkIO : PodBlkIO) : M (Node W) string :=
  cgroupName ← lift_outcome (generatePodCgroupName (PodQos blkIO) (PodUid blkIO));
  driver ← getCgroupDriverType;
  cgroupPath ← match driver with
               | CgroupfsDriver => mret (toCgroupfs cgroupName)
               | SystemdDriver => lift_outcome (toSystemd cgroupName)
               end;
  v2 ← unified;
  mret (if (v2 : bool) then JoinAll [RootCgroup; cgroupPath] else JoinAll [RootCgroup; "blkio"; cgroupPath]).

Definition not_there (uid path : string) : error :=
  ErrString ("the pod(uid " +:+ uid +:+ ")'s cgroup blkio path(" +:+ path +:+ ") is not exist").

Definition write_failed (line path : string) : error :=
  ErrString ("failed to write ioStr(" +:+ line +:+ ") to path(" +:+ path +:+ ")").

(** A write in a loop that ends at the first failure. *)
Definition write_line (path line : string) : M (Node W) (ctl unit error) :=
  err ← write_file path line;
  match err with
  | Some _ => mret (Return (write_failed line path))
  | None => mret (Next ())
  end.

(** The four files of the first version, for one device. *)
Definition write_cg1 (paths : gmap string string) (deviceNo : string) (iolt : IOLimit) : M (Node W) (ctl unit error) :=
  r ← range GetSupportedIOThrottles () (λ throttle _,
    match throttle_value throttle iolt with
    | None => mret (Return (ErrString ("unsupported throttle type " +:+ throttle)))
    | Some v => write_line (mget paths throttle) (cg1_line deviceNo v)
    end);
  match r with
  | inl _ => mret (Next ())
  | inr e => mret (Return e)
  end.

Definition loop_error {A} (r : A + error) : option error := match r with inl _ => None | inr e => Some e end.

Definition SetIOLimit (blkIO : PodBlkIO) : M (Node W) (option error) :=
  blkPath ← getPodBlkIOCgroupPath blkIO;
  there ← DirExists blkPath;
  if negb there then mret (Some (not_there (PodUid blkIO) blkPath))
  else
    v2 ← unified;
    if (v2 : bool) then
      let ioMaxPath := JoinAll [blkPath; Cgroupv2BlkIOThrottle] in
      there ← FileExists ioMaxPath;
      if negb there then mret (Some (not_there (PodUid blkIO) ioMaxPath))
      else
        r ← range (map_range 70 (pb_DeviceIOSet blkIO)) () (λ dl _, write_line ioMaxPath (getCG2IOLimitStr dl.1 dl.2));
        mret (loop_error r)
    else
      let ioLimitPath := getCG1IOLimitPaths blkPath in
      r ← range (map_range 71 ioLimitPath) () (λ tp _,
        there ← FileExists tp.2;
        if negb there then mret (Return (not_there (PodUid blkIO) tp.2)) else mret (Next ()));
      match r with
      | inr e => mret (Some e)
      | inl _ =>
          r ← range (map_range 72 (pb_DeviceIOSet blkIO)) () (λ dl _, write_cg1 ioLimitPath dl.1 dl.2);
          mret (loop_error r)
      end.
End iolimit.

(** ** [pod_io_controller.go] *)

(** What the controller reads of a pod and of a [PersistentVolume]. *)
Record IoPod := mkIoPod {
  ip_Namespace : string;
  ip_Name : string;
  ip_UID : string;
  ip_NodeName : string;
  ip_Phase : string;
  ip_Annotations : gmap string string;
  ip_Volumes : list (option string);
  ip_Deleting : bool;
  ip_ResourceVersion : string
}.

Record IoPv := mkIoPv {
  iv_Driver : option string;
  iv_Phase : string;
  iv_ClaimRef : option (string * string);
  iv_Attributes : gmap string string
}.

(** Reading a pod and the volumes, and [qos.GetPodQOS]. *)
Class PodClient (K : Type) := {
  get_pod : string → string → M K (res IoPod);
  list_pvs : M K (res (list IoPv));
  GetPodQOS : IoPod → qos_class
}.

Module PodIOReconciler.

Definition KubernetesCustomized := "carina.storage.io".

(** The field index [pvIndex]. *)
Definition pv_index (pv : IoPv) : list string :=
  match iv_Driver pv with
  | None => []
  | Some driver =>
      if negb (String.eqb driver CSIPluginName) then []
      else if negb (String.eqb (iv_Phase pv) "Bound") then []
      else match iv_ClaimRef pv with
           | None => []
           | Some (namespace, name) => [namespace +:+ "-" +:+ name]
           end
  end.

(** The value of a throttle; [ParseUint] gives the largest value when the
    annotation is out of range. *)
Definition annotation_limit (pod : IoPod) (throttle : string) : Z :=
  match ip_Annotations pod !! (KubernetesCustomized +:+ "/" +:+ throttle) with
  | Some newValue => (ParseUint newValue 64).1
  | None => 0
  end.

Definition getPodIOLimit (pod : IoPod) : IOLimit :=
  foldl (λ iolt throttle,
    let v := annotation_limit pod throttle in
    if String.eqb throttle BlkIOThrottleReadBPS then mkIOLimit v (Riops iolt) (Wbps iolt) (Wiops iolt)
    else if String.eqb throttle BlkIOThrottleReadIOPS then mkIOLimit (Rbps iolt) v (Wbps iolt) (Wiops iolt)
    else if String.eqb throttle BlkIOThrottleWriteBPS then mkIOLimit (Rbps iolt) (Riops iolt) v (Wiops iolt)
    else if String.eqb throttle BlkIOThrottleWriteIOPS then mkIOLimit (Rbps iolt) (Riops iolt) (Wbps iolt) v
    else iolt) (mkIOLimit 0 0 0 0) GetSupportedIOThrottles.

(** The reconciler: the limits it has applied, the node and the client. *)
Record state (W K : Type) := mkPodIO {
  ioCache : gmap string IOLimit;
  io_node : Node W;
  io_kube : K
}.
Arguments mkPodIO {W K}.
Arguments ioCache {W K}.
Arguments io_node {W K}.
Arguments io_kube {W K}.

Section impl.
Context {W K : Type} `{OS W, DiskoMethods, Disko W, CgroupSys W, GoRuntime, PodClient K}.

Abbreviation St := (state W K).

Definition on_node {A} (m : M (Node W) A) : M St A := λ s,
  let '(o, n) := m (io_node s) in (o, mkPodIO (ioCache s) n (io_kube s)).
Definition on_kube {A} (m : M K A) : M St A := λ s,
  let '(o, k) := m (io_kube s) in (o, mkPodIO (ioCache s) (io_node s) k).
Definition on_cache (f : gmap string IOLimit → gmap string IOLimit) : M St unit := λ s,
  (Done (), mkPodIO (f (ioCache s)) (io_node s) (io_kube s)).

(** One volume of the pod: its device, if it is a Carina volume of the node. *)
Definition volume_device (pod : IoPod) (volume : option string) (set : DeviceIOSet) : M St DeviceIOSet :=
  match volume with
  | None => mret set
  | Some claim =>
      r ← on_kube list_pvs;
      match r with
      | (_, Some _) => mret set
      | (pvs, None) =>
          match List.filter (λ pv, ContainsString (pv_index pv) (ip_Namespace pod +:+ "-" +:+ claim)) pvs with
          | [pvInfo] =>
              let deviceMajor := mget (iv_Attributes pvInfo) VolumeDeviceMajor in
              let deviceMinor := mget (iv_Attributes pvInfo) VolumeDeviceMinor in
              if String.eqb deviceMajor "" || String.eqb deviceMinor "" then mret set
              else
                let deviceNo := deviceMajor +:+ ":" +:+ deviceMinor in
                r ← on_node (LocalPartitionImplement.GetDevice deviceNo);
                match r with
                | (Some _, None) => mret (<[deviceNo := getPodIOLimit pod]> set)
                | _ => mret set
                end
          | _ => mret set
          end
      end
  end.

Definition getPodBlkIO (pod : IoPod) : M St PodBlkIO :=
  set ← for_acc (ip_Volumes pod) ∅ (volume_device pod);
  mret (mkPodBlkIO (ip_UID pod) (GetPodQOS pod) set).

Definition handleSinglePodCGroupConfig (pod : IoPod) : M St (option error) :=
  let newPodIOLimit := getPodIOLimit pod in
  s ← get_state;
  match ioCache s !! ip_UID pod with
  | Some oldPodIOLimit =>
      if Equal newPodIOLimit oldPodIOLimit then mret None
      else
        blkIO ← getPodBlkIO pod;
        err ← on_node (SetIOLimit blkIO);
        match err with
        | Some e => mret (Some e)
        | None => on_cache (<[ip_UID pod := newPodIOLimit]>) ;; mret None
        end
  | None =>
      blkIO ← getPodBlkIO pod;
      err ← on_node (SetIOLimit blkIO);
      match err with
      | Some e => mret (Some e)
      | None => on_cache (<[ip_UID pod := newPodIOLimit]>) ;; mret None
      end
  end.

Definition Reconcile (namespace name : string) : M St (option error) :=
  r ← on_kube (get_pod namespace name);
  match r with
  | (_, Some e) => if IsNotFound e then mret None else mret (Some e)
  | (pod, None) =>
      if ip_Deleting pod then on_cache (delete (ip_UID pod)) ;; mret None
      else handleSinglePodCGroupConfig pod
  end.
End impl.

(** *** [podFilter] *)

Definition filter (nodeName : string) (pod : IoPod) : bool :=
  if negb (String.eqb (ip_NodeName pod) nodeName) then false
  else if IsStaticPod (ip_Annotations pod) (ip_UID pod) then false
  else if String.eqb (ip_Phase pod) "Pending" || String.eqb (ip_Phase pod) "Succeeded" then false
  else existsb (λ t, bool_decide (is_Some (ip_Annotations pod !! (CSIPluginName +:+ "/" +:+ t)))) GetSupportedIOThrottles.

Definition Update (nodeName : string) (oldPod newPod : IoPod) : bool :=
  if String.eqb (ip_ResourceVersion newPod) (ip_ResourceVersion oldPod) then false
  else filter nodeName newPod || filter nodeName oldPod.
End PodIOReconciler.
