(* ===== verification/Hook.v ===== *)
(** * [hook/mutate_pod.go]: the admission of pods

    The webhook hands the pods that use a Carina volume to Carina's scheduler.
    The request is decoded and the patch encoded outside the repository: a
    request carries the outcome of the decoding, a response the pod the patch
    leads to. *)

From S2P Require Import Prelude GoStrings Api GoRuntime Mutx Exec Utils Config Kube.

#[local] Open Scope string_scope.
#[local] Open Scope list_scope.
#[local] Open Scope Z_scope.

(** What the webhook reads and writes of a pod; [hp_Rest] stands for the other
    fields. *)
Record HookPod := mkHookPod {
  hp_Namespace : string;
  hp_Containers : list string;
  hp_Volumes : list (option string);
  hp_Annotations : gmap string string;
  hp_SchedulerName : string;
  hp_Rest : string
}.

Record HookClass := mkHookClass {
  hc_Provisioner : string;
  hc_Parameters : option (gmap string string);
  hc_Annotations : gmap string string
}.

Record HookRequest := mkHookRequest {
  hr_Namespace : string;
  hr_Pod : HookPod + error
}.

Inductive HookResponse :=
| Errored (code : Z) (e : error)
| Denied (reason : string)
| Allowed (reason : string)
| Patched (pod : HookPod).

(** Reading the class name of a claim, and a class, from the cache and from the
    API server. *)
Class HookClient (St : Type) := {
  cache_claim : string → string → M St (res (option string));
  api_claim : string → string → M St (res (option string));
  cache_class : string → M St (res HookClass);
  api_class : string → M St (res HookClass)
}.

Module podMutator.
Section mutator.
Context {St : Type} `{HookClient St} (cfg : Settings).

Definition getter_Get {A} (cache api : M St (res A)) : M St (res A) :=
  r ← cache;
  match r with
  | (a, None) => mret (a, None)
  | (a, Some e) => if negb (IsNotFound e) then mret (a, Some e) else api
  end.

(** A class that makes its pods Carina's. *)
Definition schedules (sc : HookClass) : bool :=
  if negb (String.eqb (hc_Provisioner sc) CSIPluginName) then false
  else match hc_Parameters sc with
       | Some parameters => negb (CheckHostDeviceGroup cfg (mget parameters DeviceDiskKey))
       | None => true
       end.

Definition one_volume (namespace : string) (vol : option string) (cSC : list HookClass)
  : M St (ctl (list HookClass) (list HookClass * error)) :=
  match vol with
  | None => mret (Next cSC)
  | Some pvcName =>
      r ← getter_Get (cache_claim namespace pvcName) (api_claim namespace pvcName);
      match r with
      | (_, Some err) => if negb (IsNotFound err) then mret (Return (cSC, err)) else mret (Next cSC)
      | (None, None) => mret (Next cSC)
      | (Some className, None) =>
          r ← getter_Get (cache_class className) (api_class className);
          match r with
          | (_, Some _) => mret (Next cSC)
          | (sc, None) => if schedules sc then mret (Next (cSC ++ [sc])) else mret (Next cSC)
          end
      end
  end.

Definition carinaSchedulePod (pod : HookPod) : M St (bool * list HookClass * option error) :=
  r ← range (hp_Volumes pod) [] (one_volume (hp_Namespace pod));
  match r with
  | inr (cSC, err) => mret (false, cSC, Some err)
  | inl cSC => mret (match cSC with [] => false | _ => true end, cSC, None)
  end.

(** The annotation of the first class that carries it, unless the pod has one. *)
Definition with_migration (cSC : list HookClass) (annotations : gmap string string) : gmap string string :=
  match annotations !! AllowPodMigrationIfNodeNotready with
  | Some _ => annotations
  | None =>
      match List.find (λ sc, bool_decide (is_Some (hc_Annotations sc !! AllowPodMigrationIfNodeNotready))) cSC with
      | Some sc =>
          <[AllowPodMigrationIfNodeNotready := mget (hc_Annotations sc) AllowPodMigrationIfNodeNotready]> annotations
      | None => annotations
      end
  end.

Definition Handle (req : HookRequest) : M St HookResponse :=
  match hr_Pod req with
  | inr err => mret (Errored 400 err)
  | inl pod =>
      if Nat.eqb (length (hp_Containers pod)) 0 then mret (Denied "pod has no containers")
      else if Nat.eqb (length (hp_Volumes pod)) 0 then mret (Allowed "no volumes")
      else
        let namespace := if String.eqb (hp_Namespace pod) "" then hr_Namespace req else hp_Namespace pod in
        let pod := mkHookPod namespace (hp_Containers pod) (hp_Volumes pod) (hp_Annotations pod)
                     (hp_SchedulerName pod) (hp_Rest pod) in
        if bool_decide (is_Some (hp_Annotations pod !! (DeviceCapacityKeyPrefix +:+ "custom-scheduler-plugin")))
        then mret (Allowed "custom-scheduler-plugin")
        else
          r ← carinaSchedulePod pod;
          match r with
          | (_, _, Some err) => mret (Errored 500 err)
          | (true, cSC, None) =>
              mret (Patched (mkHookPod namespace (hp_Containers pod) (hp_Volumes pod)
                               (with_migration cSC (hp_Annotations pod)) CarinaSchedule (hp_Rest pod)))
          | (false, _, None) => mret (Patched pod)
          end
  end.
End mutator.
End podMutator.

(** ** Correctness *)

(** What the reads of claims and classes answer. *)
Record cluster := mkCluster {
  cl_claim : string → string → res (option string);
  cl_class : string → res HookClass
}.

(** The cluster as it is read: the cache, or the API server for what the cache
    does not have. *)
Class ReadsCluster (St : Type) `{HookClient St} (c : cluster) : Prop := {
  read_claim ns name s :
    podMutator.getter_Get (cache_claim ns name) (api_claim ns name) s = (Done (cl_claim c ns name), s);
  read_class name s : podMutator.getter_Get (cache_class name) (api_class name) s = (Done (cl_class c name), s)
}.

(** The class of the claim of a volume, when both are there. *)
Definition volume_class (c : cluster) (ns : string) (vol : option string) : option HookClass :=
  claim ← vol;
  match cl_claim c ns claim with
  | (Some name, None) => match cl_class c name with (sc, None) => Some sc | _ => None end
  | _ => None
  end.

(** A claim that cannot be read, for another reason than its absence. *)
Definition unreadable (c : cluster) (ns : string) (vol : option string) (e : error) : Prop :=
  ∃ claim, vol = Some claim ∧ (cl_claim c ns claim).2 = Some e ∧ IsNotFound e = false.

(** The classes of Carina's volumes, in the order of the volumes. *)
Definition carina_classes (cfg : Settings) (c : cluster) (ns : string) (vols : list (option string)) : list HookClass :=
  List.filter (podMutator.schedules cfg) (omap (volume_class c ns) vols).

Section correct.
Context {St : Type} `{ReadsCluster St c} (cfg : Settings).

Lemma one_volume_cases ns vol cSC s :
  (∃ e, unreadable c ns vol e ∧ podMutator.one_volume cfg ns vol cSC s = (Done (Return (cSC, e)), s)) ∨
  ((∀ e, ¬ unreadable c ns vol e) ∧
   podMutator.one_volume cfg ns vol cSC s = (Done (Next (cSC ++ carina_classes cfg c ns [vol])), s)).
Proof.
  unfold podMutator.one_volume, carina_classes, volume_class, unreadable.
  destruct vol as [claim|]; [|right; split; [by intros e (? & ? & _)|simpl; by rewrite app_nil_r]].
  rewrite (bind_done _ _ _ _ _ (read_claim ns claim s)). simpl.
  destruct (cl_claim c ns claim) as [[name|] [e|]] eqn:Ec; simpl.
  1,3: destruct (IsNotFound e) eqn:Ee; simpl;
    [right; split; [|by rewrite app_nil_r]|left; exists e; split; [exists claim; by rewrite Ec|done]];
    intros e' (claim' & [= <-] & He & Hn); rewrite Ec in He; simpl in He; congruence.
  - right. split; [intros e (claim' & [= <-] & He & _); by rewrite Ec in He|].
    rewrite (bind_done _ _ _ _ _ (read_class name s)). destruct (cl_class c name) as [sc [e|]]; simpl; [by rewrite app_nil_r|].
    destruct (podMutator.schedules cfg sc); [done|by rewrite app_nil_r].
  - right. split; [intros e (claim' & [= <-] & He & _); by rewrite Ec in He|by rewrite app_nil_r].
Qed.

Lemma carina_classes_cons ns vol vols :
  carina_classes cfg c ns (vol :: vols) = carina_classes cfg c ns [vol] ++ carina_classes cfg c ns vols.
Proof.
  unfold carina_classes. simpl. destruct (volume_class c ns vol); simpl; [|done]. by destruct (podMutator.schedules cfg _).
Qed.

Lemma volumes_ok ns vols cSC s :
  (∃ vol e cSC', vol ∈ vols ∧ unreadable c ns vol e ∧
    range vols cSC (podMutator.one_volume cfg ns) s = (Done (inr (cSC', e)), s)) ∨
  ((∀ vol e, vol ∈ vols → ¬ unreadable c ns vol e) ∧
   range vols cSC (podMutator.one_volume cfg ns) s = (Done (inl (cSC ++ carina_classes cfg c ns vols)), s)).
Proof.
  revert cSC. induction vols as [|vol vols IH]; intros cSC; cbn [range].
  { right. split; [by intros ?? ?%not_elem_of_nil|]. by rewrite app_nil_r. }
  destruct (one_volume_cases ns vol cSC s) as [(e & Hu & Hr)|[Hu Hr]]; rewrite (bind_done _ _ _ _ _ Hr).
  { left. exists vol, e, cSC. split_and!; [left|done|done]. }
  cbv beta iota. rewrite (carina_classes_cons ns vol vols), app_assoc.
  destruct (IH (cSC ++ carina_classes cfg c ns [vol])) as [(v & e & l & Hv & Hue & ->)|[Hno ->]].
  - left. exists v, e, l. split_and!; [by right|done|done].
  - right. split; [|done]. intros v e [->|Hv]%elem_of_cons; [apply Hu|by apply Hno].
Qed.
End correct.

Lemma with_migration_nil annotations : podMutator.with_migration [] annotations = annotations.
Proof. unfold podMutator.with_migration. by destruct (annotations !! _). Qed.

Lemma with_migration_spec classes annotations key :
  podMutator.with_migration classes annotations !! key =
    match annotations !! key with
    | Some v => Some v
    | None =>
        if String.eqb key AllowPodMigrationIfNodeNotready
        then head (omap (λ sc, hc_Annotations sc !! AllowPodMigrationIfNodeNotready) classes)
        else None
    end.
Proof.
  unfold podMutator.with_migration. set (m := AllowPodMigrationIfNodeNotready).
  destruct (annotations !! m) as [v|] eqn:Ev.
  { destruct (String.eqb_spec key m) as [->|]; [by rewrite Ev|]. by destruct (annotations !! key). }
  assert (∀ sc, List.find (λ sc, bool_decide (is_Some (hc_Annotations sc !! m))) classes = Some sc →
    head (omap (λ sc, hc_Annotations sc !! m) classes) = Some (mget (hc_Annotations sc) m)) as Hsome.
  { induction classes as [|k l IH]; intros sc; simpl; [done|]. unfold mget. case_bool_decide as Hk.
    - intros [= <-]. by destruct Hk as [w ->].
    - destruct (hc_Annotations k !! m); [by destruct Hk|exact (IH sc)]. }
  assert (List.find (λ sc, bool_decide (is_Some (hc_Annotations sc !! m))) classes = None →
    head (omap (λ sc, hc_Annotations sc !! m) classes) = None) as Hnone.
  { clear Hsome. induction classes as [|k l IH]; simpl; [done|]. case_bool_decide as Hk; [done|].
    destruct (hc_Annotations k !! m); [by destruct Hk|exact IH]. }
  destruct (List.find _ classes) as [sc|]; destruct (String.eqb_spec key m) as [->|Hne].
  - by rewrite lookup_insert_eq, Ev, (Hsome sc).
  - rewrite lookup_insert_ne by done. by destruct (annotations !! key).
  - by rewrite Ev, Hnone.
  - by destruct (annotations !! key).
Qed.

(** The namespace in which the claims of a pod are looked up. *)
Definition pod_namespace (req : HookRequest) (pod : HookPod) : string :=
  if String.eqb (hp_Namespace pod) "" then hr_Namespace req else hp_Namespace pod.

(** [C26] The admission of a decoded pod with containers and volumes that does
    not ask for its own scheduler: it fails exactly when a claim cannot be read
    for another reason than its absence; otherwise the pod gets Carina's
    scheduler iff the class of one of its claims is provisioned by Carina
    outside the host groups, with the migration annotation of the first such
    class that has one unless the pod carries its own; any other pod keeps its
    scheduler and annotations; nothing else of the pod changes but the
    namespace, filled in when it is empty. *)
Theorem admitted_pod {St : Type} `{ReadsCluster St c} (cfg : Settings) (req : HookRequest) (pod : HookPod) (s : St)
    (Hpod : hr_Pod req = inl pod) (Hcontainers : hp_Containers pod ≠ []) (Hvolumes : hp_Volumes pod ≠ [])
    (Hcustom : hp_Annotations pod !! (DeviceCapacityKeyPrefix +:+ "custom-scheduler-plugin") = None) :
  let ns := pod_namespace req pod in
  let classes := carina_classes cfg c ns (hp_Volumes pod) in
  (∃ vol e, vol ∈ hp_Volumes pod ∧ unreadable c ns vol e ∧ podMutator.Handle cfg req s = (Done (Errored 500 e), s)) ∨
  ((∀ vol e, vol ∈ hp_Volumes pod → ¬ unreadable c ns vol e) ∧
   ∃ annotations, podMutator.Handle cfg req s =
     (Done (Patched (mkHookPod ns (hp_Containers pod) (hp_Volumes pod) annotations
        (if decide (classes ≠ []) then CarinaSchedule else hp_SchedulerName pod) (hp_Rest pod))), s) ∧
   (∀ key, key ≠ AllowPodMigrationIfNodeNotready → annotations !! key = hp_Annotations pod !! key) ∧
   annotations !! AllowPodMigrationIfNodeNotready =
     match hp_Annotations pod !! AllowPodMigrationIfNodeNotready with
     | Some v => Some v
     | None => head (omap (λ sc, hc_Annotations sc !! AllowPodMigrationIfNodeNotready) classes)
     end).
Proof.
  cbv zeta. unfold podMutator.Handle. rewrite Hpod. fold (pod_namespace req pod). set (ns := pod_namespace req pod).
  destruct (hp_Containers pod) as [|ctr ctrs] eqn:Ectr; [done|]. destruct (hp_Volumes pod) as [|v0 vs] eqn:Evol; [done|].
  cbn [length Nat.eqb hp_Annotations hp_Volumes hp_Containers hp_SchedulerName hp_Rest hp_Namespace].
  rewrite bool_decide_eq_false_2 by (rewrite Hcustom; by intros []). rewrite <- Evol.
  unfold podMutator.carinaSchedulePod. cbn [hp_Volumes hp_Namespace].
  destruct (volumes_ok cfg ns (hp_Volumes pod) [] s) as [(vol & e & l & Hin & Hu & Hr)|[Hno Hr]].
  - left. exists vol, e. split_and!; [done|done|]. erewrite bind_done; [|rewrite (bind_done _ _ _ _ _ Hr); reflexivity]. reflexivity.
  - right. split; [done|]. simpl in Hr. set (classes := carina_classes cfg c ns (hp_Volumes pod)) in *.
    exists (podMutator.with_migration classes (hp_Annotations pod)). split_and!.
    + erewrite bind_done; [|rewrite (bind_done _ _ _ _ _ Hr); reflexivity]. destruct classes as [|k ks]; [|done].
      rewrite decide_False by (intros Hn; by apply Hn). by rewrite with_migration_nil.
    + intros key Hne. rewrite with_migration_spec, (proj2 (String.eqb_neq _ _) Hne). by destruct (_ !! key).
    + by rewrite with_migration_spec, String.eqb_refl.
Qed.

(** *** A cluster *)

Definition hook_cluster : cluster :=
  mkCluster
    (λ ns name, if String.eqb name "data" then (Some "carina-ssd", None) else (None, Some (ErrApi ReasonNotFound "not found")))
    (λ name, (mkHookClass CSIPluginName (Some {[ DeviceDiskKey := "carina-vg-ssd" ]})
                {[ AllowPodMigrationIfNodeNotready := "true" ]}, None)).

#[local] Instance hook_client : HookClient unit := {|
  cache_claim ns name s := (Done (None, Some (ErrApi ReasonNotFound "not found")), s);
  api_claim ns name s := (Done (cl_claim hook_cluster ns name), s);
  cache_class name s := (Done (cl_class hook_cluster name), s);
  api_class name s := (Done (cl_class hook_cluster name), s)
|}.

#[local] Instance hook_reads : ReadsCluster unit hook_cluster.
Proof. by split. Qed.

Definition hook_pod : HookPod := mkHookPod "" ["app"] [None; Some "tmp"; Some "data"] ∅ "default-scheduler" "".

Lemma admitted_pod_witness :
  (podMutator.Handle sample_settings (mkHookRequest "shop" (inl hook_pod)) ()).1 =
    Done (Patched (mkHookPod "shop" ["app"] [None; Some "tmp"; Some "data"]
      {[ AllowPodMigrationIfNodeNotready := "true" ]} CarinaSchedule "")).
Proof.
  destruct (admitted_pod sample_settings (mkHookRequest "shop" (inl hook_pod)) hook_pod () eq_refl
    ltac:(discriminate) ltac:(discriminate) eq_refl) as [(vol & e & Hvol & (claim & -> & He & Hn) & _)|[_ (a & -> & Hk & Hm)]].
  - exfalso. unfold hook_cluster in He. simpl in He. destruct (String.eqb claim "data"); [done|].
    injection He as <-. done.
  - simpl. repeat f_equal. apply map_eq. intros key. destruct (decide (key = AllowPodMigrationIfNodeNotready)) as [->|Hne].
    + rewrite Hm. vm_compute. reflexivity.
    + rewrite Hk, lookup_singleton_ne by done. done.
Defined.
