(* ===== verification/Health.v ===== *)
(** * Readiness and the identity service

    [runners/readinessCheck.go] runs a check every minute and remembers its
    result; [pkg/csidriver/driver/identity.go] reports it to the kubelet and the
    sidecars.  The two run in different goroutines and meet at a mutex. *)

From S2P Require Import Prelude GoStrings Api GoRuntime.

#[local] Open Scope string_scope.
#[local] Open Scope list_scope.

(** ** [readinessCheck.go] *)

Record readinessCheck := mkReadiness {
  rc_ready : bool;
  rc_err : option error
}.

(** [NewChecker]. *)
Definition NewChecker : readinessCheck := mkReadiness false None.

(** The reader of the API server, for a [CSIDriver] by name. *)
Class DriverReader (W : Type) := {
  GetCSIDriver : string → W → option error * W
}.

Section health.
Context {W : Type} `{DriverReader W}.

Abbreviation Process := (W * readinessCheck)%type.

(** [checkFunc] of both programs. *)
Definition checkFunc : M W (option error) := λ w,
  let '(e, w) := GetCSIDriver CSIPluginName w in (Done e, w).

(** Both run under the mutex. *)
Definition setError (e : option error) : M Process unit := λ s,
  let c := s.2 in
  let ready := match e with None => true | Some _ => rc_ready c end in
  (Done (), (s.1, mkReadiness ready e)).

Definition Ready : M Process (res bool) := λ s, (Done (rc_ready s.2, rc_err s.2), s).

(** One round: the check, which holds no lock, and its result. *)
Definition check_round : M Process (option error) :=
  e ← on_fst checkFunc;
  _ ← setError e;
  mret e.

(** What the [select] of [Start] receives. *)
Inductive wakeup := Tick | Cancelled.

Fixpoint wait_ticks (wakeups : list wakeup) : M Process (option error) :=
  match wakeups with
  | Tick :: wakeups => _ ← check_round; wait_ticks wakeups
  | Cancelled :: _ | [] => mret None
  end.

Definition Start (wakeups : list wakeup) : M Process (option error) :=
  _ ← check_round;
  wait_ticks wakeups.

(** ** [identity.go] *)

Inductive plugin_capability :=
| CONTROLLER_SERVICE | VOLUME_ACCESSIBILITY_CONSTRAINTS | EXPANSION_ONLINE | EXPANSION_OFFLINE.

Definition Version := "beta".

Definition GetPluginInfo : string * string := (CSIPluginName, Version).

Definition GetPluginCapabilities : list plugin_capability :=
  [CONTROLLER_SERVICE; VOLUME_ACCESSIBILITY_CONSTRAINTS; EXPANSION_ONLINE; EXPANSION_OFFLINE].

(** [ready] is the method [Ready] of the checker. *)
Definition Probe : M Process (bool + error) :=
  r ← Ready;
  match r with
  | (_, Some err) => mret (inr (ErrStatus FailedPrecondition (Error err)))
  | (ok, None) => mret (inl ok)
  end.

(** ** The interleaving *)

Inductive action := DoCheck | DoProbe.

(** What an observer of the process sees. *)
Inductive event :=
| Checked (e : option error)
| Answered (r : bool + error).

Definition act (a : action) : M Process event :=
  match a with
  | DoCheck => e ← check_round; mret (Checked e)
  | DoProbe => r ← Probe; mret (Answered r)
  end.

Fixpoint interleave (acts : list action) : M Process (list event) :=
  match acts with
  | [] => mret []
  | a :: acts => e ← act a; es ← interleave acts; mret (e :: es)
  end.

(** ** The answers follow the last check *)

(** The result of the last check of a trace. *)
Fixpoint last_check (acc : option (option error)) (es : list event) : option (option error) :=
  match es with
  | [] => acc
  | Checked e :: es => last_check (Some e) es
  | Answered _ :: es => last_check acc es
  end.

(** The answer promised after a last check: before any, not ready. *)
Definition promised (c : option (option error)) : bool + error :=
  match c with
  | None => inl false
  | Some None => inl true
  | Some (Some e) => inr (ErrStatus FailedPrecondition (Error e))
  end.

(** What the record of the checker is after a last check. *)
Definition remembers (c : option (option error)) (s : readinessCheck) : Prop :=
  match c with
  | None => s = NewChecker
  | Some e => rc_err s = e ∧ (e = None → rc_ready s = true)
  end.

Lemma check_round_run s :
  ∃ e s', check_round s = (Done e, s') ∧ remembers (Some e) s'.2.
Proof.
  destruct s as [w c]. unfold check_round, checkFunc, on_fst, setError, mbind, M_bind. cbn.
  destruct (GetCSIDriver CSIPluginName w) as [e w']. cbn.
  eexists _, _. split; [reflexivity|]. split; [done|]. by intros ->.
Qed.

Lemma Probe_run c s : remembers c s.2 → Probe s = (Done (promised c), s).
Proof.
  destruct s as [w [r e]]. destruct c as [[e'|]|]; cbn.
  - by intros [-> _].
  - intros [-> Hr]. by rewrite Hr.
  - by intros [= -> ->].
Qed.

Lemma interleave_run acts : ∀ c s, remembers c s.2 →
  ∃ es s', interleave acts s = (Done es, s') ∧
    ∀ pre r post, es = pre ++ Answered r :: post → r = promised (last_check c pre).
Proof.
  induction acts as [|a acts IH]; intros c s Hs.
  { exists [], s. split; [done|]. by intros [] ? ?. }
  destruct a; cbn.
  - destruct (check_round_run s) as (e & s1 & Er & Hs1).
    destruct (IH (Some e) s1 Hs1) as (es & s2 & E2 & Hes). exists (Checked e :: es), s2. split.
    + rewrite (bind_done _ _ _ _ _ (bind_done _ _ _ _ _ Er)). by rewrite (bind_done _ _ _ _ _ E2).
    + intros [|x pre] r post [=]; subst. cbn. by eapply Hes.
  - destruct (IH c s Hs) as (es & s2 & E2 & Hes). exists (Answered (promised c) :: es), s2. split.
    + rewrite (bind_done _ _ _ _ _ (bind_done _ _ _ _ _ (Probe_run c s Hs))). by rewrite (bind_done _ _ _ _ _ E2).
    + intros [|x pre] r post [=]; subst; [done|]. cbn. by eapply Hes.
Qed.

(** However the checks and the probes interleave, every probe is answered,
    and by the last check before it alone: it fails with [FailedPrecondition]
    and the error of that check, says ready when that check passed, and not
    ready only before the first check. *)
Theorem probe_follows_last_check acts w :
  ∃ es s', interleave acts (w, NewChecker) = (Done es, s') ∧
    ∀ pre r post, es = pre ++ Answered r :: post → r = promised (last_check None pre).
Proof. by apply interleave_run. Qed.

(** [Start] is the checks of such an interleaving: one at once and one for each
    tick before the context is done. *)
Lemma Start_checks n rest s :
  (Start (replicate n Tick ++ Cancelled :: rest) s).2 = (interleave (replicate (S n) DoCheck) s).2.
Proof.
  assert (∀ n s, (wait_ticks (replicate n Tick ++ Cancelled :: rest) s).2 = (interleave (replicate n DoCheck) s).2) as Hw.
  { clear. induction n as [|n IH]; intros s; [done|]. cbn.
    destruct (check_round_run s) as (e & s1 & Er & _).
    rewrite (bind_done _ _ _ _ _ Er), (bind_done _ _ _ _ _ (bind_done _ _ _ _ _ Er)), IH.
    unfold mbind, M_bind. by destruct (interleave (replicate n DoCheck) s1) as [[] ?]. }
  unfold Start. cbn. destruct (check_round_run s) as (e & s1 & Er & _).
  rewrite (bind_done _ _ _ _ _ Er), (bind_done _ _ _ _ _ (bind_done _ _ _ _ _ Er)), Hw.
  unfold mbind, M_bind. by destruct (interleave (replicate n DoCheck) s1) as [[] ?].
Qed.
End health.
