(* ===== verification/Programs.v ===== *)
(** * The two programs

    [subMain] of [cmd/carina-node/run/run.go] and of
    [cmd/carina-controller/run/run.go]: how the components are wired to the
    manager of controller-runtime, in which order, and what a failure does. *)

From S2P Require Import Prelude GoStrings Api GoRuntime.

#[local] Open Scope string_scope.
#[local] Open Scope list_scope.

(** ** What the programs ask of the manager *)

Inductive controller := PodIOController | LogicVolumeController | NodeController.
Inductive grpc_service := IdentityServer | NodeServer | ControllerServer.
Inductive runnable :=
| Checker (minutes : nat)
| GRPCRunner (sockFile : string) (leaderElection : bool)
| TroubleShoot
| DeviceCheck
| NodeStorageResourceReconciler.

Inductive setup_call :=
| GetConfig
| NewManager (leaderElection : bool) (webhook : option (string * Z))
| SetupController (c : controller)
| AddRunnable (r : runnable)
| NewLogicVolumeService
| NewCarinaCollector
| RegisterCollector
| MkdirAll (path : string)
| RegisterServer (s : grpc_service)
| RegisterWebhook (path : string)
| StartManager.

(** controller-runtime, the metrics registry and the file system; [net] splits
    and looks up the address of the webhook. *)
Class ManagerLib (W : Type) := {
  perform : setup_call → W → option error * W;
  SplitHostPort : string → (string * string) + error;
  LookupPort : string → Z + error
}.

Section programs.
Context {W : Type} `{ManagerLib W}.

(** A program and the calls it made. *)
Abbreviation Program := (W * list setup_call)%type.

Definition calls_made (c : setup_call) : M Program (option error) := λ s,
  let '(e, w) := perform c s.1 in (Done e, (w, s.2 ++ [c])).

(** [if err := ...; err != nil { return err }]. *)
Definition or_return (c : setup_call) (k : M Program (option error)) : M Program (option error) :=
  err ← calls_made c;
  match err with
  | Some e => mret (Some e)
  | None => k
  end.

Definition and_ignore (c : setup_call) (k : M Program (option error)) : M Program (option error) :=
  _ ← calls_made c;
  k.

(** [carina-node].  [GetConfigOrDie] ends the process when it fails. *)
Definition node_subMain (nodeName csiSocket : string) : M Program (option error) :=
  if String.eqb nodeName "" then mret (Some (ErrString "env NODE_NAME is not given"))
  else
    cfg ← calls_made GetConfig;
    match cfg with
    | Some _ => panic "os.Exit(1)"
    | None =>
        or_return (NewManager false None) (
        or_return (SetupController PodIOController) (
        or_return (SetupController LogicVolumeController) (
        or_return (AddRunnable (Checker 1)) (
        or_return NewLogicVolumeService (
        or_return NewCarinaCollector (
        and_ignore RegisterCollector (
        or_return (MkdirAll "/dev/carina") (
        and_ignore (RegisterServer IdentityServer) (
        and_ignore (RegisterServer NodeServer) (
        or_return (AddRunnable (GRPCRunner csiSocket false)) (
        or_return (AddRunnable TroubleShoot) (
        or_return (AddRunnable DeviceCheck) (
        or_return (AddRunnable NodeStorageResourceReconciler) (
        or_return StartManager (
        mret None)))))))))))))))
    end.

(** [carina-controller]. *)
Definition controller_subMain (webhookAddr csiSocket : string) : M Program (option error) :=
  or_return GetConfig (
  match SplitHostPort webhookAddr with
  | inr e => mret (Some (ErrString ("invalid webhook addr: " +:+ Error e)))
  | inl (hookHost, portStr) =>
      match LookupPort portStr with
      | inr e => mret (Some (ErrString ("invalid webhook port: " +:+ Error e)))
      | inl hookPort =>
          or_return (NewManager true (Some (hookHost, hookPort))) (
          and_ignore (RegisterWebhook "/pod/mutate") (
          or_return (SetupController NodeController) (
          or_return (AddRunnable (Checker 1)) (
          or_return NewLogicVolumeService (
          and_ignore (RegisterServer IdentityServer) (
          and_ignore (RegisterServer ControllerServer) (
          or_return (AddRunnable (GRPCRunner csiSocket false)) (
          or_return StartManager (
          mret None)))))))))
      end
  end).

(** ** Nothing runs before everything is set up *)

(** A plan: the calls in order, and whether a failure of each ends it. *)
Fixpoint follow (plan : list (bool * setup_call)) : M Program (option error) :=
  match plan with
  | [] => mret None
  | (true, c) :: plan => or_return c (follow plan)
  | (false, c) :: plan => and_ignore c (follow plan)
  end.

Lemma follow_prefix plan : ∀ s,
  ∃ err done rest s', follow plan s = (Done err, s') ∧ plan = done ++ rest ∧ s'.2 = s.2 ++ done.*2 ∧
    (err = None → rest = []).
Proof.
  induction plan as [|[must c] plan IH]; intros s.
  { exists None, [], [], s. split_and!; [done..|by rewrite app_nil_r|done]. }
  set (s1 := ((perform c s.1).2, s.2 ++ [c])).
  assert (calls_made c s = (Done (perform c s.1).1, s1)) as Hc by (unfold calls_made, s1; by destruct (perform c s.1)).
  assert (∃ err done rest s', follow plan s1 = (Done err, s') ∧ (must, c) :: plan = ((must, c) :: done) ++ rest ∧
    s'.2 = s.2 ++ ((must, c) :: done).*2 ∧ (err = None → rest = [])) as (err & done & rest & s' & E & Ep & El & Hn).
  { destruct (IH s1) as (err & done & rest & s' & E & -> & El & Hn). exists err, done, rest, s'.
    split_and!; [done..| |done]. rewrite El. unfold s1. cbn. by rewrite <- app_assoc. }
  destruct must; cbn [follow]; [destruct (perform c s.1).1 as [e|] eqn:Ee|].
  - exists (Some e), [(true, c)], plan, s1. unfold or_return. rewrite (bind_done _ _ _ _ _ Hc). done.
  - eexists err, _, rest, s'. split_and!; [|done..]. unfold or_return. by rewrite (bind_done _ _ _ _ _ Hc).
  - eexists err, _, rest, s'. split_and!; [|done..]. unfold and_ignore. by rewrite (bind_done _ _ _ _ _ Hc).
Qed.

Definition node_plan (csiSocket : string) : list (bool * setup_call) :=
  [(true, NewManager false None); (true, SetupController PodIOController); (true, SetupController LogicVolumeController);
   (true, AddRunnable (Checker 1)); (true, NewLogicVolumeService); (true, NewCarinaCollector); (false, RegisterCollector);
   (true, MkdirAll "/dev/carina"); (false, RegisterServer IdentityServer); (false, RegisterServer NodeServer);
   (true, AddRunnable (GRPCRunner csiSocket false)); (true, AddRunnable TroubleShoot); (true, AddRunnable DeviceCheck);
   (true, AddRunnable NodeStorageResourceReconciler); (true, StartManager)].

(** The node agent starts its manager only with a node name and with every
    controller and runnable in place; otherwise it returns an error, or the
    process ends for want of a kubeconfig. *)
Lemma node_starts_complete nodeName csiSocket (w : W) :
  let r := node_subMain nodeName csiSocket (w, []) in
  StartManager ∈ r.2.2 → nodeName ≠ "" ∧ r.2.2 = GetConfig :: (node_plan csiSocket).*2.
Proof.
  unfold node_subMain. destruct (String.eqb_spec nodeName "") as [->|Hne]; cbv zeta; [by intros ?%not_elem_of_nil|].
  set (s1 := ((perform GetConfig w).2, [GetConfig])).
  assert (calls_made GetConfig (w, []) = (Done (perform GetConfig w).1, s1)) as Hc
    by (unfold calls_made, s1; cbn; by destruct (perform GetConfig w)).
  rewrite (bind_done _ _ _ _ _ Hc). destruct (perform GetConfig w).1 as [e|].
  { cbn. intros Hin. by apply list_elem_of_singleton in Hin. }
  change (StartManager ∈ (follow (node_plan csiSocket) s1).2.2 →
    nodeName ≠ "" ∧ (follow (node_plan csiSocket) s1).2.2 = GetConfig :: (node_plan csiSocket).*2).
  destruct (follow_prefix (node_plan csiSocket) s1) as (err & done & rest & s' & E & Ep & El & _). rewrite E. cbn [fst snd].
  rewrite El. change (s1.2 ++ done.*2) with (GetConfig :: done.*2).
  intros [?|Hin]%elem_of_cons; [done|]. split; [done|]. f_equal.
  (* the start is the last call of the plan, so nothing is left after it *)
  destruct rest as [|x rest _] using rev_ind; [by rewrite Ep, app_nil_r|]. exfalso.
  assert (x = (true, StartManager)) as ->.
  { pose proof (f_equal last Ep) as Hl. rewrite app_assoc, last_snoc in Hl. by injection Hl. }
  assert (NoDup ((node_plan csiSocket).*2)) as Hnd.
  { repeat (apply NoDup_cons; split; [by rewrite ?elem_of_cons, elem_of_nil; intros Hx; repeat destruct Hx as [Hx|Hx]|]). constructor. }
  rewrite Ep, !fmap_app in Hnd. apply NoDup_app in Hnd as (_ & Hd & _). apply (Hd _ Hin).
  rewrite elem_of_app. right. left.
Qed.
End programs.
