(* ===== verification/CertGen.v ===== *)
(** * [kube-webhook-certgen]: the certificates of the admission webhook

    A job creates a certificate authority and a server certificate in a secret;
    another puts the authority into the configurations of the webhooks.  The
    client of the API server and the cryptographic library are interfaces. *)

From S2P Require Import Prelude GoStrings Api.

#[local] Open Scope string_scope.
#[local] Open Scope list_scope.
#[local] Open Scope Z_scope.

(** ** Objects *)

Record Webhook := mkWebhook {
  wh_CABundle : string;
  wh_FailurePolicy : option string;
  wh_Rest : string
}.

Record WebhookConfiguration := mkWebhookConfiguration {
  wc_Name : string;
  wc_Webhooks : list Webhook
}.

Record APIService := mkAPIService {
  as_Name : string;
  as_CABundle : string;
  as_InsecureSkipTLSVerify : bool;
  as_Rest : string
}.

(** A [wrappedError] shows its message and unwraps to the cause. *)
Inductive cert_error :=
| Errorf (message : string)
| wrappedError (err : error) (message : string).

Definition Unwrap (e : cert_error) : option error :=
  match e with
  | Errorf _ => None
  | wrappedError err _ => Some err
  end.

(** ** The API server *)

Class CertClient (K : Type) := {
  get_secret : string → string → M K (res (gmap string string));
  create_secret : string → string → gmap string string → M K (option error);
  get_validating : string → M K (res WebhookConfiguration);
  update_validating : WebhookConfiguration → M K (option error);
  get_mutating : string → M K (res WebhookConfiguration);
  update_mutating : WebhookConfiguration → M K (option error);
  get_apiservice : string → M K (res APIService);
  update_apiservice : APIService → M K (option error)
}.

(** ** [pkg/k8s/k8s.go] *)

Record PatchOptions := mkPatchOptions {
  ValidatingWebhookConfigurationName : string;
  MutatingWebhookConfigurationName : string;
  APIServiceName : string;
  CABundle : string;
  FailurePolicyType : string
}.

(** [log.Fatal]: the process ends. *)
Definition Fatal {S A} (msg : string) : M S A := panic msg.

(** The loop over the webhooks of a configuration. *)
Definition patch_hook (ca failurePolicy : string) (h : Webhook) : Webhook :=
  mkWebhook ca (if negb (String.eqb failurePolicy "") then Some failurePolicy else wh_FailurePolicy h) (wh_Rest h).

Definition patch_hooks (ca failurePolicy : string) (c : WebhookConfiguration) : WebhookConfiguration :=
  mkWebhookConfiguration (wc_Name c) (patch_hook ca failurePolicy <$> wc_Webhooks c).

Definition patch_service (ca : string) (s : APIService) : APIService := mkAPIService (as_Name s) ca false (as_Rest s).

Module k8s.
Section client.
Context {K : Type} `{CertClient K}.

(** Reading an object, changing it and writing it back. *)
Definition read_modify_write {A} (get : M K (res A)) (f : A → A) (update : A → M K (option error))
    (getting patching : string) : M K (option cert_error) :=
  r ← get;
  match r with
  | (_, Some err) => mret (Some (wrappedError err getting))
  | (a, None) =>
      err ← update (f a);
      match err with
      | Some err => mret (Some (wrappedError err patching))
      | None => mret None
      end
  end.

Definition patchAPIService (objectName ca : string) : M K (option cert_error) :=
  read_modify_write (get_apiservice objectName) (patch_service ca) update_apiservice
    ("failed getting APIService " +:+ objectName) ("failed patching APIService " +:+ objectName).

Definition patchValidating (configurationName ca failurePolicy : string) : M K (option cert_error) :=
  read_modify_write (get_validating configurationName) (patch_hooks ca failurePolicy) update_validating
    "failed getting validating webhook" "failed patching validating webhook".

Definition patchMutating (configurationName ca failurePolicy : string) : M K (option cert_error) :=
  read_modify_write (get_mutating configurationName) (patch_hooks ca failurePolicy) update_mutating
    "failed getting mutating webhook" "failed patching mutating webhook".

(** [if b { if err := m; err != nil { return err } }] before [k]. *)
Definition when_ok (b : bool) (m k : M K (option cert_error)) : M K (option cert_error) :=
  if b then
    err ← m;
    match err with
    | Some e => mret (Some e)
    | None => k
    end
  else k.

Definition patchWebhookConfigurations (configurationName ca failurePolicy : string) (patchMut patchVal : bool)
  : M K (option cert_error) :=
  when_ok patchVal (patchValidating configurationName ca failurePolicy)
    (when_ok patchMut (patchMutating configurationName ca failurePolicy) (mret None)).

Definition PatchObjects (options : PatchOptions) : M K (option cert_error) :=
  let patchMut := negb (String.eqb (MutatingWebhookConfigurationName options) "") in
  let patchVal := negb (String.eqb (ValidatingWebhookConfigurationName options) "") in
  let patchApi := negb (String.eqb (APIServiceName options) "") in
  if negb patchMut && negb patchVal && negb (String.eqb (FailurePolicyType options) "") then
    mret (Some (Errorf "failurePolicy specified, but no webhook will be patched"))
  else if patchMut && patchVal &&
          negb (String.eqb (MutatingWebhookConfigurationName options) (ValidatingWebhookConfigurationName options)) then
    mret (Some (Errorf "webhook names must be the same"))
  else
    when_ok patchApi (patchAPIService (APIServiceName options) (CABundle options)) (
      let webhookName := if String.eqb (ValidatingWebhookConfigurationName options) ""
                         then MutatingWebhookConfigurationName options
                         else ValidatingWebhookConfigurationName options in
      if patchMut || patchVal then
        patchWebhookConfigurations webhookName (CABundle options) (FailurePolicyType options) patchMut patchVal
      else mret None).

Definition GetCaFromSecret (secretName namespace : string) : M K (option string) :=
  r ← get_secret namespace secretName;
  match r with
  | (_, Some err) => if IsNotFound err then mret None else Fatal "error getting secret"
  | (data, None) =>
      match data !! "ca" with
      | None => Fatal "got secret, but it did not contain a 'ca' key"
      | Some ca => mret (Some ca)
      end
  end.

(** A repeated key of the map literal keeps its last value. *)
Definition SaveCertsToSecret (secretName namespace certName keyName ca cert key : string) : M K unit :=
  err ← create_secret namespace secretName (<[keyName := key]> (<[certName := cert]> {[ "ca" := ca ]}));
  match err with
  | Some _ => Fatal "failed creating secret"
  | None => mret ()
  end.
End client.
End k8s.

(** ** [cmd/patch.go] *)

Record PatchConfig := mkPatchConfig {
  PatchMutating : bool;
  PatchValidating : bool;
  PatchFailurePolicy : string;
  pc_APIServiceName : string;
  WebhookName : string;
  SecretName : string;
  Namespace : string
}.

(** The [switch] on the policy; a case of Go does not fall through to the next. *)
Definition failure_policy (policy : string) : option string :=
  if String.eqb policy "" then Some ""
  else if String.eqb policy "Ignore" then Some ""
  else if String.eqb policy "Fail" then Some policy
  else None.

(** [Patch] with a patcher. *)
Definition Patch {K} `{CertClient K} (cfg : PatchConfig) : M K (option cert_error) :=
  if negb (PatchMutating cfg) && negb (PatchValidating cfg) && String.eqb (pc_APIServiceName cfg) "" then
    mret (Some (Errorf "patch-validating=false, patch-mutating=false. You must patch at least one kind of webhook, otherwise this command is a no-op"))
  else
    match failure_policy (PatchFailurePolicy cfg) with
    | None => mret (Some (Errorf ("patch-failure-policy " +:+ PatchFailurePolicy cfg +:+ " is not valid")))
    | Some failurePolicy =>
        ca ← k8s.GetCaFromSecret (SecretName cfg) (Namespace cfg);
        match ca with
        | None => mret (Some (Errorf ("no secret with '" +:+ SecretName cfg +:+ "' in '" +:+ Namespace cfg +:+ "'")))
        | Some ca =>
            k8s.PatchObjects (mkPatchOptions
              (if PatchValidating cfg then WebhookName cfg else "")
              (if PatchMutating cfg then WebhookName cfg else "")
              (pc_APIServiceName cfg) ca failurePolicy)
        end
    end.

(** ** [pkg/certs/certs.go] *)

(** The fields of a certificate the generator sets; times in nanoseconds. *)
Record Certificate := mkCertificate {
  SerialNumber : Z;
  NotBefore : Z;
  NotAfter : Z;
  KeyUsage : Z;
  ExtKeyUsage : list string;
  BasicConstraintsValid : bool;
  IsCA : bool;
  Organization : list string;
  IPAddresses : list string;
  DNSNames : list string
}.

Definition KeyUsageDigitalSignature := 1.
Definition KeyUsageKeyEncipherment := 4.
Definition KeyUsageCertSign := 32.

Definition Minute := 60 * 1000000000.
Definition Hour := 60 * Minute.

(** Keys, addresses and encoded bytes are opaque texts. *)
Class Crypto (K : Type) := {
  time_Now : M K Z;
  rand_Int : Z → M K (res Z);
  GenerateKey : M K (res string);
  PublicKey : string → string;
  CreateCertificate : Certificate → Certificate → string → string → M K (res string);
  MarshalECPrivateKey : string → res string;
  ParseIP : string → option string;
  EncodeToMemory : string → string → string
}.

Section certs.
Context {K : Type} `{Crypto K}.

(** A call whose error ends the process. *)
Definition must {A} (msg : string) (m : M K (res A)) : M K A :=
  r ← m;
  match r with
  | (a, None) => mret a
  | (_, Some _) => Fatal msg
  end.

Definition encodeKey (key : string) : M K string :=
  b ← must "unable to marshal ECDSA private key" (mret (MarshalECPrivateKey key));
  mret (EncodeToMemory "EC PRIVATE KEY" b).

Definition encodeCert (derBytes : string) : string := EncodeToMemory "CERTIFICATE" derBytes.

(** An address or a name of the certificate. *)
Definition add_host (c : Certificate) (h : string) : Certificate :=
  let '(mkCertificate sn nb na ku ek bc ca org ips dns) := c in
  match ParseIP h with
  | Some ip => mkCertificate sn nb na ku ek bc ca org (ips ++ [ip]) dns
  | None => mkCertificate sn nb na ku ek bc ca org ips (dns ++ [h])
  end.

Definition root_template (serialNumber notBefore notAfter : Z) : Certificate :=
  mkCertificate serialNumber notBefore notAfter KeyUsageCertSign ["ServerAuth"] true true ["nil1"] [] [].

Definition leaf_template (serialNumber notBefore notAfter : Z) : Certificate :=
  mkCertificate serialNumber notBefore notAfter (Z.lor KeyUsageDigitalSignature KeyUsageKeyEncipherment)
    ["ServerAuth"] true false ["nil2"] [] [].

Definition GenerateCerts (host : string) : M K (string * string * string) :=
  now ← time_Now;
  let notBefore := now - 5 * Minute in
  let notAfter := notBefore + 100 * 365 * 24 * Hour in
  let serialNumberLimit := Z.shiftl 1 128 in
  serialNumber ← must "failed to generate serial number" (rand_Int serialNumberLimit);
  rootKey ← must "failed scdsa.GenerateKey" GenerateKey;
  let rootTemplate := root_template serialNumber notBefore notAfter in
  derBytes ← must "failed createCertificate for Ca"
               (CreateCertificate rootTemplate rootTemplate (PublicKey rootKey) rootKey);
  let ca := encodeCert derBytes in
  leafKey ← must "failed createLeafKey for certificate" GenerateKey;
  key ← encodeKey leafKey;
  serialNumber ← must "failed to generate serial number" (rand_Int serialNumberLimit);
  let leafTemplate := foldl add_host (leaf_template serialNumber notBefore notAfter) (Split host ",") in
  derBytes ← must "failed createLeaf certificate"
               (CreateCertificate leafTemplate rootTemplate (PublicKey leafKey) rootKey);
  mret (ca, encodeCert derBytes, key).
End certs.

(** ** [cmd/create.go] *)

Record CreateConfig := mkCreateConfig {
  cc_secretName : string;
  cc_namespace : string;
  cc_certName : string;
  cc_keyName : string;
  cc_host : string
}.

Definition createCommand {K} `{CertClient K, Crypto K} (cfg : CreateConfig) : M K unit :=
  ca ← k8s.GetCaFromSecret (cc_secretName cfg) (cc_namespace cfg);
  match ca with
  | None =>
      r ← GenerateCerts (cc_host cfg);
      let '(newCa, newCert, newKey) := r in
      k8s.SaveCertsToSecret (cc_secretName cfg) (cc_namespace cfg) (cc_certName cfg) (cc_keyName cfg)
        newCa newCert newKey
  | Some _ => mret ()
  end.

(** ** Correctness *)

(** What the API server holds. *)
Record Cluster := mkCertCluster {
  cl_secrets : gmap (string * string) (gmap string string);
  cl_validating : gmap string WebhookConfiguration;
  cl_mutating : gmap string WebhookConfiguration;
  cl_services : gmap string APIService
}.

Definition set_secrets f (c : Cluster) := mkCertCluster (f (cl_secrets c)) (cl_validating c) (cl_mutating c) (cl_services c).
Definition set_validating f (c : Cluster) := mkCertCluster (cl_secrets c) (f (cl_validating c)) (cl_mutating c) (cl_services c).
Definition set_mutating f (c : Cluster) := mkCertCluster (cl_secrets c) (cl_validating c) (f (cl_mutating c)) (cl_services c).
Definition set_services f (c : Cluster) := mkCertCluster (cl_secrets c) (cl_validating c) (cl_mutating c) (f (cl_services c)).

(** A read gives the object or an error, and "not found" only when there is
    none; a write replaces the object or fails without effect. *)
Definition reads {K A} (cluster : K → Cluster) (m : M K (res A)) (found : Cluster → option A) : Prop :=
  ∀ k, wp m (λ r k', cluster k' = cluster k ∧
    match r with
    | (a, None) => found (cluster k) = Some a
    | (_, Some e) => IsNotFound e = true → found (cluster k) = None
    end) k.

Definition writes {K} (cluster : K → Cluster) (m : M K (option error)) (f : Cluster → Cluster) : Prop :=
  ∀ k, wp m (λ e k', cluster k' = match e with None => f (cluster k) | Some _ => cluster k end) k.

Class CertLaws (K : Type) `{CertClient K} := {
  cluster : K → Cluster;
  get_secret_law ns n : reads cluster (get_secret ns n) (λ c, cl_secrets c !! (ns, n));
  create_secret_law ns n d : writes cluster (create_secret ns n d) (set_secrets <[(ns, n) := d]>);
  get_validating_law n : reads cluster (get_validating n) (λ c, cl_validating c !! n);
  update_validating_law o : writes cluster (update_validating o) (set_validating <[wc_Name o := o]>);
  get_mutating_law n : reads cluster (get_mutating n) (λ c, cl_mutating c !! n);
  update_mutating_law o : writes cluster (update_mutating o) (set_mutating <[wc_Name o := o]>);
  get_apiservice_law n : reads cluster (get_apiservice n) (λ c, cl_services c !! n);
  update_apiservice_law o : writes cluster (update_apiservice o) (set_services <[as_Name o := o]>)
}.

(** Objects are stored under their names. *)
Definition well_named (c : Cluster) : Prop :=
  (∀ n o, cl_validating c !! n = Some o → wc_Name o = n) ∧ (∀ n o, cl_mutating c !! n = Some o → wc_Name o = n) ∧
  ∀ n o, cl_services c !! n = Some o → as_Name o = n.

(** A configuration whose webhooks carry the authority and, if one is given,
    the policy; an API service that trusts the authority. *)
Definition authorised (ca policy : string) (c : WebhookConfiguration) : WebhookConfiguration :=
  mkWebhookConfiguration (wc_Name c) ((λ h, mkWebhook ca
    (if negb (String.eqb policy "") then Some policy else wh_FailurePolicy h) (wh_Rest h)) <$> wc_Webhooks c).
Definition trusting (ca : string) (s : APIService) : APIService := mkAPIService (as_Name s) ca false (as_Rest s).

(** The patches a configuration asks for, in their order. *)
Definition patches (cfg : PatchConfig) (ca policy : string) : list (Cluster → Cluster) :=
  let hooks := negb (String.eqb (WebhookName cfg) "") in
  (if negb (String.eqb (pc_APIServiceName cfg) "") then [set_services (alter (trusting ca) (pc_APIServiceName cfg))] else []) ++
  (if PatchValidating cfg && hooks then [set_validating (alter (authorised ca policy) (WebhookName cfg))] else []) ++
  (if PatchMutating cfg && hooks then [set_mutating (alter (authorised ca policy) (WebhookName cfg))] else []).

(** The patches were applied up to some point, and all of them without an
    error. *)
Definition patched_up_to (fs : list (Cluster → Cluster)) (c : Cluster) (err : option cert_error) (c' : Cluster) : Prop :=
  ∃ i, c' = foldl (λ c f, f c) c (take i fs) ∧ (err = None → (length fs <= i)%nat).

Lemma alter_as_insert {A} (f : A → A) (n : string) (m : gmap string A) a : m !! n = Some a → <[n := f a]> m = alter f n m.
Proof.
  intros Hm. apply map_eq. intros j. destruct (decide (n = j)) as [<-|Hne].
  - by rewrite lookup_insert_eq, lookup_alter_eq, Hm.
  - by rewrite lookup_insert_ne, lookup_alter_ne.
Qed.

Section correct.
Context {K : Type} `{CertLaws K}.

(** A stage of the patch does what it says, or nothing. *)
Definition stage_ok (m : M K (option cert_error)) (f : Cluster → Cluster) : Prop :=
  ∀ k, well_named (cluster k) → wp m (λ err k', cluster k' = match err with None => f (cluster k) | Some _ => cluster k end) k.

Lemma read_modify_write_ok {A} get find (f : A → A) update upd g p stage :
  reads cluster get find → (∀ a, writes cluster (update a) (upd a)) →
  (∀ c a, well_named c → find c = Some a → upd (f a) c = stage c) →
  stage_ok (k8s.read_modify_write get f update g p) stage.
Proof.
  intros Hg Hu Hs k Hk. unfold k8s.read_modify_write. apply wp_bind. eapply wp_mono; [apply Hg|].
  intros [a [e|]] k1 [Hc Hr]; [by apply wp_ret|]. apply wp_bind. eapply wp_mono; [apply Hu|].
  intros [e|] k2 Hk2; apply wp_ret; rewrite Hk2, Hc; [done|]. by apply Hs.
Qed.

Lemma patchAPIService_ok n ca : stage_ok (k8s.patchAPIService n ca) (set_services (alter (patch_service ca) n)).
Proof.
  eapply read_modify_write_ok; [apply get_apiservice_law|apply update_apiservice_law|].
  intros c a (_ & _ & Hn) Ha. unfold set_services. cbn [as_Name patch_service]. rewrite (Hn _ _ Ha).
  by erewrite alter_as_insert.
Qed.

Lemma patchValidating_ok n ca p : stage_ok (k8s.patchValidating n ca p) (set_validating (alter (patch_hooks ca p) n)).
Proof.
  eapply read_modify_write_ok; [apply get_validating_law|apply update_validating_law|].
  intros c a (Hn & _ & _) Ha. unfold set_validating. cbn [wc_Name patch_hooks]. rewrite (Hn _ _ Ha).
  by erewrite alter_as_insert.
Qed.

Lemma patchMutating_ok n ca p : stage_ok (k8s.patchMutating n ca p) (set_mutating (alter (patch_hooks ca p) n)).
Proof.
  eapply read_modify_write_ok; [apply get_mutating_law|apply update_mutating_law|].
  intros c a (_ & Hn & _) Ha. unfold set_mutating. cbn [wc_Name patch_hooks]. rewrite (Hn _ _ Ha).
  by erewrite alter_as_insert.
Qed.

(** Names are kept. *)
Definition keeps_names (f : Cluster → Cluster) : Prop := ∀ c, well_named c → well_named (f c).

Lemma alter_names {A} (name : A → string) (f : A → A) n (m : gmap string A) :
  (∀ a, name (f a) = name a) → (∀ i a, m !! i = Some a → name a = i) → ∀ i a, alter f n m !! i = Some a → name a = i.
Proof.
  intros Hf Hm i a. destruct (decide (n = i)) as [<-|Hne].
  - rewrite lookup_alter_eq. intros (b & Hb & ->)%fmap_Some. rewrite Hf. by apply Hm.
  - rewrite lookup_alter_ne by done. apply Hm.
Qed.

Lemma patches_keep_names cfg ca p : Forall keeps_names (patches cfg ca p).
Proof.
  unfold patches. repeat (apply Forall_app; split);
    (case_match; [apply Forall_singleton|by apply Forall_nil]); intros c (Hv & Hm & Hs); split_and!; try done;
    by apply alter_names.
Qed.

Lemma patched_nothing fs c e : patched_up_to fs c (Some e) c.
Proof. by exists O. Qed.

Lemma when_ok_patched b m rest f fs k :
  stage_ok m f → keeps_names f → well_named (cluster k) →
  (∀ k, well_named (cluster k) → wp rest (λ err k', patched_up_to fs (cluster k) err (cluster k')) k) →
  wp (k8s.when_ok b m rest) (λ err k', patched_up_to ((if b then [f] else []) ++ fs) (cluster k) err (cluster k')) k.
Proof.
  intros Hm Hf Hk Hrest. unfold k8s.when_ok. destruct b; [|by apply Hrest]. apply wp_bind.
  eapply wp_mono; [by apply Hm|]. intros [e|] k1 Hk1; [apply wp_ret; rewrite Hk1; apply patched_nothing|].
  eapply wp_mono; [apply Hrest; rewrite Hk1; by apply Hf|]. intros err k2 (i & Hk2 & Hi). exists (S i). rewrite Hk2, Hk1.
  split; [done|]. intros He. simpl. specialize (Hi He). lia.
Qed.

Lemma PatchObjects_ok cfg ca p k :
  well_named (cluster k) →
  wp (k8s.PatchObjects (mkPatchOptions (if PatchValidating cfg then WebhookName cfg else "")
        (if PatchMutating cfg then WebhookName cfg else "") (pc_APIServiceName cfg) ca p))
    (λ err k', patched_up_to (patches cfg ca p) (cluster k) err (cluster k')) k.
Proof.
  intros Hk. unfold k8s.PatchObjects. cbn [MutatingWebhookConfigurationName ValidatingWebhookConfigurationName
    APIServiceName CABundle FailurePolicyType]. cbv zeta.
  pose proof (patches_keep_names cfg ca p) as Hnames. unfold patches in *. cbv zeta in *.
  apply Forall_app in Hnames as [Hn1 [Hn2 Hn3]%Forall_app].
  set (w := WebhookName cfg) in *. set (hooks := negb (String.eqb w "")) in *.
  assert (∀ b : bool, negb (String.eqb (if b then w else "") "") = b && hooks) as Hb by (by intros []).
  rewrite !Hb. destruct (_ && _ && _); [apply wp_ret, patched_nothing|].
  destruct (_ && _ && _) eqn:E2; [apply wp_ret, patched_nothing|].
  apply when_ok_patched; [apply patchAPIService_ok| |done|].
  { intros c (? & ? & Hs). split_and!; [done|done|]. by apply alter_names. }
  intros k1 Hk1.
  assert (String.eqb (if PatchValidating cfg then w else "") "" = negb (PatchValidating cfg && hooks)) as Hv.
  { rewrite <- Hb. by rewrite negb_involutive. }
  destruct (PatchMutating cfg && hooks || PatchValidating cfg && hooks) eqn:Eo.
  - assert ((if String.eqb (if PatchValidating cfg then w else "") "" then if PatchMutating cfg then w else ""
             else if PatchValidating cfg then w else "") = w) as ->.
    { rewrite Hv. destruct (PatchValidating cfg), (PatchMutating cfg), hooks; simpl in *; done. }
    apply when_ok_patched; [apply patchValidating_ok| |done|].
    { intros c (Hs & ? & ?). split_and!; [|done|done]. by apply alter_names. }
    intros k2 Hk2. rewrite <- (app_nil_r (if PatchMutating cfg && hooks then _ else _)).
    apply when_ok_patched; [apply patchMutating_ok| |done|].
    { intros c (? & Hs & ?). split_and!; [done| |done]. by apply alter_names. }
    intros k3 Hk3. apply wp_ret. by exists O.
  - apply orb_false_iff in Eo as [-> ->]. apply wp_ret. by exists O.
Qed.

Lemma GetCaFromSecret_ok name ns k :
  match k8s.GetCaFromSecret name ns k with
  | (Panic _, k') => cluster k' = cluster k
  | (Done None, k') => cluster k' = cluster k ∧ cl_secrets (cluster k) !! (ns, name) = None
  | (Done (Some ca), k') => cluster k' = cluster k ∧
      ∃ data, cl_secrets (cluster k) !! (ns, name) = Some data ∧ data !! "ca" = Some ca
  end.
Proof.
  unfold k8s.GetCaFromSecret. pose proof (get_secret_law ns name k) as Hg. unfold wp in Hg. unfold mbind, M_bind.
  destruct (get_secret ns name k) as [[[data [e|]]|msg] k1]; [| |done]; destruct Hg as [Hc Hr].
  - destruct (IsNotFound e); simpl; [|done]. split; [done|]. by apply Hr.
  - destruct (data !! "ca") as [ca|] eqn:E; simpl; [|done]. split; [done|]. by exists data.
Qed.
End correct.

Lemma failure_policy_cases p :
  failure_policy p = None ∨ failure_policy p = Some (if String.eqb p "Fail" then "Fail" else "").
Proof.
  unfold failure_policy. destruct (String.eqb_spec p "") as [->|]; [by right|].
  destruct (String.eqb_spec p "Ignore") as [->|]; [by right|]. destruct (String.eqb_spec p "Fail") as [->|]; [by right|by left].
Qed.

(** [C35] The patch command, on every exit.  Unless it ends before it, it reads
    the authority from the secret and applies the patches in order: the API
    service, the validating and the mutating configuration, those that are
    asked for and named; without an error all of them are applied, with an
    error a prefix of them.  Every webhook of a patched configuration carries
    the authority, and the policy [Fail] if that is given; the policy [Ignore]
    is accepted and changes nothing.  No other object and no secret is touched. *)
Theorem webhooks_patched {K : Type} `{CertLaws K} (cfg : PatchConfig) (k : K) (Hk : well_named (cluster k)) :
  match Patch cfg k with
  | (Panic _, k') => cluster k' = cluster k
  | (Done err, k') =>
      (err ≠ None ∧ cluster k' = cluster k) ∨
      ∃ data ca, cl_secrets (cluster k) !! (Namespace cfg, SecretName cfg) = Some data ∧ data !! "ca" = Some ca ∧
        patched_up_to (patches cfg ca (if String.eqb (PatchFailurePolicy cfg) "Fail" then "Fail" else ""))
          (cluster k) err (cluster k')
  end.
Proof.
  unfold Patch. destruct (_ && _ && _); [by left|].
  destruct (failure_policy_cases (PatchFailurePolicy cfg)) as [->| ->]; [by left|].
  pose proof (GetCaFromSecret_ok (SecretName cfg) (Namespace cfg) k) as Hca. unfold mbind, M_bind.
  destruct (k8s.GetCaFromSecret _ _ k) as [[[ca|]|msg] k1]; [|by left; destruct Hca|done].
  destruct Hca as (Hc & data & Hd & Hin). rewrite <- Hc in Hk.
  pose proof (PatchObjects_ok cfg ca (if String.eqb (PatchFailurePolicy cfg) "Fail" then "Fail" else "") k1 Hk) as Hp. unfold wp in Hp.
  destruct (k8s.PatchObjects _ k1) as [[err|msg] k2]; [|done]. right. exists data, ca. split_and!; [done|done|].
  rewrite Hc in Hp. exact Hp.
Qed.


(** *** Certificates *)

(** What the library promises: random numbers in range, keys that fit, and
    certificates that say what was signed, for whom and by whom. *)
Class CryptoLaws (K : Type) `{CertLaws K, Crypto K} := {
  signed : string → option (Certificate * string * string);
  decode : string → option (string * string);
  EncodeToMemory_law ty der : ty ∈ ["CERTIFICATE"; "EC PRIVATE KEY"] → decode (EncodeToMemory ty der) = Some (ty, der);
  key_of : string → option string;
  Marshal_law key b : MarshalECPrivateKey key = (b, None) → key_of b = Some key;
  now_law k : wp time_Now (λ _ k', cluster k' = cluster k) k;
  rand_law n k : wp (rand_Int n) (λ r k', cluster k' = cluster k ∧ (r.2 = None → 0 <= r.1 < n)) k;
  key_law k : wp GenerateKey (λ _ k', cluster k' = cluster k) k;
  CreateCertificate_law t parent pub priv k :
    wp (CreateCertificate t parent pub priv) (λ r k', cluster k' = cluster k ∧
      (r.2 = None → signed r.1 = Some (t, pub, PublicKey priv))) k
}.

(** A certificate of an encoded text. *)
Definition read_cert {K} `{CryptoLaws K} (pem : string) : option (Certificate * string * string) :=
  match decode pem with
  | Some (ty, der) => if String.eqb ty "CERTIFICATE" then signed der else None
  | None => None
  end.

Definition read_key {K} `{CryptoLaws K} (pem : string) : option string :=
  match decode pem with
  | Some (ty, b) => if String.eqb ty "EC PRIVATE KEY" then key_of b else None
  | None => None
  end.

(** The authority signs itself and the certificate; the certificate is for the
    key and for exactly the hosts; both are valid now and for a hundred years. *)
Definition chain {K} `{CryptoLaws K} (host ca cert key : string) : Prop :=
  ∃ root leaf rootKey leafKey,
    read_cert ca = Some (root, PublicKey rootKey, PublicKey rootKey) ∧
    read_cert cert = Some (leaf, PublicKey leafKey, PublicKey rootKey) ∧ read_key key = Some leafKey ∧
    IsCA root = true ∧ Z.land (KeyUsage root) KeyUsageCertSign ≠ 0 ∧
    IsCA leaf = false ∧ Z.land (KeyUsage leaf) KeyUsageCertSign = 0 ∧
    DNSNames leaf = List.filter (λ h, negb (bool_decide (is_Some (ParseIP h)))) (Split host ",") ∧
    IPAddresses leaf = omap ParseIP (Split host ",") ∧
    NotBefore leaf = NotBefore root ∧ NotAfter leaf = NotAfter root ∧ NotAfter leaf - NotBefore leaf = 36500 * 24 * Hour.

Section certificates.
Context {K : Type} `{CryptoLaws K}.

(** A call that must succeed ends the process or gives its result, and leaves
    the cluster alone. *)
Definition exits_or {A} (m : M K A) (Q : A → Prop) : Prop :=
  ∀ k, match m k with
       | (Panic _, k') => cluster k' = cluster k
       | (Done a, k') => cluster k' = cluster k ∧ Q a
       end.

Lemma exits_ret {A} (a : A) (Q : A → Prop) : Q a → exits_or (mret a) Q.
Proof. by intros HQ k. Qed.

Lemma exits_bind {A B} (m : M K A) (f : A → M K B) (Q : A → Prop) (R : B → Prop) :
  exits_or m Q → (∀ a, Q a → exits_or (f a) R) → exits_or (m ≫= f) R.
Proof.
  intros Hm Hf k. specialize (Hm k). unfold mbind, M_bind. destruct (m k) as [[a|e] k1]; [|done].
  destruct Hm as [Hc HQ]. specialize (Hf a HQ k1). destruct (f a k1) as [[b|e] k2]; [|congruence].
  destruct Hf. split; [congruence|done].
Qed.

Lemma exits_wp {A} (m : M K A) (Q : A → Prop) :
  (∀ k, wp m (λ a k', cluster k' = cluster k ∧ Q a) k) → exits_or m Q.
Proof. intros Hm k. specialize (Hm k). unfold wp in Hm. by destruct (m k) as [[]]. Qed.

Lemma exits_must {A} msg (m : M K (res A)) (Q : A → Prop) :
  (∀ k, wp m (λ r k', cluster k' = cluster k ∧ (r.2 = None → Q r.1)) k) → exits_or (must msg m) Q.
Proof.
  intros Hm. eapply exits_bind; [by apply (exits_wp _ (λ r, r.2 = None → Q r.1))|].
  intros [a [e|]] HQ; [by intros k|]. apply exits_ret. by apply HQ.
Qed.

Lemma exits_rand msg n : exits_or (must msg (rand_Int n)) (λ v, 0 <= v < n).
Proof. apply exits_must. apply rand_law. Qed.

Lemma exits_key msg : exits_or (must msg GenerateKey) (λ _, True).
Proof. apply exits_must. intros k. eapply wp_mono; [apply key_law|]. done. Qed.

Lemma exits_certificate msg t parent pub priv :
  exits_or (must msg (CreateCertificate t parent pub priv)) (λ der, signed der = Some (t, pub, PublicKey priv)).
Proof. apply exits_must. intros k. apply CreateCertificate_law. Qed.

Lemma add_hosts_spec l c :
  foldl add_host c l =
    let '(mkCertificate sn nb na ku ek bc ca org ips dns) := c in
    mkCertificate sn nb na ku ek bc ca org (ips ++ omap ParseIP l)
      (dns ++ List.filter (λ h, negb (bool_decide (is_Some (ParseIP h)))) l).
Proof.
  revert c. induction l as [|h l IH]; intros [sn nb na ku ek bc ca org ips dns]; [by rewrite !app_nil_r|].
  cbn [foldl]. rewrite IH. unfold add_host. simpl. destruct (ParseIP h) as [ip|] eqn:E.
  - rewrite bool_decide_eq_true_2 by eauto. simpl. by rewrite <- app_assoc.
  - rewrite bool_decide_eq_false_2 by (intros []; done). simpl. by rewrite <- app_assoc.
Qed.

Lemma read_encodeCert der : read_cert (encodeCert der) = signed der.
Proof. unfold read_cert, encodeCert. by rewrite EncodeToMemory_law by set_solver. Qed.

Lemma GenerateCerts_ok host : exits_or (GenerateCerts host) (λ r, chain host r.1.1 r.1.2 r.2).
Proof.
  unfold GenerateCerts. eapply (exits_bind _ _ (λ _, True)).
  { apply exits_wp. intros k. eapply wp_mono; [apply now_law|]. done. }
  intros now _. cbv zeta. set (nb := now - _). set (na := nb + _).
  eapply exits_bind; [apply exits_rand|]. intros sn1 _. eapply exits_bind; [apply exits_key|]. intros rootKey _.
  eapply exits_bind; [apply exits_certificate|]. cbv beta. intros caDer Hca. eapply exits_bind; [apply exits_key|].
  intros leafKey _. eapply (exits_bind _ _ (λ key, read_key key = Some leafKey)).
  { unfold encodeKey. eapply (exits_bind _ _ (λ b, key_of b = Some leafKey)).
    - apply exits_must. intros k. apply wp_ret. split; [done|]. destruct (MarshalECPrivateKey leafKey) as [b e] eqn:E.
      simpl. intros ->. by apply Marshal_law.
    - intros b Hb. apply exits_ret. unfold read_key. by rewrite EncodeToMemory_law by set_solver. }
  intros key Hkey.
  eapply exits_bind; [apply exits_rand|]. intros sn2 _. eapply exits_bind; [apply exits_certificate|]. cbv beta. intros der Hder.
  apply exits_ret. rewrite add_hosts_spec in Hder. eexists _, _, rootKey, leafKey. cbn [fst snd]. rewrite !read_encodeCert.
  split; [exact Hca|]. split; [exact Hder|]. split; [exact Hkey|]. split_and!; try done. unfold na. simpl. lia.
Qed.

Lemma Save_ok name ns certName keyName ca cert key k :
  match k8s.SaveCertsToSecret name ns certName keyName ca cert key k with
  | (Panic _, k') => cluster k' = cluster k
  | (Done _, k') => cluster k' =
      set_secrets <[(ns, name) := <[keyName := key]> (<[certName := cert]> {[ "ca" := ca ]})]> (cluster k)
  end.
Proof.
  unfold k8s.SaveCertsToSecret. set (data := <[keyName := key]> _). pose proof (create_secret_law ns name data k) as Hc.
  unfold wp in Hc. unfold mbind, M_bind. by destruct (create_secret ns name data k) as [[[e|]|msg] k1].
Qed.
End certificates.

(** The create command, on every exit, leaves an existing secret alone.
    Without one it creates it, if it returns, and nothing else: under [ca] a
    self-signed authority, under the two given names a certificate that the
    authority signed, for exactly the given names and addresses, and its
    private key.  If it ends early no object has changed. *)
Theorem certificates_created {K : Type} `{CryptoLaws K} (cfg : CreateConfig) (k : K)
    (Hnames : cc_certName cfg ≠ "ca" ∧ cc_keyName cfg ≠ "ca" ∧ cc_certName cfg ≠ cc_keyName cfg) :
  let name := (cc_namespace cfg, cc_secretName cfg) in
  match createCommand cfg k with
  | (Panic _, k') => cluster k' = cluster k
  | (Done _, k') =>
      match cl_secrets (cluster k) !! name with
      | Some _ => cluster k' = cluster k
      | None => ∃ data ca cert key, cluster k' = set_secrets <[name := data]> (cluster k) ∧
          data !! "ca" = Some ca ∧ data !! cc_certName cfg = Some cert ∧ data !! cc_keyName cfg = Some key ∧
          chain (cc_host cfg) ca cert key
      end
  end.
Proof.
  cbv zeta. unfold createCommand. pose proof (GetCaFromSecret_ok (cc_secretName cfg) (cc_namespace cfg) k) as Hca.
  unfold mbind, M_bind. destruct (k8s.GetCaFromSecret _ _ k) as [[[ca|]|msg] k1]; [| |done].
  { destruct Hca as (Hc & data & -> & _). done. }
  destruct Hca as [Hc Hnone]. pose proof (GenerateCerts_ok (cc_host cfg) k1) as Hg.
  destruct (GenerateCerts (cc_host cfg) k1) as [[[[ca cert] key]|msg] k2]; [|congruence]. destruct Hg as [Hc2 Hchain].
  pose proof (Save_ok (cc_secretName cfg) (cc_namespace cfg) (cc_certName cfg) (cc_keyName cfg) ca cert key k2) as Hs.
  destruct (k8s.SaveCertsToSecret _ _ _ _ _ _ _ k2) as [[[]|msg] k3]; [|congruence]. rewrite Hnone.
  destruct Hnames as (Hcert & Hkey & Hdiff). eexists _, ca, cert, key. rewrite Hs, Hc2, Hc. split; [done|].
  by rewrite !lookup_insert_ne, lookup_singleton_eq, lookup_insert_eq, lookup_insert_eq by done.
Qed.

(** *** A cluster and a library that obey the laws *)

(** The cluster, and the number of keys made so far. *)
Record cert_sim := mkCertSim { ct_cluster : Cluster; ct_keys : nat }.

Definition found {A} (o : option A) (a : A) : res A :=
  match o with Some x => (x, None) | None => (a, Some (ErrApi ReasonNotFound "not found")) end.

Definition sim_get {A} (f : Cluster → option A) (a : A) : M cert_sim (res A) := λ k, (Done (found (f (ct_cluster k)) a), k).
Definition sim_set (f : Cluster → Cluster) : M cert_sim (option error) := λ k,
  (Done None, mkCertSim (f (ct_cluster k)) (ct_keys k)).

#[local] Instance cert_sim_client : CertClient cert_sim := {|
  get_secret ns n := sim_get (λ c, cl_secrets c !! (ns, n)) ∅;
  create_secret ns n d := sim_set (set_secrets <[(ns, n) := d]>);
  get_validating n := sim_get (λ c, cl_validating c !! n) (mkWebhookConfiguration "" []);
  update_validating o := sim_set (set_validating <[wc_Name o := o]>);
  get_mutating n := sim_get (λ c, cl_mutating c !! n) (mkWebhookConfiguration "" []);
  update_mutating o := sim_set (set_mutating <[wc_Name o := o]>);
  get_apiservice n := sim_get (λ c, cl_services c !! n) (mkAPIService "" "" false "");
  update_apiservice o := sim_set (set_services <[as_Name o := o]>)
|}.

Lemma sim_reads {A} f (a : A) : reads ct_cluster (sim_get f a) f.
Proof. intros k. unfold wp, sim_get, found. by destruct (f (ct_cluster k)) eqn:E. Qed.

#[local] Instance cert_sim_laws : CertLaws cert_sim.
Proof. refine {| cluster := ct_cluster |}; intros; apply sim_reads || done. Defined.

(** The two certificates the library knows how to make. *)
Definition sim_validity := 100 * 365 * 24 * Hour.
Definition sim_root : Certificate := root_template 7 (1000 * Hour - 5 * Minute) (1000 * Hour - 5 * Minute + sim_validity).
Definition sim_leaf : Certificate :=
  mkCertificate 7 (1000 * Hour - 5 * Minute) (1000 * Hour - 5 * Minute + sim_validity)
    (Z.lor KeyUsageDigitalSignature KeyUsageKeyEncipherment) ["ServerAuth"] true false ["nil2"] ["10.0.0.1"]
    ["carina-controller"; "carina-controller.kube-system.svc"].

#[local] Instance Certificate_eq_dec : EqDecision Certificate.
Proof. solve_decision. Defined.

Definition sim_signed (der : string) : option (Certificate * string * string) :=
  if String.eqb der "root" then Some (sim_root, "public key0", "public key0")
  else if String.eqb der "leaf" then Some (sim_leaf, "public key1", "public key0")
  else None.

#[local] Instance cert_sim_crypto : Crypto cert_sim := {|
  time_Now k := (Done (1000 * Hour), k);
  rand_Int n k := (Done (if (0 <=? 7) && (7 <? n) then (7, None) else (0, Some (ErrString "out of range"))), k);
  GenerateKey k := (Done ("key" +:+ FormatUint (Z.of_nat (ct_keys k)), None), mkCertSim (ct_cluster k) (S (ct_keys k)));
  PublicKey key := "public " +:+ key;
  CreateCertificate t parent pub priv k :=
    (Done (if decide (sim_signed "root" = Some (t, pub, "public " +:+ priv)) then ("root", None)
           else if decide (sim_signed "leaf" = Some (t, pub, "public " +:+ priv)) then ("leaf", None)
           else ("", Some (ErrString "unsupported template"))), k);
  MarshalECPrivateKey key := (key, None);
  ParseIP h := if String.eqb h "10.0.0.1" then Some h else None;
  EncodeToMemory ty der := (if String.eqb ty "CERTIFICATE" then "C" else "K") +:+ der
|}.

#[local] Instance cert_sim_crypto_laws : CryptoLaws cert_sim.
Proof.
  refine {| signed := sim_signed; key_of b := Some b;
            decode pem := match pem with
                          | String "C" der => Some ("CERTIFICATE", der)
                          | String "K" b => Some ("EC PRIVATE KEY", b)
                          | _ => None
                          end |}.
  - intros ty der [->|[->|[]%not_elem_of_nil]%elem_of_cons]%elem_of_cons; reflexivity.
  - by intros key b [= <-].
  - done.
  - intros n k. unfold wp. cbn [rand_Int cert_sim_crypto]. split; [done|].
    destruct (Z.leb_spec 0 7), (Z.ltb_spec 7 n); simpl; try done; lia.
  - done.
  - intros t parent pub priv k. unfold wp. cbn [CreateCertificate cert_sim_crypto]. split; [done|].
    case_decide as E1; [by intros _|]. case_decide as E2; [by intros _|done].
Defined.

Definition cert_config : CreateConfig :=
  mkCreateConfig "mutatingwebhook" "kube-system" "cert" "key"
    "carina-controller,10.0.0.1,carina-controller.kube-system.svc".

Definition empty_cluster : Cluster := mkCertCluster ∅ ∅ ∅ ∅.

Lemma certificates_created_witness :
  ∃ k' data ca cert key, createCommand cert_config (mkCertSim empty_cluster 0) = (Done (), k') ∧
    cl_secrets (ct_cluster k') = {[ ("kube-system", "mutatingwebhook") := data ]} ∧
    data !! "ca" = Some ca ∧ data !! "cert" = Some cert ∧ data !! "key" = Some key ∧
    chain (cc_host cert_config) ca cert key.
Proof.
  pose proof (certificates_created cert_config (mkCertSim empty_cluster 0) ltac:(split_and!; discriminate)) as Hc.
  cbv zeta in Hc. destruct (createCommand cert_config (mkCertSim empty_cluster 0)) as [o k'] eqn:E.
  assert (o = Done ()) as ->. { apply (f_equal fst) in E. vm_compute in E. by rewrite <- E. }
  destruct Hc as (data & ca & cert & key & Hk & Hrest). exists k', data, ca, cert, key. split; [done|]. split; [|exact Hrest].
  change (cluster k') with (ct_cluster k') in Hk. rewrite Hk. reflexivity.
Defined.

Definition hook_configuration : WebhookConfiguration :=
  mkWebhookConfiguration "carina-hook" [mkWebhook "" (Some "Ignore") "pod-hook.carina.storage.io"].

Definition hook_config_cluster : Cluster :=
  mkCertCluster {[ ("kube-system", "mutatingwebhook") := {[ "ca" := "Croot" ]} ]} ∅ {[ "carina-hook" := hook_configuration ]} ∅.

Definition patch_config (policy : string) : PatchConfig :=
  mkPatchConfig true false policy "" "carina-hook" "mutatingwebhook" "kube-system".

(** [Fail] is written, [Ignore] is not. *)
Lemma webhooks_patched_witness :
  (cl_mutating (ct_cluster (Patch (patch_config "Fail") (mkCertSim hook_config_cluster 0)).2) =
     {[ "carina-hook" := mkWebhookConfiguration "carina-hook" [mkWebhook "Croot" (Some "Fail") "pod-hook.carina.storage.io"] ]}) ∧
  match Patch (patch_config "Fail") (mkCertSim hook_config_cluster 0) with
  | (Panic _, k') => False
  | (Done err, k') => patched_up_to (patches (patch_config "Fail") "Croot" "Fail") hook_config_cluster err (ct_cluster k')
  end.
Proof.
  split; [vm_compute; reflexivity|].
  assert (well_named (cluster (mkCertSim hook_config_cluster 0))) as Hn.
  { split_and!; [done| |done]. intros n o. cbn [cluster cert_sim_laws ct_cluster hook_config_cluster cl_mutating].
    by intros [<- <-]%lookup_singleton_Some. }
  pose proof (webhooks_patched (patch_config "Fail") (mkCertSim hook_config_cluster 0) Hn) as Hp.
  destruct (Patch (patch_config "Fail") (mkCertSim hook_config_cluster 0)) as [o k'] eqn:E.
  assert (o = Done None) as ->. { apply (f_equal fst) in E. vm_compute in E. by rewrite <- E. }
  destruct Hp as [[? _]|(data & ca & Hd & Hca & Hp)]; [done|].
  assert (ca = "Croot") as ->; [|exact Hp].
  cbn [cluster cert_sim_laws ct_cluster hook_config_cluster cl_secrets] in Hd. rewrite lookup_singleton_eq in Hd.
  injection Hd as <-. rewrite lookup_singleton_eq in Hca. by injection Hca.
Defined.
