(* ===== verification/DeviceCheck.v ===== *)
(** * [runners/devicecheck.go]: which disks belong to the volume groups

    The scan adds the free devices the configuration selects to the volume
    groups, and takes those out that it does not select any more.  Waiting
    five seconds between the two has no effect on the state and is left out. *)

From S2P Require Import Prelude GoStrings Api GoRuntime Mutx Exec Utils Config NodeService HostPath Kube.
From S2P Require Import LvmParse Lvmd Bcache Partition Volume Reconciler Capacity.

#[local] Open Scope string_scope.
#[local] Open Scope list_scope.
#[local] Open Scope Z_scope.

(** The triggers of [manager.go]. *)
Definition Dummy := "dummy".
Definition ConfigModify := "configModify".
Definition LVMCheck := "lvmCheck".
Definition CleanupOrphan := "cleanupOrphan".

(** The devices by group. *)
Abbreviation classes := (gmap string (list string)).

(** Append to the list of a group. *)
Definition append_to (m : classes) (k x : string) : classes := <[k := default [] (m !! k) ++ [x]]> m.

Module deviceCheck.

(** The kinds of block devices that never join a group. *)
Definition supported_type (ty : string) : bool :=
  forallb (λ t, negb (Contains ty t)) [LVMType; CryptType; MultiPath; RomType].

(** The new devices and the unbound physical volumes, merged. *)
Definition merge `{GoRuntime} (newDisk newPv : classes) : classes :=
  let newDisk := foldl (λ m kv, match newPv !! kv.1 with
                                | Some v => <[kv.1 := SliceMergeSlice kv.2 v]> m
                                | None => m
                                end) newDisk (map_range 60 newDisk) in
  foldl (λ m kv, if bool_decide (is_Some (m !! kv.1)) then m else <[kv.1 := kv.2]> m) newDisk (map_range 61 newPv).

(** The devices of each group. *)
Definition actually (vgs : list VgGroup) : classes :=
  foldl (λ m v, foldl (λ m pv, append_to m (vg_VGName v) (pv_PVName pv)) m (vg_PVS v)) ∅ vgs.

Section impl.
Context {N K : Type} `{Lvm2 N, Bcache N, HasLocks N, GoRuntime, PartitionManager N}.
Context `{KubeClient K, Notifier K, Regexp}.
Context (cfg : Settings) (NodeName : string).

Abbreviation Agent := (N * K)%type.

(** One device against the selector [matches] of the group [name]. *)
Definition discover_one (name : string) (matches : string → bool) (d : LocalDisk)
    (acc : classes * gset string) : M N (classes * gset string) :=
  let '(blockClass, hasMatchedDisk) := acc in
  if ld_HavePartitions d then mret acc
  else if Contains (ld_Name d) "cache" then mret acc
  else if negb (supported_type (ld_Type d)) then mret acc
  else if negb (matches (ld_Name d)) then mret acc
  else
    r ← GetDiskUsed (ld_Name d);
    match r with
    | (_, Some _) => mret acc
    | (dused, None) =>
        if 0 <? dused then mret acc
        else if ContainsString (default [] (blockClass !! name)) (ld_Name d) then mret acc
        else if bool_decide (ld_Name d ∈ hasMatchedDisk) then mret acc
        else mret (append_to blockClass name (ld_Name d), {[ld_Name d]} ∪ hasMatchedDisk)
    end.

Definition discoverDisk (diskClass : gmap string DiskSelectorItem) : M N (res classes) :=
  r ← ListDevicesDetail "";
  match r with
  | (_, Some err) => mret (∅, Some err)
  | ([], None) => mret (∅, None)
  | (localDisk, None) =>
      acc ← for_acc (map_range 62 diskClass) (∅, ∅) (λ kv acc,
        let ds := kv.2 in
        if String.eqb (ToLower (ds_Policy ds)) "raw" then mret acc
        else match Compile (Join (ds_Re ds) "|") with
             | None => mret acc
             | Some matches => for_acc localDisk acc (discover_one (ds_Name ds) matches)
             end);
      mret (acc.1, None)
  end.

(** One physical volume against the selector of the group [ds]. *)
Definition discover_pv (ds : DiskSelectorItem) (matches : string → bool) (pv : PVInfo) (resp : classes) : M N classes :=
  (if String.eqb (pv_VGName pv) (ds_Name ds) then _ ← PVResize (pv_PVName pv); mret () else mret ()) ;;
  if negb (String.eqb (pv_VGName pv) "") then mret resp
  else if negb (matches (pv_PVName pv)) then mret resp
  else
    r ← ListDevicesDetailWithoutFilter (pv_PVName pv);
    match r with
    | ([disk], None) =>
        if ContainsString (default [] (resp !! ds_Name ds)) (ld_Name disk) then mret resp
        else mret (append_to resp (ds_Name ds) (ld_Name disk))
    | _ => mret resp
    end.

Definition discoverPv (diskClass : gmap string DiskSelectorItem) : M N (res classes) :=
  r ← LocalVolumeImplement.GetCurrentPvStruct;
  match r with
  | (_, Some err) => mret (∅, Some err)
  | (pvList, None) =>
      r ← range (map_range 63 diskClass) ∅ (λ kv resp,
        let ds := kv.2 in
        if String.eqb (ToLower (ds_Policy ds)) "raw" then mret (Next resp)
        else match Compile (Join (ds_Re ds) "|") with
             | None => mret (Return resp)
             | Some matches => resp ← for_acc pvList resp (discover_pv ds matches); mret (Next resp)
             end);
      match r with
      | inl resp => mret (resp, None)
      | inr resp => mret (resp, Some (ErrString "error parsing regexp"))
      end
  end.

(** The devices that are not in their group yet. *)
Definition add_disks (actuallyVgMap newDisk : classes) : M N unit :=
  for_each (map_range 64 newDisk) (λ kv,
    let '(vg, pvs) := kv in
    for_each pvs (λ pv,
      if ContainsString (default [] (actuallyVgMap !! vg)) pv then mret ()
      else _ ← LocalVolumeImplement.AddNewDiskToVg pv vg; mret ())).

(** A device of a group that is gone, or that the selector does not match. *)
Definition remove_one (matches : string → bool) (v : VgGroup) (pv : PVInfo) : M N unit :=
  if Contains (pv_PVName pv) "unknown" then _ ← RemoveUnknownDevice (pv_VGName pv); mret ()
  else if matches (pv_PVName pv) then mret ()
  else _ ← LocalVolumeImplement.RemoveDiskInVg (pv_PVName pv) (vg_VGName v); mret ().

(** [inr] when the whole scan ends at a selector that does not compile. *)
Definition remove_disks (diskClass : gmap string DiskSelectorItem) (vgs : list VgGroup) : M N (unit + unit) :=
  range vgs () (λ v _,
    match diskClass !! vg_VGName v with
    | None => mret (Next ())
    | Some ds =>
        match Compile (Join (ds_Re ds) "|") with
        | None => mret (Return ())
        | Some matches => for_each (vg_PVS v) (remove_one matches v) ;; mret (Next ())
        end
    end).

Definition addAndRemoveDevice : M Agent unit :=
  diskClass ← nodeStorageResourceReconciler.GetNodeDiskSelectGroup cfg NodeName;
  r ← on_fst LocalVolumeImplement.GetCurrentVgStruct;
  match r with
  | (_, Some _) => mret ()
  | (changeBefore, None) =>
      r ← on_fst (discoverDisk diskClass);
      match r with
      | (_, Some _) => mret ()
      | (newDisk, None) =>
          r ← on_fst (discoverPv diskClass);
          match r with
          | (_, Some _) => mret ()
          | (newPv, None) =>
              on_fst (add_disks (actually changeBefore) (merge newDisk newPv)) ;;
              r ← on_fst LocalVolumeImplement.GetCurrentVgStruct;
              match r with
              | (_, Some _) => mret ()
              | (actuallyVg, None) =>
                  r ← on_fst (remove_disks diskClass actuallyVg);
                  match r with
                  | inr _ => mret ()
                  | inl _ =>
                      r ← on_fst LocalVolumeImplement.GetCurrentVgStruct;
                      match r with
                      | (_, Some _) => mret ()
                      | (changeAfter, None) =>
                          if decide (changeBefore = changeAfter) then mret ()
                          else on_snd (notify LVMCheck)
                      end
                  end
              end
          end
      end
  end.

(** *** The loop of [Start] *)

Inductive event := Tick | ConfigModified.

(** The interval the timer starts with. *)
Definition start_interval : Z := if DiskScanInterval cfg =? 0 then 300 else DiskScanInterval cfg.

(** One turn of the loop: the new interval, and the interval the timer is
    reset to, if it is.  The notice after a change of the configuration is
    sent ten seconds later. *)
Definition turn (ev : event) (monitorInterval : Z) : M Agent (Z * option Z) :=
  match ev with
  | Tick =>
      if DiskScanInterval cfg =? 0 then mret (monitorInterval, Some 300)
      else
        let reset := negb (monitorInterval =? DiskScanInterval cfg) in
        addAndRemoveDevice ;;
        on_snd (notify Dummy) ;;
        mret (DiskScanInterval cfg, if reset then Some (DiskScanInterval cfg) else None)
  | ConfigModified =>
      addAndRemoveDevice ;;
      on_snd (notify ConfigModify) ;;
      mret (monitorInterval, None)
  end.

End impl.

(** The settings may change before every event. *)
Definition Start {N K : Type} `{Lvm2 N, Bcache N, HasLocks N, GoRuntime, PartitionManager N}
    `{KubeClient K, Notifier K, Regexp} (NodeName : string) (cfg : Settings) (events : list (event * Settings))
  : M (N * K) Z :=
  on_fst LocalVolumeImplement.RefreshLvmCache ;;
  addAndRemoveDevice cfg NodeName ;;
  for_acc events (start_interval cfg) (λ ev i, r ← turn ev.2 NodeName ev.1 i; mret r.1).
End deviceCheck.
