(* ===== verification/TroubleShoot.v ===== *)
(** * [runners/troubleshoot.go]: volumes and partitions nobody asked for

    Every ten minutes the node compares its volumes and partitions with the
    [LogicVolume] objects it can see, and removes those that have none; a
    volume whose [PersistentVolume] still exists gets its object back. *)

From S2P Require Import Prelude GoStrings Api GoRuntime Mutx Exec Utils Config NodeService HostPath Kube.
From S2P Require Import LvmParse Lvmd Bcache Partition Volume Reconciler Capacity DeviceCheck.

#[local] Open Scope string_scope.
#[local] Open Scope list_scope.
#[local] Open Scope Z_scope.

(** [linux.System().ScanDisk], called past the partition manager. *)
Class DiskSystem (St : Type) := {
  System_ScanDisk : string → M St (res DiskoDisk)
}.

#[export] Instance DiskSystem_Node W `{Disko W} : DiskSystem (Node W) := {|
  System_ScanDisk dev := LocalPartitionImplement.sys (sys_ScanDisk dev)
|}.

Module troubleShoot.

(** [name[7:]] of a name that starts with [VolumePrefix]. *)
Definition pv_of (name : string) : string := sdrop 7 name.

(** The names of the volumes the objects stand for. *)
Definition expected_volumes (items : list LogicVolume) : gset string :=
  foldl (λ m v,
    if String.eqb (mget (lv_Annotations v) VolumeManagerType) RawVolumeType then m
    else {[VolumePrefix +:+ lv_Name v]} ∪ m) ∅ items.

Definition expected_partitions (items : list LogicVolume) : gset string :=
  foldl (λ m v,
    if String.eqb (mget (lv_Annotations v) VolumeManagerType) LvmVolumeType then m
    else {[PartitionName (lv_Name v)]} ∪ m) ∅ items.

(** The object a [PersistentVolume] with these attributes came from. *)
Definition repaired (pv : PvObject) (handle : string) (attrs : gmap string string) : LogicVolume :=
  let major := (ParseUint (mget attrs VolumeDeviceMajor) 32).1 in
  let minor := (ParseUint (mget attrs VolumeDeviceMinor) 32).1 in
  let deviceGroup := mget attrs DeviceDiskKey in
  let deviceGroup := if String.eqb deviceGroup "" then mget attrs (DeviceCapacityKeyPrefix +:+ "disk-type")
                     else deviceGroup in
  mkLogicVolume "LogicVolume" "carina.storage.io/v1" (po_Name pv) "" {[VolumeManagerType := LvmVolumeType]}
    [LogicVolumeFinalizer] [] false ""
    (mkLvSpec (mget attrs VolumeDeviceNode) (po_Storage pv) deviceGroup
       (mget attrs "csi.storage.k8s.io/pvc/name") (mget attrs "csi.storage.k8s.io/pvc/namespace"))
    (mkLvStatus handle OK "" (Some (po_Storage pv)) "Success" (u32 major) (u32 minor)).

Section impl.
Context {N K : Type} `{Lvm2 N, Bcache N, HasLocks N, GoRuntime, PartitionManager N, DiskSystem N}.
Context `{KubeClient K, Notifier K}.
Context (NodeName : string).

Abbreviation Agent := (N * K)%type.

(** One local volume; the accumulator tells whether any was deleted. *)
Definition check_volume (mapLvList : gset string) (v : LvInfo) (deleteVolume : bool) : M Agent bool :=
  if negb (bool_decide (lvi_LVName v ∈ mapLvList)) && HasPrefix (lvi_LVName v) VolumePrefix then
    w ← on_snd look;
    let pv := (ob_pv (vw_objects w) (pv_of (lvi_LVName v))).1 in
    if negb (String.eqb (po_Name pv) "") then
      match po_CSI pv with
      | None => panic nil_deref
      | Some (handle, attrs) =>
          _ ← on_snd (call (ApiCreate (repaired pv handle attrs)));
          mret deleteVolume
      end
    else
      err ← on_fst (LocalVolumeImplement.DeleteVolume (lvi_LVName v) (lvi_VGName v));
      match err with
      | Some _ => mret deleteVolume
      | None => mret true
      end
  else mret deleteVolume.

Definition cleanupOrphanVolume : M Agent unit :=
  r ← on_fst (LocalVolumeImplement.VolumeList "" "");
  let volumeList := r.1 in
  w ← on_snd look;
  match vw_cache_by_node w NodeName with
  | (_, Some _) => mret ()
  | (items, None) =>
      deleteVolume ← for_acc volumeList false (check_volume (expected_volumes items));
      if (deleteVolume : bool) then on_snd (notify CleanupOrphan) else mret ()
  end.

(** One partition of the disk. *)
Definition check_partition (mapLvList : gset string) (disk : DiskoDisk) (p : DiskoPartition)
    (deletePartion : bool) : M N bool :=
  if negb (HasPrefix (p_Name p) CarinaPrefix) then mret deletePartion
  else if bool_decide (p_Name p ∈ mapLvList) then mret deletePartion
  else
    err ← DeletePartitionByPartNumber disk (p_Number p);
    match err with
    | Some _ => mret deletePartion
    | None => mret true
    end.

(** One disk; the pass ends at the first that cannot be scanned. *)
Definition sweep_row (mapLvList : gset string) (d : LocalDisk) (deletePartion : bool) : M Agent (ctl bool unit) :=
  if String.eqb (ld_Type d) "part" then mret (Next deletePartion)
  else
    r ← on_fst (System_ScanDisk (ld_Name d));
    match r with
    | (_, Some _) => mret (Return ())
    | (disk, None) =>
        b ← on_fst (for_acc (map_range 65 (dd_Partitions disk)) deletePartion
                      (λ kp, check_partition mapLvList disk kp.2));
        mret (Next b)
    end.

Definition cleanupOrphanPartition : M Agent unit :=
  r ← on_fst (ListDevicesDetail "");
  let disklist := r.1 in
  w ← on_snd look;
  match vw_cache_by_node w NodeName with
  | (_, Some _) => mret ()
  | (items, None) =>
      let mapLvList := expected_partitions items in
      r ← range disklist false (sweep_row mapLvList);
      match r with
      | inr _ => mret ()
      | inl deletePartion => if (deletePartion : bool) then on_snd (notify CleanupOrphan) else mret ()
      end
  end.

(** [Start]: both checks at every tick. *)
Definition Start (ticks : nat) : M Agent unit :=
  for_each (List.seq 0 ticks) (λ _, cleanupOrphanVolume ;; cleanupOrphanPartition).
End impl.
End troubleShoot.
