(* ===== verification/LvmSpec.v ===== *)
(** * What lvm2 promises

    The volume groups, physical and logical volumes of a node as an abstract
    state [lvm], and the effect of each command the agent runs as a step
    relation on it.  [Lvm2Laws] is what an implementation of the [Lvm2]
    interface promises its client, the volume manager, in terms of that state;
    [LvmToolsLaws] is what the documented command line tools do, of which
    [LvmdCorrect] derives the promise for [Lvm2Implement]. *)

From S2P Require Import Prelude GoStrings Api GoRuntime Mutx Exec Utils LvmParse Lvmd.

#[local] Open Scope string_scope.
#[local] Open Scope list_scope.
#[local] Open Scope Z_scope.

(** ** The abstract state *)

(** Groups by name, volumes by group and name, as the tools report them.
    Missing devices share a name, so the physical volumes are a list. *)
Record lvm := mkLvm {
  l_vgs : gmap string VgGroup;
  l_pvs : list PVInfo;
  l_lvs : gmap (string * string) LvInfo
}.

(** lvm(8), VALID NAMES: no slash, no leading hyphen. *)
Definition valid_name (n : string) : bool := negb (has_char "/" n) && negb (HasPrefix n "-").

(** The volumes of a group. *)
Definition lv_count (vg : string) (m : gmap (string * string) LvInfo) : Z :=
  Z.of_nat (size (filter (λ kv, kv.1.1 = vg) m)).

Record wf_lvm (s : lvm) : Prop := {
  wf_vgs n g : l_vgs s !! n = Some g →
    vg_VGName g = n ∧ wf_vg g ∧ vg_LVCount g = lv_count n (l_lvs s);
  wf_pvs p : p ∈ l_pvs s → wf_pv p;
  wf_lvs vg n i : l_lvs s !! (vg, n) = Some i →
    lvi_VGName i = vg ∧ lvi_LVName i = n ∧ n ≠ "" ∧ valid_name (lvi_PoolLV i) ∧ wf_lv i ∧
    is_Some (l_vgs s !! vg)
}.

Definition set_vg (g : VgGroup) (s : lvm) : lvm :=
  mkLvm (<[vg_VGName g := g]> (l_vgs s)) (l_pvs s) (l_lvs s).
Definition set_lv (i : LvInfo) (s : lvm) : lvm :=
  mkLvm (l_vgs s) (l_pvs s) (<[(lvi_VGName i, lvi_LVName i) := i]> (l_lvs s)).
Definition set_pvs (ps : list PVInfo) (s : lvm) : lvm := mkLvm (l_vgs s) ps (l_lvs s).

(** [g] with other counts and sizes. *)
Definition vg_resized (g : VgGroup) (dpv dlv dsize dfree : Z) : VgGroup :=
  mkVG (vg_VGName g) (vg_PVCount g + dpv) (vg_LVCount g + dlv) (vg_VGAttr g)
    (vg_VGSize g + dsize) (vg_VGFree g + dfree) (vg_PVS g).
Definition lv_sized (i : LvInfo) (size : Z) : LvInfo :=
  mkLV (lvi_LVName i) (lvi_VGName i) (lvi_LVPath i) size (lvi_LVKernelMajor i)
    (lvi_LVKernelMinor i) (lvi_Origin i) (lvi_OriginSize i) (lvi_PoolLV i) (lvi_ThinCount i)
    (lvi_LVTags i) (lvi_DataPercent i) (lvi_LVAttr i) (lvi_LVActive i).
(** The row of the device [p] names becomes [p]. *)
Definition replace_pv (p : PVInfo) (ps : list PVInfo) : list PVInfo :=
  (λ q, if String.eqb (pv_PVName q) (pv_PVName p) then p else q) <$> ps.

(** A thin volume takes no space of its group. *)
Definition consumed (i : LvInfo) : Z :=
  if String.eqb (lvi_PoolLV i) "" then lvi_LVSize i else 0.

(** What [lvremove] of a volume takes with it: the volumes of a pool. *)
Definition dropped (vg lv : string) (k : string * string) (i : LvInfo) : bool :=
  String.eqb k.1 vg && (String.eqb k.2 lv || String.eqb (lvi_PoolLV i) lv).

Definition drop_lvs (P : string * string → LvInfo → bool) (m : gmap (string * string) LvInfo) :=
  filter (λ kv, P kv.1 kv.2 = false) m.

(** ** The commands *)

Inductive lvm_cmd :=
| CPvCreate (dev : string)
| CPvRemove (dev : string)
| CPvMove (dev : string)
| CVgCreate (vg dev : string)
| CVgExtend (vg dev : string)
| CVgReduce (vg dev : string)
| CVgRemove (vg : string)
| CLvCreate (lv vg : string) (gib : Z)
| CLvRemove (lv vg : string)
| CLvResize (lv vg : string) (gib : Z)
| CPoolResize (lv vg : string) (gib : Z)
| CPvResize (dev : string)
| CReduceMissing (vg : string).

Definition gib_arg (gib : Z) : string := FormatUint gib +:+ "g".

Definition cmdline (c : lvm_cmd) : command :=
  match c with
  | CPvCreate dev => ("pvcreate", [dev])
  | CPvRemove dev => ("pvremove", [dev])
  | CPvMove dev => ("pvmove", [dev])
  | CVgCreate vg dev => ("vgcreate", ["--add-tag=" +:+ vg; vg; dev])
  | CVgExtend vg dev => ("vgextend", [vg; dev])
  | CVgReduce vg dev => ("vgreduce", [vg; dev])
  | CVgRemove vg => ("vgremove", ["-f"; vg])
  | CLvCreate lv vg gib => ("lvcreate", ["-n"; lv; "-L"; gib_arg gib; "-W"; "y"; "-y"; vg])
  | CLvRemove lv vg => ("lvremove", ["-f"; lv_arg vg lv])
  | CLvResize lv vg gib => ("lvresize", ["-L"; gib_arg gib; lv_arg vg lv])
  | CPoolResize lv vg gib => ("lvresize", ["-f"; "-L"; gib_arg gib; lv_arg vg lv])
  | CPvResize dev => ("pvresize", [dev])
  | CReduceMissing vg => ("vgreduce", ["--removemissing"; vg])
  end.

(** Commands whose names the tools accept. *)
Definition valid_cmd (c : lvm_cmd) : Prop :=
  match c with
  | CPvCreate dev | CPvRemove dev | CPvMove dev | CPvResize dev => safe dev
  | CVgCreate vg dev | CVgExtend vg dev | CVgReduce vg dev => valid_name vg ∧ vg ≠ "" ∧ safe vg ∧ safe dev
  | CVgRemove vg | CReduceMissing vg => valid_name vg
  | CLvCreate lv vg gib => valid_name lv ∧ lv ≠ "" ∧ safe lv ∧ valid_name vg ∧ is_u64 gib
  | CLvRemove lv vg => valid_name lv ∧ valid_name vg
  | CLvResize lv vg gib | CPoolResize lv vg gib => valid_name lv ∧ valid_name vg ∧ is_u64 gib
  end.

(** Extents are allocated, freed or moved: the devices, their groups and sizes
    stay, their free space and attributes may change. *)
Definition pv_id (p : PVInfo) : string * string * Z := (pv_PVName p, pv_VGName p, pv_PVSize p).
Definition same_devices (ps ps' : list PVInfo) : Prop :=
  pv_id <$> ps' = pv_id <$> ps ∧ Forall wf_pv ps'.
Definition pv_shuffle (s s' : lvm) : Prop :=
  l_vgs s' = l_vgs s ∧ l_lvs s' = l_lvs s ∧ same_devices (l_pvs s) (l_pvs s').

(** [p'] is the row of the device of [p] once it is in the group [vg], or in
    none; its usable size is rounded to the extents of the group. *)
Definition regrouped (p : PVInfo) (vg : string) (p' : PVInfo) : Prop :=
  pv_PVName p' = pv_PVName p ∧ pv_VGName p' = vg ∧ wf_pv p'.

Definition resized_by (i : LvInfo) (gib : Z) : Z :=
  if String.eqb (lvi_PoolLV i) "" then gib * GiB - lvi_LVSize i else 0.

(** A device that is gone; [pvs] has no name for it. *)
Definition missing (vg : string) (q : PVInfo) : Prop :=
  pv_VGName q = vg ∧ Contains (pv_PVName q) "unknown" = true.

(** The effect of a command that exits with status 0. *)
Inductive lvm_step : lvm_cmd → lvm → lvm → Prop :=
| step_pvcreate dev p s :
    (∀ q, q ∈ l_pvs s → pv_PVName q = dev → pv_VGName q = "") →
    pv_PVName p = dev → pv_VGName p = "" → wf_pv p →
    lvm_step (CPvCreate dev) s
      (set_pvs (filter (λ q, pv_PVName q ≠ dev) (l_pvs s) ++ [p]) s)
| step_pvremove dev s :
    (∀ q, q ∈ l_pvs s → pv_PVName q = dev → pv_VGName q = "") →
    lvm_step (CPvRemove dev) s (set_pvs (filter (λ q, pv_PVName q ≠ dev) (l_pvs s)) s)
| step_pvmove dev s s' :
    pv_shuffle s s' → (∀ q, q ∈ l_pvs s' → pv_PVName q = dev → pv_PVFree q = pv_PVSize q) →
    lvm_step (CPvMove dev) s s'
| step_vgcreate vg dev p p' g s :
    p ∈ l_pvs s → pv_PVName p = dev → pv_VGName p = "" → l_vgs s !! vg = None →
    regrouped p vg p' → vg_VGName g = vg → vg_PVCount g = 1 → vg_LVCount g = 0 →
    vg_VGSize g = pv_PVSize p' → vg_VGFree g = pv_PVSize p' → wf_vg g →
    lvm_step (CVgCreate vg dev) s (set_vg g (set_pvs (replace_pv p' (l_pvs s)) s))
| step_vgextend vg dev p p' g s :
    p ∈ l_pvs s → pv_PVName p = dev → pv_VGName p = "" → l_vgs s !! vg = Some g →
    regrouped p vg p' → wf_vg (vg_resized g 1 0 (pv_PVSize p') (pv_PVSize p')) →
    lvm_step (CVgExtend vg dev) s
      (set_vg (vg_resized g 1 0 (pv_PVSize p') (pv_PVSize p'))
        (set_pvs (replace_pv p' (l_pvs s)) s))
| step_vgreduce vg dev p p' g s :
    p ∈ l_pvs s → pv_PVName p = dev → pv_VGName p = vg → l_vgs s !! vg = Some g →
    pv_PVFree p = pv_PVSize p → 2 <= vg_PVCount g → regrouped p "" p' →
    wf_vg (vg_resized g (-1) 0 (- pv_PVSize p) (- pv_PVSize p)) →
    lvm_step (CVgReduce vg dev) s
      (set_vg (vg_resized g (-1) 0 (- pv_PVSize p) (- pv_PVSize p))
        (set_pvs (replace_pv p' (l_pvs s)) s))
| step_vgremove vg ps s :
    Forall2 (λ q q', if String.eqb (pv_VGName q) vg then regrouped q "" q' else q' = q) (l_pvs s) ps →
    lvm_step (CVgRemove vg) s
      (mkLvm (delete vg (l_vgs s)) ps (drop_lvs (λ k _, String.eqb k.1 vg) (l_lvs s)))
| step_lvcreate lv vg gib g i ps s :
    1 <= gib → lv ≠ "" → l_vgs s !! vg = Some g → l_lvs s !! (vg, lv) = None →
    gib * GiB <= vg_VGFree g →
    lvi_LVName i = lv → lvi_VGName i = vg → lvi_LVSize i = gib * GiB → lvi_PoolLV i = "" → wf_lv i →
    wf_vg (vg_resized g 0 1 0 (- (gib * GiB))) → same_devices (l_pvs s) ps →
    lvm_step (CLvCreate lv vg gib) s
      (set_pvs ps (set_vg (vg_resized g 0 1 0 (- (gib * GiB))) (set_lv i s)))
| step_lvremove lv vg g g' i ps s :
    l_vgs s !! vg = Some g → l_lvs s !! (vg, lv) = Some i →
    vg_VGName g' = vg → vg_PVCount g' = vg_PVCount g → vg_VGSize g' = vg_VGSize g →
    vg_LVCount g' = lv_count vg (drop_lvs (dropped vg lv) (l_lvs s)) →
    vg_VGFree g + consumed i <= vg_VGFree g' → wf_vg g' → same_devices (l_pvs s) ps →
    lvm_step (CLvRemove lv vg) s
      (set_pvs ps (set_vg g' (mkLvm (l_vgs s) (l_pvs s) (drop_lvs (dropped vg lv) (l_lvs s)))))
| step_lvresize lv vg gib g i ps s :
    1 <= gib → l_vgs s !! vg = Some g → l_lvs s !! (vg, lv) = Some i →
    resized_by i gib <= vg_VGFree g → is_u64 (gib * GiB) →
    wf_vg (vg_resized g 0 0 0 (- resized_by i gib)) → same_devices (l_pvs s) ps →
    lvm_step (CLvResize lv vg gib) s
      (set_pvs ps (set_vg (vg_resized g 0 0 0 (- resized_by i gib))
        (set_lv (lv_sized i (gib * GiB)) s)))
| step_poolresize lv vg gib s s' :
    lvm_step (CLvResize lv vg gib) s s' → lvm_step (CPoolResize lv vg gib) s s'
| step_pvresize_free dev p p' s :
    p ∈ l_pvs s → pv_PVName p = dev → pv_VGName p = "" → regrouped p "" p' →
    lvm_step (CPvResize dev) s (set_pvs (replace_pv p' (l_pvs s)) s)
| step_pvresize_group dev p p' g s :
    p ∈ l_pvs s → pv_PVName p = dev → pv_VGName p ≠ "" → l_vgs s !! pv_VGName p = Some g →
    regrouped p (pv_VGName p) p' →
    wf_vg (vg_resized g 0 0 (pv_PVSize p' - pv_PVSize p) (pv_PVSize p' - pv_PVSize p)) →
    lvm_step (CPvResize dev) s
      (set_vg (vg_resized g 0 0 (pv_PVSize p' - pv_PVSize p) (pv_PVSize p' - pv_PVSize p))
        (set_pvs (replace_pv p' (l_pvs s)) s))
| step_reducemissing vg g dpv dsize dfree ps s :
    l_vgs s !! vg = Some g → (∀ q, q ∈ ps → q ∈ l_pvs s) →
    (∀ q, q ∈ l_pvs s → ¬ missing vg q → q ∈ ps) →
    wf_vg (vg_resized g (- dpv) 0 (- dsize) (- dfree)) →
    lvm_step (CReduceMissing vg) s (set_vg (vg_resized g (- dpv) 0 (- dsize) (- dfree)) (set_pvs ps s)).

(** A failed command changes nothing, except that an interrupted [pvmove] may
    have moved some extents. *)
Definition lvm_fail (c : lvm_cmd) (s s' : lvm) : Prop :=
  match c with
  | CPvMove _ => pv_shuffle s s'
  | _ => s' = s
  end.

(** ** Well-formedness is preserved *)

Lemma lookup_drop_lvs P m k i :
  drop_lvs P m !! k = Some i ↔ m !! k = Some i ∧ P k i = false.
Proof. unfold drop_lvs. apply map_lookup_filter_Some. Qed.

Lemma lv_count_insert_new vg k i m :
  m !! k = None → lv_count vg (<[k:=i]> m) = lv_count vg m + (if decide (k.1 = vg) then 1 else 0).
Proof.
  intros Hk. unfold lv_count. case_decide as Hvg.
  - rewrite map_filter_insert_True by done. rewrite map_size_insert_None; [lia|].
    apply map_lookup_filter_None. by left.
  - rewrite map_filter_insert_False by done. rewrite delete_id by done. lia.
Qed.

Lemma lv_count_insert_old vg k i j m :
  m !! k = Some j → lv_count vg (<[k:=i]> m) = lv_count vg m.
Proof.
  intros Hk. rewrite <- (insert_delete_id m k j Hk) at 2.
  rewrite <- insert_delete_eq. rewrite !lv_count_insert_new; [done|apply lookup_delete_eq..].
Qed.

Lemma lv_count_drop_other vg P m :
  (∀ k i, m !! k = Some i → k.1 = vg → P k i = false) → lv_count vg (drop_lvs P m) = lv_count vg m.
Proof.
  intros HP. unfold lv_count, drop_lvs. f_equal. f_equal. apply map_eq. intros k.
  apply option_eq. intros i. rewrite !map_lookup_filter_Some. simpl. naive_solver.
Qed.

Lemma lv_count_zero vg m : lv_count vg m = 0 → ∀ k i, m !! k = Some i → k.1 ≠ vg.
Proof.
  intros Hc k i Hk Hvg. unfold lv_count in Hc.
  assert (filter (λ kv : string * string * LvInfo, kv.1.1 = vg) m = ∅) as He.
  { apply map_size_empty_inv. lia. }
  eapply map_filter_empty_not_lookup in He; [|exact Hvg]. by rewrite Hk in He.
Qed.

Lemma lv_count_none vg m : (∀ k i, m !! k = Some i → k.1 ≠ vg) → lv_count vg m = 0.
Proof.
  intros Hm. unfold lv_count.
  assert (filter (λ kv : string * string * LvInfo, kv.1.1 = vg) m = ∅) as ->;
    [|by rewrite map_size_empty].
  apply map_eq. intros k. rewrite lookup_empty. apply map_lookup_filter_None. right.
  intros i Hi. by apply (Hm k i).
Qed.

Lemma wf_pvs_Forall s : wf_lvm s → Forall wf_pv (l_pvs s).
Proof. intros []. by apply Forall_forall. Qed.

Lemma wf_replace_pv p ps : wf_pv p → Forall wf_pv ps → Forall wf_pv (replace_pv p ps).
Proof.
  intros Hp Hps. unfold replace_pv. apply Forall_fmap. eapply Forall_impl; [exact Hps|].
  intros q Hq. unfold compose. by destruct (String.eqb _ _).
Qed.

Lemma wf_set_pvs ps s : Forall wf_pv ps → wf_lvm s → wf_lvm (set_pvs ps s).
Proof. intros Hps Hs. split; simpl; [apply Hs| |apply Hs]. by rewrite <- Forall_forall. Qed.

(** Changing the row of one group. *)
Lemma wf_set_vg g s :
  wf_vg g → vg_LVCount g = lv_count (vg_VGName g) (l_lvs s) → wf_lvm s → wf_lvm (set_vg g s).
Proof.
  intros Hg Hc Hs. split; simpl.
  - intros n g'. destruct (decide (n = vg_VGName g)) as [->|Hne].
    + rewrite lookup_insert_eq. by intros [= <-].
    + rewrite lookup_insert_ne by done. apply Hs.
  - apply Hs.
  - intros vg n i Hi. destruct (wf_lvs s Hs _ _ _ Hi) as (? & ? & ? & ? & ? & Hv).
    split_and!; try done. destruct (decide (vg = vg_VGName g)) as [->|Hne];
      [by rewrite lookup_insert_eq|by rewrite lookup_insert_ne].
Qed.

(** Changing the volumes of one group together with its row. *)
Lemma wf_set_group g m s :
  wf_vg g → vg_LVCount g = lv_count (vg_VGName g) m →
  (∀ vg, vg ≠ vg_VGName g → lv_count vg m = lv_count vg (l_lvs s)) →
  (∀ vg n i, m !! (vg, n) = Some i → l_lvs s !! (vg, n) = Some i ∨
    vg = vg_VGName g ∧ lvi_VGName i = vg ∧ lvi_LVName i = n ∧ n ≠ "" ∧ valid_name (lvi_PoolLV i) ∧
    wf_lv i) →
  wf_lvm s → wf_lvm (set_vg g (mkLvm (l_vgs s) (l_pvs s) m)).
Proof.
  intros Hg Hc Hother Hm Hs. split; simpl.
  - intros n g'. destruct (decide (n = vg_VGName g)) as [->|Hne].
    + rewrite lookup_insert_eq. by intros [= <-].
    + rewrite lookup_insert_ne by done. rewrite Hother by done. apply Hs.
  - apply Hs.
  - intros vg n i Hi. destruct (decide (vg = vg_VGName g)) as [->|Hne].
    + rewrite lookup_insert_eq. destruct (Hm _ _ _ Hi) as [Hi'|(_ & ?)]; [|naive_solver eauto].
      destruct (wf_lvs s Hs _ _ _ Hi') as (? & ? & ? & ? & ? & ?). naive_solver eauto.
    + rewrite lookup_insert_ne by done. destruct (Hm _ _ _ Hi) as [Hi'|(-> & _)]; [|done].
      by apply Hs.
Qed.

Lemma wf_pv_filter (P : PVInfo → Prop) `{∀ q, Decision (P q)} s :
  wf_lvm s → Forall wf_pv (filter P (l_pvs s)).
Proof.
  intros Hs. apply Forall_forall. intros q [_ Hq]%list_elem_of_filter.
  revert q Hq. by apply Forall_forall, wf_pvs_Forall.
Qed.

Lemma wf_shuffle s s' : pv_shuffle s s' → wf_lvm s → wf_lvm s'.
Proof.
  intros (Ev & El & _ & Hp) Hs. split; rewrite ?Ev, ?El; [apply Hs| |apply Hs].
  by apply Forall_forall.
Qed.

#[local] Hint Resolve wf_set_pvs wf_replace_pv wf_pvs_Forall wf_pv_filter wf_shuffle : go_db.

(** A device enters or leaves a group. *)
Lemma wf_move_pv g p s :
  wf_vg g → vg_LVCount g = lv_count (vg_VGName g) (l_lvs s) → wf_pv p →
  wf_lvm s → wf_lvm (set_vg g (set_pvs (replace_pv p (l_pvs s)) s)).
Proof. intros Hg Hc Hp Hs. apply wf_set_vg; [done|done|]. eauto with go_db. Qed.

Lemma wf_vgremove vg ps s :
  Forall2 (λ q q', if String.eqb (pv_VGName q) vg then regrouped q "" q' else q' = q) (l_pvs s) ps →
  wf_lvm s →
  wf_lvm (mkLvm (delete vg (l_vgs s)) ps (drop_lvs (λ k _, String.eqb k.1 vg) (l_lvs s))).
Proof.
  intros Hps Hs. split; simpl.
  - intros n g [Hne Hn]%lookup_delete_Some. rewrite lv_count_drop_other; [by apply Hs|].
    intros k i _ <-. by apply String.eqb_neq.
  - intros q' (q & Hq & Hr)%(Forall2_elem_r _ _ _ _ Hps). destruct (String.eqb _ _); [apply Hr|].
    subst. by apply Hs.
  - intros v n i [Hn Hv%String.eqb_neq]%lookup_drop_lvs. simpl in Hv.
    rewrite lookup_delete_ne by done. by apply Hs.
Qed.

Lemma wf_lvcreate g i s :
  l_vgs s !! vg_VGName g = Some g → lvi_VGName i = vg_VGName g →
  l_lvs s !! (vg_VGName g, lvi_LVName i) = None → lvi_LVName i ≠ "" → lvi_PoolLV i = "" → wf_lv i →
  wf_vg (vg_resized g 0 1 0 (- lvi_LVSize i)) → wf_lvm s →
  wf_lvm (set_vg (vg_resized g 0 1 0 (- lvi_LVSize i)) (set_lv i s)).
Proof.
  intros Hg Hvg Hnone Hne Hpool Hi Hwf Hs. destruct (wf_vgs s Hs _ _ Hg) as (_ & _ & Hc).
  rewrite <- Hvg in Hnone. apply wf_set_group; simpl; [done| | | |done].
  - rewrite lv_count_insert_new by done. rewrite decide_True by done. lia.
  - intros v Hv. rewrite lv_count_insert_new by done. rewrite decide_False; simpl; [lia|congruence].
  - intros v n j. destruct (decide ((v, n) = (lvi_VGName i, lvi_LVName i))) as [[= -> ->]|Hk].
    + rewrite lookup_insert_eq. intros [= <-]. right. rewrite Hpool. by split_and!.
    + rewrite lookup_insert_ne by done. auto.
Qed.

Lemma wf_lvresize g i size dfree s :
  l_vgs s !! vg_VGName g = Some g → l_lvs s !! (vg_VGName g, lvi_LVName i) = Some i →
  is_u64 size → wf_vg (vg_resized g 0 0 0 dfree) → wf_lvm s →
  wf_lvm (set_vg (vg_resized g 0 0 0 dfree) (set_lv (lv_sized i size) s)).
Proof.
  intros Hg Hi Hu Hwf Hs. destruct (wf_vgs s Hs _ _ Hg) as (_ & _ & Hc).
  destruct (wf_lvs s Hs _ _ _ Hi) as (Hvg & _ & Hne & Hpool & (Ha & _ & Hb) & _).
  rewrite <- Hvg in Hi. apply wf_set_group; simpl; [done| | | |done].
  - rewrite (lv_count_insert_old _ _ _ _ _ Hi). lia.
  - intros v Hv. by rewrite (lv_count_insert_old _ _ _ _ _ Hi).
  - intros v n j. destruct (decide ((v, n) = (lvi_VGName i, lvi_LVName i))) as [[= -> ->]|Hk].
    + rewrite lookup_insert_eq. intros [= <-]. right. simpl. by split_and!.
    + rewrite lookup_insert_ne by done. auto.
Qed.

Lemma lvm_step_wf c s s' : lvm_step c s s' → wf_lvm s → wf_lvm s'.
Proof.
  induction 1 as [dev p s Hq Hn Hvg Hp|dev s Hq|dev s s' Hsh Hmv
    |vg dev p p' g s Hp Hn Hpv Hnone Hp' Hg Hpc Hlc Hsz Hfr Hwf|vg dev p p' g s Hp Hn Hpv Hg Hp' Hwf
    |vg dev p p' g s Hp Hn Hpv Hg Hfree Hc Hp' Hwf|vg ps s Hps
    |lv vg gib g i ps s Hgib Hne Hg Hnone Hle Hn Hvg Hsz Hpool Hi Hwf [_ Hps]
    |lv vg g g' i ps s Hg Hi Hn Hpc Hsz Hlc Hfr Hwf [_ Hps]|lv vg gib g i ps s Hgib Hg Hi Hle Hu Hwf [_ Hps]
    |lv vg gib s s' Hs IH|dev p p' s Hp Hn Hpv Hp'|dev p p' g s Hp Hn Hpv Hg Hp' Hwf
    |vg g dpv dsize dfree ps s Hg Hsub Hkeep Hwf]; intros Hs0.
  - apply wf_set_pvs; [|done]. apply Forall_app. split; [by apply wf_pv_filter|auto].
  - apply wf_set_pvs; [by apply wf_pv_filter|done].
  - by eapply wf_shuffle.
  - subst vg. apply wf_move_pv; [done| |apply Hp'|done]. rewrite Hlc.
    symmetry. apply lv_count_none. intros [v n] i Hi Hv. simpl in Hv. subst.
    destruct (wf_lvs s Hs0 _ _ _ Hi) as (_ & _ & _ & _ & _ & [? ?]). congruence.
  - destruct (wf_vgs s Hs0 _ _ Hg) as (<- & ? & Hc). apply wf_move_pv; [done| |apply Hp'|done]. simpl. lia.
  - destruct (wf_vgs s Hs0 _ _ Hg) as (<- & ? & Hlc). apply wf_move_pv; [done| |apply Hp'|done]. simpl. lia.
  - by apply wf_vgremove.
  - destruct (wf_vgs s Hs0 _ _ Hg) as (<- & _). subst lv. rewrite <- Hsz in *.
    apply wf_set_pvs; [done|]. by apply wf_lvcreate.
  - destruct (wf_vgs s Hs0 _ _ Hg) as (Hn' & _). apply wf_set_pvs; [done|].
    apply wf_set_group; simpl; [done|by rewrite Hn| | |done].
    + intros v Hv. apply lv_count_drop_other. intros k j _ <-. unfold dropped.
      destruct (String.eqb_spec k.1 vg); [congruence|done].
    + intros v n j [Hj _]%lookup_drop_lvs. by left.
  - destruct (wf_vgs s Hs0 _ _ Hg) as (<- & _). destruct (wf_lvs s Hs0 _ _ _ Hi) as (_ & <- & _).
    apply wf_set_pvs; [done|]. by apply wf_lvresize.
  - auto.
  - apply wf_set_pvs; [|done]. apply wf_replace_pv; [apply Hp'|by apply wf_pvs_Forall].
  - destruct (wf_vgs s Hs0 _ _ Hg) as (Hname & ? & Hlc). apply wf_move_pv; [done| |apply Hp'|done]. simpl.
    rewrite Hname. lia.
  - destruct (wf_vgs s Hs0 _ _ Hg) as (<- & _ & Hlc). apply wf_set_vg; [done|simpl; lia|].
    apply wf_set_pvs; [|done]. apply Forall_forall. intros q Hq. by apply (wf_pvs s Hs0), Hsub.
Qed.

Lemma lvm_fail_wf c s s' : lvm_fail c s s' → wf_lvm s → wf_lvm s'.
Proof. destruct c; simpl; intros Hf Hs; subst; eauto with go_db. Qed.

(** ** The steps read backwards *)

Lemma lvcreate_inv lv vg gib s s' :
  lvm_step (CLvCreate lv vg gib) s s' → wf_lvm s →
  ∃ g i ps, l_vgs s !! vg = Some g ∧ l_lvs s !! (vg, lv) = None ∧ gib * GiB <= vg_VGFree g ∧
    lvi_LVSize i = gib * GiB ∧ lvi_PoolLV i = "" ∧ same_devices (l_pvs s) ps ∧
    s' = mkLvm (<[vg := vg_resized g 0 1 0 (- (gib * GiB))]> (l_vgs s)) ps
           (<[(vg, lv) := i]> (l_lvs s)).
Proof.
  intros Hst Hs.
  inversion Hst as [| | | | | | |? ? ? g i ps ? Hgib Hne Hg Hnone Hle Hi Hvg Hsize Hpool Hwi Hwg Hps| | | | | |].
  destruct (wf_vgs s Hs _ _ Hg) as (Hname & _). exists g, i, ps. do 6 (split; [done|]).
  unfold set_pvs, set_vg, set_lv. simpl. by rewrite Hname, Hi, Hvg.
Qed.

Lemma lvresize_inv lv vg gib s s' :
  lvm_step (CLvResize lv vg gib) s s' → wf_lvm s →
  ∃ g i ps, l_vgs s !! vg = Some g ∧ l_lvs s !! (vg, lv) = Some i ∧ resized_by i gib <= vg_VGFree g ∧
    same_devices (l_pvs s) ps ∧
    s' = mkLvm (<[vg := vg_resized g 0 0 0 (- resized_by i gib)]> (l_vgs s)) ps
           (<[(vg, lv) := lv_sized i (gib * GiB)]> (l_lvs s)).
Proof.
  intros Hst Hs. inversion Hst as [| | | | | | | | |? ? ? g i ps ? Hgib Hg Hi Hle Hu Hwg Hps| | | |].
  destruct (wf_vgs s Hs _ _ Hg) as (Hname & _). destruct (wf_lvs s Hs _ _ _ Hi) as (Hvg & Hlv & _).
  exists g, i, ps. do 4 (split; [done|]). unfold set_pvs, set_vg, set_lv. simpl. by rewrite Hname, Hlv, Hvg.
Qed.

Lemma lvremove_inv lv vg s s' :
  lvm_step (CLvRemove lv vg) s s' → wf_lvm s →
  ∃ g g' i ps, l_vgs s !! vg = Some g ∧ l_lvs s !! (vg, lv) = Some i ∧
    vg_VGFree g + consumed i <= vg_VGFree g' ∧ same_devices (l_pvs s) ps ∧
    s' = mkLvm (<[vg := g']> (l_vgs s)) ps (drop_lvs (dropped vg lv) (l_lvs s)).
Proof.
  intros Hst Hs. inversion Hst as [| | | | | | | |? ? g g' i ps ? Hg Hi Hn Hpc Hsz Hlc Hfr Hwf Hps| | | | |].
  exists g, g', i, ps. do 4 (split; [done|]). unfold set_pvs, set_vg. simpl. by rewrite Hn.
Qed.

Lemma pvremove_inv dev s s' :
  lvm_step (CPvRemove dev) s s' →
  s' = mkLvm (l_vgs s) (filter (λ q, pv_PVName q ≠ dev) (l_pvs s)) (l_lvs s).
Proof. by inversion 1. Qed.

Lemma pvcreate_inv dev s s' :
  lvm_step (CPvCreate dev) s s' →
  ∃ p, pv_PVName p = dev ∧ pv_VGName p = "" ∧
    s' = mkLvm (l_vgs s) (filter (λ q, pv_PVName q ≠ dev) (l_pvs s) ++ [p]) (l_lvs s).
Proof. inversion 1. subst. eauto. Qed.

Lemma pvcreate_free dev s s' :
  lvm_step (CPvCreate dev) s s' → ∀ q, q ∈ l_pvs s → pv_PVName q = dev → pv_VGName q = "".
Proof. by inversion 1. Qed.

Lemma vgremove_inv vg s s' :
  lvm_step (CVgRemove vg) s s' →
  l_vgs s' = delete vg (l_vgs s) ∧ l_lvs s' = drop_lvs (λ k _, String.eqb k.1 vg) (l_lvs s).
Proof. by inversion 1. Qed.

Lemma vgreduce_inv vg dev s s' :
  lvm_step (CVgReduce vg dev) s s' → wf_lvm s →
  ∃ g p p', p ∈ l_pvs s ∧ pv_PVName p = dev ∧ pv_VGName p = vg ∧ l_vgs s !! vg = Some g ∧
    pv_PVFree p = pv_PVSize p ∧ regrouped p "" p' ∧
    s' = mkLvm (<[vg := vg_resized g (-1) 0 (- pv_PVSize p) (- pv_PVSize p)]> (l_vgs s))
           (replace_pv p' (l_pvs s)) (l_lvs s).
Proof.
  intros Hst Hs. inversion Hst as [| | | | |? ? p p' g ? Hp Hn Hpv Hg Hfree Hc Hp' Hwf| | | | | | | |].
  destruct (wf_vgs s Hs _ _ Hg) as (Hname & _). exists g, p, p'. do 6 (split; [done|]).
  unfold set_vg. simpl. by rewrite Hname.
Qed.

(** What [vgcreate] and [vgextend] have in common: the device joins the group. *)
Definition joins (vg dev : string) (s s' : lvm) : Prop :=
  ∃ p p' g, p ∈ l_pvs s ∧ pv_PVName p = dev ∧ pv_VGName p = "" ∧ regrouped p vg p' ∧
    vg_VGSize g = pv_PVSize p' + default 0 (vg_VGSize <$> l_vgs s !! vg) ∧
    vg_VGFree g = pv_PVSize p' + default 0 (vg_VGFree <$> l_vgs s !! vg) ∧
    s' = mkLvm (<[vg := g]> (l_vgs s)) (replace_pv p' (l_pvs s)) (l_lvs s).

Lemma vgcreate_inv vg dev s s' : lvm_step (CVgCreate vg dev) s s' → joins vg dev s s'.
Proof.
  inversion 1 as [| | |? ? p p' g ? Hp Hn Hpv Hnone Hp' Hg Hpc Hlc Hsz Hfr Hwf| | | | | | | | | |]; subst.
  exists p, p', g. rewrite Hnone. simpl. do 4 (split; [done|]). split_and!; [lia|lia|done].
Qed.

Lemma vgextend_inv vg dev s s' : lvm_step (CVgExtend vg dev) s s' → wf_lvm s → joins vg dev s s'.
Proof.
  intros Hst Hs. inversion Hst as [| | | |? ? p p' g ? Hp Hn Hpv Hg Hp' Hwf| | | | | | | | |]; subst.
  destruct (wf_vgs s Hs _ _ Hg) as (Hname & _). eexists p, p', _. rewrite Hg. simpl.
  do 4 (split; [done|]). split_and!.
  3:{ unfold set_vg. simpl. rewrite Hname. reflexivity. }
  all: simpl; lia.
Qed.

(** ** Which devices are in which group *)

Definition membership (p : PVInfo) : string * string := (pv_PVName p, pv_VGName p).
Definition member (l : lvm) (dev vg : string) : Prop := (dev, vg) ∈ membership <$> l_pvs l.

(** The rows of the name [dev] agree on its group. *)
Definition one_group (l : lvm) (dev : string) : Prop :=
  ∀ g g', member l dev g → member l dev g' → g = g'.

(** From [l] to [l'] devices join groups only as [J] allows, and leave them
    only as [X] allows. *)
Record moves (J X : string → string → Prop) (l l' : lvm) : Prop := {
  moves_joined dev g : g ≠ "" → member l' dev g → member l dev g ∨ J dev g;
  moves_left dev g : g ≠ "" → one_group l dev → member l dev g → member l' dev g ∨ X dev g;
  moves_one_group dev : one_group l dev → one_group l' dev
}.

Definition nobody (dev vg : string) : Prop := False.

Lemma moves_refl J X l : moves J X l l.
Proof. split; auto. Qed.

Lemma moves_trans J X l1 l2 l3 : moves J X l1 l2 → moves J X l2 l3 → moves J X l1 l3.
Proof. intros [J1 X1 O1] [J2 X2 O2]. split; naive_solver. Qed.

Lemma moves_mono (J J' X X' : string → string → Prop) l l' :
  (∀ d g, J d g → J' d g) → (∀ d g, X d g → X' d g) → moves J X l l' → moves J' X' l l'.
Proof. intros HJ HX [J1 X1 O1]. split; naive_solver. Qed.

Lemma member_elem l dev g : member l dev g ↔ ∃ q, q ∈ l_pvs l ∧ pv_PVName q = dev ∧ pv_VGName q = g.
Proof.
  unfold member. rewrite list_elem_of_fmap. unfold membership. split.
  - intros (q & [= -> ->] & Hq). by exists q.
  - intros (q & Hq & <- & <-). by exists q.
Qed.

Lemma moves_same J X l l' : membership <$> l_pvs l' = membership <$> l_pvs l → moves J X l l'.
Proof. intros E. unfold one_group, member. split; unfold one_group, member; rewrite E; auto. Qed.

Lemma moves_same_ids J X l l' : pv_id <$> l_pvs l' = pv_id <$> l_pvs l → moves J X l l'.
Proof.
  intros E. apply moves_same.
  assert (∀ ps : list PVInfo, membership <$> ps = fst <$> (pv_id <$> ps)) as Hm.
  { intros ps. rewrite <- list_fmap_compose. by apply list_fmap_ext. }
  by rewrite !Hm, E.
Qed.

Lemma moves_same_devices J X l l' : same_devices (l_pvs l) (l_pvs l') → moves J X l l'.
Proof. intros [E _]. by apply moves_same_ids. Qed.

(** Rows are dropped. *)
Lemma moves_drop J (X : string → string → Prop) l l' :
  (∀ q, q ∈ l_pvs l' → q ∈ l_pvs l) →
  (∀ q, q ∈ l_pvs l → q ∈ l_pvs l' ∨ pv_VGName q = "" ∨ X (pv_PVName q) (pv_VGName q)) → moves J X l l'.
Proof.
  intros Hsub Hkeep. split; unfold one_group; setoid_rewrite member_elem.
  - naive_solver.
  - intros dev g Hg _ (q & Hq & <- & <-). destruct (Hkeep q Hq) as [?|[?|?]]; [left; eauto|done|by right].
  - naive_solver.
Qed.

(** The rows of one name are replaced by [p']. *)
Lemma moves_replace (J X : string → string → Prop) l l' p p' :
  p ∈ l_pvs l → pv_PVName p' = pv_PVName p → l_pvs l' = replace_pv p' (l_pvs l) →
  (pv_VGName p' = "" ∨ pv_VGName p' = pv_VGName p ∨ J (pv_PVName p') (pv_VGName p')) →
  (pv_VGName p = "" ∨ pv_VGName p' = pv_VGName p ∨ X (pv_PVName p) (pv_VGName p)) → moves J X l l'.
Proof.
  intros Hp Hn E HJ HX.
  assert (∀ q', q' ∈ l_pvs l' ↔
    q' = p' ∨ q' ∈ l_pvs l ∧ pv_PVName q' ≠ pv_PVName p) as Hin.
  { intros q'. rewrite E. unfold replace_pv. rewrite list_elem_of_fmap, Hn. split.
    - intros (q & -> & Hq). destruct (String.eqb_spec (pv_PVName q) (pv_PVName p)); auto.
    - intros [->|[Hq Hne]]; [exists p; by rewrite String.eqb_refl|]. exists q'.
      by destruct (String.eqb_spec (pv_PVName q') (pv_PVName p)). }
  split; unfold one_group; setoid_rewrite member_elem; setoid_rewrite Hin.
  - intros dev g Hg (q & [->|[Hq _]] & <- & <-); [|left; eauto].
    destruct HJ as [?|[?|?]]; [done|left; exists p; split_and!; congruence|by right].
  - intros dev g Hg Hone (q & Hq & <- & <-).
    destruct (decide (pv_PVName q = pv_PVName p)) as [Heq|Hne]; [|left; exists q; auto].
    assert (pv_VGName q = pv_VGName p) as Hvg by (apply Hone; eauto).
    destruct HX as [?|[?|?]]; [congruence|left; exists p'; split_and!; auto; congruence|].
    right. congruence.
  - intros dev Hone g g' (q & [->|[Hq Hqn]] & <- & <-) (q' & [->|[Hq' Hqn']] & Hdev & <-); try congruence.
    apply Hone; eauto.
Qed.

(** What each command does to the memberships. *)
Definition joined (c : lvm_cmd) (dev vg : string) : Prop :=
  match c with
  | CVgCreate v d | CVgExtend v d => dev = d ∧ vg = v
  | _ => False
  end.
Definition left (c : lvm_cmd) (dev vg : string) : Prop :=
  match c with
  | CVgReduce v d => dev = d ∧ vg = v
  | CVgRemove v => vg = v
  | CReduceMissing v => vg = v ∧ Contains dev "unknown" = true
  | _ => False
  end.

Lemma vgremove_moves vg l l' J :
  Forall2 (λ q q', if String.eqb (pv_VGName q) vg then regrouped q "" q' else q' = q) (l_pvs l) (l_pvs l') →
  moves J (λ _ g, g = vg) l l'.
Proof.
  intros Hps.
  assert (∀ dev g, member l' dev g → g ≠ "" → member l dev g ∧ g ≠ vg) as Hback.
  { intros dev g. rewrite !member_elem. intros (q' & Hq' & <- & <-) Hg.
    destruct (Forall2_elem_r _ _ _ _ Hps Hq') as (q & Hq & Hr).
    destruct (String.eqb_spec (pv_VGName q) vg); [by destruct Hr as (_ & ? & _)|]. subst. eauto. }
  assert (∀ dev, member l' dev "" → member l dev "" ∨ member l dev vg) as Hback0.
  { intros dev. rewrite !member_elem. intros (q' & Hq' & <- & Hg).
    destruct (Forall2_elem_r _ _ _ _ Hps Hq') as (q & Hq & Hr).
    destruct (String.eqb_spec (pv_VGName q) vg); [destruct Hr as (-> & _); right; eauto|]. subst. eauto. }
  split.
  - intros dev g Hg Hm. left. by apply Hback.
  - intros dev g Hg _. rewrite !member_elem. intros (q & Hq & <- & <-).
    destruct (Forall2_elem_l _ _ _ _ Hps Hq) as (q' & Hq' & Hr).
    destruct (String.eqb_spec (pv_VGName q) vg); [by right|]. subst. left. eauto.
  - intros dev Hone g g' Hm Hm'.
    destruct (decide (g = "")) as [->|Hg], (decide (g' = "")) as [->|Hg']; [done| | |].
    + destruct (Hback _ _ Hm' Hg') as [? Hne]. destruct (Hback0 _ Hm); [by apply Hone|]. by destruct Hne; apply Hone.
    + destruct (Hback _ _ Hm Hg) as [? Hne]. destruct (Hback0 _ Hm'); [by apply Hone|]. by destruct Hne; apply Hone.
    + apply Hone; by apply Hback.
Qed.

Lemma pvcreate_moves J X dev l l' :
  lvm_step (CPvCreate dev) l l' → moves J X l l'.
Proof.
  intros Hst. pose proof (pvcreate_free _ _ _ Hst) as Hfree. destruct (pvcreate_inv _ _ _ Hst) as (p & Hn & Hvg & ->).
  assert (∀ q, q ∈ filter (λ q, pv_PVName q ≠ dev) (l_pvs l) ++ [p] ↔ q = p ∨ pv_PVName q ≠ dev ∧ q ∈ l_pvs l) as Hin.
  { intros q. rewrite elem_of_app, list_elem_of_filter, list_elem_of_singleton. tauto. }
  split; unfold one_group; setoid_rewrite member_elem; simpl; setoid_rewrite Hin.
  - intros d g Hg (q & [->|[_ Hq]] & <- & <-); [congruence|left; eauto].
  - intros d g Hg _ (q & Hq & <- & <-). left. exists q. split; [|done]. right. split; [|done].
    intros Hd. by rewrite (Hfree q Hq Hd) in Hg.
  - intros d Hone g g' (q & [->|[Hqn Hq]] & <- & <-) (q' & [->|[Hqn' Hq']] & Hd & <-); try congruence.
    apply Hone; eauto.
Qed.

Lemma lvm_step_moves c l l' : lvm_step c l l' → moves (joined c) (left c) l l'.
Proof.
  destruct 1 as [dev p s Hq Hn Hvg Hp|dev s Hq|dev s s' (_ & _ & Hsh) Hmv
    |vg dev p p' g s Hp Hn Hpv Hnone [Hn' [Hv' _]] Hg Hpc Hlc Hsz Hfr Hwf|vg dev p p' g s Hp Hn Hpv Hg [Hn' [Hv' _]] Hwf
    |vg dev p p' g s Hp Hn Hpv Hg Hfree Hc [Hn' [Hv' _]] Hwf|vg ps s Hps
    |lv vg gib g i ps s Hgib Hne Hg Hnone Hle Hn Hvg Hsz Hpool Hi Hwf Hps
    |lv vg g g' i ps s Hg Hi Hn Hpc Hsz Hlc Hfr Hwf Hps|lv vg gib g i ps s Hgib Hg Hi Hle Hu Hwf Hps
    |lv vg gib s s' Hs|dev p p' s Hp Hn Hpv [Hn' [Hv' _]]|dev p p' g s Hp Hn Hpv Hg [Hn' [Hv' _]] Hwf
    |vg g dpv dsize dfree ps s Hg Hsub Hkeep Hwf]; simpl.
  - eapply pvcreate_moves. by constructor.
  - apply moves_drop; simpl; [by intros q [_ ?]%list_elem_of_filter|]. intros q Hin.
    destruct (decide (pv_PVName q = dev)); [right; left; eauto|]. left. by apply list_elem_of_filter.
  - by apply moves_same_devices.
  - eapply (moves_replace _ _ _ _ p p'); [done|done|done| |by left]. right. right. split; congruence.
  - eapply (moves_replace _ _ _ _ p p'); [done|done|done| |by left]. right. right. split; congruence.
  - eapply (moves_replace _ _ _ _ p p'); [done|done|done|by left|]. right. right. split; congruence.
  - by apply vgremove_moves.
  - by apply moves_same_devices.
  - by apply moves_same_devices.
  - by apply moves_same_devices.
  - inversion Hs. by apply moves_same_devices.
  - eapply (moves_replace _ _ _ _ p p'); [done|done|done|by left|by left].
  - eapply (moves_replace _ _ _ _ p p'); [done|done|done| |]; auto.
  - apply moves_drop; simpl; [done|]. intros q Hq.
    destruct (decide (pv_VGName q = vg)) as [Hv|Hv], (Contains (pv_PVName q) "unknown") eqn:Hc; auto;
      left; (apply Hkeep; [done|]); intros [? ?]; congruence.
Qed.

(** ** The promise of the interface *)

Section laws.
Context (St : Type) `{Lvm2 St, HasLocks St}.

(** [m] runs [c]: on success its effect is [lvm_step c]. *)
Definition runs (view : St → lvm) (c : lvm_cmd) (m : M St (option error)) : Prop :=
  ∀ s, wf_lvm (view s) →
    wp m (λ err s', get_locks s' = get_locks s ∧
      match err with
      | None => lvm_step c (view s) (view s')
      | Some e => lvm_fail c (view s) (view s')
      end) s.

(** [m] only looks: on success its result is described by [P]. *)
Definition looks {A} (view : St → lvm) (m : M St (res A)) (P : lvm → A → Prop)
    (E : lvm → A → error → Prop) : Prop :=
  ∀ s, wf_lvm (view s) →
    wp m (λ r s', get_locks s' = get_locks s ∧ view s' = view s ∧
      match r with
      | (a, None) => P (view s) a
      | (a, Some e) => E (view s) a e
      end) s.

Definition exec_error (e : error) : Prop := ∃ m, e = ErrExec m.

Class Lvm2Laws := {
  view : St → lvm;
  view_set_locks l s : view (set_locks l s) = view s;

  PVDisplay_law dev : looks view (PVDisplay dev)
    (λ s r, ∃ p, r = Some p ∧ p ∈ l_pvs s ∧ pv_PVName p = dev)
    (λ s r e, r = None ∧
      (exec_error e ∨ e = ErrString "disk not found" ∧ ∀ p, p ∈ l_pvs s → pv_PVName p ≠ dev));
  VGDisplay_law vg : looks view (VGDisplay vg)
    (λ s r, ∃ g, r = Some g ∧ l_vgs s !! vg = Some g)
    (λ s r e, r = None ∧ (exec_error e ∨ e = ErrString "vg not found" ∧ l_vgs s !! vg = None));
  LVDisplay_law lv vg : valid_name lv → valid_name vg → looks view (LVDisplay lv vg)
    (λ s r, ∃ i, r = Some i ∧ l_lvs s !! (vg, lv) = Some i ∧ carina_lv i)
    (λ s r e, r = None ∧ ∃ m, e = ErrString m ∧
      (Contains m "not found" → ∀ i, l_lvs s !! (vg, lv) = Some i → carina_lv i = false));
  LVS_law lv vg : valid_name lv → valid_name vg → looks view (LVS (lv_arg vg lv))
    (λ s rows, ∀ i, i ∈ rows → l_lvs s !! (vg, lv) = Some i) (λ _ _ _, True);
  LVS_all_law : looks view (LVS "")
    (λ s rows, rows ≡ₚ List.filter carina_lv (map_to_list (l_lvs s)).*2) (λ _ rows _, rows = []);
  VGS_law : looks view VGS (λ s rows, rows ≡ₚ (map_to_list (l_vgs s)).*2) (λ s _ e, exec_error e);
  PVS_law : looks view PVS (λ s rows, rows = l_pvs s) (λ s _ e, exec_error e);

  PVCreate_law dev : valid_cmd (CPvCreate dev) → runs view (CPvCreate dev) (PVCreate dev);
  PVRemove_law dev : valid_cmd (CPvRemove dev) → runs view (CPvRemove dev) (PVRemove dev);
  VGCreate_law vg dev : valid_cmd (CVgCreate vg dev) →
    runs view (CVgCreate vg dev) (VGCreate vg [vg] [dev]);
  VGExtend_law vg dev : valid_cmd (CVgExtend vg dev) → runs view (CVgExtend vg dev) (VGExtend vg dev);
  VGRemove_law vg : valid_cmd (CVgRemove vg) → runs view (CVgRemove vg) (VGRemove vg);
  LVCreateFromVG_law lv vg size :
    valid_cmd (CLvCreate lv vg (Z.shiftr size 30)) →
    runs view (CLvCreate lv vg (Z.shiftr size 30)) (LVCreateFromVG lv vg size [] 0 "");
  LVCreateFromVG_error lv vg size s :
    wp (LVCreateFromVG lv vg size [] 0 "") (λ err _, ∀ e, err = Some e → exec_error e) s;
  LVRemove_law lv vg : valid_cmd (CLvRemove lv vg) → runs view (CLvRemove lv vg) (LVRemove lv vg);
  DeleteThinPool_law lv vg :
    valid_cmd (CLvRemove lv vg) → runs view (CLvRemove lv vg) (DeleteThinPool lv vg);
  LVResize_law lv vg size :
    valid_cmd (CLvResize lv vg (Z.shiftr size 30)) →
    runs view (CLvResize lv vg (Z.shiftr size 30)) (LVResize lv vg size);
  ResizeThinPool_law lv vg size :
    valid_cmd (CPoolResize lv vg (Z.shiftr size 30)) →
    runs view (CPoolResize lv vg (Z.shiftr size 30)) (ResizeThinPool lv vg size);
  PVResize_law dev : valid_cmd (CPvResize dev) → runs view (CPvResize dev) (PVResize dev);
  RemoveUnknownDevice_law vg :
    valid_cmd (CReduceMissing vg) → runs view (CReduceMissing vg) (RemoveUnknownDevice vg);
  (** The data is moved off the device before it leaves its group, and it
      loses its label last; a failure stops between two of the three. *)
  VGReduce_law vg dev s : valid_cmd (CVgReduce vg dev) → wf_lvm (view s) →
    wp (VGReduce vg dev) (λ err s', get_locks s' = get_locks s ∧
      ∃ s1, pv_shuffle (view s) s1 ∧
        match err with
        | None => ∃ s2, lvm_step (CVgReduce vg dev) s1 s2 ∧ lvm_step (CPvRemove dev) s2 (view s')
        | Some _ => view s' = s1 ∨ lvm_step (CVgReduce vg dev) s1 (view s')
        end) s
}.
End laws.

Arguments runs {St _} view c m.
Arguments looks {St _ A} view m P E.
Arguments view {St _ _ _}.
Arguments view_set_locks {St _ _ _}.
