(* ===== verification/VolumeCorrect.v ===== *)
(** * Correctness of the volume manager

    The operations of [LocalVolumeImplement] against the promise of the
    [Lvm2] interface: the contract of each operation is a relation between
    the abstract lvm states before and after, and the theorems show that the
    code keeps it on every branch, never panics, and gives its lock back. *)

From S2P Require Import Prelude GoStrings Api GoRuntime Mutx Exec Utils LvmParse Lvmd Bcache Volume LvmSpec.

#[local] Open Scope string_scope.
#[local] Open Scope list_scope.
#[local] Open Scope Z_scope.

Import LocalVolumeImplement.

Definition busy_error : option error := Some (ErrString "get global mutex failed").

(** ** What a bcache implementation promises the volume manager: it does not
    touch the volume groups, and never returns neither a device nor an error. *)
Class BcacheLaws (St : Type) `{Lvm2Laws St} `{Bcache St} : Prop := {
  quiet_ShowDevice dev s : wp (ShowDevice dev) (λ r s',
    get_locks s' = get_locks s ∧ view s' = view s ∧ r ≠ (None, None)) s;
  quiet_GetDeviceBcache dev s : wp (GetDeviceBcache dev) (λ r s',
    get_locks s' = get_locks s ∧ view s' = view s ∧ r ≠ (None, None)) s;
  quiet_RemoveBcache d s : wp (RemoveBcache d) (λ r s',
    get_locks s' = get_locks s ∧ view s' = view s) s
}.

(** ** The contracts *)

(** What is kept back when a volume is created or grown: 10 GiB, less 1 GiB
    because sizes are rounded to GiB. *)
Definition reserve : Z := DefaultReservedSpace - DefaultEdgeSpace.

Definition create_contract (lv vg : string) (size : Z) (l : lvm) (err : option error) (l' : lvm) : Prop :=
  let key := (vg, VolumePrefix +:+ lv) in
  match err with
  | Some e =>
      l' = l ∧
      (l_vgs l !! vg = None → exec_error e ∨ e = ErrString "vg not found") ∧
      (∀ g, l_vgs l !! vg = Some g → 0 <= vg_VGFree g - size < reserve →
        exec_error e ∨ e = ErrString ResourceExhausted)
  | None =>
      (∃ i, l_lvs l !! key = Some i ∧ l' = l) ∨
      (∃ g i, l_vgs l !! vg = Some g ∧ l_lvs l !! key = None ∧
        lvi_LVSize i = Z.shiftr size 30 * GiB ∧ lvi_PoolLV i = "" ∧
        l_lvs l' = <[key := i]> (l_lvs l) ∧
        l_vgs l' = <[vg := vg_resized g 0 1 0 (- lvi_LVSize i)]> (l_vgs l) ∧
        same_devices (l_pvs l) (l_pvs l') ∧
        (size mod GiB = 0 → reserve <= vg_VGFree g - size))
  end.

(** [resize_contract]: a volume of the right size is left alone; otherwise the
    volume (after its pool, for a thin volume of an earlier release) gets its
    new size.  [unknown l]: the tools cannot show the volume, which the source
    takes for success. *)
Definition resize_contract (unknown : lvm → Prop) (lv vg : string) (size ratio : Z)
    (l : lvm) (err : option error) (l' : lvm) : Prop :=
  let name := VolumePrefix +:+ lv in
  let pool_step i l1 :=
    lvi_PoolLV i ≠ "" ∧
    lvm_step (CPoolResize (lvi_PoolLV i) vg (Z.shiftr (u64_mul size ratio) 30)) l l1 in
  match err with
  | Some e =>
      (l' = l ∨ ∃ i, l_lvs l !! (vg, name) = Some i ∧ pool_step i l') ∧
      (∀ g i, l_vgs l !! vg = Some g → l_lvs l !! (vg, name) = Some i →
        0 <= vg_VGFree g - (size - lvi_LVSize i) < reserve →
        exec_error e ∨ e = ErrString ResourceExhausted)
  | None =>
      (unknown l ∧ l' = l) ∨
      ∃ g i, l_vgs l !! vg = Some g ∧ l_lvs l !! (vg, name) = Some i ∧
        ((lvi_LVSize i = size ∧ l' = l) ∨
         (lvi_LVSize i ≠ size ∧
          (∃ l1, (l1 = l ∨ pool_step i l1) ∧ lvm_step (CLvResize name vg (Z.shiftr size 30)) l1 l') ∧
          (lvi_PoolLV i = "" → size mod GiB = 0 →
            reserve <= vg_VGFree g - (size - lvi_LVSize i))))
  end.

(** Volumes leave the group [vg] and give their space back; only those that
    satisfy [D] may go, and nothing else changes. *)
Definition shrinks (vg : string) (D : string * string → LvInfo → Prop) (l l' : lvm) : Prop :=
  pv_id <$> l_pvs l' = pv_id <$> l_pvs l ∧ l_lvs l' ⊆ l_lvs l ∧
  (∀ k i, l_lvs l !! k = Some i → l_lvs l' !! k = None → D k i) ∧
  (∀ v, v ≠ vg → l_vgs l' !! v = l_vgs l !! v) ∧
  (∀ g, l_vgs l !! vg = Some g → ∃ g', l_vgs l' !! vg = Some g' ∧ vg_VGFree g <= vg_VGFree g').

Definition vol_name (lvName : string) : string :=
  if negb (HasPrefix lvName VolumePrefix) then VolumePrefix +:+ lvName else lvName.

(** What a deletion may take with it: the volume; its thin pool, if it has
    one, and the volumes of that pool. *)
Definition doomed (l : lvm) (vg name : string) (k : string * string) (i : LvInfo) : Prop :=
  k.1 = vg ∧ (k.2 = name ∨ lvi_PoolLV i = name ∨
    ∃ i0, l_lvs l !! (vg, name) = Some i0 ∧ lvi_PoolLV i0 ≠ "" ∧
          (k.2 = lvi_PoolLV i0 ∨ lvi_PoolLV i = lvi_PoolLV i0)).

Definition delete_contract (lvName vg : string) (l : lvm) (err : option error) (l' : lvm) : Prop :=
  let name := vol_name lvName in
  shrinks vg (doomed l vg name) l l' ∧
  match err with
  | None =>
      l_lvs l' !! (vg, name) = None ∧
      (∀ g i, l_vgs l !! vg = Some g → l_lvs l !! (vg, name) = Some i →
        ∃ g', l_vgs l' !! vg = Some g' ∧ vg_VGFree g + consumed i <= vg_VGFree g')
  | Some e => l' = l ∨ l_lvs l' !! (vg, name) = None
  end.

(** The device [disk] is reported once (missing devices share a name). *)
Definition unique_pv (disk : string) (l : lvm) : Prop :=
  ∀ p q, p ∈ l_pvs l → q ∈ l_pvs l → pv_PVName p = disk → pv_PVName q = disk → p = q.

(** Taking a device out of a group loses no volume; it is allowed only if the
    group can spare the device's size and keep its reserve, or was empty.  No
    other device leaves a group that holds volumes. *)
Definition may_leave (disk vg : string) (l : lvm) (dev g : string) : Prop :=
  g = vg ∧ (dev = disk ∨ lv_count vg (l_lvs l) = 0).

Definition remove_contract (disk vg : string) (l : lvm) (err : option error) (l' : lvm) : Prop :=
  l_lvs l' = l_lvs l ∧ (∀ v, v ≠ vg → l_vgs l' !! v = l_vgs l !! v) ∧
  moves nobody (may_leave disk vg l) l l' ∧
  match err with
  | None =>
      (∀ p, p ∈ l_pvs l' → pv_PVName p ≠ disk) ∧
      (∃ p, p ∈ l_pvs l ∧ pv_PVName p = disk ∧ pv_VGName p = vg) ∧
      (vg ≠ "" → ∃ g, l_vgs l !! vg = Some g ∧
        ((vg_PVCount g = 1 ∧ lv_count vg (l_lvs l) = 0 ∧ l_vgs l' = delete vg (l_vgs l)) ∨
         (vg_PVCount g ≠ 1 ∧ ∃ p g', p ∈ l_pvs l ∧ pv_PVName p = disk ∧ l_vgs l' !! vg = Some g' ∧
           vg_VGFree g' = vg_VGFree g - pv_PVSize p ∧
           (unique_pv disk l → reserve <= vg_VGFree g → reserve <= vg_VGFree g'))))
  | Some e =>
      ∀ g, l_vgs l !! vg = Some g → vg ≠ "" → vg_PVCount g = 1 → 0 < vg_LVCount g → l' = l
  end.

(** A new device joins the group, which is made if it does not exist; a device
    that belongs to a group is refused, and no other device moves. *)
Definition add_contract (disk vg : string) (l : lvm) (err : option error) (l' : lvm) : Prop :=
  l_lvs l' = l_lvs l ∧ (∀ v, v ≠ vg → l_vgs l' !! v = l_vgs l !! v) ∧
  moves (λ d g, d = disk ∧ g = vg) nobody l l' ∧
  match err with
  | None =>
      (∃ p g, p ∈ l_pvs l' ∧ pv_PVName p = disk ∧ pv_VGName p = vg ∧ l_vgs l' !! vg = Some g ∧
        vg_VGSize g = pv_PVSize p + default 0 (vg_VGSize <$> l_vgs l !! vg) ∧
        vg_VGFree g = pv_PVSize p + default 0 (vg_VGFree <$> l_vgs l !! vg)) ∧
      (unique_pv disk l → ∀ q, q ∈ l_pvs l → pv_PVName q = disk → pv_VGName q = "")
  | Some e => l_vgs l' = l_vgs l
  end.

(** [m] run from [s] keeps the contract [R]: it returns, gives its lock back
    and leaves a well-formed lvm state; if the lock is taken nothing happens,
    otherwise the lvm states before and after are related by [R]. *)
Definition refines {St} `{Lvm2Laws St} (R : lvm → option error → lvm → Prop)
    (m : M St (option error)) (s : St) : Prop :=
  wp m (λ err s', get_locks s' = get_locks s ∧ wf_lvm (view s') ∧
    (if decide (VOLUMEMUTEX ∈ get_locks s) then err = busy_error ∧ view s' = view s
     else R (view s) err (view s'))) s.

Definition locked_op {St} `{Lvm2Laws St} (R : lvm → option error → lvm → Prop)
    (m : M St (option error)) : Prop :=
  ∀ s, wf_lvm (view s) → refines R m s.

Section volume.
Context {St : Type} `{HasLocks St} `{!HasLocksLaws St} `{!Lvm2 St} `{!Lvm2Laws St}.
Context `{!Bcache St} `{!BcacheLaws St} `{!GoRuntime}.

(** The state [s] of the agent shows the locks [L] and the lvm state [l]. *)
Definition at_ (L : GlobalLocks.t) (l : lvm) (s : St) : Prop := get_locks s = L ∧ view s = l.

Lemma looks_bind {A B} (m : M St (res A)) P E (k : res A → M St B) Q L l s :
  looks view m P E → wf_lvm l → at_ L l s →
  (∀ a s', at_ L l s' → P l a → wp (k (a, None)) Q s') →
  (∀ a e s', m s = (Done (a, Some e), s') → at_ L l s' → E l a e → wp (k (a, Some e)) Q s') →
  wp (m ≫= k) Q s.
Proof.
  intros Hm Hwf [HL Hl] HP HE. apply wp_bind. rewrite <- Hl in Hwf. specialize (Hm s Hwf).
  apply wp_exists in Hm as ([a [e|]] & s' & Hrun & EL & Ev & Hr); simpl in Hr; rewrite Hl in Hr;
    unfold wp; rewrite Hrun.
  - apply (HE a e); [done|split; congruence|done].
  - apply (HP a); [split; congruence|done].
Qed.

Lemma runs_run (m : M St (option error)) c Q L l s :
  runs view c m → wf_lvm l → at_ L l s →
  (∀ l' s', at_ L l' s' → wf_lvm l' → lvm_step c l l' → Q None s') →
  (∀ e l' s', at_ L l' s' → wf_lvm l' → lvm_fail c l l' → Q (Some e) s') →
  wp m Q s.
Proof.
  intros Hm Hwf [HL Hl] HN HS. rewrite <- Hl in Hwf. eapply wp_mono; [by apply Hm|].
  intros [e|] s' [EL Hr]; simpl in Hr; rewrite Hl in *.
  - eapply HS; [split; [congruence|done]| |done]. by eapply lvm_fail_wf.
  - eapply HN; [split; [congruence|done]| |done]. by eapply lvm_step_wf.
Qed.

Lemma runs_bind {B} (m : M St (option error)) c (k : option error → M St B) Q L l s :
  runs view c m → wf_lvm l → at_ L l s →
  (∀ l' s', at_ L l' s' → wf_lvm l' → lvm_step c l l' → wp (k None) Q s') →
  (∀ e l' s', at_ L l' s' → wf_lvm l' → lvm_fail c l l' → wp (k (Some e)) Q s') →
  wp (m ≫= k) Q s.
Proof. intros. apply wp_bind. eapply runs_run; eauto. Qed.

(** The result of an operation body run at [L], [l]. *)
Definition outcome_of (R : lvm → option error → lvm → Prop) L l (err : option error) (s' : St) : Prop :=
  ∃ l', at_ L l' s' ∧ wf_lvm l' ∧ R l err l'.

Lemma outcome_of_ret (R : lvm → option error → lvm → Prop) L l err s :
  at_ L l s → wf_lvm l → R l err l → wp (mret err) (outcome_of R L l) s.
Proof. intros. apply wp_ret. by exists l. Qed.

Lemma locked_op_intro R body :
  (∀ L l s, wf_lvm l → at_ L l s → wp body (outcome_of R L l) s) →
  locked_op R (locked body).
Proof.
  intros Hb s Hwf. unfold refines. case_decide as Hin.
  - unfold locked, wp. rewrite with_lock_busy by done.
    rewrite get_set_locks, view_set_locks. done.
  - apply wp_with_lock; [done|]. eapply wp_mono.
    + apply (Hb ({[VOLUMEMUTEX]} ∪ get_locks s) (view s)); [done|].
      split; [apply get_set_locks|apply view_set_locks].
    + intros err s' (l' & [EL Ev] & Hwf' & HR). rewrite get_set_locks, view_set_locks, Ev, EL.
      split_and!; [set_solver|done|done].
Qed.
Lemma refines_wf R (m : M St (option error)) s : refines R m s → wf_lvm (view (m s).2).
Proof. unfold refines, wp. destruct (m s) as [[err|e] s']; [|done]. by intros (_ & Hwf & _). Qed.

(** Names Kubernetes accepts are fine for lvm behind the prefix. *)
Definition ok_names (lv vg : string) : Prop :=
  has_char "/" lv = false ∧ safe lv ∧ valid_name vg.

Lemma prefixed_valid lv : has_char "/" lv = false → valid_name (VolumePrefix +:+ lv).
Proof. intros Hs. unfold valid_name. simpl. by rewrite Hs. Qed.

Lemma prefixed_safe lv : safe lv → safe (VolumePrefix +:+ lv).
Proof.
  unfold safe. intros Hs. apply Is_true_true in Hs. apply Is_true_true.
  rewrite forallb_forall in Hs |- *. intros c Hc. specialize (Hs c Hc).
  rewrite negb_true_iff in Hs |- *. rewrite has_char_app, Hs.
  rewrite <- list_elem_of_In in Hc. unfold separators in Hc.
  rewrite !elem_of_cons in Hc. destruct Hc as [->|[->|[->|[->|[->|Hc]]]]]; try done.
  by apply not_elem_of_nil in Hc.
Qed.

Lemma valid_lvcreate lv vg size :
  ok_names lv vg → is_u64 size → valid_cmd (CLvCreate (VolumePrefix +:+ lv) vg (Z.shiftr size 30)).
Proof.
  intros (Hl & Hs & Hvg) Hsz. simpl. split_and!; [by apply prefixed_valid|done|by apply prefixed_safe|done|].
  pose proof (shiftr30_spec size). unfold is_u64, GiB in *. lia.
Qed.

(** The check of the source, on a group whose free space is known. *)
Lemma reserve_check_wide free size :
  is_u64 free → is_u64 size → 0 <= free - size → (u64_sub free size <? reserve) = (free - size <? reserve).
Proof.
  intros ???. rewrite u64_sub_fits; [done|done|]. unfold is_u64 in *. lia.
Qed.

Lemma create_makes lv vg size g L l s :
  ok_names lv vg → is_u64 size → wf_lvm l → at_ L l s → l_vgs l !! vg = Some g →
  (u64_sub (vg_VGFree g) size <? reserve) = false →
  wp (LVCreateFromVG (VolumePrefix +:+ lv) vg size [] 0 "")
    (outcome_of (create_contract lv vg size) L l) s.
Proof.
  intros Hn Hsz Hwf Hat Hg Hck. destruct (wf_vgs l Hwf _ _ Hg) as (_ & (_ & _ & _ & _ & _ & Hfree & _) & _).
  eapply runs_run; [by apply LVCreateFromVG_law, valid_lvcreate|done|done| |].
  - intros l' s' Hat' Hwf' Hst. exists l'. split_and!; [done|done|]. right.
    destruct (lvcreate_inv _ _ _ _ _ Hst Hwf) as (g0 & i & ps & Hg0 & Hnone & Hle & Hsize & Hpool & Hps & ->).
    rewrite Hg in Hg0. injection Hg0 as <-. exists g, i. simpl. rewrite <- Hsize.
    do 7 (split; [done|]). intros Hmod.
    pose proof (shiftr30_spec size) as Hsh. rewrite Z.shiftr_div_pow2 in * by lia.
    change (2 ^ 30) with GiB in *. pose proof (Z.div_mod size GiB ltac:(done)).
    rewrite reserve_check_wide in Hck by (done || lia). apply Z.ltb_ge in Hck. done.
  - intros e l' s' Hat' Hwf' ->. exists l. split_and!; [done|done|]. split; [done|].
    split; [by rewrite Hg|]. intros g0 Hg0 Hr. rewrite Hg in Hg0. injection Hg0 as <-.
    rewrite reserve_check_wide in Hck by (done || lia). apply Z.ltb_ge in Hck. lia.
Qed.

Lemma CreateVolume_ok lv vg size ratio :
  ok_names lv vg → is_u64 size → locked_op (create_contract lv vg size) (CreateVolume lv vg size ratio).
Proof.
  intros Hn Hsz. apply locked_op_intro. intros L l s Hwf Hat.
  eapply looks_bind; [apply VGDisplay_law|done|done| |].
  - intros ? s1 Hat1 (g & -> & Hg). simpl. fold reserve.
    destruct (wf_vgs l Hwf _ _ Hg) as (_ & (_ & _ & _ & _ & _ & Hfree & _) & _).
    destruct (u64_sub (vg_VGFree g) size <? reserve) eqn:Hck.
    + apply outcome_of_ret; [done|done|]. split; [done|]. split; [by rewrite Hg|]. by right.
    + eapply looks_bind; [apply LVDisplay_law; [by apply prefixed_valid, Hn|apply Hn]|done|done| |].
      * intros ? s2 Hat2 (i & -> & Hi & _). simpl. destruct (wf_lvs l Hwf _ _ _ Hi) as (-> & _).
        rewrite String.eqb_refl. apply outcome_of_ret; [done|done|]. left. by exists i.
      * intros ? e s2 _ Hat2 [-> _]. by eapply create_makes.
  - intros ? e s1 _ Hat1 [-> He]. apply outcome_of_ret; [done|done|]. split; [done|].
    destruct He as [He|[-> Hnone]]; [by split; left|].
    split; [by right|intros g Hg; congruence].
Qed.
Lemma reserve_eq : reserve = 9663676416.
Proof. done. Qed.

(** A group that can spare the size never answers that it is full. *)
Lemma CreateVolume_fits lv vg size ratio g s :
  ok_names lv vg → is_u64 size → wf_lvm (view s) → l_vgs (view s) !! vg = Some g →
  reserve <= vg_VGFree g - size →
  wp (CreateVolume lv vg size ratio) (λ err _, err ≠ Some (ErrString ResourceExhausted)) s.
Proof.
  intros Hn Hsz Hwf Hg Hr. unfold CreateVolume.
  destruct (decide (VOLUMEMUTEX ∈ get_locks s)) as [Hin|Hout].
  { unfold locked, wp. by rewrite with_lock_busy. }
  destruct (wf_vgs _ Hwf _ _ Hg) as (_ & (_ & _ & _ & _ & _ & Hfree & _) & _).
  apply wp_with_lock; [done|].
  eapply looks_bind; [apply VGDisplay_law|exact Hwf| |..].
  { split; [apply get_set_locks|apply view_set_locks]. }
  2:{ intros ? e s1 _ _ [-> [[m ->]|[-> _]]]; by apply wp_ret. }
  intros ? s1 Hat1 (g' & -> & Hg'). rewrite Hg in Hg'. injection Hg' as <-. cbv beta iota. fold reserve.
  rewrite reserve_check_wide by (done || (rewrite reserve_eq in Hr; lia)).
  destruct (Z.ltb_spec (vg_VGFree g - size) reserve) as [|_]; [lia|].
  assert (∀ s2, wp (LVCreateFromVG (VolumePrefix +:+ lv) vg size [] 0 "")
    (λ err _, err ≠ Some (ErrString ResourceExhausted)) s2) as Hcreate.
  { intros s2. eapply wp_mono; [apply (LVCreateFromVG_error St)|]. intros err s3 He ->.
    by destruct (He _ eq_refl) as [m ?]. }
  eapply looks_bind; [apply LVDisplay_law; [by apply prefixed_valid, Hn|apply Hn]|exact Hwf|exact Hat1|..].
  - intros ? s2 _ (i & -> & _ & _). cbn [fst]. destruct (String.eqb _ _); [by apply wp_ret|apply Hcreate].
  - intros ? e s2 _ _ [-> _]. apply Hcreate.
Qed.


(** *** Growing a volume *)

(** The display of the volume fails although the lvm state is [l]. *)
Definition display_fails (name vg : string) (l : lvm) : Prop :=
  ∃ s e s', view s = l ∧ LVDisplay name vg s = (Done (None, Some e), s').

Lemma u64_sub_sub a b c : u64_sub a (u64_sub b c) = u64 (a - (b - c)).
Proof. unfold u64_sub, u64. by rewrite Zminus_mod_idemp_r. Qed.

Lemma u64_at_least x r : 0 <= x → r <= u64 x → r <= x.
Proof. intros Hx Hr. pose proof (Z.mod_le x (2^64) Hx ltac:(lia)). unfold u64 in Hr. lia. Qed.

Lemma aligned_gib size : size mod GiB = 0 → Z.shiftr size 30 * GiB = size.
Proof.
  intros Hm. rewrite Z.shiftr_div_pow2 by lia. change (2 ^ 30) with GiB.
  pose proof (Z.div_mod size GiB ltac:(done)). lia.
Qed.

Lemma is_u64_gib size : is_u64 size → is_u64 (Z.shiftr size 30).
Proof. intros. pose proof (shiftr30_spec size). unfold is_u64, GiB in *. lia. Qed.

Lemma valid_lvresize lv vg size :
  ok_names lv vg → is_u64 size → valid_cmd (CLvResize (VolumePrefix +:+ lv) vg (Z.shiftr size 30)).
Proof.
  intros (Hl & _ & Hvg) Hsz. split_and!; [by apply prefixed_valid|done|by apply is_u64_gib].
Qed.

(** The last step of [ResizeVolume], after the pool. *)
Lemma resize_makes lv vg size ratio g i L l l1 s :
  ok_names lv vg → is_u64 size → wf_lvm l → wf_lvm l1 → at_ L l1 s →
  l_vgs l !! vg = Some g → l_lvs l !! (vg, VolumePrefix +:+ lv) = Some i → lvi_LVSize i ≠ size →
  (u64_sub (vg_VGFree g) (u64_sub size (lvi_LVSize i)) <? reserve) = false →
  (l1 = l ∨ lvi_PoolLV i ≠ "" ∧
    lvm_step (CPoolResize (lvi_PoolLV i) vg (Z.shiftr (u64_mul size ratio) 30)) l l1) →
  wp (LVResize (VolumePrefix +:+ lv) vg size)
    (outcome_of (resize_contract (display_fails (VolumePrefix +:+ lv) vg) lv vg size ratio) L l) s.
Proof.
  intros Hn Hsz Hwf Hwf1 Hat Hg Hi Hne Hck Hpool.
  rewrite u64_sub_sub in Hck. apply Z.ltb_ge in Hck.
  eapply runs_run; [by apply LVResize_law, valid_lvresize|done|done| |].
  - intros l' s' Hat' Hwf' Hst. exists l'. split_and!; [done|done|]. right. exists g, i.
    split_and!; [done|done|]. right. split_and!; [done|by exists l1|].
    intros Hp Hm. destruct Hpool as [->|[Hp' _]]; [|done].
    destruct (lvresize_inv _ _ _ _ _ Hst Hwf) as (g0 & i0 & ps & Hg0 & Hi0 & Hle & _). simplify_eq.
    unfold resized_by in Hle. rewrite Hp, (aligned_gib size Hm) in Hle. simpl in Hle.
    apply u64_at_least; [lia|done].
  - intros e l' s' Hat' Hwf' ->. exists l1. split_and!; [done|done|]. split.
    + destruct Hpool as [->|Hp]; [by left|right]. by exists i.
    + intros g0 i0 Hg0 Hi0 Hr. simplify_eq. exfalso.
      rewrite u64_id in Hck; [lia|]. rewrite reserve_eq in Hr. unfold is_u64. lia.
Qed.

(** Growing the pool first, when there is one and it is too small. *)
Lemma resize_pool size ratio vg i L l s :
  wf_lvm l → at_ L l s → valid_name vg → valid_name (lvi_PoolLV i) →
  wp (t ← LVDisplay (lvi_PoolLV i) vg;
      match t.1 with
      | Some thinInfo =>
          if lvi_LVSize thinInfo <? size then ResizeThinPool (lvi_PoolLV i) vg (u64_mul size ratio)
          else mret None
      | None => mret None
      end)
    (λ err s', ∃ l1, at_ L l1 s' ∧ wf_lvm l1 ∧
      (l1 = l ∨ lvi_PoolLV i ≠ "" ∧
        lvm_step (CPoolResize (lvi_PoolLV i) vg (Z.shiftr (u64_mul size ratio) 30)) l l1)) s.
Proof.
  intros Hwf Hat Hvg Hpool.
  eapply looks_bind; [by apply LVDisplay_law|done|done| |].
  - intros ? s1 Hat1 (t & -> & Ht & _). simpl. destruct (lvi_LVSize t <? size); [|apply wp_ret; eauto].
    destruct (wf_lvs l Hwf _ _ _ Ht) as (_ & _ & Hne & _).
    eapply runs_run; [apply ResizeThinPool_law|done|done| |].
    + split_and!; [done|done|]. apply is_u64_gib, u64_range.
    + intros l' s' Hat' Hwf' Hst. exists l'. split_and!; [done|done|]. by right.
    + intros e l' s' Hat' Hwf' ->. exists l. eauto.
  - intros ? e s1 _ Hat1 [-> _]. apply wp_ret. eauto.
Qed.

Lemma ResizeVolume_ok lv vg size ratio :
  ok_names lv vg → is_u64 size →
  locked_op (resize_contract (display_fails (VolumePrefix +:+ lv) vg) lv vg size ratio)
    (ResizeVolume lv vg size ratio).
Proof.
  intros Hn Hsz. apply locked_op_intro. intros L l s Hwf Hat.
  eapply looks_bind; [apply VGDisplay_law|done|done| |].
  2:{ intros ? e s1 _ Hat1 [-> He]. apply outcome_of_ret; [done|done|]. split; [by left|].
      intros g i Hg. destruct He as [He|[-> Hnone]]; [by left|congruence]. }
  intros ? s1 Hat1 (g & -> & Hg). simpl. fold reserve.
  eapply looks_bind; [apply LVDisplay_law; [by apply prefixed_valid, Hn|apply Hn]|done|done| |].
  2:{ intros ? e s2 Hrun Hat2 [-> _]. apply outcome_of_ret; [done|done|]. left. split; [|done].
      exists s1, e, s2. split; [apply Hat1|done]. }
  intros ? s2 Hat2 (i & -> & Hi & _). simpl.
  change (l_lvs l !! (vg, VolumePrefix +:+ lv) = Some i) in Hi.
  destruct (Z.eqb_spec (lvi_LVSize i) size) as [He|Hne].
  { apply outcome_of_ret; [done|done|]. right. exists g, i. auto. }
  destruct (_ <? reserve) eqn:Hck.
  { apply outcome_of_ret; [done|done|]. split; [by left|by right]. }
  destruct (wf_lvs l Hwf _ _ _ Hi) as (_ & _ & _ & Hpool & _).
  apply wp_assoc, wp_bind. eapply wp_mono; [by eapply resize_pool; [..|apply Hn|]|].
  intros [e|] s3 (l1 & Hat3 & Hwf1 & Hl1); [|by eapply resize_makes].
  apply wp_ret. exists l1. split_and!; [done|done|]. split.
  - destruct Hl1 as [->|Hl1]; [by left|right; by exists i].
  - intros g0 i0 Hg0 Hi0 Hr. simplify_eq. rewrite u64_sub_sub in Hck. apply Z.ltb_ge in Hck.
    rewrite u64_id in Hck; [lia|]. rewrite reserve_eq in Hr. unfold is_u64. lia.
Qed.
(** *** Deleting a volume *)

Lemma shrinks_refl vg D l : shrinks vg D l l.
Proof.
  split_and!; try done; [|eauto with lia]. intros k i Hi Hk. congruence.
Qed.

Lemma shrinks_trans vg (D D' D'' : string * string → LvInfo → Prop) l1 l2 l3 :
  (∀ k i, D k i → D'' k i) → (∀ k i, D' k i → D'' k i) →
  shrinks vg D l1 l2 → shrinks vg D' l2 l3 → shrinks vg D'' l1 l3.
Proof.
  intros HD HD' (Hp & Hl & Hd & Hv & Hg) (Hp' & Hl' & Hd' & Hv' & Hg').
  split_and!; [congruence|by etrans| | |].
  - intros k i Hi Hk. destruct (l_lvs l2 !! k) as [j|] eqn:E; [|eauto].
    pose proof (lookup_weaken _ _ _ _ E Hl) as E'. simplify_eq. eauto.
  - intros v Hne. rewrite Hv' by done. auto.
  - intros g E. destruct (Hg g E) as (g1 & E1 & ?). destruct (Hg' g1 E1) as (g2 & ? & ?).
    exists g2. split; [done|lia].
Qed.

Lemma shrinks_mono vg (D D' : string * string → LvInfo → Prop) l l' :
  (∀ k i, D k i → D' k i) → shrinks vg D l l' → shrinks vg D' l l'.
Proof. intros HD (? & ? & ? & ? & ?). split_and!; eauto. Qed.

Lemma consumed_nonneg l k i : wf_lvm l → l_lvs l !! k = Some i → 0 <= consumed i.
Proof.
  destruct k as [vg n]. intros Hwf Hi.
  destruct (wf_lvs l Hwf _ _ _ Hi) as (_ & _ & _ & _ & (_ & Hsz & _) & _).
  unfold consumed, is_u64 in *. destruct (String.eqb _ _); lia.
Qed.

Lemma lvremove_shrinks lv vg l l' :
  lvm_step (CLvRemove lv vg) l l' → wf_lvm l →
  shrinks vg (λ k i, dropped vg lv k i = true) l l' ∧ l_lvs l' !! (vg, lv) = None ∧
  ∃ g g' i, l_vgs l !! vg = Some g ∧ l_vgs l' !! vg = Some g' ∧ l_lvs l !! (vg, lv) = Some i ∧
    vg_VGFree g + consumed i <= vg_VGFree g'.
Proof.
  intros Hst Hwf. destruct (lvremove_inv _ _ _ _ Hst Hwf) as (g & g' & i & ps & Hg & Hi & Hf & [Hps _] & ->).
  pose proof (consumed_nonneg _ _ _ Hwf Hi).
  split; [|split].
  - split_and!; simpl; [done| | | |].
    + apply map_filter_subseteq.
    + intros k j Hj. unfold drop_lvs. rewrite map_lookup_filter_None. intros [?|Hk]; [congruence|].
      specialize (Hk j Hj). simpl in Hk. by destruct (dropped vg lv k j).
    + intros v Hne. by rewrite lookup_insert_ne.
    + intros g0 Hg0. rewrite lookup_insert_eq. exists g'. split; [done|]. simplify_eq. lia.
  - simpl. unfold drop_lvs. apply map_lookup_filter_None. right. intros j _. simpl. unfold dropped.
    simpl. by rewrite !String.eqb_refl.
  - exists g, g', i. simpl. rewrite lookup_insert_eq. done.
Qed.

Lemma BcacheDeviceInfo_quiet dev L l s :
  at_ L l s → wp (BcacheDeviceInfo dev) (λ _ s', at_ L l s') s.
Proof.
  intros [<- <-]. apply wp_bind. eapply wp_mono; [apply quiet_ShowDevice|].
  intros [[d|] [e|]] s1 (EL & Ev & Hne); try done. apply wp_bind. eapply wp_mono; [apply quiet_GetDeviceBcache|].
  intros [[d'|] [e|]] s2 (EL2 & Ev2 & Hne2); try done; apply wp_ret; split; congruence.
Qed.

Lemma DeleteBcache_quiet dev cacheDev L l s :
  at_ L l s → wp (DeleteBcache dev cacheDev) (λ _ s', at_ L l s') s.
Proof.
  intros Hat. apply wp_bind. eapply wp_mono; [by apply BcacheDeviceInfo_quiet|]. intros [d err] s1 Hat1.
  assert (∀ d, wp (RemoveBcache d) (λ _ s', at_ L l s') s1) as Hrm.
  { intros d'. eapply wp_mono; [apply quiet_RemoveBcache|]. intros ? s2 [??]. destruct Hat1. split; congruence. }
  destruct err as [e|]; [destruct (negb _); [done|]|]; by destruct d.
Qed.

Lemma vol_name_carina lvName i : lvi_LVName i = vol_name lvName → carina_lv i = true.
Proof.
  intros E. unfold carina_lv. rewrite E. unfold vol_name.
  destruct (HasPrefix lvName VolumePrefix) eqn:Hp; cbn [negb].
  - by rewrite Hp.
  - by rewrite HasPrefix_app.
Qed.

Lemma vol_name_valid lvName : has_char "/" lvName = false → valid_name (vol_name lvName).
Proof.
  intros Hs. unfold vol_name. destruct (HasPrefix lvName VolumePrefix) eqn:Hp; simpl.
  - unfold valid_name. rewrite Hs. by destruct lvName as [|[[][][][][][][][]] ?].
  - by apply prefixed_valid.
Qed.
Lemma dropped_spec vg lv k i :
  dropped vg lv k i = true ↔ k.1 = vg ∧ (k.2 = lv ∨ lvi_PoolLV i = lv).
Proof. unfold dropped. by rewrite andb_true_iff, orb_true_iff, !String.eqb_eq. Qed.

(** The volume is gone; its pool, if it had one, is next. *)
Lemma delete_pool lvName vg i L l l1 s :
  valid_name vg → l_lvs l !! (vg, vol_name lvName) = Some i → wf_lvm l → wf_lvm l1 → at_ L l1 s →
  lvm_step (CLvRemove (vol_name lvName) vg) l l1 →
  wp (t ← LVDisplay (lvi_PoolLV i) vg;
      match t.1 with
      | None => mret None
      | Some _ => DeleteThinPool (lvi_PoolLV i) vg
      end) (outcome_of (delete_contract lvName vg) L l) s.
Proof.
  intros Hvg Hi Hwf Hwf1 Hat Hst.
  destruct (lvremove_shrinks _ _ _ _ Hst Hwf) as (Hsh & Hgone & g & g1 & i0 & Hg & Hg1 & Hi0 & Hf).
  simplify_eq. destruct (wf_lvs l Hwf _ _ _ Hi) as (_ & _ & _ & Hpool & _).
  assert (shrinks vg (doomed l vg (vol_name lvName)) l l1) as Hsh1.
  { eapply shrinks_mono; [|exact Hsh].
    intros k j (Hk & Hj)%dropped_spec. split; [done|naive_solver]. }
  eapply looks_bind; [by apply LVDisplay_law|done|done| |].
  2:{ intros ? e s1 _ Hat1 [-> _]. apply wp_ret. exists l1. do 2 (split; [done|]). split; [done|].
      split; [done|]. intros g0 j Hg0 Hj. simplify_eq. eauto. }
  intros ? s1 Hat1 (t & -> & Ht & _). cbn [fst].
  destruct (wf_lvs l1 Hwf1 _ _ _ Ht) as (_ & _ & Hne & _).
  eapply runs_run; [by apply DeleteThinPool_law|done|done| |].
  - intros l' s' Hat' Hwf' Hst'. exists l'. do 2 (split; [done|]).
    destruct (lvremove_shrinks _ _ _ _ Hst' Hwf1) as (Hsh' & _ & g2 & g3 & j0 & Hg2 & Hg3 & Hj0 & Hf').
    split.
    + eapply shrinks_trans; [| |exact Hsh1|exact Hsh']; [done|].
      intros k j (Hk & Hj)%dropped_spec. split; [done|]. right; right. exists i. auto.
    + split.
      * destruct (l_lvs l' !! (vg, vol_name lvName)) as [j|] eqn:E; [|done].
        pose proof (lookup_weaken _ _ _ _ E (proj1 (proj2 Hsh'))). congruence.
      * intros g0 j Hg0 Hj. pose proof (consumed_nonneg _ _ _ Hwf1 Hj0). simplify_eq.
        exists g3. split; [done|]. lia.
  - intros e l' s' Hat' Hwf' ->. exists l1. do 2 (split; [done|]). split; [done|by right].
Qed.

Lemma DeleteVolume_ok lvName vg :
  has_char "/" lvName = false → valid_name vg →
  locked_op (delete_contract lvName vg) (DeleteVolume lvName vg).
Proof.
  intros Hlv Hvg. apply locked_op_intro. intros L l s Hwf Hat. fold (vol_name lvName).
  eapply looks_bind; [apply LVDisplay_law; [by apply vol_name_valid|done]|done|done| |].
  2:{ intros ? e s1 _ Hat1 (-> & m & -> & Hm). cbn [Error].
      destruct (Contains m "not found") eqn:Hc; apply outcome_of_ret; try done;
        (split; [apply shrinks_refl|]); [|by left].
      destruct (l_lvs l !! (vg, vol_name lvName)) as [i|] eqn:Hi.
      - destruct (wf_lvs l Hwf _ _ _ Hi) as (_ & Hn & _). specialize (Hm I i eq_refl).
        by rewrite (vol_name_carina lvName i Hn) in Hm.
      - split; [done|]. intros g i _ ?. congruence. }
  intros ? s1 Hat1 (i & -> & Hi & _). cbv beta iota.
  apply wp_bind. eapply wp_mono; [by eapply DeleteBcache_quiet|]. intros ? s2 Hat2. simpl in Hat2.
  eapply runs_bind; [apply LVRemove_law; by split; [apply vol_name_valid|]|done|done| |].
  - intros l1 s3 Hat3 Hwf1 Hst. by eapply delete_pool.
  - intros e l' s3 Hat3 Hwf' ->. apply outcome_of_ret; [done|done|]. split; [apply shrinks_refl|by left].
Qed.
(** *** Devices *)

Lemma shuffle_elem l l1 p :
  pv_shuffle l l1 → p ∈ l_pvs l1 →
  ∃ q, q ∈ l_pvs l ∧ pv_PVName p = pv_PVName q ∧ pv_PVSize p = pv_PVSize q.
Proof.
  intros (_ & _ & Hp & _) Hin. assert (pv_id p ∈ pv_id <$> l_pvs l) as Hid.
  { rewrite <- Hp. apply list_elem_of_fmap. eauto. }
  apply list_elem_of_fmap in Hid as (q & Hq & ?). unfold pv_id in Hq. exists q. split_and!; congruence.
Qed.

Lemma reduce_check free size :
  is_u64 free → reserve <= free →
  (u64_add (u64_sub free DefaultReservedSpace) DefaultEdgeSpace <? size) = false →
  size <= free - reserve.
Proof.
  intros Hu Hr Hck%Z.ltb_ge. unfold u64_add, u64_sub, u64 in Hck.
  rewrite Zplus_mod_idemp_l in Hck. replace (free - DefaultReservedSpace + DefaultEdgeSpace)
    with (free - reserve) in Hck by (unfold reserve; lia).
  rewrite Z.mod_small in Hck; [done|]. rewrite reserve_eq in *. unfold is_u64 in Hu. lia.
Qed.

(** The device leaves a group of several. *)
Lemma reduce_makes disk vg p g L l s :
  valid_cmd (CVgReduce vg disk) → wf_lvm l → at_ L l s →
  p ∈ l_pvs l → pv_PVName p = disk → pv_VGName p = vg → l_vgs l !! vg = Some g → vg_PVCount g ≠ 1 →
  (u64_add (u64_sub (vg_VGFree g) DefaultReservedSpace) DefaultEdgeSpace <? pv_PVSize p) = false →
  wp (VGReduce vg disk) (outcome_of (remove_contract disk vg) L l) s.
Proof.
  intros Hv Hwf [<- <-] Hp Hn Hpv Hg Hc Hck.
  eapply wp_mono; [by apply VGReduce_law|]. intros err s' (EL & l1 & Hsh & Hr).
  pose proof (wf_shuffle _ _ Hsh Hwf) as Hwf1. destruct (Hsh) as (Ev & El & Hsame).
  assert (∀ l2, lvm_step (CVgReduce vg disk) l1 l2 → moves nobody (may_leave disk vg (view s)) (view s) l2) as Hleave.
  { intros l2 Hst. eapply moves_trans; [by apply (moves_same_devices _ _ _ l1)|].
    eapply moves_mono; [| |by apply lvm_step_moves]; [done|]. intros d g0 [-> ->]. split; auto. }
  destruct err as [e|].
  - exists (view s'). split; [by split|]. assert (∀ l', l_lvs l' = l_lvs (view s) →
      (∀ v, v ≠ vg → l_vgs l' !! v = l_vgs (view s) !! v) → moves nobody (may_leave disk vg (view s)) (view s) l' →
      remove_contract disk vg (view s) (Some e) l') as Hrc.
    { intros l' ???. split_and!; try done. intros. simplify_eq. }
    destruct Hr as [->|Hst].
    + split; [done|]. apply Hrc; [done| |by apply moves_same_devices]. intros. by rewrite Ev.
    + split; [by eapply lvm_step_wf|]. apply Hrc; [..|by apply Hleave];
        destruct (vgreduce_inv _ _ _ _ Hst Hwf1) as (g0 & p0 & p1 & _ & _ & _ & _ & _ & _ & ->); [done|].
      intros v Hne. simpl. by rewrite lookup_insert_ne, Ev.
  - destruct Hr as (l2 & Hst & Hst'). exists (view s'). split; [by split|].
    split; [by eapply lvm_step_wf, lvm_step_wf|].
    assert (moves nobody (may_leave disk vg (view s)) (view s) (view s')) as Hmoves.
    { eapply moves_trans; [by apply Hleave|]. eapply moves_mono; [| |by apply lvm_step_moves]; done. }
    revert Hmoves.
    destruct (vgreduce_inv _ _ _ _ Hst Hwf1) as (g0 & p0 & p1 & Hp0 & Hn0 & Hpv0 & Hg0 & _ & _ & ->).
    rewrite (pvremove_inv _ _ _ Hst'). rewrite Ev, El in *. simpl. intros Hmoves. simplify_eq.
    destruct (shuffle_elem _ _ _ Hsh Hp0) as (q & Hq & Hnq & Hsq).
    split_and!; simpl; [done| |exact Hmoves| | |].
    + intros v Hne. by rewrite lookup_insert_ne.
    + intros r [Hr _]%list_elem_of_filter. done.
    + by exists p.
    + intros _. exists g. split; [done|]. right. split; [done|].
      eexists q, _. split_and!; [done|congruence|apply lookup_insert_eq| |].
      * simpl. lia.
      * intros Huniq Hres. simpl. rewrite <- (Huniq q p) in Hck by congruence.
        destruct (wf_vgs _ Hwf _ _ Hg) as (_ & (_ & _ & _ & _ & _ & Hfree & _) & _).
        pose proof (reduce_check _ _ Hfree Hres Hck). lia.
Qed.
(** The last device of a group that has no volumes. *)
Lemma remove_group disk vg p g L l s :
  valid_name vg → safe disk → wf_lvm l → at_ L l s →
  p ∈ l_pvs l → pv_PVName p = disk → pv_VGName p = vg → l_vgs l !! vg = Some g →
  vg_PVCount g = 1 → vg_LVCount g <= 0 →
  wp (err ← VGRemove vg; match err with Some e => mret (Some e) | None => PVRemove disk end)
    (outcome_of (remove_contract disk vg) L l) s.
Proof.
  intros Hvg Hd Hwf Hat Hp Hn Hpv Hg Hpc Hlc.
  destruct (wf_vgs l Hwf _ _ Hg) as (_ & _ & Hcount).
  assert (lv_count vg (l_lvs l) = 0) as Hz by (unfold lv_count in *; lia).
  eapply runs_bind; [by apply VGRemove_law|done|done| |].
  - intros l1 s1 Hat1 Hwf1 Hst1.
    assert (moves nobody (may_leave disk vg l) l l1) as Hm1.
    { eapply moves_mono; [| |by apply lvm_step_moves]; [done|]. intros d g0 ->. split; auto. }
    apply vgremove_inv in Hst1 as [Ev El].
    assert (l_lvs l1 = l_lvs l) as El'.
    { rewrite El. apply map_eq. intros k. apply option_eq. intros i. rewrite lookup_drop_lvs.
      split; [naive_solver|]. intros Hi. split; [done|]. by apply String.eqb_neq, (lv_count_zero _ _ Hz k i). }
    eapply runs_run; [by apply PVRemove_law|done|done| |].
    + intros l2 s2 Hat2 Hwf2 Hst2.
      assert (moves nobody (may_leave disk vg l) l l2) as Hm2.
      { eapply moves_trans; [exact Hm1|]. eapply moves_mono; [| |by apply lvm_step_moves]; done. }
      apply pvremove_inv in Hst2 as ->. eexists. split; [exact Hat2|]. split; [done|].
      split_and!; simpl; [done| |exact Hm2| | |].
      * intros v Hne. by rewrite Ev, lookup_delete_ne.
      * by intros q [Hq _]%list_elem_of_filter.
      * by exists p.
      * intros _. exists g. auto.
    + intros e l2 s2 Hat2 Hwf2 ->. exists l1. do 2 (split; [done|]).
      split_and!; [done| |done|intros; simplify_eq; lia].
      intros v Hne. by rewrite Ev, lookup_delete_ne.
  - intros e l1 s1 Hat1 Hwf1 ->. apply outcome_of_ret; [done|done|].
    split_and!; [done|done|apply moves_refl|done].
Qed.

Lemma RemoveDiskInVg_ok disk vg :
  safe disk → valid_name vg → safe vg →
  locked_op (remove_contract disk vg) (RemoveDiskInVg disk vg).
Proof.
  intros Hd Hvg Hsvg. apply locked_op_intro. intros L l s Hwf Hat.
  assert (∀ e s, at_ L l s → wp (mret (Some e)) (outcome_of (remove_contract disk vg) L l) s) as Hfail.
  { intros e s' Hat'. apply outcome_of_ret; [done|done|]. split_and!; [done|done|apply moves_refl|done]. }
  eapply looks_bind; [apply PVDisplay_law|done|done| |].
  2:{ intros ? e s1 _ Hat1 [-> _]. by apply Hfail. }
  intros ? s1 Hat1 (p & -> & Hp & Hn). cbv beta iota.
  destruct (String.eqb_spec (pv_VGName p) vg) as [Hpv|]; cbn [negb]; [|by apply Hfail].
  destruct (String.eqb_spec (pv_VGName p) "") as [He|Hne].
  { eapply runs_run; [by apply PVRemove_law|done|done| |].
    - intros l1 s2 Hat2 Hwf2 Hst. pose proof (lvm_step_moves _ _ _ Hst) as Hm.
      apply pvremove_inv in Hst as ->. eexists. split; [exact Hat2|]. split; [done|].
      split_and!; simpl; [done|done| |by intros q [Hq _]%list_elem_of_filter|by exists p|congruence].
      by eapply moves_mono; [| |exact Hm].
    - intros e l1 s2 Hat2 Hwf2 ->. by apply Hfail. }
  eapply looks_bind; [apply VGDisplay_law|done|done| |].
  2:{ intros ? e s2 _ Hat2 [-> _]. by apply Hfail. }
  intros ? s2 Hat2 (g & -> & Hg). cbv beta iota.
  destruct (Z.eqb_spec (vg_PVCount g) 1) as [Hpc|Hpc].
  - destruct (Z.ltb_spec 0 (vg_LVCount g)); [by apply Hfail|]. by eapply remove_group.
  - destruct (_ <? pv_PVSize p) eqn:Hck; [by apply Hfail|].
    eapply reduce_makes; try done. split_and!; try done. congruence.
Qed.

(** The device [disk], which is in no group, joins [vg]. *)
Lemma add_joins disk vg L l l1 l' s :
  at_ L l' s → wf_lvm l' → l_vgs l1 = l_vgs l → l_lvs l1 = l_lvs l → joins vg disk l1 l' →
  moves (λ d g, d = disk ∧ g = vg) nobody l l' →
  (unique_pv disk l → ∀ q, q ∈ l_pvs l → pv_PVName q = disk → pv_VGName q = "") →
  outcome_of (add_contract disk vg) L l None s.
Proof.
  intros Hat Hwf Ev El (p & p' & g & Hp & Hn & Hpv & (Hn' & Hvg' & Hwp) & Hsz & Hfr & ->) Hm Huniq.
  eexists. split; [exact Hat|]. split; [done|]. rewrite Ev, El in *. split_and!; simpl; [done| |exact Hm| |done].
  - intros v Hne. by rewrite lookup_insert_ne.
  - exists p', g. rewrite lookup_insert_eq. split_and!; try done; [|congruence].
    unfold replace_pv. apply list_elem_of_fmap. exists p. split; [|done].
    by rewrite Hn', String.eqb_refl.
Qed.

Lemma AddNewDiskToVg_ok disk vg :
  safe disk → valid_name (ToLower vg) → ToLower vg ≠ "" → safe (ToLower vg) →
  locked_op (add_contract disk (ToLower vg)) (AddNewDiskToVg disk vg).
Proof.
  intros Hd Hvg Hne Hs. unfold AddNewDiskToVg. set (v := ToLower vg) in *.
  apply locked_op_intro. intros L l s Hwf Hat.
  set (J := λ d g : string, d = disk ∧ g = v).
  assert (∀ e l1 s, l_vgs l1 = l_vgs l → l_lvs l1 = l_lvs l → wf_lvm l1 → at_ L l1 s → moves J nobody l l1 →
    wp (mret (Some e)) (outcome_of (add_contract disk v) L l) s) as Hfail.
  { intros e l1 s' Ev El Hwf1 Hat' Hm. apply wp_ret. exists l1. do 3 (split; [done|]). split; [|done].
    intros w Hw. by rewrite Ev. }
  assert (∀ l1 s, l_vgs l1 = l_vgs l → l_lvs l1 = l_lvs l → wf_lvm l1 → at_ L l1 s → moves J nobody l l1 →
    (unique_pv disk l → ∀ q, q ∈ l_pvs l → pv_PVName q = disk → pv_VGName q = "") →
    wp (r ← VGDisplay v;
        let '(vgInfo, err) := r in
        if negb (not_found err) then mret err
        else match vgInfo with None => VGCreate v [v] [disk] | Some _ => VGExtend v disk end)
      (outcome_of (add_contract disk v) L l) s) as Hjoin.
  { intros l1 s1 Ev El Hwf1 Hat1 Hm1 Hu.
    assert (∀ c l2, lvm_step c l1 l2 → joined c = J → left c = nobody → moves J nobody l l2) as Hm2.
    { intros c l2 Hst HJ HX. eapply moves_trans; [exact Hm1|]. rewrite <- HJ, <- HX. by apply lvm_step_moves. }
    eapply looks_bind; [apply VGDisplay_law|done|done| |].
    - intros ? s2 Hat2 (g & -> & Hg). cbn [not_found negb].
      eapply runs_run; [by apply VGExtend_law|done|done| |].
      + intros l' s' Hat' Hwf' Hst. eapply add_joins; try done; [by apply vgextend_inv|by eapply Hm2].
      + intros e l' s' Hat' Hwf' ->. by eapply (Hfail e l1).
    - intros ? e s2 _ Hat2 [-> _]. destruct (negb _); [by eapply (Hfail e l1)|].
      eapply runs_run; [by apply VGCreate_law|done|done| |].
      + intros l' s' Hat' Hwf' Hst. eapply add_joins; try done; [by apply vgcreate_inv|by eapply Hm2].
      + intros e' l' s' Hat' Hwf' ->. by eapply (Hfail e' l1). }
  eapply looks_bind; [apply PVDisplay_law|done|done| |].
  - intros ? s1 Hat1 (p & -> & Hp & Hn). cbn [not_found negb].
    destruct (String.eqb_spec (pv_VGName p) "") as [He|Hne']; cbn [negb]; apply wp_bind, wp_ret.
    + apply (Hjoin l); try done; [apply moves_refl|]. intros Hu q Hq Hqn. by rewrite (Hu q p).
    + apply (Hfail _ l); try done. apply moves_refl.
  - intros ? e s1 _ Hat1 [-> _]. destruct (negb _); [apply (Hfail _ l); try done; apply moves_refl|].
    eapply runs_bind; [by apply PVCreate_law|done|done| |].
    + intros l1 s2 Hat2 Hwf2 Hst. pose proof (pvcreate_free _ _ _ Hst) as Hfree.
      pose proof (pvcreate_moves J nobody _ _ _ Hst) as Hm.
      destruct (pvcreate_inv _ _ _ Hst) as (p & _ & _ & ->).
      eapply Hjoin; [..|exact Hat2|exact Hm|intros _; exact Hfree]; done.
    + intros e' l1 s2 Hat2 Hwf2 ->. apply (Hfail _ l); try done. apply moves_refl.
Qed.
End volume.

(** ** The inventory of a node *)

(** The groups with their devices, as [GetCurrentVgStruct] returns them. *)
Definition group_row (l : lvm) (g : VgGroup) : VgGroup :=
  mkVG (vg_VGName g) (vg_PVCount g) (vg_LVCount g) (vg_VGAttr g) (vg_VGSize g) (vg_VGFree g)
    (filter (λ p, pv_VGName p = vg_VGName g) (l_pvs l)).

(** *** Collecting the devices of each group *)

Lemma foldl_by_name (vgs : list VgGroup) (m : gmap string VgGroup) k :
  NoDup (vg_VGName <$> vgs) →
  foldl (λ tmp v, <[vg_VGName v := v]> tmp) m vgs !! k =
    match List.find (λ v, String.eqb (vg_VGName v) k) vgs with Some v => Some v | None => m !! k end.
Proof.
  revert m. induction vgs as [|v vgs IH]; intros m Hnd; simpl; [done|].
  rewrite fmap_cons, NoDup_cons in Hnd. destruct Hnd as [Hv Hnd]. rewrite IH by done.
  destruct (String.eqb_spec (vg_VGName v) k) as [<-|Hne].
  - destruct (List.find _ vgs) as [w|] eqn:Hf; [|by rewrite lookup_insert_eq].
    apply find_some in Hf as [Hw%list_elem_of_In Hn%String.eqb_eq]. exfalso. apply Hv.
    rewrite <- Hn. by apply list_elem_of_fmap_2.
  - destruct (List.find _ vgs); [done|]. by rewrite lookup_insert_ne.
Qed.

Definition add_pvs (g : VgGroup) (ps : list PVInfo) : VgGroup :=
  mkVG (vg_VGName g) (vg_PVCount g) (vg_LVCount g) (vg_VGAttr g) (vg_VGSize g) (vg_VGFree g)
    (vg_PVS g ++ ps).

Lemma foldl_add_pvs (pvs : list PVInfo) (m : gmap string VgGroup) k :
  m !! "" = None →
  foldl (λ tmp p,
    if String.eqb (pv_VGName p) "" then tmp
    else match tmp !! pv_VGName p with
         | Some g => <[pv_VGName p := add_pv g p]> tmp
         | None => tmp
         end) m pvs !! k = (λ g, add_pvs g (filter (λ p, pv_VGName p = k) pvs)) <$> m !! k.
Proof.
  revert m. induction pvs as [|p pvs IH]; intros m Hm; cbn [foldl].
  { destruct (m !! k) as [[]|]; simpl; [|done]. unfold add_pvs. simpl. by rewrite app_nil_r. }
  destruct (String.eqb_spec (pv_VGName p) "") as [He|Hne].
  - rewrite IH by done. destruct (decide (pv_VGName p = k)) as [Hk|Hk].
    + rewrite <- Hk, He, Hm. done.
    + by rewrite filter_cons_False.
  - destruct (m !! pv_VGName p) as [g|] eqn:Hg.
    + rewrite IH by (by rewrite lookup_insert_ne). destruct (decide (pv_VGName p = k)) as [<-|Hk].
      * rewrite lookup_insert_eq, Hg, filter_cons_True by done. simpl. unfold add_pvs, add_pv. simpl.
        by rewrite <- app_assoc.
      * by rewrite lookup_insert_ne, filter_cons_False.
    + rewrite IH by done. destruct (decide (pv_VGName p = k)) as [<-|Hk].
      * by rewrite Hg.
      * by rewrite filter_cons_False.
Qed.

Lemma find_row rows l k :
  wf_lvm l → rows ≡ₚ (map_to_list (l_vgs l)).*2 →
  NoDup (vg_VGName <$> rows) ∧ List.find (λ v, String.eqb (vg_VGName v) k) rows = l_vgs l !! k.
Proof.
  intros Hwf Hrows.
  assert (vg_VGName <$> rows ≡ₚ (map_to_list (l_vgs l)).*1) as Hnames.
  { rewrite Hrows, <- list_fmap_compose. apply reflexive_eq, list_fmap_ext.
    intros i [n g] Hi%list_elem_of_lookup_2%elem_of_map_to_list. simpl. by apply (wf_vgs l Hwf). }
  assert (∀ g, g ∈ rows ↔ l_vgs l !! vg_VGName g = Some g) as Hin.
  { intros g. rewrite Hrows, list_elem_of_fmap. split.
    - intros ([n g'] & -> & Hk%elem_of_map_to_list). simpl. by destruct (wf_vgs _ Hwf _ _ Hk) as (-> & _).
    - intros Hg. exists (vg_VGName g, g). split; [done|]. by apply elem_of_map_to_list. }
  split; [rewrite Hnames; apply NoDup_fst_map_to_list|].
  destruct (List.find _ rows) as [g|] eqn:Hf.
  - apply find_some in Hf as [Hg%list_elem_of_In <-%String.eqb_eq]. symmetry. by apply Hin.
  - destruct (l_vgs l !! k) as [g|] eqn:Hg; [|done]. destruct (wf_vgs _ Hwf _ _ Hg) as (Hn & _).
    rewrite <- Hn in Hg. apply Hin, list_elem_of_In in Hg.
    pose proof (find_none _ _ Hf g Hg) as Hne. simpl in Hne. by rewrite Hn, String.eqb_refl in Hne.
Qed.

Lemma group_pvs_eq rows l :
  wf_lvm l → l_vgs l !! "" = None → rows ≡ₚ (map_to_list (l_vgs l)).*2 →
  group_pvs rows (l_pvs l) = group_row l <$> l_vgs l.
Proof.
  intros Hwf Hnone Hrows.
  assert (∀ k, foldl (λ tmp v, <[vg_VGName v := v]> tmp) (∅ : gmap string VgGroup) rows !! k = l_vgs l !! k) as Hm.
  { intros k. destruct (find_row rows l k Hwf Hrows) as [Hnd Hf]. rewrite foldl_by_name, Hf by done.
    by destruct (l_vgs l !! k). }
  apply map_eq. intros k. unfold group_pvs. rewrite foldl_add_pvs by (by rewrite Hm).
  rewrite Hm, lookup_fmap. destruct (l_vgs l !! k) as [g|] eqn:Hg; [|done]. simpl.
  destruct (wf_vgs _ Hwf _ _ Hg) as (Hn & Hwg & _). unfold add_pvs, group_row.
  destruct Hwg as (_ & _ & _ & _ & _ & _ & ->). by rewrite Hn.
Qed.

Section inventory.
Context {St : Type} `{HasLocks St} `{!Lvm2 St} `{!Lvm2Laws St} `{GoRuntimeLaws}.

Lemma GetCurrentVgStruct_ok (s : St) :
  wf_lvm (view s) → l_vgs (view s) !! "" = None →
  wp GetCurrentVgStruct (λ r s',
    get_locks s' = get_locks s ∧ view s' = view s ∧
    match r with
    | (groups, None) => groups ≡ₚ group_row (view s) <$> (map_to_list (l_vgs (view s))).*2
    | (groups, Some e) => groups = [] ∧ exec_error e
    end) s.
Proof.
  intros Hwf Hname.
  eapply (looks_bind _ _ _ _ _ (get_locks s) (view s)); [apply VGS_law|done|by split| |].
  2:{ intros groups e n1 _ [HL Hv] He. apply wp_ret. auto. }
  intros rows n1 Hat Hrows.
  eapply looks_bind; [apply PVS_law|done|exact Hat| |].
  2:{ intros groups e n2 _ [HL Hv] He. apply wp_ret. auto. }
  intros pvs n2 [HL Hv] ->. apply wp_ret. split; [done|]. split; [done|].
  rewrite group_pvs_eq by done. rewrite map_range_perm, map_to_list_fmap, <- !list_fmap_compose.
  apply reflexive_eq, list_fmap_ext. by intros i [].
Qed.
End inventory.
