(* ===== verification/ReconcilerCorrect.v ===== *)
(** * Correctness of the node's reconciler for LVM volumes

    What the status of a [LogicVolume] says is true of the node: success is
    written only when the volume is there, failure only when nothing changed,
    and the finalizer is taken off only when the volume is gone. *)

From S2P Require Import Prelude GoStrings Api GoRuntime Mutx Exec Utils Config NodeService HostPath Kube.
From S2P Require Import LogicVolumeService LvmParse Lvmd Bcache Partition Volume Reconciler LvmSpec VolumeCorrect.

#[local] Open Scope string_scope.
#[local] Open Scope list_scope.
#[local] Open Scope Z_scope.

Import LogicVolumeReconciler.

(** Waiting for the capacity reporter issues no write of this process. *)
Class NoticeLaws (K : Type) `{KubeLaws K, Notifier K} : Prop := {
  notice_law t k : wp (notice t) (λ _ k', calls k' = calls k) k;
  notify_law t k : wp (notify t) (λ _ k', calls k' = calls k ∧ seen k' = seen k) k
}.

(** ** Retrying an operation of the volume manager *)

Section retry.
Context {N : Type} `{HasLocks N} `{!Lvm2 N} `{!Lvm2Laws N}.

(** [I] is kept by failed attempts. *)
Lemma retry_ok (R : lvm → option error → lvm → Prop) (m : M N (option error)) (I : lvm → Prop) n :
  locked_op R m → wf_lvm (view n) → I (view n) →
  (∀ l e l', I l → R l (Some e) l' → I l') →
  wp (UntilMaxRetry m 3) (λ err n', get_locks n' = get_locks n ∧ wf_lvm (view n') ∧
    match err with
    | None => ∃ l, I l ∧ R l None (view n')
    | Some e => I (view n')
    end) n.
Proof.
  intros Hm Hwf HI Hkeep. unfold UntilMaxRetry. change (Z.to_nat 3) with 3%nat.
  set (F := λ (e : option error) n', get_locks n' = get_locks n ∧ wf_lvm (view n') ∧ I (view n')).
  set (Q := λ err n', get_locks n' = get_locks n ∧ wf_lvm (view n') ∧
    match err with None => ∃ l, I l ∧ R l None (view n') | Some e => I (view n') end).
  assert (∀ err n1, F err n1 →
    wp m (λ e n2, match e with None => Q None n2 | Some _ => F e n2 end) n1) as Hstep.
  { intros err n1 (HL1 & Hwf1 & HI1). eapply wp_mono; [by apply Hm|].
    intros e n2 (HL2 & Hwf2 & Hr). case_decide.
    - destruct Hr as [-> Hv]. split_and!; [congruence|done|by rewrite Hv].
    - destruct e as [e|]; (split; [congruence|]); (split; [done|]); [by eapply Hkeep|by exists (view n1)]. }
  cbn [until_max_retry]. apply wp_bind. eapply wp_mono; [by apply (Hstep None)|].
  intros [e|] n1 H1; [|by apply wp_ret].
  assert (wp (until_max_retry m 2 (Some e))
    (λ r n', match r with None => Q None n' | Some _ => F r n' end) n1) as H2.
  { apply (wp_until_max_retry _ _ (λ r n', match r with None => False | Some _ => F r n' end)); [done| |].
    - intros [e2|] n2 H2; [|done]. eapply wp_mono; [by apply (Hstep None)|]. by intros [|].
    - by intros [|]. }
  eapply wp_mono; [exact H2|]. by intros [|].
Qed.
End retry.

Section correct.
Context {N K : Type} `{HasLocks N} `{!HasLocksLaws N} `{!Lvm2 N} `{!Lvm2Laws N}.
Context `{!Bcache N} `{!BcacheLaws N} `{!GoRuntime} `{!PartitionManager N} `{!HostManager N}.
Context `{KubeClient K} `{!KubeLaws K} `{!Notifier K} `{!NoticeLaws K}.

(** Reporting leaves the node alone and writes the status, or nothing. *)
Lemma report_spec lv (s : N * K) :
  wp (report lv) (λ _ s', s'.1 = s.1 ∧
    (calls s'.2 = calls s.2 ∨ calls s'.2 = calls s.2 ++ [ApiUpdateStatus lv])) s.
Proof.
  unfold report, syncNoticeUpdateCapacity. apply wp_bind, wp_bind, wp_on_snd.
  eapply wp_mono; [apply notice_law|]. intros [] k Hk; apply wp_ret.
  - apply wp_on_snd. eapply wp_mono; [apply call_law|]. intros e k' [Hk' _]. simpl in *.
    split; [done|]. right. congruence.
  - apply wp_ret. split; [done|]. by left.
Qed.

(** ** Creating *)

(** What may be written after a create of [lv], given the lvm states before
    and after. *)
Definition create_report (lv o : LogicVolume) (l l' : lvm) : Prop :=
  let st := lv_Status o in
  lv_Name o = lv_Name lv ∧ lv_Spec o = lv_Spec lv ∧
  ((st_Status st = "Success" ∧ st_VolumeID st = VolumePrefix +:+ lv_Name lv ∧ st_Code st = OK ∧
    st_CurrentSize st = Some (ls_Size (lv_Spec lv)) ∧
    create_contract (lv_Name lv) (ls_DeviceGroup (lv_Spec lv)) (ls_Size (lv_Spec lv)) l None l') ∨
   (st_Status st = "Failed" ∧ st_VolumeID st = st_VolumeID (lv_Status lv) ∧ st_Code st ≠ OK ∧ l' = l)).

Lemma VolumeInfo_quiet id vg n :
  valid_name id → valid_name vg → id ≠ "" → vg ≠ "" → wf_lvm (view n) →
  wp (LocalVolumeImplement.VolumeInfo id vg) (λ _ n', get_locks n' = get_locks n ∧ view n' = view n) n.
Proof.
  intros Hid Hvg Hid' Hvg' Hwf. unfold LocalVolumeImplement.VolumeInfo, LocalVolumeImplement.VolumeList.
  destruct (String.eqb_spec id ""), (String.eqb_spec vg ""); try done. cbn [negb andb].
  change (vg +:+ "/" +:+ id) with (lv_arg vg id). apply wp_bind.
  eapply wp_mono; [by apply (LVS_law N)|]. intros [rows [e|]] n' (HL & Hv & _); [by apply wp_ret|].
  destruct (List.find _ rows); by apply wp_ret.
Qed.

Lemma createLV_lvm lv (s : N * K) :
  volume_type lv = LvmVolumeType → st_Code (lv_Status lv) = OK →
  ok_names (lv_Name lv) (ls_DeviceGroup (lv_Spec lv)) → ls_DeviceGroup (lv_Spec lv) ≠ "" →
  is_u64 (ls_Size (lv_Spec lv)) → wf_lvm (view s.1) →
  wp (createLV lv) (λ _ s', get_locks s'.1 = get_locks s.1 ∧ wf_lvm (view s'.1) ∧
    ((calls s'.2 = calls s.2) ∨
     ∃ o, calls s'.2 = calls s.2 ++ [ApiUpdateStatus o] ∧ create_report lv o (view s.1) (view s'.1))) s.
Proof.
  intros Hty Hok Hn Hg Hsz Hwf. unfold createLV. rewrite Hok, Hty.
  rewrite bool_decide_eq_true_2 by done. change (String.eqb LvmVolumeType LvmVolumeType) with true. cbn [negb].
  cbv iota. rewrite u64_id by done. apply wp_bind, wp_on_fst.
  eapply wp_mono; [eapply (retry_ok _ _ (λ l, l = view s.1)); [by apply CreateVolume_ok|done|done|]|].
  { intros l e l' -> [-> _]. done. }
  assert (∀ o (s1 : N * K), get_locks s1.1 = get_locks s.1 → wf_lvm (view s1.1) → calls s1.2 = calls s.2 →
    create_report lv o (view s.1) (view s1.1) →
    wp (report o) (λ _ s', get_locks s'.1 = get_locks s.1 ∧ wf_lvm (view s'.1) ∧
    ((calls s'.2 = calls s.2) ∨
     ∃ o, calls s'.2 = calls s.2 ++ [ApiUpdateStatus o] ∧ create_report lv o (view s.1) (view s'.1))) s1) as Hrep.
  { intros o s1 HL1 Hwf1 Hc1 Ho. eapply wp_mono; [apply report_spec|]. intros _ s2 [E Hc].
    rewrite E, <- Hc1. split; [done|]. split; [done|]. destruct Hc as [Hc|Hc]; [by left|]. right. by exists o. }
  intros [e|] n1 (HL1 & Hwf1 & Hr1).
  - apply Hrep; [done..|]. split; [by destruct lv|]. split; [by destruct lv|]. right.
    destruct lv as [? ? ? ? ? ? ? ? ? sp st]. simpl. do 2 (split; [done|]). split; [|done].
    by destruct (String.eqb (Error e) ResourceExhausted).
  - destruct Hr1 as (l & -> & Hc). cbv zeta. apply wp_bind, wp_on_fst.
    eapply wp_mono; [apply VolumeInfo_quiet; [by apply prefixed_valid, Hn|apply Hn|done|done|done]|].
    intros [i e] n2 [HL2 Hv2]. simpl in HL2, Hv2. cbn [fst].
    destruct i as [i|]; (apply Hrep; [simpl; congruence|simpl; by rewrite Hv2|done|]);
      (split; [by destruct lv|]); (split; [by destruct lv|]); left; simpl; rewrite Hv2;
      by destruct lv as [? ? ? ? ? ? ? ? ? sp st].
Qed.

(** ** Removing *)

Lemma doomed_again vg name l0 l l' :
  shrinks vg (doomed l0 vg name) l0 l → shrinks vg (doomed l vg name) l l' →
  shrinks vg (doomed l0 vg name) l0 l'.
Proof.
  intros Hs1 Hs2. eapply shrinks_trans; [| |exact Hs1|exact Hs2]; [done|].
  intros k i (Hk & Hd). split; [done|]. destruct Hd as [Hd|[Hd|(i0 & Hi0 & Hd)]]; [auto..|].
  right. right. exists i0. split; [|done]. eapply lookup_weaken; [done|]. apply Hs1.
Qed.

Lemma removeLVIfExists_lvm lv (s : N * K) :
  let group := ls_DeviceGroup (lv_Spec lv) in
  let name := vol_name (lv_Name lv) in
  volume_type lv = LvmVolumeType → has_char "/" (lv_Name lv) = false → valid_name group →
  wf_lvm (view s.1) →
  wp (removeLVIfExists lv) (λ _ s', get_locks s'.1 = get_locks s.1 ∧ wf_lvm (view s'.1) ∧
    shrinks group (doomed (view s.1) group name) (view s.1) (view s'.1) ∧
    (calls s'.2 = calls s.2 ∨
     (∃ lv', calls s'.2 = calls s.2 ++ [ApiPatch lv lv'] ∧ lv_Finalizers lv' =
        SliceRemoveString (lv_Finalizers lv) LogicVolumeFinalizer) ∧
     l_lvs (view s'.1) !! (group, name) = None)) s.
Proof.
  intros group name Hty Hn Hg Hwf. unfold removeLVIfExists. rewrite Hty.
  change (String.eqb LvmVolumeType LvmVolumeType) with true. cbv iota zeta. fold group.
  apply wp_bind, wp_on_fst.
  eapply wp_mono; [eapply (retry_ok _ _ (λ l, shrinks group (doomed (view s.1) group name) (view s.1) l));
    [by apply DeleteVolume_ok|done|apply shrinks_refl|]|].
  { intros l e l' HI [Hs _]. by eapply doomed_again. }
  intros [e|] n1 (HL1 & Hwf1 & Hr1).
  { apply wp_ret. simpl. auto 10. }
  destruct Hr1 as (l & HI & Hs & Hgone & _).
  assert (shrinks group (doomed (view s.1) group name) (view s.1) (view n1)) as HI1 by by eapply doomed_again.
  unfold syncNoticeUpdateCapacity. apply wp_bind, wp_bind, wp_on_snd.
  eapply wp_mono; [apply notice_law|]. intros [] k Hk; apply wp_ret; simpl in Hk.
  - apply wp_on_snd. eapply wp_mono; [apply call_law|]. intros e k' [Hk' _]. simpl in *.
    split; [done|]. split; [done|]. split; [done|]. right. split; [|done].
    eexists. split; [by rewrite Hk', Hk|]. by destruct lv.
  - apply wp_ret. simpl. auto 10.
Qed.

(** ** Expanding *)

(** The status of an object after a failed expansion: the current size stays
    below the requested one. *)
Definition still_small (o : LogicVolume) : Prop :=
  ∃ cur, st_CurrentSize (lv_Status o) = Some cur ∧ cur < ls_Size (lv_Spec o).

Definition expand_report (unknown : lvm → Prop) (lv o : LogicVolume) (l' : lvm) : Prop :=
  let st := lv_Status o in
  lv_Name o = lv_Name lv ∧ lv_Spec o = lv_Spec lv ∧
  ((st_Status st = "Success" ∧ st_Code st = OK ∧ st_CurrentSize st = Some (ls_Size (lv_Spec lv)) ∧
    ∃ l, resize_contract unknown (lv_Name lv) (ls_DeviceGroup (lv_Spec lv)) (ls_Size (lv_Spec lv)) 1 l None l') ∨
   (st_Status st = "Failed" ∧ still_small o)).

Lemma expandLV_lvm lv (s : N * K) cur :
  volume_type lv = LvmVolumeType → st_CurrentSize (lv_Status lv) = Some cur → cur < ls_Size (lv_Spec lv) →
  ok_names (lv_Name lv) (ls_DeviceGroup (lv_Spec lv)) → is_u64 (ls_Size (lv_Spec lv)) → wf_lvm (view s.1) →
  wp (expandLV lv) (λ _ s', get_locks s'.1 = get_locks s.1 ∧ wf_lvm (view s'.1) ∧
    (calls s'.2 = calls s.2 ∨
     ∃ o, calls s'.2 = calls s.2 ++ [ApiUpdateStatus o] ∧
       expand_report (display_fails (VolumePrefix +:+ lv_Name lv) (ls_DeviceGroup (lv_Spec lv))) lv o (view s'.1))) s.
Proof.
  intros Hty Hcur Hlt Hn Hsz Hwf. unfold expandLV. rewrite Hcur, Hty.
  destruct (Z.leb_spec (ls_Size (lv_Spec lv)) cur); [lia|].
  change (String.eqb LvmVolumeType LvmVolumeType) with true. cbv iota zeta. rewrite u64_id by done.
  apply wp_bind, wp_on_fst.
  eapply wp_mono; [eapply (retry_ok _ _ (λ _, True)); [by apply ResizeVolume_ok|done|done|done]|].
  intros err n1 (HL1 & Hwf1 & Hr1). eapply wp_mono; [apply report_spec|]. intros _ s2 [E Hc].
  rewrite E. simpl in *. split; [done|]. split; [done|]. destruct Hc as [Hc|Hc]; [by left|]. right.
  exists (expanded err lv). split; [done|]. split; [by destruct err, lv|]. split; [by destruct err, lv|].
  destruct err as [e|].
  - right. destruct lv as [? ? ? ? ? ? ? ? ? sp st]. split; [done|]. by exists cur.
  - left. destruct Hr1 as (l & _ & Hc1). destruct lv as [? ? ? ? ? ? ? ? ? sp st].
    do 3 (split; [done|]). by exists l.
Qed.
End correct.
