(* ===== verification/DeviceCheckCorrect.v ===== *)
(** * The device scan is safe

    The parts of a pass of [addAndRemoveDevice]: what they discover may join a
    group, and each of them keeps the volumes and moves only devices that may
    join or leave. *)

From S2P Require Import Prelude GoStrings Api GoRuntime Mutx Exec Utils Config NodeService HostPath Kube.
From S2P Require Import LvmParse Lvmd Bcache Partition Volume Reconciler Capacity DeviceCheck LvmSpec VolumeCorrect.
From S2P Require Import ReconcilerCorrect.

#[local] Open Scope string_scope.
#[local] Open Scope list_scope.
#[local] Open Scope Z_scope.

Import deviceCheck.

(** What the scan relies on when it looks at the block devices: looking
    changes no group, and the names can be passed to lvm. *)
Class DiskScanLaws (N : Type) `{Lvm2Laws N} `{PartitionManager N} : Prop := {
  quiet_ListDevicesDetail n : wp (ListDevicesDetail "") (λ r n', get_locks n' = get_locks n ∧ view n' = view n ∧
    ∀ d, d ∈ r.1 → safe (ld_Name d)) n;
  quiet_ListDevicesDetailWithoutFilter dev n : wp (ListDevicesDetailWithoutFilter dev) (λ r n',
    get_locks n' = get_locks n ∧ view n' = view n ∧ ∀ d, d ∈ r.1 → safe (ld_Name d)) n;
  quiet_GetDiskUsed dev n : wp (GetDiskUsed dev) (λ _ n', get_locks n' = get_locks n ∧ view n' = view n) n
}.

(** ** Devices by group *)

Definition all_in (P : string → string → Prop) (m : classes) : Prop :=
  ∀ k l x, m !! k = Some l → x ∈ l → P k x.

Lemma all_in_empty P : all_in P ∅.
Proof. intros k l x. by rewrite lookup_empty. Qed.

Lemma all_in_insert (P : string → string → Prop) m k l :
  all_in P m → (∀ x, x ∈ l → P k x) → all_in P (<[k := l]> m).
Proof.
  intros Hm Hl k' l' x. destruct (decide (k = k')) as [<-|Hne].
  - rewrite lookup_insert_eq. intros [= <-]. auto.
  - rewrite lookup_insert_ne by done. apply Hm.
Qed.

Lemma all_in_default P m k x : all_in P m → x ∈ default [] (m !! k) → P k x.
Proof.
  intros Hm. destruct (m !! k) as [l|] eqn:Hk; cbv [default from_option id]; [by apply Hm|].
  by intros ?%not_elem_of_nil.
Qed.

Lemma all_in_append (P : string → string → Prop) m k x : all_in P m → P k x → all_in P (append_to m k x).
Proof.
  intros Hm Hx. apply all_in_insert; [done|]. intros y [Hy| ->%list_elem_of_singleton]%elem_of_app; [|done].
  by eapply all_in_default.
Qed.

Lemma all_in_foldl {X} P (f : classes → X → classes) (l : list X) m :
  all_in P m → (∀ m x, x ∈ l → all_in P m → all_in P (f m x)) → all_in P (foldl f m l).
Proof.
  revert m. induction l as [|x l IH]; intros m Hm Hf; simpl; [done|].
  apply IH; [|intros; apply Hf; [by right|done]]. apply Hf; [by left|done].
Qed.

Lemma all_in_merge `{GoRuntimeLaws} P newDisk newPv :
  all_in P newDisk → all_in P newPv → all_in P (merge newDisk newPv).
Proof.
  intros Hd Hp. unfold merge. apply all_in_foldl; [apply all_in_foldl; [done|]|].
  - intros m [k l] Hkl Hm. rewrite elem_of_map_range in Hkl. simpl in *.
    destruct (newPv !! k) as [v|] eqn:Hk; [|done]. apply all_in_insert; [done|].
    intros x [Hx|Hx]%SliceMergeSlice_spec; [by eapply Hd|by eapply Hp].
  - intros m [k l] Hkl Hm. rewrite elem_of_map_range in Hkl. simpl in *.
    destruct (bool_decide _); [done|]. apply all_in_insert; [done|]. intros x Hx. by eapply Hp.
Qed.

(** ** Who may join, who may leave *)

Section spec.
Context {N : Type} `{Lvm2Laws N} `{PartitionManager N} `{Regexp}.

(** The selector of a group that is not for raw disks. *)
Definition selects (groups : gmap string DiskSelectorItem) (ds : DiskSelectorItem) (matches : string → bool) : Prop :=
  (∃ k, groups !! k = Some ds) ∧ ToLower (ds_Policy ds) ≠ "raw" ∧ Compile (Join (ds_Re ds) "|") = Some matches.

(** A device that was listed while lvm was in the state [l], has neither
    partitions nor an unsupported type, and of which nothing is used. *)
Definition free_device (l : lvm) (dev : string) : Prop :=
  (∃ (n n' : N) rows d, view n = l ∧ ListDevicesDetail "" n = (Done (rows, None), n') ∧ d ∈ rows ∧
    ld_Name d = dev ∧ ld_HavePartitions d = false ∧ supported_type (ld_Type d) = true) ∧
  ∃ (n n' : N) used, GetDiskUsed dev n = (Done (used, None), n') ∧ used <= 0.

(** The block device of a physical volume that is in no group. *)
Definition unbound_device (l : lvm) (matches : string → bool) (dev : string) : Prop :=
  ∃ pv (n n' : N) disk, member l pv "" ∧ matches pv = true ∧ dev = ld_Name disk ∧
    ListDevicesDetailWithoutFilter pv n = (Done ([disk], None), n').

Definition joinable (groups : gmap string DiskSelectorItem) (l : lvm) (name dev : string) : Prop :=
  safe dev ∧ ∃ ds matches, selects groups ds matches ∧ ds_Name ds = name ∧
    (matches dev = true ∧ free_device l dev ∨ unbound_device l matches dev).

Definition may_join (groups : gmap string DiskSelectorItem) (l : lvm) (dev g : string) : Prop :=
  ∃ name, g = ToLower name ∧ joinable groups l name dev.

(** The selector of the group does not match the device, the device is
    missing, or the group has no volumes. *)
Definition may_go (groups : gmap string DiskSelectorItem) (l : lvm) (dev g : string) : Prop :=
  Contains dev "unknown" = true ∨ lv_count g (l_lvs l) = 0 ∨
  ∃ ds matches, groups !! g = Some ds ∧ Compile (Join (ds_Re ds) "|") = Some matches ∧ matches dev = false.

(** How a state of the scan relates to the one it started in. *)
Record scanned (groups : gmap string DiskSelectorItem) (L : GlobalLocks.t) (l : lvm) (n : N) : Prop := {
  sc_locks : get_locks n = L;
  sc_wf : wf_lvm (view n);
  sc_unnamed : l_vgs (view n) !! "" = None;
  sc_lvs : l_lvs (view n) = l_lvs l;
  sc_moves : moves (may_join groups l) (may_go groups l) l (view n)
}.
End spec.

(** Names that can be passed to lvm. *)
Definition good_group (v : string) : Prop := valid_name v ∧ v ≠ "" ∧ safe v.
Definition good_groups (groups : gmap string DiskSelectorItem) : Prop :=
  ∀ k ds, groups !! k = Some ds → k = ds_Name ds ∧ good_group k ∧ good_group (ToLower k).

Section scan.
Context {N : Type} `{HasLocks N} `{!HasLocksLaws N} `{!Lvm2 N} `{!Lvm2Laws N}.
Context `{!Bcache N} `{!BcacheLaws N} `{GoRuntimeLaws} `{!PartitionManager N} `{!DiskScanLaws N} `{!Regexp}.
Context (groups : gmap string DiskSelectorItem) (L : GlobalLocks.t) (l : lvm).
Context (Hgroups : good_groups groups).

Abbreviation ok := (scanned groups L l).

Lemma scanned_view n n' : get_locks n' = get_locks n → view n' = view n → ok n → ok n'.
Proof. intros HL Hv []. split; rewrite ?Hv; congruence. Qed.

(** One command that leaves the volumes alone. *)
Lemma scanned_step c (m : M N (option error)) n :
  runs view c m → ok n →
  (∀ l1 l2, wf_lvm l1 → lvm_step c l1 l2 → l_lvs l2 = l_lvs l1 ∧ (l_vgs l1 !! "" = None → l_vgs l2 !! "" = None)) →
  lvm_fail c = (λ s s', s' = s) →
  (∀ d g, joined c d g → may_join groups l d g) → (∀ d g, left c d g → may_go groups l d g) →
  wp m (λ _, ok) n.
Proof.
  intros Hm [HL Hwf Hun Hlv Hmv] Hstep Hfail HJ HX. eapply wp_mono; [by apply Hm|].
  intros [e|] n' [HL' Hr]; simpl in Hr.
  - rewrite Hfail in Hr. by apply (scanned_view n).
  - destruct (Hstep _ _ Hwf Hr) as [El Eu]. split; [congruence|by eapply lvm_step_wf|by apply Eu|congruence|].
    eapply moves_trans; [exact Hmv|]. by eapply moves_mono; [..|apply lvm_step_moves].
Qed.

Lemma PVResize_scanned dev n : safe dev → ok n → wp (PVResize dev) (λ _, ok) n.
Proof.
  intros Hd Hn. apply (scanned_step (CPvResize dev)); [by apply PVResize_law|done| |done|done|done].
  intros l1 l2 Hwf Hst.
  inversion Hst as [| | | | | | | | | | |? p p' ? Hp Hnm Hpv Hp'|? p p' g ? Hp Hnm Hpv Hg Hp' Hw|]; subst; [done|].
  split; [done|]. simpl. intros Hun. destruct (wf_vgs _ Hwf _ _ Hg) as (-> & _). by rewrite lookup_insert_ne.
Qed.

Lemma RemoveUnknownDevice_scanned v n : valid_name v → v ≠ "" → ok n → wp (RemoveUnknownDevice v) (λ _, ok) n.
Proof.
  intros Hv Hne Hn. apply (scanned_step (CReduceMissing v)); [by apply RemoveUnknownDevice_law|done| |done|done|].
  - intros l1 l2 Hwf Hst. inversion Hst as [| | | | | | | | | | | | |? g dpv dsize dfree ps ? Hg Hsub Hkeep Hw]; subst.
    split; [done|]. simpl. intros Hun. destruct (wf_vgs _ Hwf _ _ Hg) as (-> & _). by rewrite lookup_insert_ne.
  - intros d g [_ Hd]. by left.
Qed.

(** An operation of the volume manager. *)
Lemma scanned_refines R (m : M N (option error)) n :
  locked_op R m → ok n →
  (∀ l1 err l2, wf_lvm l1 → l_lvs l1 = l_lvs l → R l1 err l2 → l_lvs l2 = l_lvs l1 ∧
    (l_vgs l1 !! "" = None → l_vgs l2 !! "" = None) ∧ moves (may_join groups l) (may_go groups l) l1 l2) →
  wp m (λ _, ok) n.
Proof.
  intros Hm Hn HR. pose proof Hn as [HL Hwf Hun Hlv Hmv]. eapply wp_mono; [by apply Hm|].
  intros err n' (HL' & Hwf' & Hr). destruct (decide _).
  - destruct Hr as [_ Hv]. by apply (scanned_view n).
  - destruct (HR _ _ _ Hwf Hlv Hr) as (El & Eu & Em). split; [congruence|done|by apply Eu|congruence|].
    by eapply moves_trans.
Qed.

Lemma AddNewDiskToVg_scanned dev name n :
  joinable groups l name dev → ok n → wp (LocalVolumeImplement.AddNewDiskToVg dev name) (λ _, ok) n.
Proof.
  intros Hj Hn. pose proof Hj as (Hd & ds & matches & ([k Hk] & _) & <- & _).
  destruct (Hgroups _ _ Hk) as (-> & _ & Hv & Hne & Hs).
  apply (scanned_refines (add_contract dev (ToLower (ds_Name ds)))); [by apply AddNewDiskToVg_ok|done|].
  intros l1 err l2 _ _ (El & Ev & Hm & _). split_and!; [done| |].
  - by rewrite Ev by done.
  - eapply moves_mono; [| |exact Hm]; [|done]. intros d g [-> ->]. by exists (ds_Name ds).
Qed.

Lemma RemoveDiskInVg_scanned dev v ds matches n :
  groups !! v = Some ds → Compile (Join (ds_Re ds) "|") = Some matches → matches dev = false → safe dev →
  ok n → wp (LocalVolumeImplement.RemoveDiskInVg dev v) (λ _, ok) n.
Proof.
  intros Hk Hc Hno Hd Hn. destruct (Hgroups _ _ Hk) as (_ & (Hv & Hne & Hs) & _).
  apply (scanned_refines (remove_contract dev v)); [by apply RemoveDiskInVg_ok|done|].
  intros l1 err l2 _ Elv (El & Ev & Hm & _). split_and!; [done| |].
  - by rewrite Ev by done.
  - eapply moves_mono; [| |exact Hm]; [done|]. intros d g [-> [-> |Hz]]; [right; right; eauto|].
    right. left. by rewrite <- Elv.
Qed.

(** ** Discovery *)

Definition found (acc : classes) (n : N) : Prop := ok n ∧ view n = l ∧ all_in (joinable groups l) acc.

Lemma discover_one_ok ds matches d rows n0 n1 acc n :
  selects groups ds matches → view n0 = l → ListDevicesDetail "" n0 = (Done (rows, None), n1) → d ∈ rows →
  safe (ld_Name d) → found acc.1 n →
  wp (discover_one (ds_Name ds) matches d acc) (λ acc, found acc.1) n.
Proof.
  intros Hsel Hv0 Hlist Hd Hsafe Hf. unfold discover_one. destruct acc as [m seen].
  cbv beta iota. pose proof Hf as (Hn & Hv & Hacc).
  destruct (ld_HavePartitions d) eqn:Hparts; [by apply wp_ret|].
  destruct (Contains (ld_Name d) "cache"); [by apply wp_ret|].
  destruct (supported_type (ld_Type d)) eqn:Hty; cbn [negb]; [|by apply wp_ret].
  destruct (matches (ld_Name d)) eqn:Hmatch; cbn [negb]; [|by apply wp_ret].
  pose proof (quiet_GetDiskUsed (ld_Name d) n) as Hq.
  apply wp_exists in Hq as ([used err] & n' & Hused & HL & Hv'). eapply wp_bind_run; [exact Hused|].
  assert (found m n') as Hn' by (split_and!; [by apply (scanned_view n)|congruence|done]).
  destruct err as [e|]; [by apply wp_ret|].
  destruct (Z.ltb_spec 0 used); [by apply wp_ret|].
  destruct (ContainsString _ _); [by apply wp_ret|].
  destruct (bool_decide _); [by apply wp_ret|]. apply wp_ret. split_and!; [apply Hn'..|].
  apply all_in_append; [done|]. split; [done|]. exists ds, matches. split_and!; [done|done|]. left.
  split; [done|]. split; [by exists n0, n1, rows, d|by exists n, n', used].
Qed.

Lemma found_empty n : ok n → view n = l → found ∅ n.
Proof. intros. split_and!; [done|done|apply all_in_empty]. Qed.

Lemma discoverDisk_ok n : ok n → view n = l → wp (discoverDisk groups) (λ r, found r.1) n.
Proof.
  intros Hn Hv. unfold discoverDisk. pose proof (quiet_ListDevicesDetail n) as Hq.
  apply wp_exists in Hq as ([rows err] & n1 & Hlist & HL & Hv1 & Hsafe). eapply wp_bind_run; [exact Hlist|].
  assert (found ∅ n1) as Hn1 by (apply found_empty; [by apply (scanned_view n)|congruence]).
  destruct rows as [|d0 rows'], err as [e|]; try by apply wp_ret.
  set (rows := d0 :: rows') in *. cbn [fst] in Hsafe. apply wp_bind.
  eapply wp_mono; [apply (wp_for_acc _ _ _ (λ acc, found acc.1)); [done|]|by intros acc n2 ?; apply wp_ret].
  intros [k ds] acc n2 Hk%elem_of_map_range Hacc. cbn [snd].
  destruct (String.eqb_spec (ToLower (ds_Policy ds)) "raw"); [by apply wp_ret|].
  destruct (Compile _) as [matches|] eqn:Hc; [|by apply wp_ret].
  apply (wp_for_acc _ _ _ (λ acc, found acc.1)); [done|]. intros d acc' n3 Hd Hacc'.
  eapply discover_one_ok; [|exact Hv|exact Hlist|done|by apply Hsafe|done]. split_and!; [by exists k|done|done].
Qed.

(** Physical volumes of their own group are resized on the way. *)
Lemma discover_pv_ok ds matches pv resp n :
  selects groups ds matches → pv ∈ l_pvs l → wf_pv pv → ok n → all_in (joinable groups l) resp →
  wp (discover_pv ds matches pv resp) (λ resp n', ok n' ∧ all_in (joinable groups l) resp) n.
Proof.
  intros Hsel Hpv Hwf Hn Hresp. unfold discover_pv. apply wp_bind.
  apply wp_mono with (Q := λ _, ok).
  { destruct (String.eqb _ _); [|by apply wp_ret]. apply wp_bind.
    eapply wp_mono; [apply PVResize_scanned; [apply Hwf|done]|]. intros e n1 ?. by apply wp_ret. }
  intros _ n1 Hn1. destruct (String.eqb_spec (pv_VGName pv) "") as [He|]; cbn [negb]; [|by apply wp_ret].
  destruct (matches (pv_PVName pv)) eqn:Hmatch; cbn [negb]; [|by apply wp_ret].
  pose proof (quiet_ListDevicesDetailWithoutFilter (pv_PVName pv) n1) as Hq.
  apply wp_exists in Hq as ([rows err] & n2 & Hlist & HL & Hv & Hsafe). eapply wp_bind_run; [exact Hlist|].
  assert (ok n2) as Hn2 by by apply (scanned_view n1).
  destruct rows as [|disk [|? ?]], err as [e|]; try by apply wp_ret.
  destruct (ContainsString _ _); apply wp_ret; (split; [done|]); [done|].
  apply all_in_append; [done|]. split; [apply Hsafe; by left|]. exists ds, matches. split_and!; [done|done|].
  right. exists (pv_PVName pv), n1, n2, disk. split_and!; try done. apply member_elem. by exists pv.
Qed.

Lemma discoverPv_ok n :
  ok n → view n = l → wp (discoverPv groups) (λ r n', ok n' ∧ all_in (joinable groups l) r.1) n.
Proof.
  intros Hn Hv. pose proof Hn as [HL Hwf _ _ _]. unfold discoverPv, LocalVolumeImplement.GetCurrentPvStruct.
  eapply looks_bind; [apply PVS_law|exact Hwf|by split| |].
  2:{ intros ? e n1 _ [HL1 Hv1] _. apply wp_ret. split; [by apply (scanned_view n); congruence|apply all_in_empty]. }
  intros pvs n1 [HL1 Hv1] ->. rewrite Hv in *. apply wp_bind.
  eapply wp_mono with (Q := λ r n', ok n' ∧ match r with inl resp | inr resp => all_in (joinable groups l) resp end).
  2:{ by intros [resp|resp] n' ?; apply wp_ret. }
  apply (wp_range _ _ _ (λ rest resp n', (∀ x, x ∈ rest → x ∈ map_range 63 groups) ∧ ok n' ∧ all_in (joinable groups l) resp)).
  - split; [done|]. split; [by apply (scanned_view n); congruence|apply all_in_empty].
  - intros [k ds] rest resp n2 (Hsub & Hn2 & Hresp). cbn [snd].
    assert (groups !! k = Some ds) as Hk by (by eapply elem_of_map_range, Hsub; left).
    assert (∀ x, x ∈ rest → x ∈ map_range 63 groups) as Hsub' by (intros; apply Hsub; by right).
    destruct (String.eqb_spec (ToLower (ds_Policy ds)) "raw"); [by apply wp_ret|].
    destruct (Compile _) as [matches|] eqn:Hc; [|by apply wp_ret].
    apply wp_bind. eapply wp_mono; [apply (wp_for_acc _ _ _ (λ resp n', ok n' ∧ all_in (joinable groups l) resp)); [done|]|].
    + intros pv resp' n3 Hpv [Hn3 Hresp']. apply discover_pv_ok; try done; [|by apply (wf_pvs _ Hwf)].
      split_and!; [by exists k|done|done].
    + intros resp' n3 ?. by apply wp_ret.
  - by intros resp n2 (_ & ? & ?).
Qed.

(** ** Adding and removing *)

Lemma add_disks_ok have new n :
  all_in (joinable groups l) new → ok n → wp (add_disks have new) (λ _, ok) n.
Proof.
  intros Hnew Hn. apply wp_for_each_elem; [done|]. intros [k pvs] n1 Hk%elem_of_map_range Hn1.
  apply wp_for_each_elem; [done|]. intros pv n2 Hpv Hn2. destruct (ContainsString _ _); [by apply wp_ret|].
  apply wp_bind. eapply wp_mono; [apply AddNewDiskToVg_scanned; [by eapply Hnew|done]|]. intros e n3 ?. by apply wp_ret.
Qed.

(** The groups as they were read at some point of the scan. *)
Lemma remove_disks_ok vgs l1 n :
  wf_lvm l1 → l_vgs l1 !! "" = None → vgs ≡ₚ group_row l1 <$> (map_to_list (l_vgs l1)).*2 →
  ok n → wp (remove_disks groups vgs) (λ _, ok) n.
Proof.
  intros Hwf Hun Hvgs Hn.
  apply (wp_range _ _ _ (λ rest _ n', (∀ x, x ∈ rest → x ∈ vgs) ∧ ok n')); [done| |by intros ? n2 [_ ?]].
  intros v rest _ n2 [Hsub Hn2]. assert (v ∈ vgs) as Hv by (apply Hsub; by left).
  rewrite Hvgs, list_elem_of_fmap in Hv. destruct Hv as (g & -> & Hg).
  apply list_elem_of_fmap in Hg as ([k g'] & -> & Hk%elem_of_map_to_list). cbn [snd].
  destruct (wf_vgs _ Hwf _ _ Hk) as (Hname & _). cbn [group_row vg_VGName vg_PVS]. rewrite Hname.
  assert (∀ x, x ∈ rest → x ∈ vgs) as Hsub' by (intros; apply Hsub; by right).
  destruct (groups !! k) as [ds|] eqn:Hds; [|by apply wp_ret].
  destruct (Compile _) as [matches|] eqn:Hc; [|by apply wp_ret]. apply wp_bind.
  eapply wp_mono; [apply (wp_for_each_elem _ _ ok); [done|]|by intros ? n3 ?; apply wp_ret].
  intros pv n3 Hpv Hn3. apply list_elem_of_filter in Hpv as [Hvg Hpv].
  destruct (Hgroups _ _ Hds) as (_ & (Hvalid & Hne & _) & _). unfold remove_one.
  destruct (Contains (pv_PVName pv) "unknown").
  { apply wp_bind. rewrite Hvg. eapply wp_mono; [by apply RemoveUnknownDevice_scanned|]. intros e n4 ?. by apply wp_ret. }
  destruct (matches (pv_PVName pv)) eqn:Hm; [by apply wp_ret|]. apply wp_bind.
  cbn [group_row vg_VGName]. rewrite Hname.
  eapply wp_mono; [eapply RemoveDiskInVg_scanned; try done; by apply (wf_pvs _ Hwf)|]. intros e n4 ?. by apply wp_ret.
Qed.
End scan.
