(* ===== verification/LvmTools.v ===== *)
(** * [Lvm2Implement] keeps the promise of its interface

    [LvmTools] states what the lvm2 command line tools do, as their manual
    pages document it: the reports of [vgs], [pvs] and [lvs] describe the
    state, a command that exits with status 0 has its effect, one that fails
    has none, and the other programs the agent runs leave the volume groups
    alone.  From that and the round trip of the parsers follow the laws the
    volume manager is verified against. *)

From S2P Require Import Prelude GoStrings Api GoRuntime Mutx Exec Utils LvmParse Lvmd Bcache Volume LvmSpec VolumeCorrect.

#[local] Open Scope string_scope.
#[local] Open Scope list_scope.
#[local] Open Scope Z_scope.

(** The text the agent sees of a process that failed. *)
Definition complaint (r : proc_result) : string := (runCommandWithOutput r false).1.

(** The programs of the bcache implementation that look at a device or write
    a control file of the kernel. *)
Definition no_lvm_command (c : command) : Prop :=
  c.1 ∈ ["bcache-super-show"; "lsblk"; "umount"] ∨
  ∃ text, c = ("/bin/sh", ["-c"; "echo " +:+ text]).

Class LvmTools (W : Type) `{OS W} := {
  lvm_of : W → lvm;

  tool_vgs w : wf_lvm (lvm_of w) →
    let '(r, w') := os_run "vgs" (vgs_fields ++ report_args) w in
    lvm_of w' = lvm_of w ∧
    (pr_end r = ExitOk → ∃ rows, rows ≡ₚ (map_to_list (l_vgs (lvm_of w))).*2 ∧
      pr_stdout r = report (vg_fields <$> rows));
  tool_pvs w : wf_lvm (lvm_of w) →
    let '(r, w') := os_run "pvs" report_args w in
    lvm_of w' = lvm_of w ∧
    (pr_end r = ExitOk → pr_stdout r = report (pv_fields <$> l_pvs (lvm_of w)));
  tool_lvs vg lv w : wf_lvm (lvm_of w) → valid_name vg → valid_name lv →
    let '(r, w') := os_run "lvs" (lvs_fields ++ report_args ++ [lv_arg vg lv]) w in
    lvm_of w' = lvm_of w ∧
    match pr_end r with
    | ExitOk => ∃ i, l_lvs (lvm_of w) !! (vg, lv) = Some i ∧ pr_stdout r = report [lv_fields i]
    | _ => Contains (complaint r) "Failed to find logical volume" ∨ Contains (complaint r) "not found" →
           l_lvs (lvm_of w) !! (vg, lv) = None
    end;
  tool_lvs_all w : wf_lvm (lvm_of w) →
    let '(r, w') := os_run "lvs" (lvs_fields ++ report_args) w in
    lvm_of w' = lvm_of w ∧
    match pr_end r with
    | ExitOk => ∃ rows, rows ≡ₚ (map_to_list (l_lvs (lvm_of w))).*2 ∧ pr_stdout r = report (lv_fields <$> rows)
    | _ => Contains (complaint r) "Failed to find logical volume" = false
    end;
  tool_step c w : wf_lvm (lvm_of w) → valid_cmd c →
    let '(r, w') := os_run (cmdline c).1 (cmdline c).2 w in
    match pr_end r with
    | ExitOk => lvm_step c (lvm_of w) (lvm_of w')
    | _ => lvm_fail c (lvm_of w) (lvm_of w')
    end;
  tool_other c w : no_lvm_command c → lvm_of (os_run c.1 c.2 w).2 = lvm_of w;
  tool_lsblk dev w :
    let r := (os_run "lsblk" ["--pairs"; "--noheadings"; "--output"; "KNAME,MAJ:MIN"; dev] w).1 in
    pr_end r = ExitOk →
    ∃ ds, Forall wf_dev ds ∧ TrimSpace (pr_stdout r) = lsblk_report ds
}.

Section implementation.
Context {W : Type} `{OS W} `{!LvmTools W}.

Definition node_view (n : Node W) : lvm := lvm_of (nd_world n).

(** ** Running one program *)

Lemma wp_spawn cmd arg (Q : proc_result → Node W → Prop) n :
  (let '(r, w) := os_run cmd arg (nd_world n) in
   Q r (mkNode (nd_locks n) (nd_parts n) w (nd_trace n ++ [(cmd, arg)]))) →
  wp (spawn cmd arg) Q n.
Proof. unfold wp, spawn. by destruct (os_run _ _ _). Qed.

Lemma wp_ExecuteCommand cmd arg (Q : option error → Node W → Prop) n :
  (let '(r, w) := os_run cmd arg (nd_world n) in
   Q (proc_error (pr_end r)) (mkNode (nd_locks n) (nd_parts n) w (nd_trace n ++ [(cmd, arg)]))) →
  wp (ExecuteCommand cmd arg) Q n.
Proof. intros HQ. apply wp_bind, wp_spawn. by destruct (os_run _ _ _). Qed.

Lemma wp_ExecuteCommandWithOutput cmd arg (Q : res string → Node W → Prop) n :
  (let '(r, w) := os_run cmd arg (nd_world n) in
   Q (runCommandWithOutput r false)
     (mkNode (nd_locks n) (nd_parts n) w (nd_trace n ++ [(cmd, arg)]))) →
  wp (ExecuteCommandWithOutput cmd arg) Q n.
Proof. intros HQ. apply wp_bind, wp_spawn. by destruct (os_run _ _ _). Qed.

(** A command that is one line of [cmdline]. *)
Lemma runs_command c cmd arg :
  valid_cmd c → cmdline c = (cmd, arg) → runs node_view c (ExecuteCommand cmd arg).
Proof.
  intros Hv Hc n Hwf. apply wp_ExecuteCommand. pose proof (tool_step c (nd_world n) Hwf Hv) as Hst.
  rewrite Hc in Hst. simpl in Hst. destruct (os_run _ _ _) as [r w]. simpl.
  split; [done|]. destruct (pr_end r); exact Hst.
Qed.

(** ** The reports *)

Lemma VGS_ok : looks node_view Lvm2Implement.VGS
  (λ s rows, rows ≡ₚ (map_to_list (l_vgs s)).*2) (λ s _ e, exec_error e).
Proof.
  intros n Hwf. apply wp_bind, wp_ExecuteCommandWithOutput.
  pose proof (tool_vgs (nd_world n) Hwf) as Ht. destruct (os_run _ _ _) as [r w].
  destruct Ht as [Hw Hok]. unfold runCommandWithOutput. destruct (pr_end r) as [|m|m] eqn:E; simpl;
    try (apply wp_ret; split_and!; [done|done|by exists m]).
  destruct (Hok eq_refl) as (rows & Hrows & ->).
  rewrite parseVgs_report; [by apply wp_ret|].
  rewrite Hrows. apply Forall_fmap, Forall_forall. intros [k g] Hkg%elem_of_map_to_list.
  by apply (wf_vgs _ Hwf k g).
Qed.

Lemma PVS_ok : looks node_view Lvm2Implement.PVS (λ s rows, rows = l_pvs s) (λ s _ e, exec_error e).
Proof.
  intros n Hwf. apply wp_bind, wp_ExecuteCommandWithOutput.
  pose proof (tool_pvs (nd_world n) Hwf) as Ht. destruct (os_run _ _ _) as [r w].
  destruct Ht as [Hw Hok]. unfold runCommandWithOutput. destruct (pr_end r) as [|m|m] eqn:E; simpl;
    try (apply wp_ret; split_and!; [done|done|by exists m]).
  rewrite (Hok eq_refl). rewrite parsePvs_report; [by apply wp_ret|]. by apply wf_pvs_Forall.
Qed.
Lemma VGDisplay_ok vg : looks node_view (Lvm2Implement.VGDisplay vg)
  (λ s r, ∃ g, r = Some g ∧ l_vgs s !! vg = Some g)
  (λ s r e, r = None ∧ (exec_error e ∨ e = ErrString "vg not found" ∧ l_vgs s !! vg = None)).
Proof.
  intros n Hwf. apply wp_bind. eapply wp_mono; [by apply VGS_ok|].
  intros [rows [e|]] n' (HL & Hv & Hr); [apply wp_ret; auto|].
  assert (∀ g, g ∈ rows ↔ l_vgs (node_view n) !! vg_VGName g = Some g) as Hin.
  { intros g. rewrite Hr, list_elem_of_fmap. split.
    - intros ([k g'] & -> & Hk%elem_of_map_to_list). simpl.
      by destruct (wf_vgs _ Hwf _ _ Hk) as (-> & _).
    - intros Hg. exists (vg_VGName g, g). split; [done|]. by apply elem_of_map_to_list. }
  destruct (List.find _ rows) as [g|] eqn:Hf; apply wp_ret; (split; [done|]); (split; [done|]).
  - apply find_some in Hf as [Hg%list_elem_of_In Hn%String.eqb_eq]. subst vg.
    exists g. split; [done|]. by apply Hin.
  - split; [done|]. right. split; [done|]. destruct (l_vgs (node_view n) !! vg) as [g|] eqn:Hg; [|done].
    exfalso. destruct (wf_vgs _ Hwf _ _ Hg) as (Hn & _). rewrite <- Hn in Hg. apply Hin in Hg.
    apply list_elem_of_In in Hg. pose proof (find_none _ _ Hf g Hg) as Hne. simpl in Hne.
    by rewrite Hn, String.eqb_refl in Hne.
Qed.

Lemma PVDisplay_ok dev : looks node_view (Lvm2Implement.PVDisplay dev)
  (λ s r, ∃ p, r = Some p ∧ p ∈ l_pvs s ∧ pv_PVName p = dev)
  (λ s r e, r = None ∧
    (exec_error e ∨ e = ErrString "disk not found" ∧ ∀ p, p ∈ l_pvs s → pv_PVName p ≠ dev)).
Proof.
  intros n Hwf. apply wp_bind. eapply wp_mono; [by apply PVS_ok|].
  intros [rows [e|]] n' (HL & Hv & Hr); [apply wp_ret; auto|]. subst rows.
  destruct (List.find _ _) as [p|] eqn:Hf; apply wp_ret; (split; [done|]); (split; [done|]).
  - apply find_some in Hf as [Hp%list_elem_of_In Hn%String.eqb_eq]. by exists p.
  - split; [done|]. right. split; [done|]. intros p Hp%list_elem_of_In Hn.
    pose proof (find_none _ _ Hf p Hp) as Hne. simpl in Hne. by rewrite Hn, String.eqb_refl in Hne.
Qed.

Lemma lv_arg_nonempty vg lv : String.eqb (lv_arg vg lv) "" = false.
Proof. unfold lv_arg. by destruct vg. Qed.

Lemma LVDisplay_ok lv vg : valid_name lv → valid_name vg → looks node_view (Lvm2Implement.LVDisplay lv vg)
  (λ s r, ∃ i, r = Some i ∧ l_lvs s !! (vg, lv) = Some i ∧ carina_lv i)
  (λ s r e, r = None ∧ ∃ m, e = ErrString m ∧
    (Contains m "not found" → ∀ i, l_lvs s !! (vg, lv) = Some i → carina_lv i = false)).
Proof.
  intros Hlv Hvg n Hwf. apply wp_bind. unfold Lvm2Implement.LVS. rewrite lv_arg_nonempty. cbn [negb].
  apply wp_bind, wp_ExecuteCommandWithOutput. unfold node_view in *.
  pose proof (tool_lvs vg lv (nd_world n) Hwf Hvg Hlv) as Ht. destruct (os_run _ _ _) as [r w].
  destruct Ht as [Hw Hr]. fold (complaint r).
  assert (∀ m, pr_end r = ExitError m ∨ pr_end r = StartError m →
    runCommandWithOutput r false = (complaint r, Some (ErrExec m))) as Hc.
  { intros m He. unfold complaint, runCommandWithOutput. by destruct He as [-> | ->]. }
  destruct (pr_end r) as [|m|m] eqn:E.
  { destruct Hr as (i & Hi & Hout). unfold runCommandWithOutput. rewrite E, Hout. cbn [proc_error].
    change [lv_fields i] with (lv_fields <$> [i]).
    rewrite parseLvs_report; [|by apply Forall_singleton, (wf_lvs _ Hwf _ _ _ Hi)].
    apply wp_ret. cbn [List.filter]. destruct (carina_lv i) eqn:Hca; apply wp_ret; split_and!; try done.
    - by exists i; rewrite Hca.
    - exists "not found". split; [done|]. intros _ j Hj. congruence. }
  all: rewrite (Hc m) by auto; destruct (Contains (complaint r) "Failed to find logical volume") eqn:Hf;
    apply wp_ret, wp_ret; split_and!; try done; eexists; split; try done.
  all: intros Hn i Hi; rewrite Hr in Hi by (first [by right | by left]); done.
Qed.

Lemma LVS_ok lv vg : valid_name lv → valid_name vg → looks node_view (Lvm2Implement.LVS (lv_arg vg lv))
  (λ s rows, ∀ i, i ∈ rows → l_lvs s !! (vg, lv) = Some i) (λ _ _ _, True).
Proof.
  intros Hlv Hvg n Hwf. unfold Lvm2Implement.LVS. rewrite lv_arg_nonempty. cbn [negb].
  apply wp_bind, wp_ExecuteCommandWithOutput. unfold node_view in *.
  pose proof (tool_lvs vg lv (nd_world n) Hwf Hvg Hlv) as Ht. destruct (os_run _ _ _) as [r w].
  destruct Ht as [Hw Hr]. unfold runCommandWithOutput. destruct (pr_end r) as [|m|m] eqn:E; cbn [proc_error].
  2,3: clear Hr; destruct (Contains _ _); apply wp_ret; (split; [done|]); (split; [done|]); [|done];
    by intros i ?%not_elem_of_nil.
  destruct Hr as (i & Hi & Hout). rewrite Hout. change [lv_fields i] with (lv_fields <$> [i]).
  rewrite parseLvs_report; [|by apply Forall_singleton, (wf_lvs _ Hwf _ _ _ Hi)].
  apply wp_ret. split_and!; [done|done|]. intros j Hj. cbn [List.filter] in Hj.
  destruct (carina_lv i); [|by apply not_elem_of_nil in Hj]. by apply list_elem_of_singleton in Hj as ->.
Qed.

Lemma LVS_all_ok : looks node_view (Lvm2Implement.LVS "")
  (λ s rows, rows ≡ₚ List.filter carina_lv (map_to_list (l_lvs s)).*2) (λ _ rows _, rows = []).
Proof.
  intros n Hwf. unfold Lvm2Implement.LVS. change (negb (String.eqb "" "")) with false. cbv zeta iota.
  apply wp_bind, wp_ExecuteCommandWithOutput. unfold node_view in *.
  pose proof (tool_lvs_all (nd_world n) Hwf) as Ht. destruct (os_run _ _ _) as [r w].
  destruct Ht as [Hw Hr]. unfold complaint in Hr. unfold runCommandWithOutput in *.
  destruct (pr_end r) as [|m|m] eqn:E; cbn [proc_error fst] in *.
  2,3: rewrite Hr; by apply wp_ret.
  destruct Hr as (rows & Hrows & Hout). rewrite Hout, parseLvs_report.
  - apply wp_ret. split_and!; [done|done|]. by rewrite Hrows.
  - rewrite Hrows. apply Forall_fmap, Forall_forall. intros [[vg lv] i] Hi%elem_of_map_to_list.
    by apply (wf_lvs _ Hwf vg lv).
Qed.

(** ** Moving a device out of its group *)

Lemma VGReduce_ok vg dev n :
  valid_cmd (CVgReduce vg dev) → wf_lvm (node_view n) →
  wp (Lvm2Implement.VGReduce vg dev) (λ err n', get_locks n' = get_locks n ∧
    ∃ s1, pv_shuffle (node_view n) s1 ∧
      match err with
      | None => ∃ s2, lvm_step (CVgReduce vg dev) s1 s2 ∧ lvm_step (CPvRemove dev) s2 (node_view n')
      | Some _ => node_view n' = s1 ∨ lvm_step (CVgReduce vg dev) s1 (node_view n')
      end) n.
Proof.
  intros Hv Hwf. assert (safe dev) as Hd by apply Hv.
  apply wp_bind, wp_ExecuteCommandWithOutput.
  pose proof (tool_step (CPvMove dev) (nd_world n) Hwf Hd) as Ht. simpl in Ht.
  destruct (os_run _ _ _) as [r w].
  assert (pv_shuffle (node_view n) (lvm_of w)) as Hsh.
  { destruct (pr_end r); [by inversion Ht|done..]. }
  pose proof (wf_shuffle _ _ Hsh Hwf) as Hwf1.
  set (n1 := mkNode _ _ _ _). change (lvm_of w) with (node_view n1) in *.
  destruct (runCommandWithOutput r false) as [output err].
  destruct (if Contains output _ then None else err) as [e|].
  { apply wp_ret. split; [done|]. exists (node_view n1). auto. }
  apply wp_bind. eapply wp_mono; [apply (runs_command (CVgReduce vg dev)); done|].
  intros [e|] n2 [HL2 Hst]; [apply wp_ret; split; [done|]; eexists; by split; [|left]|].
  assert (wf_lvm (node_view n2)) as Hwf2 by by eapply lvm_step_wf.
  apply wp_bind, wp_bind. eapply wp_mono; [apply (runs_command (CPvRemove dev)); done|].
  intros [e|] n3 [HL3 Hst3]; apply wp_ret, wp_ret; (split; [by rewrite HL3, HL2|]); exists (node_view n1);
    (split; [done|]).
  - right. simpl in Hst3. by rewrite Hst3.
  - eauto.
Qed.
(** ** The laws *)

#[export] Instance Lvm2_Node_laws : Lvm2Laws (Node W).
Proof.
  refine {| view := node_view |}.
  - done.
  - apply PVDisplay_ok.
  - apply VGDisplay_ok.
  - apply LVDisplay_ok.
  - apply LVS_ok.
  - apply LVS_all_ok.
  - apply VGS_ok.
  - apply PVS_ok.
  - intros dev Hv. by apply runs_command.
  - intros dev Hv n Hwf. apply wp_bind. eapply wp_mono; [by apply (runs_command (CPvRemove dev))|].
    by intros [e|].
  - intros vg dev Hv n Hwf. apply wp_bind.
    eapply wp_mono; [apply (runs_command (CVgCreate vg dev)); [done| |done]|by intros [e|]].
    destruct Hv as (_ & Hne & _). unfold tag_args. simpl.
    by destruct (String.eqb_spec vg "").
  - intros vg dev Hv n Hwf. apply wp_bind. eapply wp_mono; [by apply (runs_command (CVgExtend vg dev))|].
    by intros [e|].
  - intros vg Hv. by apply runs_command.
  - intros lv vg size Hv. by apply runs_command.
  - intros lv vg size n. apply wp_ExecuteCommand. destruct (os_run _ _ _) as [r w].
    destruct (pr_end r); intros e [= <-]; by eexists.
  - intros lv vg Hv. by apply runs_command.
  - intros lv vg Hv. by apply runs_command.
  - intros lv vg size Hv. by apply runs_command.
  - intros lv vg size Hv. by apply runs_command.
  - intros dev Hv. by apply runs_command.
  - intros vg Hv. by apply runs_command.
  - intros vg dev n Hv Hwf. by apply VGReduce_ok.
Defined.

(** A program that does not touch the groups. *)
Lemma quiet_command cmd arg n :
  no_lvm_command (cmd, arg) →
  wp (ExecuteCommand cmd arg) (λ _ n', get_locks n' = get_locks n ∧ node_view n' = node_view n) n.
Proof.
  intros Hc. apply wp_ExecuteCommand. pose proof (tool_other _ (nd_world n) Hc) as Ht. simpl in Ht.
  by destruct (os_run _ _ _) as [r w].
Qed.

#[export] Instance Bcache_Node_laws : BcacheLaws (Node W).
Proof.
  split.
  - intros dev n. apply wp_bind, wp_ExecuteCommandWithOutput.
    pose proof (tool_other ("bcache-super-show", ["-f"; dev]) (nd_world n)) as Ht. simpl in Ht.
    destruct (os_run _ _ _) as [r w]. specialize (Ht ltac:(left; set_solver)).
    destruct (runCommandWithOutput r false) as [out [e|]]; apply wp_ret; by split_and!.
  - intros dev n. apply wp_bind, wp_ExecuteCommandWithOutput.
    set (args := ["--pairs"; "--noheadings"; "--output"; "KNAME,MAJ:MIN"; dev]).
    pose proof (tool_other ("lsblk", args) (nd_world n)) as Ht.
    pose proof (tool_lsblk dev (nd_world n)) as Hl. fold args in Hl. simpl in Ht, Hl.
    destruct (os_run _ _ _) as [r w]. specialize (Ht ltac:(left; set_solver)). simpl in Hl.
    unfold runCommandWithOutput. destruct (pr_end r) as [|m|m]; cbn [proc_error];
      try (apply wp_ret; by split_and!).
    destruct (Hl eq_refl) as (ds & Hds & ->).
    destruct ds as [|d ds _] using rev_ind; [apply wp_ret; by split_and!|].
    rewrite parseDevice_report by done. apply wp_ret. by split_and!.
  - intros d n. unfold RemoveBcache, Bcache_Node, BcacheImplement.RemoveBcache.
    apply wp_bind. eapply wp_mono; [apply quiet_command; right; by eexists|].
    intros [e|] n1 [HL1 Hv1]; [by apply wp_ret|].
    apply wp_bind. eapply wp_mono; [apply quiet_command; right; by eexists|]. intros ? n2 [HL2 Hv2].
    apply wp_bind. eapply wp_mono; [apply quiet_command; left; set_solver|]. intros ? n3 [HL3 Hv3].
    apply wp_bind. eapply wp_mono; [apply quiet_command; right; by eexists|].
    intros [e|] n4 [HL4 Hv4]; apply wp_ret;
      (split; [congruence|change (node_view n4 = node_view n); congruence]).
Qed.
End implementation.
