(* ===== verification/FilesystemCorrect.v ===== *)
(** * What the node's files, mounts and disks do

    [Fs] is an abstract state of the file system: what is at each path, the
    mount table, and what the block devices hold.  [FileSysLaws] relates the
    system interface to it; the lemmas say what the package [filesystem]
    finds out. *)

From S2P Require Import Prelude GoStrings Api GoRuntime Mutx Exec Utils Config HostPath LvmParse Lvmd Bcache.
From S2P Require Import Partition LvmSpec LvmTools Filesystem.

#[local] Open Scope string_scope.
#[local] Open Scope list_scope.
#[local] Open Scope Z_scope.

(** ** The abstract state *)

(** A line of the mount table, and the number of the device behind it. *)
Record mount := mkMount {
  m_src : string;
  m_target : string;
  m_rest : string;
  m_dev : Z
}.

(** The file system on a block device, "" when there is none, and the
    contents of its files. *)
Record disk := mkDiskState {
  dk_format : string;
  dk_data : gmap string string
}.

Record Fs := mkFs {
  f_files : gmap string Stat_t;
  f_mounts : list mount;
  f_disks : gmap Z disk;
  (** The devices with a bcache superblock. *)
  f_bcache : gset string
}.

Definition is_dir (st : Stat_t) : Prop := Z.land (st_Mode st) S_IFMT = S_IFDIR.

Definition format_of (f : Fs) (d : Z) : string :=
  match f_disks f !! d with Some k => dk_format k | None => "" end.

Definition set_file (path : string) (st : Stat_t) (f : Fs) : Fs :=
  mkFs (<[path := st]> (f_files f)) (f_mounts f) (f_disks f) (f_bcache f).

(** [dir] is on the way to [p]. *)
Definition above (dir p : string) : Prop := dir = "/" ∨ under dir p.

(** The device [d] is mounted on the way to [p], or inside [p]. *)
Definition hosts (f : Fs) (d : Z) (p : string) : Prop :=
  ∃ m, m ∈ f_mounts f ∧ m_dev m = d ∧ above (m_target m) p.
Definition inside (f : Fs) (d : Z) (p : string) : Prop :=
  ∃ m, m ∈ f_mounts f ∧ m_dev m = d ∧ under p (m_target m).

(** *** What the calls do *)

(** The mount table and the superblocks stay as they are. *)
Definition same_mounts (f f' : Fs) : Prop :=
  f_mounts f' = f_mounts f ∧ f_bcache f' = f_bcache f.

(** A file or an empty directory goes. *)
Definition removed (p : string) (f f' : Fs) : Prop :=
  same_mounts f f' ∧ f_files f' = delete p (f_files f) ∧
  (∀ d, ¬ hosts f d p → f_disks f' !! d = f_disks f !! d) ∧ (∀ m, m ∈ f_mounts f → m_target m ≠ p).

(** Directories come, nothing goes. *)
Definition directories_made (f f' : Fs) : Prop :=
  same_mounts f f' ∧ f_disks f' = f_disks f ∧ f_files f ⊆ f_files f'.

(** Everything below [p] may go; what is mounted there is emptied as well. *)
Definition emptied (p : string) (f f' : Fs) : Prop :=
  same_mounts f f' ∧ (∀ q, ¬ under p q → f_files f' !! q = f_files f !! q) ∧
  (∀ d, ¬ hosts f d p → ¬ inside f d p → f_disks f' !! d = f_disks f !! d).

(** Only a device without a file system is formatted. *)
Definition maybe_formatted (src fstype : string) (f f' : Fs) : Prop :=
  ∀ d, f_disks f' !! d = f_disks f !! d ∨
    (∃ st, f_files f !! src = Some st ∧ st_Rdev st = d) ∧ format_of f d = "" ∧ format_of f' d = fstype.

Definition mounted (src tgt fstype : string) (f f' : Fs) : Prop :=
  maybe_formatted src fstype f f' ∧ f_bcache f' = f_bcache f ∧
  (∀ q, ¬ under tgt q → f_files f' !! q = f_files f !! q) ∧
  ∃ st m, f_files f !! src = Some st ∧ m_src m = src ∧ m_target m = tgt ∧ m_dev m = st_Rdev st ∧
    f_mounts f' = f_mounts f ++ [m] ∧ format_of f' (st_Rdev st) ≠ "".

(** The last mount at [tgt] goes. *)
Definition unmounted (tgt : string) (f f' : Fs) : Prop :=
  f_disks f' = f_disks f ∧ f_bcache f' = f_bcache f ∧
  (∀ q, ¬ under tgt q → f_files f' !! q = f_files f !! q) ∧
  ∃ ms1 m ms2, f_mounts f = ms1 ++ m :: ms2 ∧ m_target m = tgt ∧
    (∀ m', m' ∈ ms2 → m_target m' ≠ tgt) ∧ f_mounts f' = ms1 ++ ms2.

(** *** Texts *)

Definition no_blanks (s : string) : Prop := s ≠ "" ∧ ∀ c, is_space c = true → has_char c s = false.

Definition wf_mount (m : mount) : Prop :=
  no_blanks (m_src m) ∧ no_blanks (m_target m) ∧ has_char newline (m_rest m) = false.

Definition mount_line (m : mount) : string := m_src m +:+ " " +:+ m_target m +:+ " " +:+ m_rest m.

(** [/proc/mounts]: every line ends with a newline. *)
Definition mount_table (ms : list mount) : string := Join ((mount_line <$> ms) ++ [""]) (String newline "").

(** What [blkid -o export] prints for a device with that file system. *)
Definition blkid_report (format text : string) : Prop :=
  let no_type line := HasPrefix line "TYPE=" = false in
  if String.eqb format "" then Forall no_type (Split text newline)
  else ∃ pre post, Split text newline = pre ++ ("TYPE=" +:+ format) :: post ∧ Forall no_type pre.

(** The programs that only report. *)
Definition reports : list string := ["lvs"; "bcache-super-show"; "lsblk"; "/usr/bin/findmnt"].

(** What [GetDiskFormat] says of a device with a partition table. *)
Definition partitioned : string := "unknown data, probably partitions".

(** ** The laws *)

Class FileSysLaws (W : Type) `{OS W, Files W, FileSys W, Disko W} := {
  fs_of : W → Fs;
  (** The paths without symbolic links. *)
  canonical : string → Prop;
  canonical_clean p : canonical p → IsAbs p = true ∧ Clean p = p;
  (** A call is told to try again a bounded number of times. *)
  interrupts : W → nat;
  attempts : nat;
  interrupts_bounded w : (interrupts w < attempts)%nat;

  unix_Stat_law path w :
    fs_of (unix_Stat path w).2 = fs_of w ∧
    match (unix_Stat path w).1 with
    | inl st => f_files (fs_of w) !! path = Some st
    | inr ENOENT => f_files (fs_of w) !! path = None
    | inr (Again _) => (interrupts (unix_Stat path w).2 < interrupts w)%nat
    | inr (Errno _) => True
    end;
  unix_Mknod_law path mode dev w :
    match (unix_Mknod path mode dev w).1 with
    | None => ∃ st, st_Rdev st = dev ∧ Z.land (st_Mode st) mode = mode ∧
                fs_of (unix_Mknod path mode dev w).2 = set_file path st (fs_of w)
    | Some (Again _) => fs_of (unix_Mknod path mode dev w).2 = fs_of w ∧
                        (interrupts (unix_Mknod path mode dev w).2 < interrupts w)%nat
    | Some _ => fs_of (unix_Mknod path mode dev w).2 = fs_of w
    end;
  os_stat_law path w :
    match os_stat path w with
    | StatNotExist => f_files (fs_of w) !! path = None
    | StatError => True
    | StatDir => ∃ st, f_files (fs_of w) !! path = Some st ∧ is_dir st
    | _ => ∃ st, f_files (fs_of w) !! path = Some st ∧ ¬ is_dir st
    end;
  os_Remove_law path w :
    match (os_Remove path w).1 with
    | None => removed path (fs_of w) (fs_of (os_Remove path w).2)
    | Some e => fs_of (os_Remove path w).2 = fs_of w ∧ (e = ENOENT → f_files (fs_of w) !! path = None)
    end;
  os_MkdirAll_law path mode w :
    directories_made (fs_of w) (fs_of (os_MkdirAll path mode w).2) ∧
    ((os_MkdirAll path mode w).1 = None →
      ∃ st, f_files (fs_of (os_MkdirAll path mode w).2) !! path = Some st ∧ is_dir st);
  os_Chmod_law path mode w :
    same_mounts (fs_of w) (fs_of (os_Chmod path mode w).2) ∧
    f_disks (fs_of (os_Chmod path mode w).2) = f_disks (fs_of w) ∧
    (∀ q, q ≠ path → f_files (fs_of (os_Chmod path mode w).2) !! q = f_files (fs_of w) !! q);
  os_RemoveAll_law path w :
    emptied path (fs_of w) (fs_of (os_RemoveAll path w).2) ∧
    ((os_RemoveAll path w).1 = None →
      (∀ q, under path q → f_files (fs_of (os_RemoveAll path w).2) !! q = None) ∧
      (∀ m, m ∈ f_mounts (fs_of w) → ¬ under path (m_target m)));
  FormatAndMount_law src tgt fstype opts w :
    match (FormatAndMount src tgt fstype opts w).1 with
    | None => mounted src tgt fstype (fs_of w) (fs_of (FormatAndMount src tgt fstype opts w).2)
    | Some _ => let f' := fs_of (FormatAndMount src tgt fstype opts w).2 in
        same_mounts (fs_of w) f' ∧ f_files f' = f_files (fs_of w) ∧ maybe_formatted src fstype (fs_of w) f'
    end;
  Unmount_law tgt w :
    match (Unmount tgt w).1 with
    | None => unmounted tgt (fs_of w) (fs_of (Unmount tgt w).2) ∨
        fs_of (Unmount tgt w).2 = fs_of w ∧ ∀ m, m ∈ f_mounts (fs_of w) → m_target m ≠ tgt
    | Some _ => fs_of (Unmount tgt w).2 = fs_of w
    end;
  read_mounts_law w data :
    read_mounts w = (data, None) → data = mount_table (f_mounts (fs_of w)) ∧ Forall wf_mount (f_mounts (fs_of w));
  EvalSymlinks_law path w p : canonical path → EvalSymlinks path w = (p, None) → p = path;
  mounts_canonical w m : m ∈ f_mounts (fs_of w) → canonical (m_target m);
  mounts_exist w m : m ∈ f_mounts (fs_of w) → is_Some (f_files (fs_of w) !! m_target m);
  blkid_law dev w :
    let '(r, w') := os_run blkidCmd ["-c"; "/dev/null"; "-o"; "export"; dev] w in
    fs_of w' = fs_of w ∧
    ∀ st, f_files (fs_of w) !! dev = Some st →
      match pr_end r with
      | ExitOk => blkid_report (format_of (fs_of w) (st_Rdev st)) (pr_both r)
      | ExitError m => m = "exit status 2" → format_of (fs_of w) (st_Rdev st) = ""
      | StartError _ => True
      end;
  GetDiskFormat_law dev w format st :
    GetDiskFormat dev w = (format, None) → f_files (fs_of w) !! dev = Some st →
    format = format_of (fs_of w) (st_Rdev st) ∨ format = partitioned;
  reports_law cmd args w : cmd ∈ reports → fs_of (os_run cmd args w).2 = fs_of w;
  supershow_law dev w :
    pr_end (os_run "bcache-super-show" ["-f"; dev] w).1 = ExitOk → dev ∈ f_bcache (fs_of w);
  scan_law path w : fs_of (sys_ScanDisk path w).2 = fs_of w
}.

(** ** Texts *)

(** [no_blanks], decided. *)
Definition blank_free (s : string) : bool :=
  negb (String.eqb s "") && forallb (λ n, negb (has_char (ascii_of_nat n) s)) [9; 10; 11; 12; 13; 32]%nat.

Lemma blank_free_ok s : blank_free s = true → no_blanks s.
Proof.
  unfold blank_free. intros [Hne Hall]%andb_true_iff. split; [by destruct s|]. intros c Hc.
  rewrite <- (ascii_nat_embedding c). unfold is_space in Hc. rewrite forallb_forall in Hall.
  assert (In (nat_of_ascii c) [9; 10; 11; 12; 13; 32]%nat) as Hin.
  { apply orb_true_iff in Hc as [[?%Nat.leb_le ?%Nat.leb_le]%andb_true_iff|?%Nat.eqb_eq]; simpl; lia. }
  specialize (Hall _ Hin). by destruct (has_char _ s).
Qed.

Lemma fields_word x c y cur :
  (∀ d, is_space d = true → has_char d x = false) → is_space c = true → cur +:+ x ≠ "" →
  fields_go (x +:+ String c y) cur = (cur +:+ x) :: fields_go y "".
Proof.
  intros Hx Hc. revert cur. induction x as [|d x IH]; intros cur Hne; simpl.
  - rewrite Hc, sapp_nil_r in *. destruct (String.eqb_spec cur ""); [done|done].
  - assert (is_space d = false) as ->.
    { destruct (is_space d) eqn:E; [|done]. specialize (Hx d E). simpl in Hx. by rewrite Ascii.eqb_refl in Hx. }
    rewrite IH.
    + by rewrite sapp_assoc.
    + intros e He. specialize (Hx e He). simpl in Hx. by apply orb_false_iff in Hx as [_ ?].
    + rewrite sapp_assoc. by destruct cur.
Qed.

Lemma Fields_mount_line m : wf_mount m → ∃ rest, Fields (mount_line m) = m_src m :: m_target m :: rest.
Proof.
  intros ([Hs Hs'] & [Ht Ht'] & _). exists (fields_go (m_rest m) ""). unfold Fields, mount_line.
  change (" " +:+ m_target m +:+ " " +:+ m_rest m) with (String " " (m_target m +:+ String " " (m_rest m))).
  by rewrite (fields_word (m_src m)), (fields_word (m_target m)).
Qed.

Lemma mount_line_newline m : wf_mount m → has_char newline (mount_line m) = false.
Proof.
  intros ([_ Hs] & [_ Ht] & Hr). unfold mount_line. by rewrite !has_char_app, (Hs newline), (Ht newline), Hr.
Qed.

Lemma mount_table_lines ms : Forall wf_mount ms → Split (mount_table ms) newline = (mount_line <$> ms) ++ [""].
Proof.
  intros Hms. apply Split_Join; [by destruct (mount_line <$> ms)|]. apply Forall_app. split; [|by constructor].
  apply Forall_fmap. eapply Forall_impl; [done|]. apply mount_line_newline.
Qed.

Lemma type_of_report format text : blkid_report format text → type_of (Split text newline) = format.
Proof.
  unfold blkid_report. destruct (String.eqb_spec format "") as [->|Hne].
  - induction 1 as [|l ls Hl _ IH]; simpl; [done|]. by rewrite Hl.
  - intros (pre & post & -> & Hpre). induction Hpre as [|l ls Hl _ IH]; cbn [app type_of]; [|by rewrite Hl].
    rewrite HasPrefix_app. apply (sdrop_app "TYPE=").
Qed.

(** ** The operations *)

Section correct.
Context {W : Type} `{FileSysLaws W}.

(** The files of the node. *)
Definition fs (n : Node W) : Fs := fs_of (nd_world n).

(** [m] leaves the files alone, whatever it returns. *)
Definition files_kept {A} (m : M (Node W) A) : Prop := ∀ n, fs (m n).2 = fs n.

Lemma kept_ret {A} (a : A) : files_kept (mret a).
Proof. done. Qed.
Lemma kept_lift {A} (o : outcome A) : files_kept (lift_outcome o).
Proof. done. Qed.
Lemma kept_panic {A} msg : files_kept (A:=A) (panic msg).
Proof. done. Qed.
Lemma kept_of_world {A} (f : W → A) : files_kept (of_world f).
Proof. done. Qed.

Lemma kept_bind {A B} (m : M (Node W) A) (f : A → M (Node W) B) :
  files_kept m → (∀ a, files_kept (f a)) → files_kept (m ≫= f).
Proof.
  intros Hm Hf n. unfold mbind, M_bind. specialize (Hm n). destruct (m n) as [[a|e] n'] eqn:E; simpl in *; [|done].
  by rewrite Hf.
Qed.

Lemma kept_spawn cmd args : cmd ∈ reports → files_kept (spawn cmd args).
Proof.
  intros Hc n. unfold spawn, fs. pose proof (reports_law cmd args (nd_world n) Hc) as Hr.
  by destruct (os_run _ _ _).
Qed.

Lemma wp_kept {A} (m : M (Node W) A) (Q : A → Node W → Prop) n :
  files_kept m → wp m Q n → wp m (λ a n', Q a n' ∧ fs n' = fs n) n.
Proof. intros Hk. specialize (Hk n). unfold wp. by destruct (m n) as [[a|e] n']. Qed.

Lemma wp_on_world {A} (f : W → A * W) (Q : A → Node W → Prop) n :
  Q (f (nd_world n)).1 (mkNode (nd_locks n) (nd_parts n) (f (nd_world n)).2 (nd_trace n)) → wp (on_world f) Q n.
Proof. unfold wp, on_world. by destruct (f (nd_world n)). Qed.

Lemma wp_of_world {A} (f : W → A) (Q : A → Node W → Prop) n : Q (f (nd_world n)) n → wp (of_world f) Q n.
Proof. done. Qed.

(** The loops end within [attempts] attempts. *)
Lemma wp_retry {A} (f : W → (A + errno) * W) (I : W → Prop) (Q : A + errno → Node W → Prop) fuel n :
  (attempts ≤ fuel)%nat → I (nd_world n) →
  (∀ w l p t, I w → match f w with
    | (inr (Again _), w') => I w' ∧ (interrupts w' < interrupts w)%nat
    | (r, w') => Q r (mkNode l p w' t)
    end) →
  wp (retry fuel f) Q n.
Proof.
  intros Hfuel HI Hf. pose proof (interrupts_bounded (nd_world n)) as Hb.
  assert (interrupts (nd_world n) < fuel)%nat as Hlt by lia. clear Hfuel Hb.
  revert n HI Hlt. induction fuel as [|fuel IH]; intros n HI Hlt; [lia|]. cbn [retry]. apply wp_bind, wp_on_world.
  specialize (Hf (nd_world n) (nd_locks n) (nd_parts n) (nd_trace n) HI).
  destruct (f (nd_world n)) as [[a|[]] w']; cbn [fst snd] in *; try by apply wp_ret.
  apply IH; cbn [nd_world]; [apply Hf|lia].
Qed.

Context (fuel : nat) (Hfuel : (attempts ≤ fuel)%nat).

(** What [Stat] may answer. *)
Definition stat_answer (f : Fs) (path : string) (r : Stat_t + errno) : Prop :=
  match r with
  | inl st => f_files f !! path = Some st
  | inr ENOENT => f_files f !! path = None
  | inr (Again _) => False
  | inr (Errno _) => True
  end.

Lemma Stat_ok path n : wp (Stat fuel path) (λ r n', fs n' = fs n ∧ stat_answer (fs n) path r) n.
Proof.
  apply (wp_retry _ (λ w, fs_of w = fs n)); [done|done|]. intros w l p t Hw.
  destruct (unix_Stat_law path w) as [Hk Hr]. rewrite Hw in Hk, Hr.
  destruct (unix_Stat path w) as [[st|[]] w']; cbn [fst snd] in *; done.
Qed.

Lemma Mknod_ok path mode dev n :
  wp (Mknod fuel path mode dev) (λ r n',
    match r with
    | inl _ => ∃ st, st_Rdev st = dev ∧ Z.land (st_Mode st) mode = mode ∧ fs n' = set_file path st (fs n)
    | inr _ => fs n' = fs n
    end) n.
Proof.
  apply (wp_retry _ (λ w, fs_of w = fs n)); [done|done|]. intros w l p t Hw.
  pose proof (unix_Mknod_law path mode dev w) as Hr. rewrite Hw in Hr. unfold as_sum.
  destruct (unix_Mknod path mode dev w) as [[[]|] w']; cbn [fst snd] in *; done.
Qed.

(** Two names of one device. *)
Definition same_device (f : Fs) (dev1 dev2 : string) : Prop :=
  dev1 = dev2 ∨ ∃ st1 st2, f_files f !! dev1 = Some st1 ∧ f_files f !! dev2 = Some st2 ∧ st_Rdev st1 = st_Rdev st2.

Lemma isSameDevice_ok dev1 dev2 n :
  wp (isSameDevice fuel dev1 dev2) (λ r n', fs n' = fs n ∧
    match r with (b, None) => b = true ↔ same_device (fs n) dev1 dev2 | (_, Some _) => True end) n.
Proof.
  unfold isSameDevice. destruct (String.eqb_spec dev1 dev2) as [->|Hne].
  { apply wp_ret. split; [done|]. split; [by left|done]. }
  apply wp_bind. eapply wp_mono; [apply Stat_ok|]. intros [st1|[]] n1 [Hn1 Hr1]; simpl in Hr1; try by apply wp_ret.
  - apply wp_bind. eapply wp_mono; [apply Stat_ok|]. rewrite Hn1.
    intros [st2|[]] n2 [Hn2 Hr2]; simpl in Hr2; try by apply wp_ret; rewrite Hn2.
    + apply wp_ret. rewrite Hn2, Z.eqb_eq. split; [done|]. split; [intros; right; eauto|].
      intros [?|(? & ? & ? & ? & ?)]; [done|congruence].
    + apply wp_ret. rewrite Hn2. split; [done|]. split; [done|]. intros [?|(? & ? & ? & ? & ?)]; [done|congruence].
  - apply wp_ret. split; [done|]. split; [done|]. intros [?|(? & ? & ? & ? & ?)]; [done|congruence].
Qed.

(** The device is mounted at the target. *)
Definition mounted_at (f : Fs) (device target : string) : Prop :=
  ∃ m, m ∈ f_mounts f ∧ m_target m = target ∧ same_device f device (m_src m).

Lemma check_line_ok device target m n : m ∈ f_mounts (fs n) → wf_mount m →
  wp (check_line fuel device target (mount_line m)) (λ c n', fs n' = fs n ∧
    match c with
    | Next _ => ¬ (m_target m = target ∧ same_device (fs n) device (m_src m))
    | Break _ => False
    | Return (b, None) => b = true ∧ m_target m = target ∧ same_device (fs n) device (m_src m)
    | Return (_, Some _) => True
    end) n.
Proof.
  intros Hm Hwf. unfold check_line. destruct (Fields_mount_line m Hwf) as [rest ->].
  apply wp_bind. eapply wp_mono; [apply isSameDevice_ok|]. intros [b [e|]] n1 [Hn1 Hr1]; [by destruct b; apply wp_ret|].
  destruct b; [|apply wp_ret; split; [done|]; intros [_ Hs]; by apply Hr1 in Hs].
  apply wp_bind, wp_of_world. destruct (EvalSymlinks (m_target m) (nd_world n1)) as [d [e|]] eqn:Ed; [by apply wp_ret|].
  apply EvalSymlinks_law in Ed as ->; [|apply (mounts_canonical (nd_world n1)); change (m ∈ f_mounts (fs n1)); by rewrite Hn1].
  destruct (String.eqb_spec (m_target m) target) as [Heq|Hne]; apply wp_ret; (split; [done|]).
  - split; [done|]. split; [done|]. by apply Hr1.
  - by intros [? _].
Qed.

Lemma IsMounted_ok device target n : canonical target →
  wp (IsMounted fuel device target) (λ r n', fs n' = fs n ∧
    match r with (b, None) => b = true ↔ mounted_at (fs n) device target | (_, Some _) => True end) n.
Proof.
  intros Hcan. destruct (canonical_clean _ Hcan) as [Habs Hclean]. unfold IsMounted, Abs. apply wp_bind, wp_of_world.
  rewrite Habs, Hclean. apply wp_bind, wp_of_world.
  destruct (EvalSymlinks target (nd_world n)) as [d [e|]] eqn:Ed; [by apply wp_ret|].
  apply EvalSymlinks_law in Ed as ->; [|done]. apply wp_bind, wp_of_world.
  destruct (read_mounts (nd_world n)) as [data [e|]] eqn:Er; [by apply wp_ret|].
  apply read_mounts_law in Er as [-> Hwf]. fold (fs n) in *. rewrite mount_table_lines by done.
  set (seen_ := λ l : list mount, ∀ m, m ∈ l → ¬ (m_target m = target ∧ same_device (fs n) device (m_src m))).
  apply wp_bind. eapply wp_mono; [apply (wp_range _ _ _
    (λ rest _ n', fs n' = fs n ∧ ∃ l ms, f_mounts (fs n) = l ++ ms ∧ seen_ l ∧
       (rest = (mount_line <$> ms) ++ [""] ∨ rest = [] ∧ ms = []))
    (λ r n', fs n' = fs n ∧ match r with
      | inl _ => seen_ (f_mounts (fs n))
      | inr (b, None) => b = true ∧ mounted_at (fs n) device target
      | inr (_, Some _) => True end))|].
  - split; [done|]. exists [], (f_mounts (fs n)). split; [done|]. split; [by intros m ?%not_elem_of_nil|by left].
  - intros line rest _ n1 [Hn1 (l & ms & Hms & Hl & [Hline|[? _]])]; [|done].
    destruct ms as [|m ms]; simpl in Hline; injection Hline as -> ->.
    { apply wp_ret. split; [done|]. exists l, []. split_and!; [done|done|by right]. }
    assert (m ∈ f_mounts (fs n)) as Hm by (rewrite Hms; set_solver).
    eapply wp_mono; [apply check_line_ok; [by rewrite Hn1|by eapply Forall_forall in Hwf]|]. rewrite Hn1.
    intros [[]|[]|[b [e|]]] n2 [Hn2 Hc]; try done.
    + split; [done|]. exists (l ++ [m]), ms. split; [by rewrite <- app_assoc|]. split; [|by left].
      intros m' [?| ->%list_elem_of_singleton]%elem_of_app; [by apply Hl|done].
    + destruct Hc as (-> & ? & ?). split; [done|]. split; [done|]. by exists m.
  - intros _ n1 [Hn1 (l & ms & Hms & Hl & [Hr|[_ ->]])]; [by destruct (mount_line <$> ms)|].
    rewrite app_nil_r in Hms. by rewrite Hms.
  - intros [_|[b [e|]]] n1 [Hn1 Hr]; apply wp_ret; (split; [done|]); [|done|by destruct Hr as [-> ?]].
    split; [done|]. intros (m & Hm & Hs). by apply Hr in Hm.
Qed.

(** The file system of a device file. *)
Lemma DetectFilesystem_ok device st n : f_files (fs n) !! device = Some st →
  wp (DetectFilesystem device) (λ r n', fs n' = fs n ∧
    match r with (t, None) => t = format_of (fs n) (st_Rdev st) | (_, Some _) => True end) n.
Proof.
  intros Hst. unfold DetectFilesystem. apply wp_bind, wp_of_world. destruct (os_Open _ _); [by apply wp_ret|].
  apply wp_bind, wp_spawn. pose proof (blkid_law device (nd_world n)) as Hb. destruct (os_run _ _ _) as [r w].
  destruct Hb as [Hw Hr]. specialize (Hr st Hst). unfold fs at 1. cbn [nd_world].
  destruct (pr_end r) as [|m|m]; [apply wp_ret; split; [done|]; by apply type_of_report| |by apply wp_ret].
  destruct (String.eqb_spec m "exit status 2") as [->|_]; apply wp_ret; (split; [done|]); [|done]. symmetry. by apply Hr.
Qed.
End correct.
