(* ===== verification/PodIOTheorems.v ===== *)
(** * The i/o limits of a pod reach its control group

    The kernel's side of a control group is the table of the settings it has
    accepted, by file and device.  The theorems say what the table holds after
    a pod was handled, and when it is not handled again. *)

From S2P Require Import Prelude GoStrings Api GoRuntime Mutx Exec Utils Config HostPath LvmParse Bcache.
From S2P Require Import Partition PartitionCorrect FilesystemCorrect PodIO.

#[local] Open Scope string_scope.
#[local] Open Scope list_scope.
#[local] Open Scope Z_scope.

Abbreviation table := (gmap (string * string) (list string)).

(** The arguments of the list of block devices. *)
Definition lsblk_args : list string :=
  ["--pairs"; "--paths"; "--bytes"; "--output"; "NAME,FSTYPE,MOUNTPOINT,SIZE,STATE,TYPE,ROTA,RO,PKNAME,MAJ:MIN"].

(** The same control groups and block devices. *)
Class CgroupLaws (W : Type) `{OS W, CgroupSys W} := {
  cg_table : W → table;
  cg_devices : W → list LocalDisk;
  cg_stat_law path w : os_stat path w ≠ StatError;
  cg_write_law path line w :
    let r := os_WriteFile path line w in
    IsCgroup2UnifiedMode r.2 = IsCgroup2UnifiedMode w ∧ (∀ p, os_stat p r.2 = os_stat p w) ∧
    match r.1 with
    | None => ∀ dev words, Fields line = dev :: words → cg_table r.2 = <[(path, dev) := words]> (cg_table w)
    | Some _ => cg_table r.2 = cg_table w
    end;
  cg_lsblk_law w :
    let r := os_run "lsblk" lsblk_args w in
    IsCgroup2UnifiedMode r.2 = IsCgroup2UnifiedMode w ∧ (∀ p, os_stat p r.2 = os_stat p w) ∧
    cg_table r.2 = cg_table w ∧ cg_devices r.2 = cg_devices w ∧
    (pr_end r.1 = ExitOk → TrimSpace (pr_stdout r.1) = lsblk_pairs (cg_devices w));
  cg_devices_law w :
    cg_devices w ≠ [] ∧ Forall wf_local_disk (cg_devices w) ∧ Forall (λ d, no_blanks (ld_DeviceNumber d)) (cg_devices w)
}.

(** ** What the kernel reads *)

Definition read_value (s : string) : option Z :=
  if String.eqb s "max" then Some 0
  else match ParseUint s 64 with (v, None) => Some v | _ => None end.

Definition read_setting (key word : string) : option Z :=
  if HasPrefix word (key +:+ "=") then read_value (TrimPrefix word (key +:+ "=")) else None.

Definition read_io_max (words : list string) : option IOLimit :=
  match words with
  | [a; b; c; d] =>
      rbps ← read_setting "rbps" a; riops ← read_setting "riops" b;
      wbps ← read_setting "wbps" c; wiops ← read_setting "wiops" d;
      Some (mkIOLimit rbps riops wbps wiops)
  | _ => None
  end.

Definition read_cg1 (words : list string) : option Z :=
  match words with [a] => read_value a | _ => None end.

(** The limits of a device in the control group at [dir]; zero is no limit. *)
Definition limits_at (v2 : bool) (dir dev : string) (t : table) : option IOLimit :=
  if v2 then t !! (JoinAll [dir; Cgroupv2BlkIOThrottle], dev) ≫= read_io_max
  else
    let file throttle := t !! (JoinAll [dir; throttle], dev) ≫= read_cg1 in
    rbps ← file BlkIOThrottleReadBPS; riops ← file BlkIOThrottleReadIOPS;
    wbps ← file BlkIOThrottleWriteBPS; wiops ← file BlkIOThrottleWriteIOPS;
    Some (mkIOLimit rbps riops wbps wiops).

(** The files of the control group at [dir] that hold limits. *)
Definition limit_files (dir : string) : list string :=
  (λ f, JoinAll [dir; f]) <$> Cgroupv2BlkIOThrottle :: GetSupportedIOThrottles.

(** ** Texts *)

Definition wf_limit (l : IOLimit) : Prop :=
  0 <= Rbps l < 2^64 ∧ 0 <= Riops l < 2^64 ∧ 0 <= Wbps l < 2^64 ∧ 0 <= Wiops l < 2^64.

Lemma annotation_limit_range pod t : 0 <= PodIOReconciler.annotation_limit pod t < 2^64.
Proof. unfold PodIOReconciler.annotation_limit. destruct (_ !! _); [apply ParseUint_range|done]. Qed.

Lemma getPodIOLimit_fields pod :
  PodIOReconciler.getPodIOLimit pod =
    mkIOLimit (PodIOReconciler.annotation_limit pod BlkIOThrottleReadBPS)
      (PodIOReconciler.annotation_limit pod BlkIOThrottleReadIOPS)
      (PodIOReconciler.annotation_limit pod BlkIOThrottleWriteBPS)
      (PodIOReconciler.annotation_limit pod BlkIOThrottleWriteIOPS).
Proof. reflexivity. Qed.

Lemma getPodIOLimit_wf pod : wf_limit (PodIOReconciler.getPodIOLimit pod).
Proof. rewrite getPodIOLimit_fields. split_and!; apply annotation_limit_range. Qed.

Lemma Equal_spec a b : Equal a b = true ↔ a = b.
Proof.
  unfold Equal. rewrite !andb_true_iff, !Z.eqb_eq. destruct a, b; simpl. split; [intros [[[-> ->] ->] ->]; done|by intros [= -> -> -> ->]].
Qed.

(** The files of a directory keep their names apart. *)
Lemma JoinAll_file dir : ∃ pre, ∀ name, has_char "/" name = false → name ∉ [""; "."; ".."] → JoinAll [dir; name] = pre +:+ name.
Proof.
  assert (∀ rooted st name, name ∉ [""; "."; ".."] → clean_step rooted st name = name :: st) as Hstep.
  { intros rooted st name Hname. unfold clean_step.
    rewrite !(proj2 (String.eqb_neq _ _)); [done|intros ->; set_solver..]. }
  assert (∀ name, name ∉ [""; "."; ".."] → String.eqb name "" = false) as Hne.
  { intros name Hname. apply String.eqb_neq. intros ->. set_solver. }
  destruct dir as [|c d].
  - exists "". intros name Hs Hname. unfold JoinAll. simpl. rewrite (Hne name Hname). simpl. unfold Clean.
    assert (IsAbs name = false) as ->.
    { destruct (IsAbs name) eqn:E; [|done]. apply prefix_spec in E as [t ->]. done. }
    rewrite (Split_none name) by done. cbn [foldl]. rewrite Hstep by done. simpl. by rewrite (Hne name Hname).
  - set (dir := String c d). set (st := foldl (clean_step (IsAbs dir)) [] (Split dir "/")).
    exists ((if IsAbs dir then "/" else "") +:+ (match st with [] => "" | _ => Join (reverse st) "/" +:+ "/" end)).
    intros name Hs Hname. unfold JoinAll.
    assert (List.filter (λ x, negb (String.eqb x "")) [dir; name] = [dir; name]) as ->.
    { simpl. by rewrite (Hne name Hname). }
    change (Join [dir; name] "/") with (dir +:+ String "/" name). unfold Clean.
    assert (IsAbs (dir +:+ String "/" name) = IsAbs dir) as ->.
    { unfold IsAbs, HasPrefix, dir. simpl. by rewrite !prefix_nil. }
    rewrite Split_app_sep, (Split_none name), foldl_app by done. fold st. cbn [foldl]. rewrite Hstep by done.
    rewrite reverse_cons.
    assert (Join (reverse st ++ [name]) "/" = (match st with [] => "" | _ => Join (reverse st) "/" +:+ "/" end) +:+ name) as ->.
    { destruct st as [|x st']; [done|]. rewrite Join_snoc; [by rewrite sapp_assoc|]. rewrite reverse_cons. by destruct (reverse st'). }
    destruct (IsAbs dir); [by rewrite sapp_assoc|]. rewrite (proj2 (String.eqb_neq _ _)); [done|].
    intros E. apply (f_equal String.length) in E. rewrite slength_app in E. destruct name; [set_solver|]. simpl in E. lia.
Qed.

Lemma limit_files_apart dir f g :
  f ∈ Cgroupv2BlkIOThrottle :: GetSupportedIOThrottles → g ∈ Cgroupv2BlkIOThrottle :: GetSupportedIOThrottles →
  JoinAll [dir; f] = JoinAll [dir; g] → f = g.
Proof.
  destruct (JoinAll_file dir) as [pre Hpre].
  assert (∀ f, f ∈ Cgroupv2BlkIOThrottle :: GetSupportedIOThrottles → has_char "/" f = false ∧ f ∉ [""; "."; ".."]) as Hok.
  { unfold GetSupportedIOThrottles. intros h Hh. rewrite !elem_of_cons in Hh.
    destruct Hh as [->|[->|[->|[->|[->|[]%not_elem_of_nil]]]]]; (split; [done|set_solver]). }
  intros Hf Hg. rewrite !Hpre by (by apply Hok). apply sapp_inj_l.
Qed.

Lemma fields_last x cur :
  (∀ d, is_space d = true → has_char d x = false) → cur +:+ x ≠ "" → fields_go x cur = [cur +:+ x].
Proof.
  intros Hx. revert cur. induction x as [|d x IH]; intros cur Hne; simpl.
  - rewrite sapp_nil_r in *. by rewrite (proj2 (String.eqb_neq _ _) Hne).
  - assert (is_space d = false) as ->.
    { destruct (is_space d) eqn:E; [|done]. specialize (Hx d E). simpl in Hx. by rewrite Ascii.eqb_refl in Hx. }
    rewrite IH; [by rewrite sapp_assoc| |].
    + intros e He. specialize (Hx e He). simpl in Hx. by apply orb_false_iff in Hx as [_ ?].
    + rewrite sapp_assoc. by destruct cur.
Qed.

(** Words without blanks, one blank between two. *)
Lemma Fields_Join l : Forall no_blanks l → Fields (Join l " ") = l.
Proof.
  unfold Fields. induction l as [|x l IH]; intros Hl; [done|]. apply Forall_cons in Hl as [[Hne Hx] Hl].
  destruct l as [|y l]; [by rewrite fields_last|].
  change (Join (x :: y :: l) " ") with (x +:+ String " " (Join (y :: l) " ")).
  by rewrite fields_word, IH.
Qed.

Definition value_text (zero : string) (v : Z) : string := if v =? 0 then zero else FormatUint v.

Lemma FormatUint_blanks v : 0 <= v → no_blanks (FormatUint v).
Proof.
  intros Hv. split; [apply format_go_acc; lia|]. intros c Hc. apply FormatUint_has; [done|].
  unfold is_digit. apply bool_decide_eq_false_2. unfold digit_val. intros [d Hd]. unfold is_space in Hc.
  destruct (Nat.leb_spec 48 (nat_of_ascii c)); [|done].
  apply orb_true_iff in Hc as [[?%Nat.leb_le ?%Nat.leb_le]%andb_true_iff|?%Nat.eqb_eq]; lia.
Qed.

Lemma value_text_blanks zero v : no_blanks zero → 0 <= v → no_blanks (value_text zero v).
Proof. intros Hz Hv. unfold value_text. destruct (v =? 0); [done|]. by apply FormatUint_blanks. Qed.

Lemma read_value_text zero v : read_value zero = Some 0 → 0 <= v < 2^64 → read_value (value_text zero v) = Some v.
Proof.
  intros Hz Hv. unfold value_text. destruct (Z.eqb_spec v 0) as [->|Hne]; [done|]. unfold read_value.
  destruct (String.eqb_spec (FormatUint v) "max") as [E|_].
  - pose proof (ParseUint_FormatUint v 64 Hv) as Hp. by rewrite E in Hp.
  - by rewrite ParseUint_FormatUint.
Qed.

Lemma no_blanks_app x y : no_blanks x → no_blanks y → no_blanks (x +:+ y).
Proof.
  intros [Hx Hx'] [Hy Hy']. split; [by destruct x|]. intros c Hc. rewrite has_char_app, Hx', Hy' by done. done.
Qed.

(** One setting of [io.max]. *)
Definition setting_word (key : string) (v : Z) : string := key +:+ "=" +:+ value_text "max" v.

Lemma setting_word_blanks key v : blank_free key = true → 0 <= v → no_blanks (setting_word key v).
Proof.
  intros Hk Hv. apply no_blanks_app; [by apply blank_free_ok|]. apply no_blanks_app; [by apply blank_free_ok|].
  apply value_text_blanks; [by apply blank_free_ok|done].
Qed.

Lemma read_setting_word key v : 0 <= v < 2^64 → read_setting key (setting_word key v) = Some v.
Proof.
  intros Hv. unfold read_setting, setting_word. rewrite <- sapp_assoc, HasPrefix_app, TrimPrefix_app.
  by apply read_value_text.
Qed.

(** The line of [io.max] is read back exactly. *)
Lemma io_max_line dev l : no_blanks dev → wf_limit l →
  ∃ words, Fields (getCG2IOLimitStr dev l) = dev :: words ∧ read_io_max words = Some l.
Proof.
  intros Hdev (H1 & H2 & H3 & H4).
  exists [setting_word "rbps" (Rbps l); setting_word "riops" (Riops l); setting_word "wbps" (Wbps l);
          setting_word "wiops" (Wiops l)]. split.
  - transitivity (Fields (Join [dev; setting_word "rbps" (Rbps l); setting_word "riops" (Riops l);
                                setting_word "wbps" (Wbps l); setting_word "wiops" (Wiops l)] " ")).
    + reflexivity.
    + apply Fields_Join. repeat (apply Forall_cons; split); [done|apply setting_word_blanks; (done || lia)..|by apply Forall_nil].
  - unfold read_io_max. rewrite !read_setting_word by done. by destruct l.
Qed.

(** So is a line of the first version. *)
Lemma cg1_line_words dev v : no_blanks dev → 0 <= v < 2^64 →
  ∃ words, Fields (cg1_line dev v) = dev :: words ∧ read_cg1 words = Some v.
Proof.
  intros Hdev Hv. exists [value_text "0" v]. split; [|by apply read_value_text].
  apply (Fields_Join [dev; value_text "0" v]). repeat (apply Forall_cons; split); [done| |by apply Forall_nil].
  apply value_text_blanks; [by apply blank_free_ok|lia].
Qed.

(** ** Writing the limits *)

Section writing.
Context {W : Type} `{CgroupLaws W, GoRuntimeLaws}.

(** The control groups are the same, their settings apart. *)
Definition same_groups (n n' : Node W) : Prop :=
  IsCgroup2UnifiedMode (nd_world n') = IsCgroup2UnifiedMode (nd_world n) ∧
  ∀ p, os_stat p (nd_world n') = os_stat p (nd_world n).

#[global] Instance same_groups_preorder : PreOrder same_groups.
Proof.
  split; [done|]. intros n1 n2 n3 [Hm1 Hs1] [Hm2 Hs2]. split; [congruence|]. intros p. by rewrite Hs2.
Qed.

Definition settings (n : Node W) : table := cg_table (nd_world n).

Lemma wp_is_dir path (Q : bool → Node W → Prop) n : (∀ b, Q b n) → wp (DirExists path) Q n.
Proof.
  intros HQ. pose proof (cg_stat_law path (nd_world n)) as Hs. unfold wp, DirExists, exists_, mbind, M_bind.
  destruct (os_stat path (nd_world n)); simpl; by try apply HQ.
Qed.

Lemma wp_is_file path (Q : bool → Node W → Prop) n : (∀ b, Q b n) → wp (FileExists path) Q n.
Proof.
  intros HQ. pose proof (cg_stat_law path (nd_world n)) as Hs. unfold wp, FileExists, exists_, mbind, M_bind.
  destruct (os_stat path (nd_world n)); simpl; by try apply HQ.
Qed.

(** A line is accepted, or nothing changes. *)
Lemma wp_write_line path line dev words n :
  Fields line = dev :: words →
  wp (write_line path line) (λ c n', same_groups n n' ∧
    match c with
    | Next _ => settings n' = <[(path, dev) := words]> (settings n)
    | Return _ => settings n' = settings n
    | Break _ => False
    end) n.
Proof.
  intros Hl. pose proof (cg_write_law path line (nd_world n)) as (Hm & Hs & Ht).
  unfold write_line. apply wp_bind. unfold wp at 1, write_file.
  destruct (os_WriteFile path line (nd_world n)) as [[e|] w]; simpl in *; apply wp_ret; split; [done|done|done|].
  by apply Ht.
Qed.

Lemma DirExists_same path n : ∃ b, ∀ n', same_groups n n' → DirExists path n' = (Done b, n').
Proof.
  pose proof (cg_stat_law path (nd_world n)) as Hs. unfold DirExists, exists_, mbind, M_bind.
  destruct (os_stat path (nd_world n)) eqn:E; try done; eexists; intros n' [_ Hn]; rewrite Hn, E; reflexivity.
Qed.

(** The name of the control group of a pod can be built. *)
Definition nameable (uid : string) (qos : qos_class) : Prop :=
  Contains uid "/" = false ∧ Contains uid "_" = false ∧
  ∀ name, generatePodCgroupName qos uid = Done name →
    (ExpandSlice (Join (escapeSystemdCgroupName <$> name) "-" +:+ ".slice")).2 = None.

Lemma generate_ok uid qos : Contains uid "/" = false → Contains uid "_" = false →
  ∃ a b l, generatePodCgroupName qos uid = Done (a :: b :: l).
Proof.
  intros Hu1 Hu2. assert (∀ c, c ∈ ["/"; "_"] → Contains ("pod" +:+ uid) c = false) as Hpod.
  { intros c [->|[->|[]%not_elem_of_nil]%elem_of_cons]%elem_of_cons; [exact Hu1|exact Hu2]. }
  unfold generatePodCgroupName, NewCgroupName. cbn [existsb].
  rewrite (Hpod "/"), (Hpod "_") by set_solver. destruct qos; simpl; eauto.
Qed.

(** The directory depends only on the control groups. *)
Lemma path_ok uid qos n : nameable uid qos →
  ∃ dir, ∀ set n', same_groups n n' → getPodBlkIOCgroupPath (mkPodBlkIO uid qos set) n' = (Done dir, n').
Proof.
  intros (Hu1 & Hu2 & Hs). destruct (generate_ok uid qos Hu1 Hu2) as (a & b & l & Hg). specialize (Hs _ Hg).
  destruct (DirExists_same (RootCgroup +:+ "/kubepods.slice") n) as [d1 Hd1].
  destruct (DirExists_same (RootCgroup +:+ "/systemd/kubepods.slice") n) as [d2 Hd2].
  destruct (ExpandSlice _) as [slice e] eqn:Es. simpl in Hs. subst e.
  set (path := if d1 || d2 then slice else toCgroupfs (a :: b :: l)).
  exists (if IsCgroup2UnifiedMode (nd_world n) then JoinAll [RootCgroup; path] else JoinAll [RootCgroup; "blkio"; path]).
  intros set n' Hn. unfold getPodBlkIOCgroupPath. cbn [PodQos PodUid]. rewrite Hg.
  assert (getCgroupDriverType n' = (Done (if d1 || d2 then SystemdDriver else CgroupfsDriver), n')) as Hd.
  { unfold getCgroupDriverType. rewrite (bind_done _ _ _ _ _ (Hd1 n' Hn)). destruct d1; [done|].
    rewrite (bind_done _ _ _ _ _ (Hd2 n' Hn)). by destruct d2. }
  erewrite bind_done by reflexivity. rewrite (bind_done _ _ _ _ _ Hd).
  assert (toSystemd (a :: b :: l) = Done slice) as Hsys. { unfold toSystemd. rewrite Es. by destruct a. }
  destruct Hn as [Hm _]. unfold path. destruct (d1 || d2); [rewrite Hsys|];
    (erewrite bind_done by reflexivity); unfold unified, mbind, M_bind; by rewrite Hm.
Qed.

(** *** One device *)

Definition wrote (dir : string) (dev : string) (l : IOLimit) (n : Node W) (c : ctl unit error) (n' : Node W) : Prop :=
  same_groups n n' ∧
  (∀ file d, d ≠ dev ∨ file ∉ limit_files dir → settings n' !! (file, d) = settings n !! (file, d)) ∧
  match c with
  | Next _ => limits_at (IsCgroup2UnifiedMode (nd_world n)) dir dev (settings n') = Some l
  | Return _ => True
  | Break _ => False
  end.

Lemma limits_at_frame (v2 : bool) (dir dev : string) (t t' : table) :
  (∀ file, t' !! (file, dev) = t !! (file, dev)) → limits_at v2 dir dev t' = limits_at v2 dir dev t.
Proof. intros Ht. unfold limits_at. by rewrite !Ht. Qed.

Lemma elem_limit_file dir f : f ∈ Cgroupv2BlkIOThrottle :: GetSupportedIOThrottles → JoinAll [dir; f] ∈ limit_files dir.
Proof. intros Hf. unfold limit_files. apply list_elem_of_fmap. eauto. Qed.

Lemma settings_insert_ne (t : table) (dir f dev : string) (words : list string) (file d : string) :
  f ∈ Cgroupv2BlkIOThrottle :: GetSupportedIOThrottles → d ≠ dev ∨ file ∉ limit_files dir →
  <[(JoinAll [dir; f], dev) := words]> t !! (file, d) = t !! (file, d).
Proof.
  intros Hf Hne. apply lookup_insert_ne. intros [= <- <-]. destruct Hne as [?|Hin]; [done|]. by apply Hin, elem_limit_file.
Qed.

Lemma write_cg2_ok dir dev l n :
  IsCgroup2UnifiedMode (nd_world n) = true → no_blanks dev → wf_limit l →
  wp (write_line (JoinAll [dir; Cgroupv2BlkIOThrottle]) (getCG2IOLimitStr dev l)) (wrote dir dev l n) n.
Proof.
  intros Hm Hdev Hl. destruct (io_max_line dev l Hdev Hl) as (words & Hf & Hr).
  eapply wp_mono; [by apply wp_write_line|]. intros [[]|[]|e] n' [Hs Ht]; [|done|].
  - split_and!; [done| |].
    + intros file d Hne. rewrite Ht. apply settings_insert_ne; [left|done].
    + rewrite Hm. unfold limits_at. rewrite Ht, lookup_insert_eq. exact Hr.
  - split_and!; [done| |done]. intros. by rewrite Ht.
Qed.

Lemma cg1_path dir t : t ∈ GetSupportedIOThrottles → mget (getCG1IOLimitPaths dir) t = JoinAll [dir; t].
Proof.
  intros Ht. unfold mget, getCG1IOLimitPaths. erewrite elem_of_list_to_map_1; [done| |].
  - rewrite <- list_fmap_compose. apply (bool_decide_unpack _). reflexivity.
  - apply list_elem_of_fmap. eauto.
Qed.

Lemma throttle_value_ok t l : t ∈ GetSupportedIOThrottles → wf_limit l → ∃ v, throttle_value t l = Some v ∧ 0 <= v < 2^64.
Proof.
  intros Ht (Hr & Hri & Hw & Hwi). unfold GetSupportedIOThrottles in Ht. rewrite !elem_of_cons in Ht.
  destruct Ht as [->|[->|[->|[->|[]%not_elem_of_nil]]]]; eexists; (split; [reflexivity|done]).
Qed.

Lemma write_cg1_ok dir dev l n :
  IsCgroup2UnifiedMode (nd_world n) = false → no_blanks dev → wf_limit l →
  wp (write_cg1 (getCG1IOLimitPaths dir) dev l) (wrote dir dev l n) n.
Proof.
  intros Hm Hdev Hl. set (file t := (JoinAll [dir; t], dev)).
  assert (∀ t, t ∈ GetSupportedIOThrottles → t ∈ Cgroupv2BlkIOThrottle :: GetSupportedIOThrottles) as Hsub by (by right).
  set (frame n' := ∀ f d, d ≠ dev ∨ f ∉ limit_files dir → settings n' !! (f, d) = settings n !! (f, d)).
  unfold write_cg1. apply wp_bind. eapply (wp_range _ _ _
    (λ rest _ n', rest ⊆ GetSupportedIOThrottles ∧ same_groups n n' ∧ frame n' ∧
      ∀ t, t ∈ GetSupportedIOThrottles → t ∈ rest ∨ settings n' !! file t ≫= read_cg1 = throttle_value t l)).
  - split_and!; [done|done|by intros ???|by left].
  - intros t rest [] n1 (Hrest & Hs1 & Hf1 & Hd1). assert (t ∈ GetSupportedIOThrottles) as Ht by (apply Hrest; left).
    destruct (throttle_value_ok t l Ht Hl) as (v & Hv & Hrange). rewrite Hv, cg1_path by done.
    destruct (cg1_line_words dev v Hdev Hrange) as (words & Hw & Hr).
    eapply wp_mono; [by apply wp_write_line|]. intros [[]|[]|e] n2 [Hs2 Ht2]; [|done|].
    + split_and!; [set_solver|by etrans| |].
      * intros f d Hne. rewrite Ht2, settings_insert_ne by auto. by apply Hf1.
      * intros t' Ht'. destruct (decide (t' = t)) as [->|Hne].
        { right. unfold file. rewrite Ht2, lookup_insert_eq, Hv. exact Hr. }
        destruct (Hd1 t' Ht') as [[->|?]%elem_of_cons|Hd]; [done|by left|right]. unfold file. rewrite Ht2, lookup_insert_ne; [done|].
        intros [= E]. by apply limit_files_apart in E; auto.
    + apply wp_ret. split_and!; [by etrans| |done]. intros f d Hne. rewrite Ht2. by apply Hf1.
  - intros [] n' (_ & Hs & Hf & Hd). apply wp_ret. split_and!; [done|done|]. rewrite Hm. unfold limits_at.
    assert (∀ t, t ∈ GetSupportedIOThrottles → settings n' !! (JoinAll [dir; t], dev) ≫= read_cg1 = throttle_value t l) as Hall.
    { intros t Ht. by destruct (Hd t Ht) as [?%not_elem_of_nil|?]. }
    unfold GetSupportedIOThrottles in Hall. rewrite !Hall by set_solver. by destruct l.
Qed.

(** *** All devices *)

Definition wf_set (set : DeviceIOSet) : Prop := ∀ dev l, set !! dev = Some l → no_blanks dev ∧ wf_limit l.

(** The settings of other devices and of other files are kept; without an
    error every device has its limits. *)
Definition limited (dir : string) (set : DeviceIOSet) (n : Node W) (err : option error) (n' : Node W) : Prop :=
  same_groups n n' ∧
  (∀ file dev, set !! dev = None ∨ file ∉ limit_files dir → settings n' !! (file, dev) = settings n !! (file, dev)) ∧
  (err = None → ∀ dev l, set !! dev = Some l →
    limits_at (IsCgroup2UnifiedMode (nd_world n)) dir dev (settings n') = Some l).

Lemma limited_error dir set n e : limited dir set n (Some e) n.
Proof. by split_and!. Qed.

Lemma write_devices_ok dir set site (body : string * IOLimit → unit → M (Node W) (ctl unit error)) n :
  (∀ dev l n', set !! dev = Some l → same_groups n n' → wp (body (dev, l) ()) (wrote dir dev l n') n') →
  wp (range (map_range site set) () body) (λ r, limited dir set n (loop_error r)) n.
Proof.
  intros Hb. set (v2 := IsCgroup2UnifiedMode (nd_world n)).
  set (frame n' := ∀ f d, set !! d = None ∨ f ∉ limit_files dir → settings n' !! (f, d) = settings n !! (f, d)).
  eapply (wp_range _ _ _ (λ rest _ n', (∀ dl, dl ∈ rest → set !! dl.1 = Some dl.2) ∧ same_groups n n' ∧ frame n' ∧
      ∀ dev l, set !! dev = Some l → (dev, l) ∈ rest ∨ limits_at v2 dir dev (settings n') = Some l)).
  - split_and!; [|done|by intros ???|].
    + intros [dev l] Hin. by apply elem_of_map_range in Hin.
    + intros dev l Hin. left. by apply elem_of_map_range.
  - intros [dev l] rest [] n1 (Hrest & Hs1 & Hf1 & Hd1). pose proof (Hrest (dev, l) ltac:(left)) as Hdev. simpl in Hdev.
    eapply wp_mono; [by apply Hb|]. intros c n2 (Hs2 & Hf2 & Hc).
    assert (frame n2) as Hf. { intros f d Hne. rewrite Hf2; [by apply Hf1|]. destruct Hne as [Hno|?]; [left; congruence|by right]. }
    destruct c as [[]|[]|e]; [|done|].
    + split_and!; [intros; apply Hrest; by right|by etrans|done|]. intros d k Hd.
      destruct (decide (d = dev)) as [->|Hne].
      { right. replace k with l by congruence. rewrite <- Hc. f_equal. by destruct Hs1 as [-> _]. }
      destruct (Hd1 d k Hd) as [[?|?]%elem_of_cons|Hl]; [congruence|by left|right].
      rewrite <- Hl. apply limits_at_frame. intros f. apply Hf2. by left.
    + split_and!; [by etrans|exact Hf|done].
  - intros [] n' (_ & Hs & Hf & Hd). split_and!; [done|exact Hf|]. intros _ dev l Hl.
    by destruct (Hd dev l Hl) as [?%not_elem_of_nil|?].
Qed.

Lemma SetIOLimit_ok uid qos set dir n :
  (∀ n', same_groups n n' → getPodBlkIOCgroupPath (mkPodBlkIO uid qos set) n' = (Done dir, n')) → wf_set set →
  wp (SetIOLimit (mkPodBlkIO uid qos set)) (limited dir set n) n.
Proof.
  intros Hdir Hset. unfold SetIOLimit. eapply wp_bind_run; [by apply Hdir|]. apply wp_bind, wp_is_dir. intros [];
    cbn [negb]; [|apply wp_ret, limited_error].
  eapply wp_bind_run; [reflexivity|]. destruct (IsCgroup2UnifiedMode (nd_world n)) eqn:Hm.
  - apply wp_bind, wp_is_file. intros []; cbn [negb]; [|apply wp_ret, limited_error]. apply wp_bind.
    eapply wp_mono; [apply (write_devices_ok dir set)|].
    + intros dev l n' Hl [Hm' _]. destruct (Hset dev l Hl). apply write_cg2_ok; [congruence|done..].
    + intros r n' Hr. by apply wp_ret.
  - apply wp_bind. eapply (wp_range _ _ _ (λ _ _ n', n' = n)); [done| |].
    + intros tp rest [] n' ->. apply wp_bind, wp_is_file. intros []; apply wp_ret; [done|]. apply wp_ret, limited_error.
    + intros [] n' ->. apply wp_bind. eapply wp_mono; [apply (write_devices_ok dir set)|].
      * intros dev l n' Hl [Hm' _]. destruct (Hset dev l Hl). apply write_cg1_ok; [congruence|done..].
      * intros r n' Hr. by apply wp_ret.
Qed.

(** *** Finding a device *)

Definition numbered (no : string) (n : Node W) : Prop := ∃ d, d ∈ cg_devices (nd_world n) ∧ ld_DeviceNumber d = no.

Lemma ld_number_mark b d : ld_DeviceNumber (set_ld_HavePartitions b d) = ld_DeviceNumber d.
Proof. by destruct d. Qed.

Lemma GetDevice_ok `{DiskoMethods, Disko W} no n :
  wp (LocalPartitionImplement.GetDevice no) (λ r n', same_groups n n' ∧ settings n' = settings n ∧
    cg_devices (nd_world n') = cg_devices (nd_world n) ∧
    (∀ d, r = (Some d, None) → no_blanks no) ∧
    (pr_end (os_run "lsblk" lsblk_args (nd_world n)).1 = ExitOk → numbered no n → ∃ d, r = (Some d, None))) n.
Proof.
  pose proof (cg_lsblk_law (nd_world n)) as (Hm & Hs & Ht & Hd & Hout). pose proof (cg_devices_law (nd_world n)) as (Hne & Hwf & Hnb).
  unfold LocalPartitionImplement.GetDevice, LocalPartitionImplement.ListDevicesDetailWithoutFilter. apply wp_bind.
  cbv zeta. change (_ ++ (if String.eqb "" "" then [] else [""])) with lsblk_args. apply wp_bind. unfold ExecuteCommandWithOutput. apply wp_bind.
  unfold wp at 1, spawn. destruct (os_run "lsblk" lsblk_args (nd_world n)) as [r w]. cbn [fst snd] in *.
  apply wp_ret. unfold runCommandWithOutput.
  destruct (pr_end r); cbn [proc_error]; [|apply wp_ret, wp_ret; by split_and!..].
  rewrite Hout, parseDiskString_report by done. eapply wp_bind_run; [reflexivity|]. apply wp_ret. apply wp_ret.
  split_and!; [by split|done|done| |].
  - intros d [= Hfind]. apply find_some in Hfind as [Hin He%String.eqb_eq]. apply list_elem_of_In, list_elem_of_fmap in Hin as (d' & -> & Hin).
    rewrite Forall_forall in Hnb. rewrite <- He, ld_number_mark. by apply (Hnb d').
  - intros _ (d & Hin & <-). destruct (List.find _ _) as [x|] eqn:Hf; [by exists x|]. exfalso.
    eapply find_none in Hf; [|apply list_elem_of_In, list_elem_of_fmap; by exists d]. by rewrite ld_number_mark, String.eqb_refl in Hf.
Qed.
End writing.

(** ** The controller *)

Section controller.
Import PodIOReconciler.
Context {W K : Type} `{CgroupLaws W, GoRuntimeLaws, DiskoMethods, Disko W, PodClient K}.
Context (list_ok : ∀ k, wp list_pvs (λ _ _, True) k).

Abbreviation St := (state W K).

(** The device number of a volume, when it carries one. *)
Definition pv_device (pv : IoPv) (dev : string) : Prop :=
  mget (iv_Attributes pv) VolumeDeviceMajor ≠ "" ∧ mget (iv_Attributes pv) VolumeDeviceMinor ≠ "" ∧
  dev = mget (iv_Attributes pv) VolumeDeviceMajor +:+ ":" +:+ mget (iv_Attributes pv) VolumeDeviceMinor.

Definition serves (pod : IoPod) (claim : string) (pv : IoPv) : bool :=
  ContainsString (pv_index pv) (ip_Namespace pod +:+ "-" +:+ claim).

(** [dev] carries a Carina volume that serves a claim of the pod. *)
Definition pod_device (pod : IoPod) (dev : string) : Prop :=
  ∃ claim pv, Some claim ∈ ip_Volumes pod ∧ serves pod claim pv = true ∧ pv_device pv dev.

(** The reads succeed: the volumes are [pvs]. *)
Definition readable (pvs : list IoPv) (k : K) : Prop :=
  list_pvs k = (Done (pvs, None), k) ∧ (∀ w, pr_end (os_run "lsblk" lsblk_args w).1 = ExitOk).

(** The claim has exactly one volume of [pvs], on the device [dev] of the node. *)
Definition found_device (pvs : list IoPv) (pod : IoPod) (n : Node W) (claim dev : string) : Prop :=
  ∃ pv, List.filter (serves pod claim) pvs = [pv] ∧ pv_device pv dev ∧ numbered dev n.

(** Looking for devices changes nothing. *)
Definition unchanged (s s' : St) : Prop :=
  ioCache s' = ioCache s ∧ same_groups (io_node s) (io_node s') ∧ settings (io_node s') = settings (io_node s) ∧
  cg_devices (nd_world (io_node s')) = cg_devices (nd_world (io_node s)).

#[global] Instance unchanged_preorder : PreOrder unchanged.
Proof.
  split; [done|]. intros s1 s2 s3 (H11 & H12 & H13 & H14) (H21 & H22 & H23 & H24).
  split_and!; [congruence|by etrans|congruence|congruence].
Qed.

Definition collected (pod : IoPod) (set : DeviceIOSet) : Prop :=
  ∀ dev l, set !! dev = Some l → l = getPodIOLimit pod ∧ no_blanks dev ∧ pod_device pod dev.

Lemma wp_io_kube {A} (m : M K A) (Q : A → St → Prop) s :
  wp m (λ a k, Q a (mkPodIO (ioCache s) (io_node s) k)) (io_kube s) → wp (on_kube m) Q s.
Proof. unfold wp, on_kube. by destruct (m (io_kube s)) as [[] ?]. Qed.

Lemma wp_io_node {A} (m : M (Node W) A) (Q : A → St → Prop) s :
  wp m (λ a n, Q a (mkPodIO (ioCache s) n (io_kube s))) (io_node s) → wp (on_node m) Q s.
Proof. unfold wp, on_node. by destruct (m (io_node s)) as [[] ?]. Qed.

Definition kept_devices (pvs : list IoPv) (pod : IoPod) (s : St) (v : option string) (set : DeviceIOSet) : Prop :=
  ∀ claim dev, v = Some claim → found_device pvs pod (io_node s) claim dev → is_Some (set !! dev).

Lemma volume_device_ok pod v set s :
  v ∈ ip_Volumes pod → collected pod set →
  wp (volume_device pod v set) (λ set' s', unchanged s s' ∧ collected pod set' ∧ set ⊆ set' ∧
    ∀ pvs, readable pvs (io_kube s) → io_kube s' = io_kube s ∧ kept_devices pvs pod s v set') s.
Proof.
  intros Hv Hset. unfold volume_device. destruct v as [claim|]; [|apply wp_ret; by split_and!].
  apply wp_bind, wp_io_kube. pose proof (list_ok (io_kube s)) as Hlist. apply wp_exists in Hlist as ([pvs e] & k & Hrun & _).
  unfold wp at 1. rewrite Hrun. set (s1 := mkPodIO (ioCache s) (io_node s) k).
  assert (∀ pvs', readable pvs' (io_kube s) → pvs' = pvs ∧ e = None ∧ k = io_kube s) as Hread.
  { intros pvs' [Hr _]. rewrite Hr in Hrun. by injection Hrun as -> <- <-. }
  assert (unchanged s s1) as H01 by done.
  destruct e as [e|].
  { apply wp_ret. split_and!; try done. by intros pvs' (_ & ? & _)%Hread. }
  change (λ pv, ContainsString (pv_index pv) _) with (serves pod claim).
  destruct (List.filter (serves pod claim) pvs) as [|pv [|? ?]] eqn:Hf.
  1,3: apply wp_ret; split_and!; try done; intros pvs' (-> & _ & Hk)%Hread; (split; [exact Hk|]);
    intros claim' dev [= <-] (pv' & Hf' & _); by rewrite Hf in Hf'.
  assert (serves pod claim pv = true) as Hserves.
  { assert (In pv (List.filter (serves pod claim) pvs)) as [_ ?]%filter_In; [rewrite Hf; by left|done]. }
  cbv zeta. set (major := mget _ VolumeDeviceMajor). set (minor := mget _ VolumeDeviceMinor).
  destruct (String.eqb_spec major "") as [Ema|Ema]; [|destruct (String.eqb_spec minor "") as [Emi|Emi]]; cbn [orb].
  1,2: apply wp_ret; split_and!; try done; intros pvs' (-> & _ & Hk)%Hread; (split; [exact Hk|]);
    intros claim' dev [= <-] (pv' & Hf' & (? & ? & _) & _); rewrite Hf in Hf'; by injection Hf' as <-.
  set (no := major +:+ ":" +:+ minor). apply wp_bind, wp_io_node. eapply wp_mono; [apply GetDevice_ok|].
  intros r n' (Hg & Ht & Hd & Hnb & Hfound). set (s2 := mkPodIO _ _ _).
  assert (unchanged s s2) as H02 by done.
  assert ((∀ d, r ≠ (Some d, None)) → ∀ pvs', readable pvs' (io_kube s) → k = io_kube s ∧ kept_devices pvs' pod s (Some claim) set) as Hmiss.
  { intros Hr pvs' Hp. destruct (Hread _ Hp) as (-> & _ & Hk). split; [exact Hk|].
    intros claim' dev [= <-] (pv' & Hf' & (_ & _ & ->) & Hnum).
    rewrite Hf in Hf'. injection Hf' as <-. destruct Hp as [_ Hls]. destruct (Hfound (Hls _) Hnum) as [d ->]. by destruct (Hr d). }
  destruct r as [[d|] [e|]]; try (apply wp_ret; split_and!; [done..|by apply Hmiss]).
  apply wp_ret. split_and!; [done| | |].
  - intros dev l. rewrite lookup_insert_Some. intros [[<- <-]|[_ ?]]; [|by apply Hset].
    split_and!; [done|by eapply Hnb|]. by exists claim, pv.
  - destruct (set !! no) as [l|] eqn:El; [|by apply insert_subseteq]. destruct (Hset _ _ El) as [-> _]. by rewrite insert_id.
  - intros pvs' (-> & _ & Hk)%Hread. split; [exact Hk|].
    intros claim' dev [= <-] (pv' & Hf' & (_ & _ & ->) & _). rewrite Hf in Hf'. injection Hf' as <-.
    by rewrite lookup_insert_eq.
Qed.

Lemma found_unchanged pvs pod s s' claim dev :
  unchanged s s' → found_device pvs pod (io_node s) claim dev → found_device pvs pod (io_node s') claim dev.
Proof.
  intros (_ & _ & _ & Hd) (pv & Hf & Hp & (d & Hin & Hno)). exists pv. split_and!; [done|done|]. exists d. by rewrite Hd.
Qed.

Lemma getPodBlkIO_ok pod s :
  wp (getPodBlkIO pod) (λ blk s', ∃ set, blk = mkPodBlkIO (ip_UID pod) (GetPodQOS pod) set ∧
    unchanged s s' ∧ collected pod set ∧
    ∀ pvs, readable pvs (io_kube s) → ∀ v, v ∈ ip_Volumes pod → kept_devices pvs pod s v set) s.
Proof.
  unfold getPodBlkIO. apply wp_bind. eapply wp_mono.
  - apply (wp_for_acc_rest (ip_Volumes pod) ∅ (volume_device pod) (λ rest set s',
      rest ⊆ ip_Volumes pod ∧ unchanged s s' ∧ collected pod set ∧
      ∀ pvs, readable pvs (io_kube s) → io_kube s' = io_kube s ∧
        ∀ v, v ∈ ip_Volumes pod → v ∈ rest ∨ kept_devices pvs pod s v set)).
    + split_and!; [done|done|by intros ??|]. intros pvs _. split; [done|by left].
    + intros v rest set s1 (Hrest & Hu & Hc & Hk). eapply wp_mono; [apply volume_device_ok; [apply Hrest; left|done]|].
      intros set' s2 (Hu' & Hc' & Hsub & Hk'). split_and!; [set_solver|by etrans|done|]. intros pvs Hp.
      destruct (Hk pvs Hp) as [E1 Hd1]. rewrite <- E1 in Hp. destruct (Hk' pvs Hp) as [E2 Hd2]. split; [congruence|].
      intros v' Hv'. destruct (Hd1 v' Hv') as [[->|?]%elem_of_cons|Hd]; [right|by left|right].
      * intros claim dev -> Hf. eapply (Hd2 claim dev eq_refl), found_unchanged, Hf. done.
      * intros claim dev -> Hf. destruct (Hd claim dev eq_refl Hf) as [l Hl]. exists l. by eapply lookup_weaken.
  - intros set s' (_ & Hu & Hc & Hk). apply wp_ret. exists set. split_and!; [done..|]. intros pvs Hp v Hv.
    by destruct (proj2 (Hk pvs Hp) v Hv) as [?%not_elem_of_nil|?].
Qed.

(** The limits of the pod are applied to [devs] in the control group at [dir]. *)
Definition applied (pod : IoPod) (dir : string) (devs : gset string) (s : St) (err : option error) (s' : St) : Prop :=
  (∀ file dev, dev ∉ devs ∨ file ∉ limit_files dir →
    settings (io_node s') !! (file, dev) = settings (io_node s) !! (file, dev)) ∧
  match err with
  | Some _ => ioCache s' = ioCache s
  | None =>
      ioCache s' = <[ip_UID pod := getPodIOLimit pod]> (ioCache s) ∧
      ∀ dev, dev ∈ devs →
        limits_at (IsCgroup2UnifiedMode (nd_world (io_node s))) dir dev (settings (io_node s')) = Some (getPodIOLimit pod)
  end.

Definition devices_of (pod : IoPod) (s : St) (devs : gset string) : Prop :=
  (∀ dev, dev ∈ devs → pod_device pod dev) ∧
  ∀ pvs claim dev, readable pvs (io_kube s) → Some claim ∈ ip_Volumes pod → found_device pvs pod (io_node s) claim dev → dev ∈ devs.

(** What the controller does when the limits are not those it has applied. *)
Definition apply_limits (pod : IoPod) : M St (option error) :=
  blkIO ← getPodBlkIO pod;
  err ← on_node (SetIOLimit blkIO);
  match err with
  | Some e => mret (Some e)
  | None => on_cache (<[ip_UID pod := getPodIOLimit pod]>) ;; mret None
  end.

Lemma handle_cases pod s :
  handleSinglePodCGroupConfig pod s =
    if decide (ioCache s !! ip_UID pod = Some (getPodIOLimit pod)) then (Done None, s) else apply_limits pod s.
Proof.
  unfold handleSinglePodCGroupConfig. erewrite bind_done by reflexivity. case_decide as Hc.
  - rewrite Hc. by rewrite (proj2 (Equal_spec _ _) eq_refl).
  - destruct (ioCache s !! ip_UID pod) as [l|] eqn:El; [|done].
    destruct (Equal (getPodIOLimit pod) l) eqn:E; [|done]. apply Equal_spec in E. congruence.
Qed.

Lemma apply_limits_ok pod s : nameable (ip_UID pod) (GetPodQOS pod) →
  wp (apply_limits pod) (λ err s', ∃ dir devs,
    getPodBlkIOCgroupPath (mkPodBlkIO (ip_UID pod) (GetPodQOS pod) ∅) (io_node s) = (Done dir, io_node s) ∧
    devices_of pod s devs ∧ applied pod dir devs s err s') s.
Proof.
  intros Hname. destruct (path_ok _ _ (io_node s) Hname) as [dir Hdir]. unfold apply_limits. apply wp_bind.
  eapply wp_mono; [apply getPodBlkIO_ok|]. intros blk s1 (set & -> & (Hc1 & Hg1 & Ht1 & Hd1) & Hc & Hk).
  apply wp_bind, wp_io_node. eapply wp_mono; [apply (SetIOLimit_ok _ _ set dir)|].
  - intros n' Hn. apply Hdir. by etrans.
  - intros dev l Hl. destruct (Hc dev l Hl) as (-> & ? & _). split; [done|apply getPodIOLimit_wf].
  - intros err n' (Hg & Hf & Hl).
    assert (∀ file dev, dev ∉ (dom set : gset string) ∨ file ∉ limit_files dir →
      settings n' !! (file, dev) = settings (io_node s) !! (file, dev)) as Hframe.
    { intros file dev Hne. rewrite Hf, Ht1; [done|]. by rewrite <- not_elem_of_dom. }
    assert (devices_of pod s (dom set)) as Hdevs.
    { split; [intros dev [l Hl']%elem_of_dom; by apply (Hc dev l)|]. intros pvs claim dev Hp Hv Hfd.
      apply elem_of_dom. by apply (Hk pvs Hp (Some claim) Hv claim dev). }
    destruct err as [e|]; [apply wp_ret|eapply wp_bind_run; [reflexivity|]; apply wp_ret];
      exists dir, (dom set); (split; [by apply Hdir|]); split_and!; try done.
    split; [done|]. split; [simpl; by rewrite Hc1|]. intros dev [l Hl']%elem_of_dom. destruct Hg1 as [Hm _]. simpl.
    rewrite <- Hm, (Hl eq_refl dev l Hl'). by destruct (Hc dev l Hl') as [-> _].
Qed.
End controller.


(** *** A node that obeys the laws *)

(** The second version of control groups, one pod and one logical volume. *)
Record cg_sim := mkCgSim { cs_table : table }.

Definition cg_dir := "/sys/fs/cgroup/kubepods/podu1".

Definition cg_disks : list LocalDisk := [mkDisk "/dev/dm-0" "" (20 * GiB) "" "lvm" "1" false "" 0 "" "252:7" false].

#[local] Instance cg_sim_os : OS cg_sim := {|
  os_run cmd args w := (if String.eqb cmd "lsblk" then mkProc (lsblk_pairs cg_disks) "" "" ExitOk else mkProc "" "" "" ExitOk, w);
  os_stat path w :=
    if String.eqb path cg_dir then StatDir
    else if String.eqb path (cg_dir +:+ "/io.max") then StatRegular else StatNotExist
|}.

#[local] Instance cg_sim_sys : CgroupSys cg_sim := {|
  os_WriteFile path line w :=
    (None, match Fields line with
           | dev :: words => mkCgSim (<[(path, dev) := words]> (cs_table w))
           | [] => w
           end);
  IsCgroup2UnifiedMode _ := true;
  ExpandSlice s := (s, None)
|}.

#[local] Instance cg_sim_laws : CgroupLaws cg_sim.
Proof.
  refine {| cg_table := cs_table; cg_devices _ := cg_disks |}.
  - intros path w. cbn [os_stat cg_sim_os]. by destruct (String.eqb path cg_dir), (String.eqb path (cg_dir +:+ "/io.max")).
  - intros path line w. cbn [os_WriteFile cg_sim_sys fst snd]. split_and!; [done|done|]. by intros dev words ->.
  - intros w. split_and!; [done..|]. intros _. vm_compute. reflexivity.
  - intros w. split_and!; [done| |].
    + apply Forall_singleton. split; [repeat constructor|vm_compute; split; (discriminate || reflexivity)|done].
    + apply Forall_singleton. by apply blank_free_ok.
Defined.

#[local] Instance cg_sim_methods : DiskoMethods := {|
  FreeSpaces _ := []; FreeSpacesWithMin _ _ := []; FreeSpaceSize _ := 0; PartitionSize _ := 0;
  GetPartitionKname d _ := d; partid_LinuxFS := "linux"
|}.

#[local] Instance cg_sim_disko : Disko cg_sim := {|
  sys_ScanDisks _ _ w := ((∅, None), w);
  sys_ScanAllDisks _ w := ((∅, None), w);
  sys_ScanDisk _ w := ((zero_DiskoDisk, Some (ErrString "no such disk")), w);
  sys_CreatePartition _ _ w := (Some (ErrString "no such disk"), w);
  sys_DeletePartition _ _ w := (Some (ErrString "no such disk"), w);
  sys_Wipe _ w := (Some (ErrString "no such disk"), w);
  sys_Statfs _ w := (0, 0)
|}.

(** The volumes the API server has. *)
#[local] Instance cg_sim_client : PodClient (list IoPv) := {|
  get_pod _ _ k := (Done (mkIoPod "" "" "" "" "" ∅ [] false "", Some (ErrString "not read")), k);
  list_pvs k := (Done (k, None), k);
  GetPodQOS _ := Guaranteed
|}.

#[local] Existing Instance reference_runtime.

Definition io_pod : IoPod :=
  mkIoPod "default" "db" "u1" "n1" "Running"
    {[ "carina.storage.io/blkio.throttle.read_bps_device" := "1048576" ]} [None; Some "data"] false "3".

Definition io_pv : IoPv :=
  mkIoPv (Some CSIPluginName) "Bound" (Some ("default", "data"))
    {[ VolumeDeviceMajor := "252"; VolumeDeviceMinor := "7" ]}.

Definition io_state (pvs : list IoPv) : PodIOReconciler.state cg_sim (list IoPv) :=
  PodIOReconciler.mkPodIO ∅ (mkNode GlobalLocks.NewGlobalLocks ∅ (mkCgSim ∅) []) pvs.

Lemma io_pod_nameable : nameable (W:=cg_sim) (ip_UID io_pod) (GetPodQOS (K:=list IoPv) io_pod).
Proof. done. Qed.


Section skipped.
Import PodIOReconciler.
Context {W K : Type} `{CgroupLaws W, GoRuntimeLaws, DiskoMethods, Disko W, PodClient K}.

Lemma no_volumes_found (pod : IoPod) (pvs_of : K → list IoPv) (s : state W K) :
  (∀ k : K, list_pvs k = (Done (pvs_of k, None), k)) →
  (∀ claim, Some claim ∈ ip_Volumes pod → List.filter (serves pod claim) (pvs_of (io_kube s)) = []) →
  getPodBlkIO pod s = (Done (mkPodBlkIO (ip_UID pod) (GetPodQOS pod) ∅), s).
Proof.
  intros Hread Hnone. unfold getPodBlkIO. erewrite bind_done; [reflexivity|].
  induction (ip_Volumes pod) as [|v l IH]; [done|]. cbn [for_acc]. erewrite bind_done; [apply IH; intros; apply Hnone; by right|].
  unfold volume_device. destruct v as [claim|]; [|done]. erewrite bind_done.
  2:{ unfold on_kube. rewrite Hread. reflexivity. }
  cbv beta iota. change (λ pv, ContainsString (pv_index pv) _) with (serves pod claim). rewrite Hnone by left. by destruct s.
Qed.
End skipped.

(** The pod is remembered as limited although none of its volumes was:
    when the claims have no bound volume at the first, successful handling, no
    setting of any control group changes, and from then on the pod is never
    handled again while its annotations stay: its volumes are not limited even
    once they are bound. *)
Theorem skipped_volume_never_limited {W K : Type} `{CgroupLaws W, GoRuntimeLaws, DiskoMethods, Disko W, PodClient K}
    (pod : IoPod) (s s1 : PodIOReconciler.state W K) (pvs_of : K → list IoPv)
    (Hread : ∀ k : K, list_pvs k = (Done (pvs_of k, None), k))
    (Hname : nameable (W:=W) (ip_UID pod) (GetPodQOS (K:=K) pod))
    (Hnew : PodIOReconciler.ioCache s !! ip_UID pod = None)
    (Hnone : ∀ claim, Some claim ∈ ip_Volumes pod →
      List.filter (serves pod claim) (pvs_of (PodIOReconciler.io_kube s)) = [])
    (Hrun : PodIOReconciler.handleSinglePodCGroupConfig pod s = (Done None, s1)) :
  settings (PodIOReconciler.io_node s1) = settings (PodIOReconciler.io_node s) ∧
  ∀ s2, PodIOReconciler.ioCache s2 !! ip_UID pod = PodIOReconciler.ioCache s1 !! ip_UID pod →
    PodIOReconciler.handleSinglePodCGroupConfig pod s2 = (Done None, s2).
Proof.
  rewrite handle_cases, decide_False in Hrun by (by rewrite Hnew). unfold apply_limits in Hrun.
  rewrite (bind_done _ _ _ _ _ (no_volumes_found pod pvs_of s Hread Hnone)) in Hrun.
  destruct (path_ok _ _ (PodIOReconciler.io_node s) Hname) as [dir Hdir].
  pose proof (SetIOLimit_ok _ _ ∅ dir (PodIOReconciler.io_node s) (Hdir ∅) ltac:(intros ?? ?; done)) as Hset.
  apply wp_exists in Hset as (err & n' & Hn & _ & Hf & _).
  rewrite (bind_done _ _ _ err (PodIOReconciler.mkPodIO (PodIOReconciler.ioCache s) n' (PodIOReconciler.io_kube s))) in Hrun
    by (unfold PodIOReconciler.on_node; by rewrite Hn).
  destruct err as [e|]; [done|]. injection Hrun as <-. split.
  - apply map_eq. intros [file dev]. apply Hf. left. done.
  - intros s2 Hs2. rewrite handle_cases, decide_True; [done|]. rewrite Hs2. apply lookup_insert_eq.
Qed.

Lemma skipped_volume_never_limited_witness :
  let s1 := (PodIOReconciler.handleSinglePodCGroupConfig io_pod (io_state [])).2 in
  let s2 := PodIOReconciler.mkPodIO (PodIOReconciler.ioCache s1) (PodIOReconciler.io_node s1) [io_pv] in
  cs_table (nd_world (PodIOReconciler.io_node s1)) = ∅ ∧
  PodIOReconciler.handleSinglePodCGroupConfig io_pod s2 = (Done None, s2).
Proof.
  cbv zeta. pose proof (skipped_volume_never_limited io_pod (io_state []) _ id (λ _, eq_refl) io_pod_nameable eq_refl
    (λ _ _, eq_refl) ltac:(vm_compute; reflexivity)) as [Hs Hagain].
  split; [exact Hs|]. by apply Hagain.
Defined.
