(* ===== verification/LvmSim.v ===== *)
(** * A node whose lvm2 tools obey the laws

    An executable simulator of the command line tools: the state of the
    system is the abstract lvm state, command lines are decoded, run and
    reported as text.  It shows that the laws of [LvmTools] can be met, and it
    runs the whole stack (volume manager, lvm2 implementation, executor,
    parsers) on concrete inputs. *)

From S2P Require Import Prelude GoStrings Api GoRuntime Mutx Exec Utils LvmParse Lvmd Bcache Volume LvmSpec VolumeCorrect LvmTools.
From S2P Require Import Partition PartitionCorrect.

#[local] Open Scope string_scope.
#[local] Open Scope list_scope.
#[local] Open Scope Z_scope.

(** ** Running a command on the abstract state *)

Definition sim_disk : Z := 100 * GiB.
Definition u64_ok (z : Z) : bool := (0 <=? z) && (z <? 2^64).

Definition vg_ok (g : VgGroup) : bool :=
  u64_ok (vg_PVCount g) && u64_ok (vg_LVCount g) && u64_ok (vg_VGSize g) && u64_ok (vg_VGFree g).

Definition unbound (dev : string) (l : lvm) : bool :=
  forallb (λ q, negb (String.eqb (pv_PVName q) dev) || String.eqb (pv_VGName q) "") (l_pvs l).

Definition find_pv (dev vg : string) (l : lvm) : option PVInfo :=
  List.find (λ q, String.eqb (pv_PVName q) dev && String.eqb (pv_VGName q) vg) (l_pvs l).

Definition in_group (p : PVInfo) (vg : string) : PVInfo :=
  mkPV (pv_PVName p) vg (pv_PVFmt p) (pv_PVAttr p) (pv_PVSize p) (pv_PVSize p).

Definition guard_ {A} (b : bool) (a : A) : option A := if b then Some a else None.

Definition sim_resize (lv vg : string) (gib : Z) (l : lvm) : option lvm :=
  g ← l_vgs l !! vg;
  i ← l_lvs l !! (vg, lv);
  let g' := vg_resized g 0 0 0 (- resized_by i gib) in
  guard_ ((1 <=? gib) && (resized_by i gib <=? vg_VGFree g) && u64_ok (gib * GiB) && vg_ok g')
    (set_pvs (l_pvs l) (set_vg g' (set_lv (lv_sized i (gib * GiB)) l))).

Definition sim_exec (c : lvm_cmd) (l : lvm) : option lvm :=
  match c with
  | CPvCreate dev =>
      guard_ (unbound dev l)
        (set_pvs (filter (λ q, pv_PVName q ≠ dev) (l_pvs l) ++ [mkPV dev "" "lvm2" "---" sim_disk sim_disk]) l)
  | CPvRemove dev =>
      guard_ (unbound dev l) (set_pvs (filter (λ q, pv_PVName q ≠ dev) (l_pvs l)) l)
  | CPvMove dev =>
      guard_ (forallb (λ q, negb (String.eqb (pv_PVName q) dev) || (pv_PVFree q =? pv_PVSize q)) (l_pvs l)) l
  | CVgCreate vg dev =>
      p ← find_pv dev "" l;
      match l_vgs l !! vg with
      | Some _ => None
      | None =>
          let p' := in_group p vg in
          Some (set_vg (mkVG vg 1 0 "wz--n-" (pv_PVSize p') (pv_PVSize p') [])
                  (set_pvs (replace_pv p' (l_pvs l)) l))
      end
  | CVgExtend vg dev =>
      p ← find_pv dev "" l;
      g ← l_vgs l !! vg;
      let p' := in_group p vg in
      let g' := vg_resized g 1 0 (pv_PVSize p') (pv_PVSize p') in
      guard_ (vg_ok g') (set_vg g' (set_pvs (replace_pv p' (l_pvs l)) l))
  | CVgReduce vg dev =>
      p ← find_pv dev vg l;
      g ← l_vgs l !! vg;
      let g' := vg_resized g (-1) 0 (- pv_PVSize p) (- pv_PVSize p) in
      guard_ ((pv_PVFree p =? pv_PVSize p) && (2 <=? vg_PVCount g) && vg_ok g')
        (set_vg g' (set_pvs (replace_pv (in_group p "") (l_pvs l)) l))
  | CVgRemove vg =>
      Some (mkLvm (delete vg (l_vgs l))
              ((λ q, if String.eqb (pv_VGName q) vg then in_group q "" else q) <$> l_pvs l)
              (drop_lvs (λ k _, String.eqb k.1 vg) (l_lvs l)))
  | CLvCreate lv vg gib =>
      g ← l_vgs l !! vg;
      match l_lvs l !! (vg, lv) with
      | Some _ => None
      | None =>
          let g' := vg_resized g 0 1 0 (- (gib * GiB)) in
          let i := mkLV lv vg "" (gib * GiB) 252 0 "" 0 "" 0 "" "" "-wi-a-----" "active" in
          guard_ ((1 <=? gib) && (gib * GiB <=? vg_VGFree g) && vg_ok g')
            (set_pvs (l_pvs l) (set_vg g' (set_lv i l)))
      end
  | CLvRemove lv vg =>
      g ← l_vgs l !! vg;
      i ← l_lvs l !! (vg, lv);
      let lvs := drop_lvs (dropped vg lv) (l_lvs l) in
      let g' := mkVG vg (vg_PVCount g) (lv_count vg lvs) (vg_VGAttr g) (vg_VGSize g)
                  (vg_VGFree g + consumed i) [] in
      guard_ (vg_ok g') (set_pvs (l_pvs l) (set_vg g' (mkLvm (l_vgs l) (l_pvs l) lvs)))
  | CLvResize lv vg gib => sim_resize lv vg gib l
  | CPoolResize lv vg gib => sim_resize lv vg gib l
  | CPvResize dev =>
      p ← List.find (λ q, String.eqb (pv_PVName q) dev) (l_pvs l);
      let pvs := set_pvs (replace_pv p (l_pvs l)) l in
      if String.eqb (pv_VGName p) "" then Some pvs
      else
        g ← l_vgs l !! pv_VGName p;
        Some (set_vg (vg_resized g 0 0 (pv_PVSize p - pv_PVSize p) (pv_PVSize p - pv_PVSize p)) pvs)
  | CReduceMissing vg =>
      g ← l_vgs l !! vg;
      guard_ (negb (existsb (λ q, String.eqb (pv_VGName q) vg && Contains (pv_PVName q) "unknown") (l_pvs l)))
        (set_vg (vg_resized g (- 0) 0 (- 0) (- 0)) (set_pvs (l_pvs l) l))
  end.

(** ** Command lines *)

Definition decode_gib (a : string) : Z := (ParseUint (remove_char "g" a) 64).1.

Definition decode_lv (a : string) (k : string → string → lvm_cmd) : option lvm_cmd :=
  match Split a "/" with
  | [vg; lv] => Some (k vg lv)
  | _ => None
  end.

Definition decode (cmd : string) (args : list string) : option lvm_cmd :=
  match args with
  | [a] =>
      if String.eqb cmd "pvcreate" then Some (CPvCreate a)
      else if String.eqb cmd "pvremove" then Some (CPvRemove a)
      else if String.eqb cmd "pvmove" then Some (CPvMove a)
      else if String.eqb cmd "pvresize" then Some (CPvResize a)
      else None
  | [a; b] =>
      if String.eqb cmd "vgextend" then Some (CVgExtend a b)
      else if String.eqb cmd "vgreduce" then
        Some (if String.eqb a "--removemissing" then CReduceMissing b else CVgReduce a b)
      else if String.eqb cmd "vgremove" then Some (CVgRemove b)
      else if String.eqb cmd "lvremove" then decode_lv b (λ vg lv, CLvRemove lv vg)
      else None
  | [a; b; c] =>
      if String.eqb cmd "vgcreate" then Some (CVgCreate b c)
      else if String.eqb cmd "lvresize" then decode_lv c (λ vg lv, CLvResize lv vg (decode_gib b))
      else None
  | [_; _; c; d] =>
      if String.eqb cmd "lvresize" then decode_lv d (λ vg lv, CPoolResize lv vg (decode_gib c)) else None
  | [_; lv; _; sz; _; _; _; vg] =>
      if String.eqb cmd "lvcreate" then Some (CLvCreate lv vg (decode_gib sz)) else None
  | _ => None
  end.

Definition exit_ok (out : string) : proc_result := mkProc out "" out ExitOk.
Definition exit_error (err : string) : proc_result := mkProc "" err err (ExitError "exit status 5").

Definition sim_lvs (arg : option string) (l : lvm) : proc_result :=
  match arg with
  | None => exit_ok (report (lv_fields <$> (map_to_list (l_lvs l)).*2))
  | Some a =>
      match Split a "/" with
      | [vg; lv] =>
          match l_lvs l !! (vg, lv) with
          | Some i => exit_ok (report [lv_fields i])
          | None => exit_error ("  Failed to find logical volume " +:+ a)
          end
      | _ => exit_error "  Invalid path for Logical Volume."
      end
  end.

(** Two disks; one that is a physical volume shows its label. *)
Definition sim_block_devices (l : lvm) : list LocalDisk :=
  (λ name, mkDisk name "" sim_disk "" "disk" "0" false
     (if existsb (λ q, String.eqb (pv_PVName q) name) (l_pvs l) then "LVM2_member" else "") 0 "" "252:16" false)
  <$> ["/dev/vdb"; "/dev/vdc"].

Definition sim_lsblk (args : list string) (l : lvm) : proc_result :=
  match args with
  | [_; _; _; _; _; dev] => exit_ok (lsblk_pairs (List.filter (λ d, String.eqb (ld_Name d) dev) (sim_block_devices l)))
  | [_; "--paths"; _; _; _] => exit_ok (lsblk_pairs (sim_block_devices l))
  | _ => exit_ok ""
  end.

Definition sim_run (cmd : string) (args : list string) (l : lvm) : proc_result * lvm :=
  if String.eqb cmd "vgs" then (exit_ok (report (vg_fields <$> (map_to_list (l_vgs l)).*2)), l)
  else if String.eqb cmd "pvs" then (exit_ok (report (pv_fields <$> l_pvs l)), l)
  else if String.eqb cmd "lvs" then (sim_lvs (head (drop 8 args)) l, l)
  else if String.eqb cmd "bcache-super-show" then (exit_error "", l)
  else if String.eqb cmd "lsblk" then (sim_lsblk args l, l)
  else
    match decode cmd args with
    | Some c =>
        match sim_exec c l with
        | Some l' => (exit_ok "", l')
        | None => (exit_error "", l)
        end
    | None => (exit_ok "", l)
    end.

#[export] Instance sim_os : OS lvm := {|
  os_run := sim_run;
  os_stat path l := if ContainsString ["/dev/vdb"; "/dev/vdc"] path then StatOther else StatNotExist
|}.

(** ** The laws *)

Lemma decode_gib_arg n : is_u64 n → decode_gib (gib_arg n) = n.
Proof.
  intros Hn. unfold decode_gib, gib_arg. rewrite remove_char_app, remove_char_id, sapp_nil_r;
    [|apply FormatUint_has; [apply Hn|done]]. by rewrite ParseUint_FormatUint.
Qed.

Lemma valid_no_slash n : valid_name n → has_char "/" n = false.
Proof. unfold valid_name. by destruct (has_char "/" n). Qed.

Lemma Split_lv_arg vg lv : valid_name vg → valid_name lv → Split (lv_arg vg lv) "/" = [vg; lv].
Proof.
  intros Hvg Hlv. unfold lv_arg. change ("/" +:+ lv) with (String "/" lv).
  rewrite Split_cons, Split_none; [done|by apply valid_no_slash..].
Qed.

Lemma decode_cmdline c : valid_cmd c → decode (cmdline c).1 (cmdline c).2 = Some c.
Proof.
  destruct c; simpl; intros Hv; try done; unfold decode_lv; destruct_and?.
  - destruct (String.eqb_spec vg "--removemissing") as [->|_]; done.
  - by rewrite decode_gib_arg.
  - by rewrite Split_lv_arg.
  - by rewrite Split_lv_arg, decode_gib_arg.
  - by rewrite Split_lv_arg, decode_gib_arg.
Qed.

Lemma u64_ok_spec z : u64_ok z = true ↔ is_u64 z.
Proof. unfold u64_ok, is_u64. rewrite andb_true_iff, Z.leb_le, Z.ltb_lt. done. Qed.

Lemma vg_ok_wf g : vg_ok g = true → safe (vg_VGName g) → safe (vg_VGAttr g) → vg_PVS g = [] → wf_vg g.
Proof.
  unfold vg_ok, wf_vg. rewrite !andb_true_iff, !u64_ok_spec. tauto.
Qed.

Lemma vg_ok_resized g a b c d : wf_vg g → vg_ok (vg_resized g a b c d) = true → wf_vg (vg_resized g a b c d).
Proof. intros Hg Hok. by apply vg_ok_wf; [|apply Hg..]. Qed.

Lemma unbound_spec dev l : unbound dev l = true → ∀ q, q ∈ l_pvs l → pv_PVName q = dev → pv_VGName q = "".
Proof.
  unfold unbound. rewrite forallb_forall. intros Hu q Hq%list_elem_of_In Hn. specialize (Hu q Hq).
  rewrite Hn, String.eqb_refl in Hu. by apply String.eqb_eq.
Qed.

Lemma find_pv_spec dev vg l p :
  find_pv dev vg l = Some p → p ∈ l_pvs l ∧ pv_PVName p = dev ∧ pv_VGName p = vg.
Proof.
  intros [Hp%list_elem_of_In [?%String.eqb_eq ?%String.eqb_eq]%andb_true_iff]%find_some. done.
Qed.

Lemma guard_spec {A} b (a a' : A) : guard_ b a = Some a' → b = true ∧ a' = a.
Proof. destruct b; naive_solver. Qed.

Lemma same_devices_refl l : wf_lvm l → same_devices (l_pvs l) (l_pvs l).
Proof. intros. split; [done|by apply wf_pvs_Forall]. Qed.

Lemma in_group_ok p vg : wf_pv p → safe vg → regrouped p vg (in_group p vg).
Proof. unfold regrouped, wf_pv. simpl. tauto. Qed.

Lemma wf_resized_zero g : wf_vg g → wf_vg (vg_resized g 0 0 0 0).
Proof. unfold wf_vg. simpl. by rewrite !Z.add_0_r. Qed.

Ltac sim_inv :=
  repeat match goal with
  | H : (_ ≫= _) = Some _ |- _ => apply bind_Some in H as (? & ? & H)
  | H : guard_ _ _ = Some _ |- _ => apply guard_spec in H as [? ->]
  | H : andb _ _ = true |- _ => apply andb_true_iff in H as [? ?]
  | H : (_ <=? _) = true |- _ => apply Z.leb_le in H
  | H : (_ =? _) = true |- _ => apply Z.eqb_eq in H
  | H : u64_ok _ = true |- _ => apply u64_ok_spec in H
  | H : find_pv _ _ _ = Some _ |- _ => apply find_pv_spec in H as (? & ? & ?)
  end.

Lemma sim_resize_step lv vg gib l l' :
  wf_lvm l → sim_resize lv vg gib l = Some l' → lvm_step (CLvResize lv vg gib) l l'.
Proof.
  intros Hwf Hr. unfold sim_resize in Hr. sim_inv.
  eapply step_lvresize; eauto using same_devices_refl. apply vg_ok_resized; [|done].
  eapply wf_vgs; eauto.
Qed.

Lemma sim_exec_step c l l' :
  wf_lvm l → valid_cmd c → sim_exec c l = Some l' → lvm_step c l l'.
Proof.
  intros Hwf Hv Hr. destruct c; simpl in Hr, Hv; sim_inv.
  - apply step_pvcreate; try done. by apply unbound_spec.
  - apply step_pvremove. by apply unbound_spec.
  - apply step_pvmove.
    + do 2 (split; [done|]). by apply same_devices_refl.
    + intros q Hq%list_elem_of_In Hn. rewrite forallb_forall in H. specialize (H q Hq).
      rewrite Hn, String.eqb_refl in H. by apply Z.eqb_eq.
  - destruct (l_vgs l !! vg) eqn:Hg; [done|]. injection Hr as <-.
    pose proof (wf_pvs l Hwf x H) as (? & ? & ? & ? & Hsz & ?).
    eapply step_vgcreate; eauto; try done; [apply in_group_ok; [by split_and!|apply Hv]|].
    unfold wf_vg. simpl. split_and!; try done; try apply Hv; apply Hsz.
  - apply (step_vgextend vg dev x (in_group x vg) x0); eauto; [apply in_group_ok; [by apply (wf_pvs l Hwf)|apply Hv]|].
    apply vg_ok_resized; [|done]. eapply wf_vgs; eauto.
  - apply (step_vgreduce vg dev x (in_group x "") x0); eauto; [apply in_group_ok; [by apply (wf_pvs l Hwf)|done]|].
    apply vg_ok_resized; [|done]. eapply wf_vgs; eauto.
  - injection Hr as <-. apply step_vgremove. apply Forall2_fmap_r, Forall_Forall2_diag, Forall_forall.
    intros q Hq. simpl. destruct (String.eqb (pv_VGName q) vg); [|done]. apply in_group_ok; [by apply (wf_pvs l Hwf)|done].
  - destruct (l_lvs l !! (vg, lv)) eqn:Hi; [done|]. sim_inv.
    destruct (wf_vgs l Hwf _ _ H) as (Hn & Hg & _). destruct Hv as (? & ? & ? & ? & ?).
    eapply step_lvcreate; eauto using same_devices_refl; [|by apply vg_ok_resized].
    pose proof (proj2 (proj2 Hg)) as (_ & _ & _ & Hf & _). rewrite <- Hn.
    unfold wf_lv, is_u64 in *. simpl. split_and!; try done; try apply Hg; try lia.
    unfold GiB in *. lia.
  - destruct (wf_vgs l Hwf _ _ H) as (Hn & Hg & _).
    eapply step_lvremove; eauto using same_devices_refl; [simpl; lia|].
    apply vg_ok_wf; [done| |apply Hg|done]. simpl. rewrite <- Hn. apply Hg.
  - by apply sim_resize_step.
  - apply step_poolresize. by apply sim_resize_step.
  - apply find_some in H as [Hp%list_elem_of_In Hn%String.eqb_eq].
    assert (regrouped x (pv_VGName x) x) as Hx by (split_and!; [done|done|by apply (wf_pvs l Hwf)]).
    destruct (String.eqb_spec (pv_VGName x) "") as [He|Hne]; sim_inv.
    + injection Hr as <-. eapply step_pvresize_free; eauto. by rewrite <- He.
    + injection Hr as <-. eapply step_pvresize_group; eauto. rewrite Z.sub_diag.
      apply wf_resized_zero. eapply wf_vgs; eauto.
  - apply (step_reducemissing vg x 0 0 0); [done|done|done|]. apply wf_resized_zero. eapply wf_vgs; eauto.
Qed.

Lemma decode_other c : no_lvm_command c → decode c.1 c.2 = None.
Proof.
  intros [Hc|[text ->]]; [|done]. unfold decode.
  rewrite !elem_of_cons, elem_of_nil in Hc. destruct c as [cmd args]. simpl in *.
  destruct Hc as [-> |[-> |[-> |[]]]]; by destruct args as [|?[|?[|?[|?[|?[|?[|?[|?[|]]]]]]]]].
Qed.

#[export, refine] Instance sim_tools : LvmTools lvm := {| lvm_of l := l |}.
Proof.
  - intros l Hwf. simpl. split; [done|]. eauto.
  - intros l Hwf. simpl. done.
  - intros vg lv l Hwf Hvg Hlv. split; [done|]. unfold os_run, sim_os, sim_run. simpl.
    rewrite Split_lv_arg by done. destruct (l_lvs l !! (vg, lv)) as [i|] eqn:Hi; simpl; eauto.
  - intros l Hwf. split; [done|]. simpl. eauto.
  - intros c l Hwf Hv. pose proof (decode_cmdline c Hv) as Hd.
    assert (∀ x, x ∈ ["vgs"; "pvs"; "lvs"; "bcache-super-show"; "lsblk"] → String.eqb (cmdline c).1 x = false) as Hne.
    { intros x Hx. rewrite !elem_of_cons, elem_of_nil in Hx.
      destruct Hx as [-> |[-> |[-> |[-> |[-> |[]]]]]]; by destruct c. }
    unfold os_run, sim_os, sim_run. rewrite !Hne by set_solver. rewrite Hd.
    destruct (sim_exec c l) as [l'|] eqn:Hr; simpl; [by apply sim_exec_step|].
    destruct c; simpl; try done. do 2 (split; [done|]). by apply same_devices_refl.
  - intros c l Hc. unfold os_run, sim_os, sim_run. rewrite decode_other by done.
    by repeat destruct (String.eqb _ _).
  - intros dev l r _. by exists [].
Defined.

(** A node with one group of 100 GiB that holds one volume. *)
Definition sim_group : VgGroup := mkVG "carina-vg-ssd" 1 1 "wz--n-" sim_disk (60 * GiB) [].
Definition sim_lv : LvInfo :=
  mkLV "volume-pvc-1" "carina-vg-ssd" "" (40 * GiB) 252 0 "" 0 "" 0 "" "" "-wi-a-----" "active".
Definition sim_node : Node lvm :=
  mkNode ∅ ∅
    (mkLvm {["carina-vg-ssd" := sim_group]}
       [mkPV "/dev/vdb" "carina-vg-ssd" "lvm2" "a--" sim_disk (60 * GiB)]
       {[("carina-vg-ssd", "volume-pvc-1") := sim_lv]}) [].

Lemma sim_node_wf : wf_lvm (view sim_node).
Proof.
  split; simpl.
  - intros n g [<- <-]%lookup_singleton_Some. split; [done|]. split; [by split_and!|done].
  - intros p ->%list_elem_of_singleton. by split_and!.
  - intros vg n i [[= <- <-] <-]%lookup_singleton_Some. by split_and!.
Qed.
