(* ===== verification/NodeSim.v ===== *)
(** * A node with files, mounts and disks that obeys the laws

    A simulator of the system interface of [Filesystem] on top of the
    simulated lvm2 tools.  It shows that the laws of [FileSysLaws] can be met
    and runs the CSI node service on concrete requests. *)

From S2P Require Import Prelude GoStrings Api GoRuntime Mutx Exec Utils Config HostPath LvmParse Lvmd Bcache.
From S2P Require Import Partition PartitionCorrect PartitionTheorems Volume LvmSpec LvmTools LvmSim.
From S2P Require Import Filesystem FilesystemCorrect CsiNode.

#[local] Open Scope string_scope.
#[local] Open Scope list_scope.
#[local] Open Scope Z_scope.

Record sim := mkSim {
  sw_lvm : lvm;
  sw_files : gmap string Stat_t;
  sw_mounts : list mount;
  sw_disks : gmap Z disk
}.

Definition dir_stat : Stat_t := mkStat S_IFDIR 0 0.
Definition is_dirb (st : Stat_t) : bool := Z.land (st_Mode st) S_IFMT =? S_IFDIR.
Definition clean_path (p : string) : bool := IsAbs p && String.eqb (Clean p) p.
Definition underb (p q : string) : bool := String.eqb q p || HasPrefix q (p +:+ "/").

Definition good_mount (m : mount) : bool :=
  blank_free (m_src m) && blank_free (m_target m) && negb (has_char newline (m_rest m)) && clean_path (m_target m).

(** A mount point is a directory. *)
Definition mount_dirs (ms : list mount) : gmap string Stat_t := list_to_map ((λ m, (m_target m, dir_stat)) <$> ms).

Definition sim_fs (w : sim) : Fs :=
  let ms := List.filter good_mount (sw_mounts w) in
  mkFs (sw_files w ∪ mount_dirs ms) ms (sw_disks w) ∅.

Definition set_files (fs : gmap string Stat_t) (w : sim) : sim := mkSim (sw_lvm w) fs (sw_mounts w) (sw_disks w).

(** The file system of a mounted device without its files. *)
Definition erase (p : string) (ms : list mount) (ds : gmap Z disk) : gmap Z disk :=
  foldr (λ m ds, if underb p (m_target m) then alter (λ k, mkDiskState (dk_format k) ∅) (m_dev m) ds else ds) ds ms.

(** The list without its last element that satisfies [p]. *)
Fixpoint drop_last (p : mount → bool) (ms : list mount) : option (list mount) :=
  match ms with
  | [] => None
  | m :: ms =>
      match drop_last p ms with
      | Some ms' => Some (m :: ms')
      | None => if p m then Some ms else None
      end
  end.

Definition sim_blkid (dev : string) (w : sim) : proc_result :=
  match f_files (sim_fs w) !! dev with
  | None => mkProc "" "" "" (ExitError "exit status 2")
  | Some st =>
      let format := format_of (sim_fs w) (st_Rdev st) in
      if String.eqb format "" then mkProc "" "" "" (ExitError "exit status 2")
      else if has_char newline format then mkProc "" "" "" (ExitError "exit status 4")
      else exit_ok ("TYPE=" +:+ format)
  end.

(** The source of the last mount at the target. *)
Definition sim_findmnt (target : string) (w : sim) : proc_result :=
  match List.find (λ m, String.eqb (m_target m) target) (rev (f_mounts (sim_fs w))) with
  | Some m => exit_ok (m_src m +:+ String newline "")
  | None => mkProc "" "" "" (ExitError "exit status 1")
  end.

#[export] Instance node_sim_os : OS sim := {|
  os_run cmd args w :=
    if String.eqb cmd blkidCmd then (sim_blkid (default "" (last args)) w, w)
    else if String.eqb cmd findmntCmd then (sim_findmnt (default "" (last args)) w, w)
    else let '(r, l) := os_run cmd args (sw_lvm w) in (r, mkSim l (sw_files w) (sw_mounts w) (sw_disks w));
  os_stat path w :=
    match f_files (sim_fs w) !! path with
    | None => StatNotExist
    | Some st => if is_dirb st then StatDir else StatOther
    end
|}.

#[export] Instance node_sim_files : Files sim := {|
  os_MkdirAll path _ w :=
    match f_files (sim_fs w) !! path with
    | None => (None, set_files (<[path := dir_stat]> (sw_files w)) w)
    | Some st => (if is_dirb st then None else Some (ErrString "not a directory"), w)
    end;
  os_Chmod _ _ w := (None, w);
  os_RemoveAll path w :=
    let ms := f_mounts (sim_fs w) in
    (if existsb (λ m, underb path (m_target m)) ms then Some (ErrString "device or resource busy") else None,
     mkSim (sw_lvm w) (filter (λ kv, underb path kv.1 = false) (sw_files w)) ms (erase path ms (sw_disks w)))
|}.

#[export] Instance node_sim_sys : FileSys sim := {|
  unix_Stat path w := (match f_files (sim_fs w) !! path with Some st => inl st | None => inr ENOENT end, w);
  unix_Mknod path mode dev w :=
    match f_files (sim_fs w) !! path with
    | Some _ => (Some (Errno "file exists"), w)
    | None => (None, set_files (<[path := mkStat mode dev 0]> (sw_files w)) w)
    end;
  unix_Statfs path w := (inr ENOENT, w);
  os_Stat path w := match f_files (sim_fs w) !! path with Some st => inl st | None => inr ENOENT end;
  os_Remove path w :=
    match f_files (sim_fs w) !! path with
    | None => (Some ENOENT, w)
    | Some _ =>
        if existsb (λ m, String.eqb (m_target m) path) (f_mounts (sim_fs w)) then (Some (Errno "device or resource busy"), w)
        else (None, set_files (delete path (sw_files w)) w)
    end;
  os_Open path w :=
    match f_files (sim_fs w) !! path with Some _ => None | None => Some (ErrString "no such file or directory") end;
  os_SeekEnd path w := (0, None);
  os_Getwd w := ("/", None);
  EvalSymlinks path w := (path, None);
  read_mounts w := (mount_table (f_mounts (sim_fs w)), None);
  FormatAndMount src tgt fstype opts w :=
    match f_files (sim_fs w) !! src with
    | None => (Some (ErrString "no such device"), w)
    | Some st =>
        let m := mkMount src tgt (fstype +:+ " rw 0 0") (st_Rdev st) in
        if good_mount m && negb (String.eqb fstype "") then
          let ds := if String.eqb (format_of (sim_fs w) (st_Rdev st)) ""
                    then <[st_Rdev st := mkDiskState fstype ∅]> (sw_disks w) else sw_disks w in
          (None, mkSim (sw_lvm w) (sw_files w) (sw_mounts w ++ [m]) ds)
        else (Some (ErrString "mount failed"), w)
    end;
  Unmount tgt w :=
    match drop_last (λ m, String.eqb (m_target m) tgt) (f_mounts (sim_fs w)) with
    | None => (Some (ErrString "not mounted"), w)
    | Some ms => (None, mkSim (sw_lvm w) (sw_files w) ms (sw_disks w))
    end;
  GetDiskFormat dev w :=
    match f_files (sim_fs w) !! dev with
    | None => ("", Some (ErrString "no such device"))
    | Some st => (format_of (sim_fs w) (st_Rdev st), None)
    end
|}.

(** No raw disks. *)
#[export] Instance node_sim_disko : Disko sim := {|
  sys_ScanDisks _ _ w := ((∅, None), w);
  sys_ScanAllDisks _ w := ((∅, None), w);
  sys_ScanDisk _ w := ((zero_DiskoDisk, Some (ErrString "no such disk")), w);
  sys_CreatePartition _ _ w := (Some (ErrString "no such disk"), w);
  sys_DeletePartition _ _ w := (Some (ErrString "no such disk"), w);
  sys_Wipe _ w := (Some (ErrString "no such disk"), w);
  sys_Statfs _ w := (0, 0)
|}.

#[export] Instance node_sim_udev : Udev sim := {| GetUdevInfo _ _ := (∅, None) |}.
#[export] Instance node_sim_dev : UnixDev := {| Mkdev major minor := major * 256 + minor |}.

(** ** The laws *)

Lemma good_mount_ok m : good_mount m = true → wf_mount m ∧ IsAbs (m_target m) = true ∧ Clean (m_target m) = m_target m.
Proof.
  unfold good_mount, clean_path. rewrite !andb_true_iff. intros [[[Hs Ht] Hr] [Ha Hc%String.eqb_eq]].
  split; [|done]. split_and!; [by apply blank_free_ok..|]. by destruct (has_char newline (m_rest m)).
Qed.

Lemma good_mounts w m : m ∈ f_mounts (sim_fs w) → good_mount m = true.
Proof. intros Hm%list_elem_of_In. by apply filter_In in Hm as [_ ?]. Qed.

Lemma good_mounts_filter ms : Forall (λ m, good_mount m = true) ms → List.filter good_mount ms = ms.
Proof. induction 1 as [|m ms Hm _ IH]; simpl; [done|]. by rewrite Hm, IH. Qed.

Lemma underb_spec p q : underb p q = true ↔ under p q.
Proof. unfold underb, under. by rewrite orb_true_iff, String.eqb_eq. Qed.

Lemma mount_dirs_Some ms q : is_Some (mount_dirs ms !! q) ↔ ∃ m, m ∈ ms ∧ m_target m = q.
Proof.
  induction ms as [|m ms IH]; simpl.
  - unfold mount_dirs. simpl. rewrite lookup_empty. split; [by intros []|]. by intros (m & ?%not_elem_of_nil & _).
  - change (mount_dirs (m :: ms)) with (<[m_target m := dir_stat]> (mount_dirs ms)). rewrite lookup_insert. case_decide as Ht.
    + split; [|done]. intros _. exists m. split; [by left|done].
    + rewrite IH. split; [intros (m' & ? & ?); exists m'; split; [by right|done]|].
      intros (m' & [->|?]%elem_of_cons & ?); [done|eauto].
Qed.

Lemma mount_dirs_dir ms q st : mount_dirs ms !! q = Some st → st = dir_stat.
Proof.
  unfold mount_dirs. intros Hst. apply elem_of_list_to_map_2, list_elem_of_fmap in Hst as (m & [= _ ->] & _). done.
Qed.

Lemma mount_dirs_ext ms ms' q : (∀ m, m_target m = q → m ∈ ms ↔ m ∈ ms') → mount_dirs ms !! q = mount_dirs ms' !! q.
Proof.
  intros He. pose proof (mount_dirs_Some ms q) as H1. pose proof (mount_dirs_Some ms' q) as H2.
  destruct (mount_dirs ms !! q) as [st|] eqn:E1, (mount_dirs ms' !! q) as [st'|] eqn:E2; [| | |done].
  - by rewrite (mount_dirs_dir _ _ _ E1), (mount_dirs_dir _ _ _ E2).
  - destruct (proj1 H1) as (m & Hm & Ht); [done|]. destruct (proj2 H2) as [? ?]; [|done]. exists m. by rewrite <- He.
  - destruct (proj1 H2) as (m & Hm & Ht); [done|]. destruct (proj2 H1) as [? ?]; [|done]. exists m. by rewrite He.
Qed.

Lemma mount_dirs_None ms q : (∀ m, m ∈ ms → m_target m ≠ q) → mount_dirs ms !! q = None.
Proof.
  intros Hno. apply eq_None_not_Some. intros (m & Hm & Ht)%mount_dirs_Some. by apply (Hno m).
Qed.

Lemma drop_last_spec p ms ms' : drop_last p ms = Some ms' →
  ∃ l1 m l2, ms = l1 ++ m :: l2 ∧ p m = true ∧ (∀ m', m' ∈ l2 → p m' = false) ∧ ms' = l1 ++ l2.
Proof.
  assert (∀ ms, drop_last p ms = None → ∀ m, m ∈ ms → p m = false) as Hnone.
  { clear. induction ms as [|m ms IH]; simpl; [by intros _ m ?%not_elem_of_nil|].
    destruct (drop_last p ms); [done|]. destruct (p m) eqn:E; [done|]. intros _ m' [->|?]%elem_of_cons; auto. }
  revert ms'. induction ms as [|m ms IH]; intros ms' Hd; simpl in Hd; [done|].
  destruct (drop_last p ms) as [l|] eqn:E.
  - injection Hd as <-. destruct (IH l eq_refl) as (l1 & m0 & l2 & -> & ? & ? & ->). by exists (m :: l1), m0, l2.
  - destruct (p m) eqn:Ep; [|done]. injection Hd as <-. exists [], m, ms. split_and!; try done. by apply Hnone.
Qed.

Lemma erase_other p ms ds d : (∀ m, m ∈ ms → m_dev m = d → ¬ under p (m_target m)) → erase p ms ds !! d = ds !! d.
Proof.
  induction ms as [|m ms IH]; intros Hno; simpl; [done|]. destruct (underb p (m_target m)) eqn:E.
  - rewrite lookup_alter_ne; [apply IH; intros; apply Hno; [by right|done]|].
    intros Hd. apply (Hno m); [by left|done|]. by apply underb_spec.
  - apply IH. intros. apply Hno; [by right|done].
Qed.

(** The files that are not a mount point. *)
Lemma sim_delete w path : (∀ m, m ∈ f_mounts (sim_fs w) → m_target m ≠ path) →
  f_files (sim_fs (set_files (delete path (sw_files w)) w)) = delete path (f_files (sim_fs w)).
Proof.
  intros Hno. cbn [sim_fs f_files set_files sw_files sw_mounts]. rewrite delete_union.
  by rewrite (delete_id (mount_dirs _)) by (by apply mount_dirs_None).
Qed.

Lemma sim_insert w path st : sim_fs (set_files (<[path := st]> (sw_files w)) w) = set_file path st (sim_fs w).
Proof. unfold sim_fs, set_file. simpl. by rewrite insert_union_l. Qed.

Lemma sim_run_other cmd args w : String.eqb cmd blkidCmd = false → String.eqb cmd findmntCmd = false →
  os_run cmd args w = ((os_run cmd args (sw_lvm w)).1,
    mkSim (os_run cmd args (sw_lvm w)).2 (sw_files w) (sw_mounts w) (sw_disks w)).
Proof. intros Hc Hf. unfold os_run at 1, node_sim_os. rewrite Hc, Hf. by destruct (os_run cmd args (sw_lvm w)). Qed.

#[export] Instance node_sim_tools : LvmTools sim.
Proof.
  refine {| lvm_of := sw_lvm |}.
  - intros w Hwf. rewrite sim_run_other by done. pose proof (tool_vgs (sw_lvm w) Hwf) as Ht. by destruct (os_run _ _ _).
  - intros w Hwf. rewrite sim_run_other by done. pose proof (tool_pvs (sw_lvm w) Hwf) as Ht. by destruct (os_run _ _ _).
  - intros vg lv w Hwf Hvg Hlv. rewrite sim_run_other by done. pose proof (tool_lvs vg lv (sw_lvm w) Hwf Hvg Hlv) as Ht.
    by destruct (os_run _ _ _).
  - intros w Hwf. rewrite sim_run_other by done. pose proof (tool_lvs_all (sw_lvm w) Hwf) as Ht. by destruct (os_run _ _ _).
  - intros c w Hwf Hc. rewrite sim_run_other by (by destruct c). pose proof (tool_step c (sw_lvm w) Hwf Hc) as Ht.
    by destruct (os_run _ _ _).
  - intros c w Hc. destruct (String.eqb_spec c.1 blkidCmd) as [E|E].
    + unfold os_run, node_sim_os. by rewrite E.
    + destruct (String.eqb_spec c.1 findmntCmd) as [E'|E'].
      * unfold os_run, node_sim_os. by rewrite E'.
      * rewrite sim_run_other by (by apply String.eqb_neq). exact (tool_other c (sw_lvm w) Hc).
  - intros dev w. rewrite sim_run_other by done. apply (tool_lsblk dev (sw_lvm w)).
Defined.

#[export] Instance node_sim_disks : DiskoLaws sim.
Proof.
  refine {| disks _ := ∅ |}; try done. intros d min fs Hfs. by apply (FreeSpacesWithMin_law (W:=sim_disks)).
Defined.

Lemma sim_blkid_report dev st w : f_files (sim_fs w) !! dev = Some st →
  match pr_end (sim_blkid dev w) with
  | ExitOk => blkid_report (format_of (sim_fs w) (st_Rdev st)) (pr_both (sim_blkid dev w))
  | ExitError m => m = "exit status 2" → format_of (sim_fs w) (st_Rdev st) = ""
  | StartError _ => True
  end.
Proof.
  intros Hst. unfold sim_blkid. rewrite Hst. set (format := format_of (sim_fs w) (st_Rdev st)).
  destruct (String.eqb_spec format "") as [E|E]; [by intros _|]. destruct (has_char newline format) eqn:En; [done|].
  cbn [pr_end exit_ok pr_both]. unfold blkid_report. rewrite (proj2 (String.eqb_neq _ _) E).
  exists [], []. split; [|constructor]. by apply Split_none.
Qed.

Lemma sim_mounted src tgt fstype st w : f_files (sim_fs w) !! src = Some st →
  let m := mkMount src tgt (fstype +:+ " rw 0 0") (st_Rdev st) in
  good_mount m = true → fstype ≠ "" →
  mounted src tgt fstype (sim_fs w) (sim_fs (mkSim (sw_lvm w) (sw_files w) (sw_mounts w ++ [m])
    (if String.eqb (format_of (sim_fs w) (st_Rdev st)) "" then <[st_Rdev st := mkDiskState fstype ∅]> (sw_disks w) else sw_disks w))).
Proof.
  intros Hst m Hm Hne.
  assert (List.filter good_mount (sw_mounts w ++ [m]) = List.filter good_mount (sw_mounts w) ++ [m]) as Hms.
  { rewrite List.filter_app. simpl. by rewrite Hm. }
  split_and!.
  - intros d. destruct (String.eqb_spec (format_of (sim_fs w) (st_Rdev st)) "") as [Hf|Hf]; [|by left]. simpl.
    destruct (decide (st_Rdev st = d)) as [<-|Hd]; [right|left; by apply lookup_insert_ne].
    split; [by exists st|]. split; [done|]. unfold format_of. cbn [sim_fs f_disks sw_disks]. by rewrite lookup_insert_eq.
  - done.
  - intros q Hq. cbn [sim_fs f_files sw_files sw_mounts]. rewrite Hms, !lookup_union. f_equal. apply mount_dirs_ext.
    intros m' Ht. rewrite elem_of_app, list_elem_of_singleton. split; [intros [?| ->]; [done|]|by left].
    destruct Hq. left. done.
  - exists st, m. split_and!; try done. destruct (String.eqb_spec (format_of (sim_fs w) (st_Rdev st)) "") as [Hf|Hf]; [|exact Hf].
    unfold format_of. cbn [sim_fs f_disks sw_disks]. by rewrite lookup_insert_eq.
Qed.

Lemma sim_unmounted tgt ms w : drop_last (λ m, String.eqb (m_target m) tgt) (f_mounts (sim_fs w)) = Some ms →
  unmounted tgt (sim_fs w) (sim_fs (mkSim (sw_lvm w) (sw_files w) ms (sw_disks w))).
Proof.
  intros (l1 & m & l2 & Hm & Ht%String.eqb_eq & Hl2 & ->)%drop_last_spec.
  assert (List.filter good_mount (l1 ++ l2) = l1 ++ l2) as Hms.
  { apply good_mounts_filter, Forall_forall. intros x Hx. apply (good_mounts w). rewrite Hm. set_solver. }
  split_and!; [done|done| |].
  - intros q Hq. cbn [sim_fs f_files sw_files sw_mounts]. rewrite Hms, !lookup_union. f_equal. apply mount_dirs_ext.
    intros m' Ht'. cbn [sim_fs f_mounts] in Hm. rewrite Hm, !elem_of_app, elem_of_cons.
    split; [tauto|]. intros [?|[->|?]]; [tauto| |tauto]. destruct Hq. left. congruence.
  - exists l1, m, l2. split_and!; try done. intros m' Hm'. apply String.eqb_neq. by apply Hl2.
Qed.

Lemma sim_emptied path w :
  let w' := (os_RemoveAll path w).2 in
  emptied path (sim_fs w) (sim_fs w') ∧
  ((os_RemoveAll path w).1 = None →
    (∀ q, under path q → f_files (sim_fs w') !! q = None) ∧ (∀ m, m ∈ f_mounts (sim_fs w) → ¬ under path (m_target m))).
Proof.
  cbn [os_RemoveAll node_sim_files]. set (ms := f_mounts (sim_fs w)). cbn [fst snd].
  assert (List.filter good_mount ms = ms) as Hms by (apply good_mounts_filter, Forall_forall; apply good_mounts).
  split; [split_and!|].
  - split; [|done]. cbn [sim_fs f_mounts sw_mounts]. by rewrite Hms.
  - intros q Hq. cbn [sim_fs f_files sw_files sw_mounts]. rewrite Hms. fold ms. rewrite !lookup_union. f_equal.
    apply option_eq. intros st. rewrite map_lookup_filter_Some. split; [by intros [? _]|]. intros Hst. split; [done|]. simpl.
    destruct (underb path q) eqn:E; [|done]. by apply underb_spec in E.
  - intros d _ Hin. cbn [sim_fs f_disks sw_disks]. apply erase_other. intros m Hm Hd Hu. apply Hin. by exists m.
  - destruct (existsb _ ms) eqn:Ex; [done|]. intros _.
    assert (∀ m, m ∈ ms → ¬ under path (m_target m)) as Hno.
    { intros m Hm Hu%underb_spec. assert (existsb (λ m, underb path (m_target m)) ms = true); [|congruence].
      apply existsb_elem. by exists m. }
    split; [|done]. intros q Hq. cbn [sim_fs f_files sw_files sw_mounts]. rewrite Hms. apply lookup_union_None. split.
    + apply map_lookup_filter_None. right. intros st _. simpl. apply underb_spec in Hq. by rewrite Hq.
    + apply mount_dirs_None. intros m Hm Ht. apply (Hno m Hm). by rewrite Ht.
Qed.

#[export] Instance node_sim_laws : FileSysLaws sim.
Proof.
  refine {| fs_of := sim_fs; canonical p := clean_path p = true; interrupts _ := 0%nat; attempts := 1%nat |}; try done.
  - intros p [? ?%String.eqb_eq]%andb_true_iff. done.
  - intros w. lia.
  - intros path w. cbn [unix_Stat node_sim_sys fst snd]. split; [done|]. by destruct (f_files (sim_fs w) !! path) eqn:E.
  - intros path mode dev w. cbn [unix_Mknod node_sim_sys]. destruct (f_files (sim_fs w) !! path); [done|].
    exists (mkStat mode dev 0). split_and!; [done|apply Z.land_diag|apply sim_insert].
  - intros path w. cbn [os_stat node_sim_os]. destruct (f_files (sim_fs w) !! path) as [st|] eqn:E; [|done].
    destruct (is_dirb st) eqn:Ed; exists st; (split; [done|]); unfold is_dir, is_dirb in *; [by apply Z.eqb_eq|by apply Z.eqb_neq].
  - intros path w. cbn [os_Remove node_sim_sys]. destruct (f_files (sim_fs w) !! path) as [st|] eqn:E; [|done].
    destruct (existsb _ _) eqn:Ex; [done|]. cbn [fst snd].
    assert (∀ m, m ∈ f_mounts (sim_fs w) → m_target m ≠ path) as Hno.
    { intros m Hm Ht. assert (existsb (λ m, String.eqb (m_target m) path) (f_mounts (sim_fs w)) = true); [|congruence].
      apply existsb_elem. exists m. by rewrite Ht, String.eqb_refl. }
    split_and!; [done|by apply sim_delete|done|done].
  - intros path mode w. cbn [os_MkdirAll node_sim_files]. destruct (f_files (sim_fs w) !! path) as [st|] eqn:E.
    + destruct (is_dirb st) eqn:Ed; (split; [done|]); [|done]. intros _. exists st. split; [done|]. by apply Z.eqb_eq.
    + cbn [fst snd]. rewrite sim_insert. split; [|intros _; exists dir_stat; split; [apply lookup_insert_eq|done]].
      split_and!; [done|done|]. by apply insert_subseteq.
  - intros path w. apply sim_emptied.
  - intros src tgt fstype opts w. cbn [FormatAndMount node_sim_sys].
    destruct (f_files (sim_fs w) !! src) as [st|] eqn:E; [|split_and!; [done|done|by left]].
    destruct (good_mount _ && negb (String.eqb fstype "")) eqn:Eg; cbn [fst snd]; [|split_and!; [done|done|by left]].
    apply andb_true_iff in Eg as [Hg Hf]. apply sim_mounted; [done|done|]. by destruct (String.eqb_spec fstype "").
  - intros tgt w. cbn [Unmount node_sim_sys]. destruct (drop_last _ _) eqn:E; [|done]. left. by apply sim_unmounted.
  - intros w data [= <-]. split; [done|]. apply Forall_forall. intros m Hm. by apply good_mount_ok, (good_mounts w).
  - by intros path w p _ [= <-].
  - intros w m Hm. apply (good_mounts w), good_mount_ok in Hm as (_ & Ha & Hc). unfold clean_path. by rewrite Ha, Hc, String.eqb_refl.
  - intros w m Hm. cbn [sim_fs f_files]. apply lookup_union_is_Some. right. apply mount_dirs_Some. by exists m.
  - intros dev w. unfold os_run, node_sim_os. rewrite String.eqb_refl. split; [done|]. intros st Hst. by apply sim_blkid_report.
  - intros dev w format st. cbn [GetDiskFormat node_sim_sys]. intros E Hst. rewrite Hst in E. injection E as <-. by left.
  - intros cmd args w Hc. unfold os_run, node_sim_os. destruct (String.eqb cmd blkidCmd); [done|].
    destruct (String.eqb cmd findmntCmd); [done|]. by destruct (os_run _ _ (sw_lvm w)).
Defined.
