(* ===== verification/CsiNodeTheorems.v ===== *)
(** * The CSI node service: volumes appear and go, data stays

    Publishing never touches a file system that is there already, and on
    success the volume, and no other device, is at the target.  Unpublishing
    keeps the contents of the volume if the mount table names its device; a
    theorem shows what happens to a cached volume when it does not. *)

From S2P Require Import Prelude GoStrings Api GoRuntime Mutx Exec Utils Config NodeService HostPath Kube.
From S2P Require Import LogicVolumeService CsiController LvmParse Lvmd Bcache Partition PartitionCorrect Volume.
From S2P Require Import PartitionTheorems LvmSpec LvmTools LvmSim Filesystem FilesystemCorrect CsiNode NodeSim.

Import nodeService.

#[local] Open Scope string_scope.
#[local] Open Scope list_scope.
#[local] Open Scope Z_scope.

(** ** What is left alone *)

(** Every file system there was, except those the paths [P] live on, is as it
    was. *)
Definition spared (P : string → Prop) (f f' : Fs) : Prop :=
  ∀ d, format_of f d ≠ "" → (∀ p, P p → ¬ hosts f d p) → f_disks f' !! d = f_disks f !! d.

Definition calm (P : string → Prop) (f f' : Fs) : Prop := f_mounts f' = f_mounts f ∧ spared P f f'.

Lemma calm_refl P f : calm P f f.
Proof. by split. Qed.

Lemma calm_eq P f f' : f' = f → calm P f f'.
Proof. intros ->. apply calm_refl. Qed.

Lemma hosts_mounts f f' d p : f_mounts f' = f_mounts f → hosts f' d p → hosts f d p.
Proof. unfold hosts. by intros ->. Qed.

Lemma format_of_disks f f' d : f_disks f' !! d = f_disks f !! d → format_of f' d = format_of f d.
Proof. unfold format_of. by intros ->. Qed.

Lemma spared_after P f f1 f2 : calm P f f1 → spared P f1 f2 → spared P f f2.
Proof.
  intros [Hm Hs] Hs2 d Hd Hp. rewrite <- (Hs d Hd Hp). apply Hs2.
  - by rewrite (format_of_disks f f1) by auto.
  - intros p HP Hh. apply (Hp p HP). by apply (hosts_mounts f f1).
Qed.

Lemma calm_trans P f f1 f2 : calm P f f1 → calm P f1 f2 → calm P f f2.
Proof. intros H1 [Hm Hs]. split; [rewrite Hm; apply H1|by eapply spared_after]. Qed.

Lemma spared_mono (P Q : string → Prop) f f' : (∀ p, P p → Q p) → spared P f f' → spared Q f f'.
Proof. intros HPQ Hs d Hd Hq. apply Hs; [done|]. intros p HP. by apply Hq, HPQ. Qed.

Lemma calm_mono (P Q : string → Prop) f f' : (∀ p, P p → Q p) → calm P f f' → calm Q f f'.
Proof. intros HPQ [Hm Hs]. split; [done|by eapply spared_mono]. Qed.

Lemma removed_calm p f f' : removed p f f' → calm (eq p) f f'.
Proof. intros ([Hm _] & _ & Hd & _). split; [done|]. intros d _ Hp. by apply Hd, Hp. Qed.

Lemma disks_calm P f f' : f_mounts f' = f_mounts f → f_disks f' = f_disks f → calm P f f'.
Proof. intros Hm Hd. split; [done|]. intros d _ _. by rewrite Hd. Qed.

Lemma set_file_calm P p st f : calm P f (set_file p st f).
Proof. by apply disks_calm. Qed.

Lemma made_calm P f f' : directories_made f f' → calm P f f'.
Proof. intros ([Hm _] & Hd & _). by apply disks_calm. Qed.

Lemma formatted_spared P src fstype f f' : maybe_formatted src fstype f f' → spared P f f'.
Proof. intros Hf d Hd _. destruct (Hf d) as [?|(_ & Hno & _)]; [done|]. by destruct Hd. Qed.

(** ** Device files *)

Section node.
Context {W : Type} `{OS W, Files W, FileSys W, DiskoMethods, Disko W, Udev W, UnixDev}.
Context `{!LvmTools W, !DiskoLaws W, !FileSysLaws W} `{GoRuntimeLaws}.
Context (fuel : nat) (Hfuel : (attempts ≤ fuel)%nat).

(** The block device with these numbers is at the path. *)
Definition device_at (f : Fs) (path : string) (major minor : Z) : Prop :=
  ∃ st, f_files f !! path = Some st ∧ right_device st major minor = true.

Lemma made_device path st major minor f :
  st_Rdev st = Mkdev major minor → Z.land (st_Mode st) devicePermission = devicePermission →
  device_at (set_file path st f) path major minor.
Proof.
  intros Hr Hm. exists st. split; [apply lookup_insert_eq|]. unfold right_device. by rewrite Hr, Hm, !Z.eqb_refl.
Qed.

(** A path that must hold the device: what is there in its place goes, then
    the device is made. *)
Lemma wp_ensure path major minor (make : M (Node W) (option error)) (e1 e2 : errno → option error)
    (Q : option error → Node W → Prop) n :
  (∀ e n', calm (eq path) (fs n) (fs n') → e ≠ None → Q e n') →
  (∀ n', fs n' = fs n → device_at (fs n') path major minor → Q None n') →
  (∀ n', calm (eq path) (fs n) (fs n') → wp make Q n') →
  (∀ e, e1 e ≠ None) → (∀ e, e2 e ≠ None) →
  wp (r ← Stat fuel path;
      match r with
      | inl st =>
          if right_device st major minor then mret None
          else
            err ← on_world (os_Remove path);
            match err with
            | Some e => mret (e1 e)
            | None => make
            end
      | inr ENOENT => make
      | inr e => mret (e2 e)
      end) Q n.
Proof.
  intros Herr Hdone Hmake He1 He2. apply wp_bind. eapply wp_mono; [by apply Stat_ok|].
  intros [st|[]] n1 [Hn1 Hst]; simpl in Hst; [|apply Hmake; by apply calm_eq|done|apply wp_ret, Herr; [by apply calm_eq|done]].
  destruct (right_device st major minor) eqn:Hr.
  { apply wp_ret, Hdone; [done|]. rewrite Hn1. by exists st. }
  apply wp_bind, wp_on_world. pose proof (os_Remove_law path (nd_world n1)) as Hrm.
  destruct (os_Remove path (nd_world n1)) as [[e|] w]; cbn [fst snd] in *.
  - apply wp_ret, Herr; [|done]. apply calm_eq. unfold fs. cbn [nd_world]. rewrite (proj1 Hrm). exact Hn1.
  - apply Hmake. apply removed_calm. unfold fs in *. cbn [nd_world]. by rewrite <- Hn1.
Qed.

(** Making it. *)
Lemma wp_make path major minor (e1 : errno → option error) (P : string → Prop) f n :
  calm P f (fs n) → (∀ e, e1 e ≠ None) →
  wp (r ← Mknod fuel path devicePermission (Mkdev major minor);
      match r with inr e => mret (e1 e) | inl _ => mret None end)
    (λ err n', calm P f (fs n') ∧ (err = None → device_at (fs n') path major minor)) n.
Proof.
  intros Hn He1. apply wp_bind. eapply wp_mono; [by apply Mknod_ok|]. intros [[]|e] n2 Hn2; apply wp_ret.
  - destruct Hn2 as (st & Hr & Hm & ->). split; [eapply calm_trans; [done|apply set_file_calm]|].
    intros _. by apply made_device.
  - rewrite Hn2. split; [done|]. intros He. by destruct (He1 e).
Qed.

Lemma createDevice_ok device major minor n :
  wp (createDeviceIfNeeded fuel device major minor) (λ err n', calm (eq device) (fs n) (fs n') ∧
    (err = None → device_at (fs n') device major minor)) n.
Proof.
  apply wp_ensure; try done.
  - intros n' Hn' Hd. split; [by apply calm_eq|done].
  - intros n' Hn'. by apply wp_make.
Qed.

Lemma publish_block_ok target major minor n :
  wp (publish_block fuel target major minor) (λ err n', calm (eq target) (fs n) (fs n') ∧
    (err = None → device_at (fs n') target major minor)) n.
Proof.
  apply wp_ensure; try done.
  - intros n' Hn' Hd. split; [by apply calm_eq|done].
  - intros n' Hn'. apply wp_bind, wp_file_op. destruct (os_MkdirAll_law (Dir target) perm_dir (nd_world n')) as [Hmk _].
    destruct (os_MkdirAll _ _ _) as [[e|] w]; cbn [fst snd] in *.
    + apply wp_ret. split; [eapply calm_trans; [done|by apply made_calm]|done].
    + apply wp_make; [|done]. eapply calm_trans; [done|by apply made_calm].
Qed.

(** ** File systems *)

Lemma prepare_target_ok volumeId device target fsType st n :
  f_files (fs n) !! device = Some st →
  wp (prepare_target volumeId device target fsType) (λ err n', directories_made (fs n) (fs n') ∧
    (err = None → format_of (fs n') (st_Rdev st) = "" ∨ format_of (fs n') (st_Rdev st) = fsType)) n.
Proof.
  intros Hst. unfold prepare_target. apply wp_bind, wp_file_op.
  destruct (os_MkdirAll_law target perm_dir (nd_world n)) as [Hmk _].
  destruct (os_MkdirAll _ _ _) as [[e|] w]; cbn [fst snd] in *; [by apply wp_ret|].
  set (n1 := mkNode _ _ w _). assert (directories_made (fs n) (fs n1)) as Hn1 by done.
  assert (f_files (fs n1) !! device = Some st) as Hst1.
  { destruct Hn1 as (_ & _ & Hsub). by eapply lookup_weaken. }
  apply wp_bind. eapply wp_mono; [by apply (DetectFilesystem_ok _ st)|].
  intros [found [e|]] n2 [Hn2 Hf]; [apply wp_ret; by rewrite Hn2|]. rewrite <- Hn2 in Hf.
  destruct (String.eqb_spec found "") as [->|Hne]; cbn [negb andb].
  { apply wp_ret. rewrite Hn2 in *. split; [done|]. intros _. left. by rewrite <- Hf. }
  destruct (String.eqb_spec found fsType) as [->|]; cbn [negb]; apply wp_ret; rewrite Hn2 in *; (split; [done|]); [|done].
  intros _. by right.
Qed.

(** The table grows by at most the mount of the device at the target. *)
Definition grown (device target : string) (dev : Z) (f f' : Fs) : Prop :=
  f_mounts f' = f_mounts f ∨
  ∃ m, f_mounts f' = f_mounts f ++ [m] ∧ m_src m = device ∧ m_target m = target ∧ m_dev m = dev.

(** The volume is mounted at the target: it was, or it is the new mount and
    has the file system [fsType]. *)
Definition fs_published (device target fsType : string) (dev : Z) (f f' : Fs) : Prop :=
  f_mounts f' = f_mounts f ∧ mounted_at f' device target ∨
  ∃ m, f_mounts f' = f_mounts f ++ [m] ∧ m_src m = device ∧ m_target m = target ∧ m_dev m = dev ∧ format_of f' dev = fsType.

Lemma mount_at_ok volumeId device target fsType options st n :
  canonical target → f_files (fs n) !! device = Some st →
  (format_of (fs n) (st_Rdev st) = "" ∨ format_of (fs n) (st_Rdev st) = fsType) →
  wp (mount_at fuel volumeId device target fsType options (mret None)) (λ err n',
    spared (λ _, False) (fs n) (fs n') ∧ grown device target (st_Rdev st) (fs n) (fs n') ∧
    (err = None → fs_published device target fsType (st_Rdev st) (fs n) (fs n') ∧
      (f_mounts (fs n') = f_mounts (fs n) → fs n' = fs n))) n.
Proof.
  intros Hcan Hst Hfmt. unfold mount_at. apply wp_bind. eapply wp_mono; [by apply IsMounted_ok|].
  assert (∀ n', fs n' = fs n → spared (λ _, False) (fs n) (fs n') ∧ grown device target (st_Rdev st) (fs n) (fs n')) as Hsame.
  { intros n' ->. split; [done|by left]. }
  intros [b [e|]] n1 [Hn1 Hb]; [by destruct b; apply wp_ret; split_and!; try apply Hsame|].
  destruct b.
  { apply wp_ret. destruct (Hsame n1 Hn1) as [? ?]. split_and!; [done|done|]. intros _. split; [|done].
    left. rewrite Hn1. split; [done|by apply Hb]. }
  apply wp_bind, wp_on_world. pose proof (FormatAndMount_law device target fsType options (nd_world n1)) as Hf.
  fold (fs n1) in Hf. rewrite Hn1 in Hf.
  destruct (FormatAndMount _ _ _ _ _) as [[e|] w]; cbn [fst snd] in *.
  { destruct Hf as ([Hm _] & Hfiles & Hd). apply wp_ret. split_and!; [by eapply formatted_spared|by left|done]. }
  destruct Hf as (Hd & _ & _ & st' & m & Hst' & Hsrc & Htgt & Hdev & Hm & Hne).
  rewrite Hst in Hst'. injection Hst' as <-.
  apply wp_bind, wp_file_op. cbn [nd_world nd_locks nd_parts nd_trace].
  destruct (os_Chmod_law target perm_setgid w) as ([Hm2 _] & Hd2 & _).
  destruct (os_Chmod target perm_setgid w) as [e w2]; cbn [fst snd] in *.
  set (n2 := mkNode _ _ w2 _). assert (f_mounts (fs n2) = f_mounts (fs n) ++ [m]) as Hm3 by (rewrite <- Hm; exact Hm2).
  assert (∀ d, f_disks (fs n2) !! d = f_disks (fs_of w) !! d) as Hd3 by (intros d; by rewrite <- Hd2).
  assert (spared (λ _, False) (fs n) (fs n2)) as Hsp.
  { intros d Hne' Hp. rewrite Hd3. by apply (formatted_spared (λ _, False) device fsType (fs n) (fs_of w) Hd). }
  assert (grown device target (st_Rdev st) (fs n) (fs n2)) as Hg by (right; by exists m).
  destruct e as [e|]; apply wp_ret; (split_and!; [done|done|]); [done|]. intros _. split.
  - right. exists m. split_and!; try done. rewrite (format_of_disks (fs_of w) (fs n2)) by apply Hd3.
    destruct (Hd (st_Rdev st)) as [Heq|(_ & _ & ?)]; [|done]. apply format_of_disks in Heq. rewrite Heq in *.
    by destruct Hfmt.
  - rewrite Hm3. intros Happ. apply (f_equal length) in Happ. rewrite length_app in Happ. simpl in Happ. lia.
Qed.

(** What a publisher achieves for the volume with that device and numbers. *)
Definition published (acc : access) (target device : string) (major minor : Z) (f f' : Fs) : Prop :=
  match acc with
  | Block => f_mounts f' = f_mounts f ∧ device_at f' target major minor
  | Mount FsType _ =>
      fs_published device target (default_fs FsType) (Mkdev major minor) f f' ∧
      (f_mounts f' = f_mounts f → device_at f' device major minor)
  | NoAccess => False
  end.

Definition publish_outcome (acc : access) (target device : string) (major minor : Z) (f : Fs) (err : option error) (f' : Fs) : Prop :=
  spared (λ p, p = target ∨ p = device) f f' ∧ grown device target (Mkdev major minor) f f' ∧
  (err = None → published acc target device major minor f f').

Lemma outcome_error acc target device major minor f e f' :
  calm (λ p, p = target ∨ p = device) f f' → publish_outcome acc target device major minor f (Some e) f'.
Proof. intros [Hm Hs]. split_and!; [done|by left|done]. Qed.

Lemma block_outcome target device major minor f err n' :
  calm (eq target) f (fs n') → (err = None → device_at (fs n') target major minor) →
  publish_outcome Block target device major minor f err (fs n').
Proof.
  intros Hc Hd. split_and!.
  - eapply spared_mono; [|apply Hc]. by intros p <-; left.
  - left. apply Hc.
  - intros He. split; [apply Hc|by apply Hd].
Qed.

(** From the device file to the mount. *)
Lemma mount_volume_ok volumeId device target FsType flags readonly major minor (g : list string → list string) f n :
  canonical target → calm (eq device) f (fs n) → device_at (fs n) device major minor →
  wp (match mount_options readonly flags with
      | inr e => mret (Some e)
      | inl options =>
          err ← prepare_target volumeId device target (default_fs FsType);
          match err with
          | Some e => mret (Some e)
          | None => mount_at fuel volumeId device target (default_fs FsType) (g options) (mret None)
          end
      end) (λ err n', publish_outcome (Mount FsType flags) target device major minor f err (fs n')) n.
Proof.
  intros Hcan Hc (st & Hst & Hr).
  assert (st_Rdev st = Mkdev major minor) as Hdev.
  { unfold right_device in Hr. apply andb_true_iff in Hr as [Hr _]. by apply Z.eqb_eq. }
  assert (∀ n', calm (eq device) f (fs n') → calm (λ p, p = target ∨ p = device) f (fs n')) as Hw.
  { intros n' Hn'. eapply calm_mono; [|done]. by intros p <-; right. }
  destruct (mount_options readonly flags) as [options|e]; [|apply wp_ret, outcome_error; auto].
  apply wp_bind. eapply wp_mono; [by apply (prepare_target_ok _ _ _ _ st)|]. intros err n1 [Hmk Hfmt].
  assert (calm (eq device) f (fs n1)) as Hc1 by (eapply calm_trans; [done|by apply made_calm]).
  destruct err as [e|]; [apply wp_ret, outcome_error; auto|].
  assert (f_files (fs n1) !! device = Some st) as Hst1.
  { destruct Hmk as (_ & _ & Hsub). by eapply lookup_weaken. }
  eapply wp_mono; [apply (mount_at_ok _ _ _ _ _ st); [done|done|by apply Hfmt]|]. rewrite Hdev.
  intros err n2 (Hsp & Hg & Hok). destruct Hc1 as [Hm1 Hs1]. split_and!.
  - eapply (spared_after _ _ (fs n1)); [apply Hw; by split|]. by eapply spared_mono; [|done].
  - unfold grown in *. by rewrite <- Hm1.
  - intros He. destruct (Hok He) as [Hp Hsame]. unfold published, fs_published in *. rewrite <- Hm1. split; [done|].
    intros Hm2. rewrite (Hsame Hm2). by exists st.
Qed.

Lemma lvm_fs_ok req FsType flags mode lv n : canonical (np_TargetPath req) →
  wp (nodePublishLvmFilesystemVolume fuel req FsType flags mode lv) (λ err n',
    publish_outcome (Mount FsType flags) (np_TargetPath req) (Join2 DeviceDirectory (np_VolumeId req))
      (lvi_LVKernelMajor lv) (lvi_LVKernelMinor lv) (fs n) err (fs n')) n.
Proof.
  intros Hcan. unfold nodePublishLvmFilesystemVolume. cbv zeta.
  destruct (unsupported_mode mode); [apply wp_ret, outcome_error, calm_refl|].
  apply wp_bind. eapply wp_mono; [apply createDevice_ok|]. intros [e|] n1 [Hc Hd].
  { apply wp_ret, outcome_error. eapply calm_mono; [|done]. by intros p <-; right. }
  apply (mount_volume_ok _ _ _ _ _ _ _ _ (λ options, if String.eqb (default_fs FsType) "xfs" then options ++ ["nouuid"] else options));
    [done|done|by apply Hd].
Qed.

Lemma raw_fs_ok req FsType flags mode disk part major minor n props : canonical (np_TargetPath req) →
  let device := GetPartitionKname (dd_Path disk) (p_Number part) in
  GetUdevInfo device (nd_world n) = (props, None) →
  major = udev_number props "MAJOR" → minor = udev_number props "MINOR" →
  wp (nodePublishRawFilesystemVolume fuel req FsType flags mode disk part) (λ err n',
    publish_outcome (Mount FsType flags) (np_TargetPath req) device major minor (fs n) err (fs n')) n.
Proof.
  intros Hcan device Hu -> ->. unfold nodePublishRawFilesystemVolume. cbv zeta. fold device.
  destruct (unsupported_mode mode); [apply wp_ret, outcome_error, calm_refl|].
  unfold partition_numbers. apply wp_bind, wp_bind, wp_of_world. rewrite Hu. apply wp_ret.
  apply wp_bind. eapply wp_mono; [apply createDevice_ok|]. intros [e|] n1 [Hc Hd].
  { apply wp_ret, outcome_error. eapply calm_mono; [|done]. by intros p <-; right. }
  apply (mount_volume_ok _ _ _ _ _ _ _ _ (λ options, options)); [done|done|by apply Hd].
Qed.
(** ** Taking a volume away *)

(** At most one mount is at or below the target: that of the device, by its
    name. *)
Definition tidy (device target : string) (f : Fs) : Prop :=
  (∀ m, m ∈ f_mounts f → ¬ under target (m_target m)) ∨
  ∃ l1 m l2, f_mounts f = l1 ++ m :: l2 ∧ m_target m = target ∧ m_src m = device ∧
    ∀ m', m' ∈ l1 ++ l2 → ¬ under target (m_target m').

(** The mount table without the target. *)
Definition without (target : string) (f : Fs) : list mount := filter (λ m, m_target m ≠ target) (f_mounts f).

(** The device is mounted on the way to [p], and not just at the target. *)
Definition elsewhere (f : Fs) (d : Z) (target p : string) : Prop :=
  ∃ m, m ∈ f_mounts f ∧ m_dev m = d ∧ above (m_target m) p ∧ m_target m ≠ target.

(** The contents of every device are kept, except of those the two paths live
    on; a device that is only mounted at the target is not one of them. *)
Definition data_kept (target device : string) (f f' : Fs) : Prop :=
  ∀ d, ¬ elsewhere f d target target → ¬ elsewhere f d target device → f_disks f' !! d = f_disks f !! d.

Lemma without_all target f : (∀ m, m ∈ f_mounts f → m_target m ≠ target) → without target f = f_mounts f.
Proof. intros Hm. apply filter_all. by apply Forall_forall. Qed.

Lemma under_refl p : under p p.
Proof. by left. Qed.

(** What is left when the target is unmounted. *)
Definition cleared (target : string) (f f' : Fs) : Prop :=
  f_mounts f' = without target f ∧ f_disks f' = f_disks f ∧ (∀ m, m ∈ f_mounts f' → ¬ under target (m_target m)).

Lemma tidy_free device target f : tidy device target f → ¬ mounted_at f device target → cleared target f f.
Proof.
  intros [Hfree|(l1 & m & l2 & Hm & Ht & Hsrc & _)] Hno.
  - split_and!; [|done|done]. rewrite without_all; [done|]. intros m Hm Ht. apply (Hfree m Hm). rewrite Ht. apply under_refl.
  - destruct Hno. exists m. rewrite Hm. split; [set_solver|]. split; [done|]. by left.
Qed.

Lemma tidy_unmounted device target f f' : tidy device target f → unmounted target f f' → cleared target f f'.
Proof.
  intros Htidy (Hd & _ & _ & ms1 & m & ms2 & Hm & Ht & Hlast & Hm').
  destruct Htidy as [Hfree|(l1 & m0 & l2 & Hm0 & Ht0 & _ & Hrest)].
  { destruct (Hfree m); [rewrite Hm; set_solver|rewrite Ht; apply under_refl]. }
  assert (∀ m', m' ∈ l1 ++ l2 → m_target m' ≠ target) as Hne.
  { intros m' Hin Heq. apply (Hrest m' Hin). rewrite Heq. apply under_refl. }
  assert (filter (λ m, m_target m ≠ target) (l1 ++ l2) = l1 ++ l2) as Hall by (apply filter_all; by apply Forall_forall).
  assert (without target f = l1 ++ l2) as Hw.
  { unfold without. rewrite Hm0, filter_app, filter_cons_False by (intros []; congruence). by rewrite <- filter_app. }
  assert (ms1 ++ ms2 = l1 ++ l2) as Heq.
  { assert (length (ms1 ++ ms2) = length (l1 ++ l2)) as Hlen.
    { rewrite !length_app. pose proof (f_equal length (eq_trans (eq_sym Hm) Hm0)) as Hl. rewrite !length_app in Hl. simpl in Hl. lia. }
    pose proof (f_equal (filter (λ m, m_target m ≠ target)) (eq_trans (eq_sym Hm) Hm0)) as Hf.
    rewrite !filter_app, !filter_cons_False, <- !filter_app, Hall in Hf by (intros []; congruence).
    rewrite <- Hf. symmetry. apply filter_all, Forall_forall. intros x Hx Htx.
    assert (x ∈ ms1 ++ ms2 → length (filter (λ m, m_target m ≠ target) (ms1 ++ ms2)) < length (ms1 ++ ms2))%nat as Hlt.
    { intros _. apply length_filter_lt with x; [done|]. intros []. by apply Htx. }
    rewrite Hf in Hlt. specialize (Hlt Hx). lia. }
  split_and!; [by rewrite Hm', Hw|done|]. intros m' Hin. apply Hrest. by rewrite <- Heq, <- Hm'.
Qed.

(** Removing what is left of the target. *)
Lemma cleared_emptied target device f f1 f2 :
  cleared target f f1 → emptied target f1 f2 → f_mounts f2 = without target f ∧ data_kept target device f f2.
Proof.
  intros (Hm & Hd & Hfree) ([Hm2 _] & _ & Hd2). split; [by rewrite Hm2|]. intros d Hno _. rewrite <- Hd. apply Hd2.
  - intros (m & Hin & Hdev & Hab). apply Hno. exists m. rewrite Hm in Hin. apply list_elem_of_filter in Hin as [? ?]. done.
  - intros (m & Hin & _ & Hu). by apply (Hfree m).
Qed.

Lemma kept_removed target device f f1 f2 :
  f_mounts f1 = without target f → data_kept target device f f1 → removed device f1 f2 → data_kept target device f f2.
Proof.
  intros Hm Hk (_ & _ & Hd & _) d Ht Hv. rewrite <- (Hk d Ht Hv). apply Hd. intros (m & Hin & Hdev & Hab).
  apply Hv. exists m. rewrite Hm in Hin. apply list_elem_of_filter in Hin as [? ?]. done.
Qed.

(** What unpublishing a volume achieves. *)
Definition unpublish_outcome (device target : string) (f : Fs) (err : option error) (f' : Fs) : Prop :=
  data_kept target device f f' ∧ (f_mounts f' = f_mounts f ∨ f_mounts f' = without target f) ∧
  (err = None → f_mounts f' = without target f ∧ f_files f' !! target = None).

Lemma unpublish_nothing device target f e f' : f' = f → unpublish_outcome device target f (Some e) f'.
Proof. intros ->. split_and!; [done|by left|done]. Qed.

Lemma clear_target_ok device target (k : M (Node W) (option error)) n :
  canonical target → tidy device target (fs n) →
  (∀ n', f_mounts (fs n') = without target (fs n) → data_kept target device (fs n) (fs n') →
    f_files (fs n') !! target = None → wp k (λ err n', unpublish_outcome device target (fs n) err (fs n')) n') →
  wp (clear_target fuel device target k) (λ err n', unpublish_outcome device target (fs n) err (fs n')) n.
Proof.
  intros Hcan Htidy Hk. unfold clear_target. apply wp_bind. eapply wp_mono; [by apply IsMounted_ok|].
  intros [b [e|]] n1 [Hn1 Hb]; [by apply wp_ret, unpublish_nothing|].
  apply wp_bind, (wp_mono _ (λ err n2, match err with
    | Some e => unpublish_outcome device target (fs n) err (fs n2)
    | None => cleared target (fs n) (fs n2) end)).
  { destruct b.
    - apply wp_on_world. pose proof (Unmount_law target (nd_world n1)) as Hu. fold (fs n1) in Hu. rewrite Hn1 in Hu.
      destruct (Unmount target (nd_world n1)) as [[e|] w]; cbn [fst snd] in *; [by apply unpublish_nothing|].
      destruct Hu as [Hu|[_ Hno]]; [by eapply tidy_unmounted|].
      destruct (proj1 Hb eq_refl) as (m & Hm & Ht & _). by destruct (Hno m Hm).
    - apply wp_ret. rewrite Hn1. apply (tidy_free device); [done|]. by intros ?%Hb. }
  intros [e|] n2 Hc; [apply wp_ret; by destruct Hc as (? & ? & _)|]. apply wp_bind, wp_file_op.
  destruct (os_RemoveAll_law target (nd_world n2)) as [Hem Hgone].
  destruct (os_RemoveAll target (nd_world n2)) as [[e|] w]; cbn [fst snd] in *;
    destruct (cleared_emptied target device (fs n) (fs n2) (fs_of w) Hc Hem) as [Hm Hd].
  - apply wp_ret. split_and!; [done|by right|done].
  - apply Hk; [done|done|]. apply (Hgone eq_refl). apply under_refl.
Qed.

Lemma unpublish_fs_ok req device deviceType n :
  canonical (nu_TargetPath req) → tidy device (nu_TargetPath req) (fs n) →
  wp (nodeUnpublishFilesystemVolume fuel req device deviceType) (λ err n',
    unpublish_outcome device (nu_TargetPath req) (fs n) err (fs n')) n.
Proof.
  intros Hcan Htidy. apply clear_target_ok; [done|done|]. intros n1 Hm Hd Hgone.
  assert (∀ n2 err, fs n2 = fs n1 → unpublish_outcome device (nu_TargetPath req) (fs n) err (fs n2)) as Hdone.
  { intros n2 err ->. split_and!; [done|by right|done]. }
  destruct (String.eqb deviceType RawVolumeType); [by apply wp_ret, Hdone|].
  apply wp_bind, wp_on_world. pose proof (os_Remove_law device (nd_world n1)) as Hr.
  destruct (os_Remove device (nd_world n1)) as [[e|] w]; cbn [fst snd] in *.
  - destruct Hr as [Hw _]. destruct e; by apply wp_ret, Hdone.
  - apply wp_ret. split_and!; [by eapply kept_removed|right|intros _; split].
    + destruct Hr as ([Hm2 _] & _). by rewrite <- Hm.
    + destruct Hr as ([Hm2 _] & _). by rewrite <- Hm.
    + destruct Hr as (_ & Hf & _). unfold fs. cbn [nd_world]. rewrite Hf. by apply lookup_delete_None; right.
Qed.

Lemma unpublish_block_ok req device n :
  wp (nodeUnpublishBlockVolume req device) (λ err n', unpublish_outcome device (nu_TargetPath req) (fs n) err (fs n')) n.
Proof.
  unfold nodeUnpublishBlockVolume. apply wp_bind, wp_on_world. pose proof (os_Remove_law (nu_TargetPath req) (nd_world n)) as Hr.
  destruct (os_Remove _ (nd_world n)) as [[e|] w]; cbn [fst snd] in *; apply wp_ret.
  { apply unpublish_nothing. by apply Hr. }
  destruct Hr as ([Hm _] & Hf & Hd & Hno). assert (f_mounts (fs_of w) = without (nu_TargetPath req) (fs n)) as Hw.
  { rewrite without_all; [exact Hm|exact Hno]. }
  split_and!; [|by right|intros _; split; [done|unfold fs; cbn [nd_world]; rewrite Hf; apply lookup_delete_eq]].
  intros d Ht _. apply Hd. intros (m & Hin & Hdev & Hab). apply Ht. exists m. split_and!; try done. by apply Hno.
Qed.

(** No group of the configuration has the volume as a cached device. *)
Definition not_cached (cfg : Settings) (f : Fs) (id : string) : Prop :=
  ∀ g, g ∈ cache_groups cfg → Join2 ("/dev/" +:+ g) id ∉ f_bcache f.

Lemma getBcacheDevice_plain cfg id n : not_cached cfg (fs n) id →
  wp (getBcacheDevice cfg id) (λ r n', fs n' = fs n ∧ ∃ e, r = (None, Some e)) n.
Proof.
  intros Hno. unfold getBcacheDevice. apply wp_bind.
  eapply wp_mono; [apply (wp_range _ _ _ (λ rest _ n', fs n' = fs n ∧ ∀ g, g ∈ rest → g ∈ cache_groups cfg)
    (λ r n', fs n' = fs n ∧ match r with inl _ => True | inr (_, Some _) => True | inr (_, None) => False end))|].
  - done.
  - intros g rest _ n1 [Hn1 Hin]. apply wp_bind, wp_of_world.
    destruct (os_Stat _ _); [|apply wp_ret; split; [done|]; intros; apply Hin; by right].
    apply wp_bind. unfold LocalVolumeImplement.BcacheDeviceInfo. apply wp_bind. cbn [ShowDevice Bcache_Node].
    unfold BcacheImplement.ShowDevice. apply wp_bind, wp_ExecuteCommandWithOutput.
    pose proof (reports_law "bcache-super-show" ["-f"; Join2 ("/dev/" +:+ g) id] (nd_world n1) ltac:(unfold reports; set_solver)) as Hr.
    pose proof (supershow_law (Join2 ("/dev/" +:+ g) id) (nd_world n1)) as Hs. fold (fs n1) in Hs. rewrite Hn1 in Hs.
    destruct (os_run _ _ _) as [r w]. cbn [fst snd] in *. unfold runCommandWithOutput.
    destruct (pr_end r); cbn [proc_error]; [|apply wp_ret, wp_ret, wp_ret; by rewrite <- Hn1..].
    destruct (Hno g); [apply Hin; by left|by apply Hs].
  - intros _ n1 [Hn1 _]. done.
  - intros [_|[b [e|]]] n1 [Hn1 Hr]; [apply wp_ret; eauto..|done].
Qed.

Lemma unpublish_device_ok cfg req device deviceType n :
  canonical (nu_TargetPath req) → tidy device (nu_TargetPath req) (fs n) → not_cached cfg (fs n) (nu_VolumeId req) →
  wp (unpublish_device fuel cfg req device deviceType) (λ err n',
    unpublish_outcome device (nu_TargetPath req) (fs n) err (fs n')) n.
Proof.
  intros Hcan Htidy Hno. unfold unpublish_device. apply wp_bind. eapply wp_mono; [by apply getBcacheDevice_plain|].
  intros r n1 [Hn1 [e ->]]. cbv zeta. apply wp_bind, wp_of_world. cbn [String.eqb negb].
  pose proof (os_stat_law (nu_TargetPath req) (nd_world n1)) as Hs. fold (fs n1) in Hs. rewrite Hn1 in Hs.
  destruct (os_stat (nu_TargetPath req) (nd_world n1)).
  - assert (without (nu_TargetPath req) (fs n) = f_mounts (fs n)) as Hw.
    { apply without_all. intros m Hm Ht. rewrite <- Ht in Hs. rewrite <- Hn1 in Hm, Hs.
      destruct (mounts_exist (nd_world n1) m Hm) as [st Hst]. unfold fs in Hs. congruence. }
    assert (∀ n2, fs n2 = fs n → unpublish_outcome device (nu_TargetPath req) (fs n) None (fs n2)) as Hdone.
    { intros n2 ->. split_and!; [done|by left|by rewrite Hw]. }
    apply wp_bind, wp_ret, wp_bind. destruct (negb _); [|by apply wp_ret, wp_ret, Hdone].
    apply wp_bind, wp_on_world. pose proof (os_Remove_law device (nd_world n1)) as Hr.
    destruct (os_Remove device (nd_world n1)) as [[e'|] w]; cbn [fst snd] in *; apply wp_ret, wp_ret.
    + apply Hdone. unfold fs. cbn [nd_world]. by rewrite (proj1 Hr).
    + fold (fs n1) in Hr. rewrite Hn1 in Hr. destruct (Hr) as ([Hm _] & Hf & _). split_and!.
      * eapply kept_removed; [|by intros d _ _|exact Hr]. done.
      * left. exact Hm.
      * intros _. rewrite Hw. split; [exact Hm|]. unfold fs. cbn [nd_world]. rewrite Hf. by apply lookup_delete_None; right.
  - apply wp_ret. by apply unpublish_nothing.
  - rewrite <- Hn1. apply unpublish_block_ok.
  - rewrite <- Hn1 in *. by apply unpublish_fs_ok.
  - rewrite <- Hn1. apply unpublish_block_ok.
Qed.

(** *** A device that is not the one of the table *)

(** Looking at the files [f] works. *)
Definition readable (f : Fs) (target : string) : Prop :=
  ∀ w, fs_of w = f → os_stat target w = StatDir ∧ (EvalSymlinks target w).2 = None ∧ (read_mounts w).2 = None ∧
    ∀ p msg, (unix_Stat p w).1 ≠ inr (Errno msg).

Section readable.
Context (f : Fs) (device target : string) (Hf : readable f target).
Context (Hother : ∀ m, m ∈ f_mounts f → ¬ same_device f device (m_src m)).

Lemma Stat_readable path n : fs n = f → wp (Stat fuel path) (λ r n', fs n' = f ∧ ∀ e, r = inr e → e = ENOENT) n.
Proof.
  intros Hn. apply (wp_retry _ (λ w, fs_of w = f)); [done|done|]. intros w l p t Hw.
  destruct (unix_Stat_law path w) as [Hk Hr]. destruct (Hf w Hw) as (_ & _ & _ & He). specialize (He path).
  destruct (unix_Stat path w) as [[st|[]] w']; cbn [fst snd] in *.
  - by rewrite <- Hw.
  - split; [by rewrite <- Hw|]. by intros e [= <-].
  - split; [congruence|done].
  - by edestruct He.
Qed.

Lemma other_device m n : fs n = f → m ∈ f_mounts f →
  wp (isSameDevice fuel device (m_src m)) (λ r n', fs n' = f ∧ r = (false, None)) n.
Proof.
  intros Hn Hm. assert (wp (isSameDevice fuel device (m_src m)) (λ r n', r.2 = None) n) as Hnone.
  { unfold isSameDevice. destruct (String.eqb _ _); [done|]. apply wp_bind. eapply wp_mono; [by eapply Stat_readable|].
    intros [st|e] n1 [Hn1 He]; [|by rewrite (He e eq_refl)].
    apply wp_bind. eapply wp_mono; [by eapply Stat_readable|]. intros [st2|e] n2 [Hn2 He2]; [done|by rewrite (He2 e eq_refl)]. }
  eapply wp_mono; [apply wp_and; [exact Hnone|by apply isSameDevice_ok]|].
  intros [b [e|]] n1 [Hr [Hn1 Hb]]; simpl in Hr; [done|]. rewrite Hn in *. split; [done|].
  destruct b; [|done]. by destruct (Hother m Hm); apply Hb.
Qed.

Lemma not_mounted n : canonical target → fs n = f →
  wp (IsMounted fuel device target) (λ r n', fs n' = f ∧ r = (false, None)) n.
Proof.
  intros Hcan Hn. destruct (canonical_clean _ Hcan) as [Habs Hclean]. unfold IsMounted, Abs. apply wp_bind, wp_of_world.
  rewrite Habs, Hclean. apply wp_bind, wp_of_world. destruct (Hf (nd_world n) Hn) as (_ & He & Hr & _).
  destruct (EvalSymlinks target (nd_world n)) as [d [e|]] eqn:Ed; simpl in He; [done|].
  apply EvalSymlinks_law in Ed as ->; [|done]. apply wp_bind, wp_of_world.
  destruct (read_mounts (nd_world n)) as [data [e|]] eqn:Er; simpl in Hr; [done|].
  apply read_mounts_law in Er as [-> Hwf]. fold (fs n) in *. rewrite mount_table_lines, Hn in * by done.
  apply wp_bind. eapply wp_mono; [apply (wp_range _ _ _
    (λ rest _ n', fs n' = f ∧ ∀ l, l ∈ rest → l = "" ∨ ∃ m, m ∈ f_mounts f ∧ l = mount_line m)
    (λ r n', fs n' = f ∧ r = inl ()))|].
  - split; [done|]. intros l [(m & -> & Hm)%list_elem_of_fmap|Hl]%elem_of_app; [right; eauto|left; set_solver].
  - intros l rest _ n1 [Hn1 Hl]. destruct (Hl l) as [->|(m & Hm & ->)]; [by left| |].
    { apply wp_ret. split; [done|]. intros; apply Hl; by right. }
    unfold check_line. destruct (Fields_mount_line m) as [r ->]; [by eapply Forall_forall in Hwf|].
    apply wp_bind. eapply wp_mono; [by apply other_device|]. intros ? n2 [Hn2 ->]. apply wp_ret. split; [done|].
    intros; apply Hl; by right.
  - by intros [] n1 [Hn1 _].
  - intros r n1 [Hn1 ->]. by apply wp_ret.
Qed.

(** What is mounted at the target is not unmounted, but removed. *)
Lemma unpublish_removes cfg req deviceType k (m : mount) n :
  canonical target → fs n = f → nu_TargetPath req = target → not_cached cfg f (nu_VolumeId req) →
  m ∈ f_mounts f → m_target m = target →
  (∀ w, fs_of w = f → f_disks (fs_of (os_RemoveAll target w).2) !! m_dev m = Some k) →
  wp (unpublish_device fuel cfg req device deviceType) (λ err n', err ≠ None ∧ f_disks (fs n') !! m_dev m = Some k) n.
Proof.
  intros Hcan Hn Ht Hno Hm Hmt Hrm. unfold unpublish_device. rewrite Ht. apply wp_bind.
  eapply wp_mono; [apply getBcacheDevice_plain; by rewrite Hn|]. intros r n1 [Hn1 [e ->]]. cbv zeta. rewrite Hn in Hn1.
  apply wp_bind, wp_of_world. destruct (Hf (nd_world n1) Hn1) as (-> & _). cbn [String.eqb negb].
  unfold nodeUnpublishFilesystemVolume, clear_target. rewrite Ht. apply wp_bind. eapply wp_mono; [by apply not_mounted|].
  intros ? n2 [Hn2 ->]. apply wp_bind, wp_ret, wp_bind, wp_file_op.
  destruct (os_RemoveAll_law target (nd_world n2)) as [_ Hgone]. specialize (Hrm (nd_world n2) Hn2).
  destruct (os_RemoveAll target (nd_world n2)) as [[e'|] w]; cbn [fst snd] in *; [by apply wp_ret|].
  destruct (Hgone eq_refl) as [_ Hfree]. fold (fs n2) in Hfree. rewrite Hn2 in Hfree. destruct (Hfree m Hm). by left.
Qed.
End readable.
End node.

(** ** The service *)

Section service.
Context {W K : Type} `{OS W, Files W, FileSys W, DiskoMethods, Disko W, Udev W, UnixDev}.
Context `{!LvmTools W, !DiskoLaws W, !FileSysLaws W} `{GoRuntimeLaws} `{KubeLaws K}.
Context (fuel : nat) (Hfuel : (attempts ≤ fuel)%nat) (cfg : Settings).

Abbreviation Svc := (NodeSvc W K).

Lemma wp_on_node {A} (m : M (Node W) A) (Q : A → Svc → Prop) s :
  wp m (λ a n, Q a (mkSvc (sv_mutex s) n (sv_kube s))) (sv_node s) → wp (on_node m) Q s.
Proof. unfold wp, on_node. by destruct (m (sv_node s)) as [[] ?]. Qed.

Lemma wp_on_kube {A} (m : M K A) (Q : A → Svc → Prop) s :
  wp m (λ a k, Q a (mkSvc (sv_mutex s) (sv_node s) k)) (sv_kube s) → wp (on_kube m) Q s.
Proof. unfold wp, on_kube. by destruct (m (sv_kube s)) as [[] ?]. Qed.

(** The objects the client answers with: the group of a volume is the name of
    a volume group, or names a disk after a slash. *)
Definition good_object (lvr : LogicVolume) : Prop :=
  let group := ls_DeviceGroup (lv_Spec lvr) in
  (volume_type lvr = LvmVolumeType → group ≠ "" ∧ valid_name group) ∧
  (volume_type lvr = RawVolumeType → ∃ a dev rest, Split group "/" = a :: dev :: rest) ∧
  volume_type lvr ≠ HostVolumeType.

(** The object a lookup of the volume id returns, from the cache or, in the
    fallback, the last of the list; all of them satisfy [G]. *)
Definition answers (v : View) (id : string) (lvr : LogicVolume) : Prop :=
  vw_cache_by_id v id = ([lvr], None) ∨ ∃ items, vw_api_lvs v = (items, None) ∧ last items = Some lvr.

Definition objects_are (G : LogicVolume → Prop) (id : string) : Prop :=
  ∀ (k k' : K) v lvr, look k = (Done v, k') → answers v id lvr → G lvr.

Lemma wp_look_objects G id (k : K) : objects_are G id →
  wp look (λ v k', calls k' = calls k ∧ ∀ lvr, answers v id lvr → G lvr) k.
Proof.
  intros Hg. apply wp_exists. destruct (proj1 (wp_exists _ _ _) (look_law k)) as (v & k' & E & Hc & _).
  exists v, k'. split; [done|]. split; [done|]. intros lvr. by apply (Hg k k' v).
Qed.

Lemma find_lv_ok G id (s : Svc) : objects_are G id →
  wp (find_lv id) (λ r s', sv_node s' = sv_node s ∧ sv_mutex s' = sv_mutex s ∧ calls (sv_kube s') = calls (sv_kube s) ∧
    match r with (Some lvr, None) => G lvr | (None, None) => False | (_, Some _) => True end) s.
Proof.
  intros Hg. apply wp_on_kube. unfold LogicVolumeService.GetLogicVolumeByVolumeId. apply wp_bind.
  eapply wp_mono; [by apply wp_look_objects|]. intros v k1 [Hc1 Hv1]. unfold answers in Hv1.
  destruct (vw_cache_by_id v id) as [l [e|]] eqn:Ec; [by destruct l as [|? [|? ?]]; apply wp_ret|].
  destruct l as [|lvr [|? ?]]; [|apply wp_ret; split_and!; [done..|apply Hv1; by left]|by apply wp_ret].
  apply wp_bind. eapply wp_mono; [by apply wp_look_objects|]. intros v2 k2 [Hc2 Hv2]. rewrite Hc1 in Hc2. unfold answers in Hv2.
  destruct (vw_api_lvs v2) as [items [e|]]; [by apply wp_ret|]. cbv zeta.
  destruct (length _); [by apply wp_ret|]. destruct (1 <? S _)%nat; [by apply wp_ret|].
  destruct (last items) as [lvr|] eqn:El; apply wp_ret; split_and!; try done.
  apply Hv2. right. by exists items.
Qed.

(** *** Which device a volume is *)

(** The device and the numbers of the volume [id] with the object [lvr]. *)
Inductive backed (n : Node W) (lvr : LogicVolume) (id : string) : string → Z → Z → Prop :=
| backed_lvm lv :
    volume_type lvr = LvmVolumeType →
    l_lvs (lvm_of (nd_world n)) !! (ls_DeviceGroup (lv_Spec lvr), id) = Some lv →
    backed n lvr id (Join2 DeviceDirectory id) (lvi_LVKernelMajor lv) (lvi_LVKernelMinor lv)
| backed_raw a dev rest disk number part w props :
    volume_type lvr = RawVolumeType →
    Split (ls_DeviceGroup (lv_Spec lvr)) "/" = a :: dev :: rest →
    disks_of n !! ("/dev/" +:+ dev) = Some disk →
    dd_Partitions disk !! number = Some part → p_Name part = PartitionName id →
    GetUdevInfo (GetPartitionKname (dd_Path disk) (p_Number part)) w = (props, None) →
    backed n lvr id (GetPartitionKname (dd_Path disk) (p_Number part))
      (udev_number props "MAJOR") (udev_number props "MINOR").

Lemma kept_LVS name : files_kept (Lvm2Implement.LVS name).
Proof.
  unfold Lvm2Implement.LVS, ExecuteCommandWithOutput. cbv zeta. apply kept_bind.
  - apply kept_bind; [apply kept_spawn; set_solver|intros; apply kept_ret].
  - intros [out [e|]]; [by destruct (Contains _ _)|]. by apply kept_bind.
Qed.

Lemma getLvFromContext_ok group id n :
  wf_lvm (lvm_of (nd_world n)) → group ≠ "" → id ≠ "" → valid_name group → valid_name id →
  wp (getLvFromContext group id) (λ r n', fs n' = fs n ∧
    match r with
    | (Some lv, None) => l_lvs (lvm_of (nd_world n)) !! (group, id) = Some lv
    | _ => True
    end) n.
Proof.
  intros Hwf Hg Hi Hvg Hvi. unfold getLvFromContext, LocalVolumeImplement.VolumeList.
  rewrite (proj2 (String.eqb_neq id "")), (proj2 (String.eqb_neq group "")) by done. cbn [negb andb].
  apply wp_bind. eapply wp_mono; [apply wp_kept; [apply kept_LVS|by apply (LVS_ok id group)]|].
  intros [rows [e|]] n1 [(_ & _ & Hrows) Hn1]; [by apply wp_ret|].
  destruct (List.find _ rows) as [lv|] eqn:Ef; apply wp_ret; (split; [done|]); [|done].
  apply Hrows. apply list_elem_of_In. by apply find_some in Ef as [? _].
Qed.

Lemma kept_second groups : files_kept (LocalPartitionImplement.second groups "/").
Proof. intros n. unfold LocalPartitionImplement.second. by destruct (Split groups "/") as [|? [|? ?]]. Qed.

Lemma kept_ScanDisk groups : files_kept (LocalPartitionImplement.ScanDisk groups).
Proof.
  apply kept_bind; [apply kept_second|]. intros dev n. unfold LocalPartitionImplement.sys, fs.
  pose proof (scan_law ("/dev/" +:+ dev) (nd_world n)) as Hs. by destruct (sys_ScanDisk _ _).
Qed.

Lemma kept_GetPartition name groups : files_kept (LocalPartitionImplement.GetPartition name groups).
Proof.
  apply kept_bind; [apply kept_second|]. intros _. apply kept_bind; [apply kept_ScanDisk|].
  intros [d [e|]]; [done|]. by destruct (List.find _ _).
Qed.

(** The partition of a raw volume and its disk. *)
Lemma raw_volume_ok group id a dev rest n : Split group "/" = a :: dev :: rest →
  wp (getPartitionFromContext group id) (λ r n', fs n' = fs n ∧ disks_of n' = disks_of n ∧
    (r.1 = zero_Partition ∨ ∃ d k, disks_of n !! ("/dev/" +:+ dev) = Some d ∧ dd_Partitions d !! k = Some r.1 ∧
      p_Name r.1 = PartitionName id)) n.
Proof.
  intros E. eapply wp_mono; [apply wp_kept; [apply kept_GetPartition|by eapply wp_GetPartition]|].
  by intros r n1 [[(_ & _ & Hq) Hr] Hn1].
Qed.

Lemma scan_ok group a dev rest n : Split group "/" = a :: dev :: rest →
  wp (LocalPartitionImplement.ScanDisk group) (λ r n', fs n' = fs n ∧ disks_of n' = disks_of n ∧
    (r.2 = None → disks_of n !! ("/dev/" +:+ dev) = Some r.1)) n.
Proof.
  intros E. eapply wp_mono; [apply wp_kept; [apply kept_ScanDisk|by eapply wp_ScanDisk]|].
  by intros r n1 [[(_ & _ & Hq) Hr] Hn1].
Qed.

(** *** Publishing *)

(** The paths a volume is published through. *)
Definition volume_paths (n : Node W) (id target p : string) : Prop :=
  p = target ∨ ∃ lvr major minor, backed n lvr id p major minor.

Definition publish_result (G : LogicVolume → Prop) (s : Svc) (req : NodePublishVolumeRequest) (acc : access) (err : option error) (s' : Svc) : Prop :=
  let id := np_VolumeId req in
  let target := np_TargetPath req in
  let f := fs (sv_node s) in
  let f' := fs (sv_node s') in
  calls (sv_kube s') = calls (sv_kube s) ∧ spared (volume_paths (sv_node s) id target) f f' ∧
  (f_mounts f' = f_mounts f ∨ ∃ m lvr major minor, f_mounts f' = f_mounts f ++ [m] ∧ m_target m = target ∧
    m_dev m = Mkdev major minor ∧ G lvr ∧ backed (sv_node s) lvr id (m_src m) major minor) ∧
  (err = None → ∃ lvr device major minor,
    G lvr ∧ backed (sv_node s) lvr id device major minor ∧ published acc target device major minor f f').

Lemma publish_nothing G s req acc e s' :
  calls (sv_kube s') = calls (sv_kube s) → fs (sv_node s') = fs (sv_node s) → publish_result G s req acc (Some e) s'.
Proof. intros Hc Hf. unfold publish_result. rewrite Hf. split_and!; [done|done|by left|done]. Qed.

Lemma publish_backed (G : LogicVolume → Prop) s req acc err s' lvr device major minor :
  G lvr → calls (sv_kube s') = calls (sv_kube s) → backed (sv_node s) lvr (np_VolumeId req) device major minor →
  publish_outcome acc (np_TargetPath req) device major minor (fs (sv_node s)) err (fs (sv_node s')) →
  publish_result G s req acc err s'.
Proof.
  intros HG Hc Hb (Hs & Hg & Hok). split_and!; [done| | |].
  - eapply spared_mono; [|done]. intros p [->| ->]; [by left|right; eauto].
  - destruct Hg as [?|(m & Hm & Hsrc & Ht & Hd)]; [by left|right]. exists m, lvr, major, minor. by rewrite Hsrc.
  - intros He. exists lvr, device, major, minor. auto.
Qed.

Lemma publish_locked_ok (G : LogicVolume → Prop) req acc mode (s : Svc) :
  (∀ lvr, G lvr → good_object lvr) → objects_are G (np_VolumeId req) → wf_lvm (lvm_of (nd_world (sv_node s))) → canonical (np_TargetPath req) →
  np_VolumeId req ≠ "" → valid_name (np_VolumeId req) → mget (np_VolumeContext req) VolumeCacheId = "" → acc ≠ NoAccess →
  wp (publish_locked fuel cfg req acc mode) (λ err s', publish_result G s req acc err s') s.
Proof.
  intros HG Hg Hwf Hcan Hid Hvid Hcache Hacc. unfold publish_locked. rewrite Hcache. cbn [String.eqb negb].
  apply wp_bind. eapply wp_mono; [by apply find_lv_ok|]. intros [[lvr|] [e|]] s1 (Hn1 & _ & Hc1 & Hr);
    try done; [by apply wp_ret, publish_nothing; [|rewrite Hn1]| |by apply wp_ret, publish_nothing; [|rewrite Hn1]].
  destruct (HG _ Hr) as (Hlvm & Hraw & Hhost).
  destruct (String.eqb_spec (volume_type lvr) LvmVolumeType) as [Ht|_].
  { destruct (Hlvm Ht) as [Hgne Hgv]. apply wp_bind, wp_on_node. rewrite Hn1.
    eapply wp_mono; [by apply getLvFromContext_ok|]. intros [[lv|] [e|]] n2 [Hn2 Hlv]; try by apply wp_ret, publish_nothing.
    apply wp_on_node. cbn [sv_node sv_kube sv_mutex]. pose proof (backed_lvm _ _ _ _ Ht Hlv) as Hb.
    destruct acc as [|FsType flags|]; [| |done]; (eapply wp_mono; [first [apply publish_block_ok|apply lvm_fs_ok]; done|]).
    - intros err n3 [Hcl Hd]. eapply publish_backed; [done|done|done|]. cbn [sv_node]. rewrite <- Hn2. by apply block_outcome.
    - intros err n3 Ho. rewrite Hn2 in Ho. by eapply publish_backed. }
  destruct (String.eqb_spec (volume_type lvr) RawVolumeType) as [Ht|_].
  2: { destruct (String.eqb_spec (volume_type lvr) HostVolumeType); [done|]. apply wp_ret, publish_nothing; [done|by rewrite Hn1]. }
  destruct (Hraw Ht) as (a & dev & rest & Hsplit). apply wp_bind, wp_on_node. rewrite Hn1.
  eapply wp_mono; [by eapply raw_volume_ok|]. intros [part [e|]] n2 (Hn2 & Hd2 & Hpart); [by apply wp_ret, publish_nothing|].
  apply wp_bind, wp_on_node. cbn [sv_node sv_kube sv_mutex]. eapply wp_mono; [by eapply scan_ok|].
  intros [disk [e|]] n3 (Hn3 & Hd3 & Hdisk); rewrite Hn2 in Hn3; [by apply wp_ret, publish_nothing|].
  destruct (String.eqb_spec (p_Name part) "") as [|Hne]; [by apply wp_ret, publish_nothing|].
  cbn [fst] in Hpart. destruct Hpart as [->|(d & number & Hd & Hp & Hname)]; [done|]. cbn [fst snd] in *.
  specialize (Hdisk eq_refl). rewrite Hd2, Hd in Hdisk. injection Hdisk as <-.
  apply wp_on_node. cbn [sv_node sv_kube sv_mutex].
  set (device := GetPartitionKname (dd_Path d) (p_Number part)).
  destruct (GetUdevInfo device (nd_world n3)) as [props [e|]] eqn:Hu.
  { destruct acc as [|FsType flags|]; [| |done].
    - apply wp_bind, wp_bind, wp_of_world. fold device. rewrite Hu. by apply wp_ret, wp_ret, publish_nothing.
    - unfold nodePublishRawFilesystemVolume. cbv zeta. fold device.
      destruct (unsupported_mode mode); [by apply wp_ret, publish_nothing|].
      apply wp_bind, wp_bind, wp_of_world. rewrite Hu. by apply wp_ret, wp_ret, publish_nothing. }
  pose proof (backed_raw _ _ _ _ _ _ _ _ _ _ _ Ht Hsplit Hd Hp Hname Hu) as Hb. fold device in Hb.
  destruct acc as [|FsType flags|]; [| |done].
  - apply wp_bind, wp_bind, wp_of_world. fold device. rewrite Hu. apply wp_ret.
    eapply wp_mono; [by apply publish_block_ok|]. intros err n4 [Hcl Hdv]. eapply publish_backed; [done|done|done|].
    cbn [sv_node]. rewrite <- Hn3. by apply block_outcome.
  - eapply wp_mono; [by eapply raw_fs_ok|]. intros err n4 Ho. fold device in Ho. rewrite Hn3 in Ho. by eapply publish_backed.
Qed.

Lemma keeps_on_node {A} (m : M (Node W) A) : keeps_locks (on_node (K:=K) m).
Proof. intros s. unfold on_node. by destruct (m (sv_node s)). Qed.
Lemma keeps_on_kube {A} (m : M K A) : keeps_locks (on_kube (W:=W) m).
Proof. intros s. unfold on_kube. by destruct (m (sv_kube s)). Qed.
#[local] Hint Resolve keeps_on_node keeps_on_kube : go_db.

Lemma keeps_publish req acc mode : keeps_locks (publish_locked (K:=K) fuel cfg req acc mode).
Proof. unfold publish_locked, find_lv. keeps. Qed.
Lemma keeps_unpublish req : keeps_locks (unpublish_locked (K:=K) fuel cfg req).
Proof. unfold unpublish_locked, find_lv. keeps. Qed.

(** Under the lock of the volume, or not at all. *)
Lemma wp_volume_lock id (body : M Svc (option error)) what (Q : option error → Svc → Prop) s :
  keeps_locks body → Q (busy what id) s →
  (∀ s0, sv_node s0 = sv_node s → sv_kube s0 = sv_kube s → wp body Q s0) →
  (∀ e s1 l, Q e s1 → Q e (set_locks l s1)) →
  wp (with_lock id (busy what id) body) (λ err s', get_locks s' = get_locks s ∧ Q err s') s.
Proof.
  intros Hk Hbusy Hbody Hlocks. pose proof (keeps_with_lock id (busy what id) body Hk s) as Hkeep.
  assert (wp (with_lock id (busy what id) body) Q s) as Hw; [|revert Hw Hkeep; unfold wp; by destruct (with_lock _ _ _ s) as [[] ?]].
  destruct (decide (id ∈ get_locks s)) as [Hin|Hin].
  - unfold wp. rewrite with_lock_busy by done. by apply Hlocks.
  - apply wp_with_lock; [done|]. eapply wp_mono; [by apply Hbody|]. intros e s1 HQ. by apply Hlocks.
Qed.

Lemma NodePublishVolume_ok (G : LogicVolume → Prop) (HG : ∀ lvr, G lvr → good_object lvr) (req : NodePublishVolumeRequest) (acc : access) (mode : option access_mode) (s : Svc)
    (Hobjects : objects_are G (np_VolumeId req)) (Hwf : wf_lvm (lvm_of (nd_world (sv_node s))))
    (Htarget : canonical (np_TargetPath req)) (Hid : valid_name (np_VolumeId req))
    (Hcap : np_Capability req = Some (acc, mode)) (Hplain : mget (np_VolumeContext req) VolumeCacheId = "") :
  wp (NodePublishVolume fuel cfg req) (λ err s', get_locks s' = get_locks s ∧ publish_result G s req acc err s') s.
Proof.
  unfold NodePublishVolume. destruct (String.eqb_spec (np_VolumeId req) "") as [|Hne]; [by apply wp_ret; split; [|apply publish_nothing]|].
  destruct (String.eqb (np_TargetPath req) ""); [by apply wp_ret; split; [|apply publish_nothing]|]. rewrite Hcap.
  assert (acc ≠ NoAccess → wp (with_lock (np_VolumeId req) (busy "publish" (np_VolumeId req)) (publish_locked fuel cfg req acc mode))
    (λ err s', get_locks s' = get_locks s ∧ publish_result G s req acc err s') s) as Hw.
  { intros Hacc. apply wp_volume_lock; [apply keeps_publish|by apply publish_nothing| |done].
    intros s0 Hn Hk. eapply wp_mono; [apply publish_locked_ok; by rewrite ?Hn|]. intros err s'.
    unfold publish_result. by rewrite Hn, Hk. }
  destruct acc; [by apply Hw..|]. apply wp_ret. split; [done|]. by apply publish_nothing.
Qed.


(** *** Unpublishing *)

(** The device [NodeUnpublishVolume] computes; a raw volume whose partition is
    not found gets the name of partition 0. *)
Inductive device_of (n : Node W) (lvr : LogicVolume) (id : string) : string → Prop :=
| device_lvm : volume_type lvr = LvmVolumeType → device_of n lvr id (Join2 DeviceDirectory id)
| device_raw a dev rest disk part :
    volume_type lvr = RawVolumeType →
    Split (ls_DeviceGroup (lv_Spec lvr)) "/" = a :: dev :: rest →
    disks_of n !! ("/dev/" +:+ dev) = Some disk →
    (part = zero_Partition ∨ ∃ k, dd_Partitions disk !! k = Some part ∧ p_Name part = PartitionName id) →
    device_of n lvr id (GetPartitionKname (dd_Path disk) (p_Number part)).

(** The objects of the volume are good and its mount is named after it. *)
Definition tidy_object (n : Node W) (id target : string) (lvr : LogicVolume) : Prop :=
  good_object lvr ∧ ∀ device, device_of n lvr id device → tidy device target (fs n).

Definition unpublish_result (s : Svc) (req : NodeUnpublishVolumeRequest) (err : option error) (s' : Svc) : Prop :=
  let f := fs (sv_node s) in
  let f' := fs (sv_node s') in
  calls (sv_kube s') = calls (sv_kube s) ∧
  (f' = f ∧ err ≠ None ∨ ∃ lvr device, device_of (sv_node s) lvr (nu_VolumeId req) device ∧
    unpublish_outcome device (nu_TargetPath req) f err f').

Lemma unpublish_locked_ok req (s : Svc) :
  objects_are (tidy_object (sv_node s) (nu_VolumeId req) (nu_TargetPath req)) (nu_VolumeId req) →
  canonical (nu_TargetPath req) → not_cached cfg (fs (sv_node s)) (nu_VolumeId req) →
  wp (unpublish_locked fuel cfg req) (λ err s', unpublish_result s req err s') s.
Proof.
  intros Hg Hcan Hno. unfold unpublish_locked. cbv zeta. apply wp_bind. eapply wp_mono; [by apply find_lv_ok|].
  assert (∀ e s', calls (sv_kube s') = calls (sv_kube s) → fs (sv_node s') = fs (sv_node s) →
    unpublish_result s req (Some e) s') as Hnothing by (intros; split; [done|by left]).
  intros [[lvr|] [e|]] s1 (Hn1 & _ & Hc1 & Hr); try done; [by apply wp_ret, Hnothing; [|rewrite Hn1]| |by apply wp_ret, Hnothing; [|rewrite Hn1]].
  destruct Hr as [(_ & Hraw & Hhost) Htidy].
  destruct (String.eqb_spec (volume_type lvr) LvmVolumeType) as [Ht|_].
  { apply wp_on_node. rewrite Hn1. pose proof (device_lvm (sv_node s) lvr (nu_VolumeId req) Ht) as Hd.
    eapply wp_mono; [apply unpublish_device_ok; auto|]. intros err n2 Ho. split; [done|]. right. eauto. }
  destruct (String.eqb_spec (volume_type lvr) RawVolumeType) as [Ht|_].
  2: { destruct (String.eqb_spec (volume_type lvr) HostVolumeType); [done|]. apply wp_ret, Hnothing; [done|by rewrite Hn1]. }
  destruct (Hraw Ht) as (a & dev & rest & Hsplit). apply wp_bind, wp_on_node. rewrite Hn1. unfold raw_device.
  apply wp_bind. eapply wp_mono; [by eapply raw_volume_ok|]. intros [part [e|]] n2 (Hn2 & Hd2 & Hpart); [by apply wp_ret, wp_ret, Hnothing|].
  cbn [fst] in Hpart. apply wp_bind. eapply wp_mono; [by eapply scan_ok|].
  intros [disk [e|]] n3 (Hn3 & Hd3 & Hdisk); rewrite Hn2 in Hn3; [by apply wp_ret, wp_ret, Hnothing|].
  specialize (Hdisk eq_refl). rewrite Hd2 in Hdisk. cbn [fst] in Hdisk. apply wp_ret, wp_on_node. cbn [sv_node sv_kube sv_mutex].
  assert (device_of (sv_node s) lvr (nu_VolumeId req) (GetPartitionKname (dd_Path disk) (p_Number part))) as Hd.
  { eapply device_raw; try done. destruct Hpart as [->|(d & k & Hd & Hp)]; [by left|right]. rewrite Hd in Hdisk.
    injection Hdisk as <-. by exists k. }
  eapply wp_mono; [apply unpublish_device_ok; rewrite ?Hn3; auto|]. intros err n4 Ho. rewrite Hn3 in Ho. split; [done|]. right. eauto.
Qed.

Lemma NodeUnpublishVolume_ok (req : NodeUnpublishVolumeRequest) (s : Svc)
    (Htidy : objects_are (tidy_object (sv_node s) (nu_VolumeId req) (nu_TargetPath req)) (nu_VolumeId req))
    (Htarget : canonical (nu_TargetPath req)) (Hplain : not_cached cfg (fs (sv_node s)) (nu_VolumeId req)) :
  wp (NodeUnpublishVolume fuel cfg req) (λ err s', get_locks s' = get_locks s ∧ unpublish_result s req err s') s.
Proof.
  unfold NodeUnpublishVolume.
  destruct (String.eqb (nu_VolumeId req) ""); [apply wp_ret; split; [done|]; split; [done|by left]|].
  destruct (String.eqb (nu_TargetPath req) ""); [apply wp_ret; split; [done|]; split; [done|by left]|].
  apply wp_volume_lock; [apply keeps_unpublish|split; [done|by left]| |done].
  intros s0 Hn Hk. eapply wp_mono; [apply unpublish_locked_ok; by rewrite ?Hn|]. intros err s'.
  unfold unpublish_result. by rewrite Hn, Hk.
Qed.


(** *** The life of a volume at a target *)

Definition lvm_object (lvr : LogicVolume) : Prop := good_object lvr ∧ volume_type lvr = LvmVolumeType.

(** Nothing is mounted at the target or below. *)
Definition free_target (target : string) (f : Fs) : Prop := ∀ m, m ∈ f_mounts f → ¬ under target (m_target m).

Lemma objects_mono (G G' : LogicVolume → Prop) id :
  (∀ lvr, G lvr → G' lvr) → objects_are G id → objects_are G' id.
Proof. intros HG Ho k k' v lvr E Ha. by eapply HG, Ho. Qed.

(** A new mount of the device at a free target is the only one there. *)
Lemma new_mount_tidy device target f f' m :
  free_target target f → f_mounts f' = f_mounts f ++ [m] → m_target m = target → m_src m = device →
  tidy device target f' ∧ without target f' = f_mounts f.
Proof.
  intros Hfree Hm Ht Hs. split.
  - right. exists (f_mounts f), m, []. split_and!; [done..|]. by rewrite app_nil_r.
  - unfold without. rewrite Hm, filter_app, filter_cons_False, app_nil_r by (intros []; done).
    apply filter_all, Forall_forall. intros m' Hin E. apply (Hfree m' Hin). rewrite E. apply under_refl.
Qed.

(** [C11] A volume published for a pod, used and unpublished: when publishing an
    LVM volume with a file system at a free target succeeds there is one new
    mount; and whatever the pod then writes, as long as the mount table stays,
    unpublishing leaves the contents of the volume as the pod left them, also
    when it fails, and on success the mount table is as it was before the volume
    was published and the target is gone. *)
Theorem volume_life (preq : NodePublishVolumeRequest) (ureq : NodeUnpublishVolumeRequest)
    (FsType : string) (flags : list string) (mode : option access_mode) (s0 s1 s2 : Svc)
    (Hid : nu_VolumeId ureq = np_VolumeId preq) (Ht : nu_TargetPath ureq = np_TargetPath preq)
    (Hobjects : objects_are lvm_object (np_VolumeId preq)) (Hwf : wf_lvm (lvm_of (nd_world (sv_node s0))))
    (Htarget : canonical (np_TargetPath preq)) (Hvalid : valid_name (np_VolumeId preq))
    (Hcap : np_Capability preq = Some (Mount FsType flags, mode))
    (Hplain : mget (np_VolumeContext preq) VolumeCacheId = "")
    (Hfree : free_target (np_TargetPath preq) (fs (sv_node s0)))
    (Hrun : NodePublishVolume fuel cfg preq s0 = (Done None, s1))
    (Hused : f_mounts (fs (sv_node s2)) = f_mounts (fs (sv_node s1)))
    (Hcache : not_cached cfg (fs (sv_node s2)) (np_VolumeId preq)) :
  ∃ m, f_mounts (fs (sv_node s1)) = f_mounts (fs (sv_node s0)) ++ [m] ∧ m_target m = np_TargetPath preq ∧
    wp (NodeUnpublishVolume fuel cfg ureq) (λ err s3,
      ((∀ m', m' ∈ f_mounts (fs (sv_node s0)) → m_dev m' ≠ m_dev m) →
        f_disks (fs (sv_node s3)) !! m_dev m = f_disks (fs (sv_node s2)) !! m_dev m) ∧
      (err = None → f_mounts (fs (sv_node s3)) = f_mounts (fs (sv_node s0)) ∧
                    f_files (fs (sv_node s3)) !! np_TargetPath preq = None)) s2.
Proof.
  pose proof (NodePublishVolume_ok lvm_object (λ lvr H, proj1 H) preq (Mount FsType flags) mode s0
    Hobjects Hwf Htarget Hvalid Hcap Hplain) as Hp.
  unfold wp in Hp. rewrite Hrun in Hp. destruct Hp as (_ & _ & _ & _ & Hdone).
  destruct (Hdone eq_refl) as (lvr & device & major & minor & [_ Hlvm] & Hb & [Hpub _]).
  assert (device = Join2 DeviceDirectory (np_VolumeId preq)) as Hname.
  { inversion Hb as [|? ? ? ? ? ? ? ? Hraw]; [done|]. by rewrite Hraw in Hlvm. }
  destruct Hpub as [[Hsame (m & Hin & Hmt & _)]|(m & Hm & Hsrc & Hmt & Hdev & _)].
  { rewrite Hsame in Hin. destruct (Hfree m Hin). rewrite Hmt. apply under_refl. }
  exists m. split; [done|]. split; [done|]. rewrite <- Hused in Hm.
  destruct (new_mount_tidy device _ _ _ m Hfree Hm Hmt Hsrc) as [Htidy Hwithout].
  eapply wp_mono; [apply NodeUnpublishVolume_ok; rewrite ?Hid, ?Ht; [|done..]|].
  - eapply objects_mono; [|exact Hobjects]. intros lvr' [Hgood Hlvm']. split; [done|].
    intros device' [|? ? ? ? ? Hraw]; [by rewrite <- Hname|]. by rewrite Hraw in Hlvm'.
  - intros err s3 (_ & _ & [[Hsame Herr]|(lvr' & device' & _ & Hkept & _ & Hok)]).
    { rewrite Hsame. split; [done|]. by intros ->. }
    rewrite Ht in *. split; [|intros He; rewrite <- Hwithout; by apply Hok].
    intros Hnew. apply Hkept; intros (m' & Hin & Hd & _ & Hne); rewrite Hm in Hin;
      (apply elem_of_app in Hin as [Hin|Hin]; [by apply (Hnew m')|]); apply list_elem_of_singleton in Hin; congruence.
Qed.

(** [C40] A cached volume is erased when its cache cannot be identified.  The
    volume is mounted at the target under the name of its cache device, not
    of [/dev/carina]; no group of the configuration shows a superblock for it
    any more.  [NodeUnpublishVolume] then takes it for a volume without a
    cache, does not find its device in the mount table, and removes the
    target with everything in it while the volume is still mounted there.  It
    reports an error, but the contents are what removing the target left. *)
Theorem unidentified_cache_erases_volume (req : NodeUnpublishVolumeRequest) (s : Svc) (k1 : K) (lvr : LogicVolume) (m : mount) (erased : disk)
    (Hid : nu_VolumeId req ≠ "") (Hfree : nu_VolumeId req ∉ get_locks s) (Htarget : canonical (nu_TargetPath req))
    (Hnonempty : nu_TargetPath req ≠ "")
    (Hfound : LogicVolumeService.GetLogicVolumeByVolumeId (nu_VolumeId req) (sv_kube s) = (Done (Some lvr, None), k1))
    (Htype : volume_type lvr = LvmVolumeType)
    (Hcache : not_cached cfg (fs (sv_node s)) (nu_VolumeId req))
    (Hmount : m ∈ f_mounts (fs (sv_node s)) ∧ m_target m = nu_TargetPath req)
    (Hother : ∀ m, m ∈ f_mounts (fs (sv_node s)) →
      ¬ same_device (fs (sv_node s)) (Join2 DeviceDirectory (nu_VolumeId req)) (m_src m))
    (Hread : readable (fs (sv_node s)) (nu_TargetPath req))
    (Herase : ∀ w, fs_of w = fs (sv_node s) →
      f_disks (fs_of (os_RemoveAll (nu_TargetPath req) w).2) !! m_dev m = Some erased) :
  wp (NodeUnpublishVolume fuel cfg req) (λ err s', err ≠ None ∧ f_disks (fs (sv_node s')) !! m_dev m = Some erased) s.
Proof.
  unfold NodeUnpublishVolume. rewrite (proj2 (String.eqb_neq _ _) Hid), (proj2 (String.eqb_neq _ _) Hnonempty).
  apply wp_with_lock; [done|]. unfold unpublish_locked, find_lv. cbv zeta.
  apply (wp_bind_run _ _ _ _ (Some lvr, None) (mkSvc ({[nu_VolumeId req]} ∪ get_locks s) (sv_node s) k1)).
  { unfold on_kube. cbn [set_locks NodeSvc_locks sv_kube]. by rewrite Hfound. }
  rewrite Htype. cbn [String.eqb]. rewrite String.eqb_refl. apply wp_on_node. cbn [sv_node].
  eapply wp_mono; [eapply (unpublish_removes fuel Hfuel (fs (sv_node s)) _ (nu_TargetPath req) Hread Hother cfg req LvmVolumeType erased m); by try apply Hmount|].
  intros err n' [He Hd]. done.
Qed.
End service.

(** ** A volume on a node *)

(** The object of the volume of the simulated group. *)
Definition node_lv : LogicVolume :=
  LogicVolumeService.new_lv "prod" "data" "n1" "carina-vg-ssd" "pvc-1" 40 (mkOwner "" "" "" "" None None)
    {[VolumeManagerType := LvmVolumeType]}.

#[local] Instance node_kube : Kube unit := {|
  kube_view _ :=
    (mkView (λ n, (node_lv, None)) (λ n, (node_lv, None)) (λ _, ([node_lv], None)) (λ _, ([], None)) ([], None)
       (λ n, (sample_nsr n, None)) (λ n, (sample_nsr n, None))
       (λ n, (sample_node n, None)) (λ n, (sample_node n, None)) (λ _, ([], None))
       (λ _ _, (∅, None)) (λ _ _, (∅, None)) no_objects, ());
  kube_call _ _ := (None, ());
  kube_now _ := "now"
|}.

Definition pod_target : string := "/var/lib/kubelet/pods/p1/mount".

(** A node with these mounts, and these contents of the volume (252:0) and of
    a cache device (251:0). *)
Definition node_with (files : gmap string Stat_t) (ms : list mount) (ds : gmap Z disk) : NodeSvc sim (Ctl unit) :=
  mkSvc ∅ (mkNode ∅ ∅ (mkSim (nd_world sim_node) files ms ds) []) (mkCtl ∅ [] [] [] ()).

Definition with_data (format : string) : disk := mkDiskState format {["db" := "rows"]}.
Definition fresh_node : NodeSvc sim (Ctl unit) := node_with ∅ [] {[64256 := with_data "xfs"]}.
Definition ssd_cfg : Settings :=
  mkSettings (mkDiskConfig [mkSelector "carina-vg-ssd" ["/dev/vd"] "lvm" ""] 300 "binpack") 300 "binpack" [].

Lemma node_objects (G : LogicVolume → Prop) id : G node_lv → objects_are (K:=Ctl unit) G id.
Proof. intros Hg k k' v lvr [= <- <-] [[= <-]|(items & [= <-] & ?)]; [done|]. simplify_eq/=. Qed.

Lemma node_lv_good : good_object node_lv.
Proof. unfold good_object. split; [done|]. by split. Qed.

Definition publish_request : NodePublishVolumeRequest :=
  mkPublish "volume-pvc-1" pod_target (Some (Mount "" [], Some SINGLE_NODE_WRITER)) false ∅.
Definition volume_mount : mount := mkMount "/dev/carina/volume-pvc-1" pod_target "ext4 rw 0 0" 64512.

(** The state after the volume was published. *)
Definition published_node : NodeSvc sim (Ctl unit) := (NodePublishVolume 1 ssd_cfg publish_request fresh_node).2.


(** A pod has written to its volume. *)
Definition used_node : NodeSvc sim (Ctl unit) :=
  node_with {["/dev/carina/volume-pvc-1" := mkStat devicePermission 64512 0; pod_target := dir_stat]} [volume_mount]
    {[64512 := with_data "ext4"]}.
Definition unpublish_request : NodeUnpublishVolumeRequest := mkUnpublish "volume-pvc-1" pod_target.

Lemma used_node_tidy : tidy_object (sv_node used_node) "volume-pvc-1" pod_target node_lv.
Proof.
  split; [apply node_lv_good|]. intros device Hd. inversion Hd as [Ht Heq|? ? ? ? ? Ht]; [|by vm_compute in Ht].
  right. exists [], volume_mount, []. split; [vm_compute; reflexivity|]. split; [done|]. split; [by subst device|].
  by intros m' ?%not_elem_of_nil.
Qed.


Lemma volume_life_witness :
  (NodeUnpublishVolume 1 ssd_cfg unpublish_request used_node).1 = Done None ∧
  ∃ m, m_target m = pod_target ∧ wp (NodeUnpublishVolume 1 ssd_cfg unpublish_request) (λ err s3,
    f_disks (fs (sv_node s3)) !! m_dev m = f_disks (fs (sv_node used_node)) !! m_dev m ∧
    (err = None → f_mounts (fs (sv_node s3)) = [] ∧ f_files (fs (sv_node s3)) !! pod_target = None)) used_node.
Proof.
  split; [vm_compute; reflexivity|].
  unshelve epose proof (volume_life 1 _ ssd_cfg publish_request unpublish_request "" [] (Some SINGLE_NODE_WRITER)
    fresh_node published_node used_node _ _ _ _ _ _ _ _ _ _ _ _) as (m & _ & Ht & Hu).
  1-3: reflexivity.
  - apply node_objects. split; [apply node_lv_good|reflexivity].
  - apply sim_node_wf.
  - reflexivity.
  - reflexivity.
  - reflexivity.
  - reflexivity.
  - by intros m ?%not_elem_of_nil.
  - vm_compute. reflexivity.
  - vm_compute. reflexivity.
  - intros g _ Hin. by apply not_elem_of_empty in Hin.
  - exists m. split; [exact Ht|]. eapply wp_mono; [exact Hu|]. intros err s3 [Hd Hm]. split; [|exact Hm].
    apply Hd. intros m' Hin. destruct (not_elem_of_nil m' Hin).
Defined.

(** The same volume behind a cache device. *)
Definition cached_node : NodeSvc sim (Ctl unit) :=
  node_with {["/dev/bcache0" := mkStat devicePermission 64256 0; pod_target := dir_stat]}
    [mkMount "/dev/bcache0" pod_target "ext4 rw 0 0" 64256] {[64256 := with_data "ext4"]}.

Lemma cached_readable : readable (fs (sv_node cached_node)) pod_target.
Proof.
  intros w Hw. split_and!; [|done|done|].
  - cbn [os_stat node_sim_os]. change (sim_fs w) with (fs_of w). rewrite Hw. by vm_compute.
  - intros p msg. cbn [unix_Stat node_sim_sys fst]. by destruct (_ !! p).
Qed.

Lemma cached_erased w : fs_of w = fs (sv_node cached_node) →
  f_disks (fs_of (os_RemoveAll pod_target w).2) !! 64256 = Some (mkDiskState "ext4" ∅).
Proof.
  intros Hw. change (erase pod_target (f_mounts (fs_of w)) (f_disks (fs_of w)) !! 64256 = Some (mkDiskState "ext4" ∅)).
  rewrite Hw. by vm_compute.
Qed.

Lemma unidentified_cache_erases_volume_witness :
  (NodeUnpublishVolume 1 ssd_cfg unpublish_request cached_node).1 =
    Done (Some (ErrStatus Internal ("remove dir failed for " +:+ pod_target +:+ ": error=device or resource busy"))) ∧
  wp (NodeUnpublishVolume 1 ssd_cfg unpublish_request) (λ err s',
    err ≠ None ∧ f_disks (fs (sv_node s')) !! 64256 = Some (mkDiskState "ext4" ∅)) cached_node.
Proof.
  split; [vm_compute; reflexivity|].
  refine (unidentified_cache_erases_volume 1 _ ssd_cfg unpublish_request cached_node
    (mkCtl ∅ [] [(kube_view ()).1] [] ()) node_lv (mkMount "/dev/bcache0" pod_target "ext4 rw 0 0" 64256)
    (mkDiskState "ext4" ∅) _ _ _ _ _ _ _ _ _ _ _); try reflexivity; try discriminate.
  - split; [|reflexivity]. vm_compute. left.
  - intros m Hm. assert (m = mkMount "/dev/bcache0" pod_target "ext4 rw 0 0" 64256) as ->.
    { apply list_elem_of_singleton. exact Hm. }
    intros [?|(st1 & st2 & Hst & _)]; [done|]. vm_compute in Hst. discriminate.
  - apply cached_readable.
  - apply cached_erased.
Defined.
