(* ===== verification/NodeExpand.v ===== *)
(** * The CSI node service: the file system of an expanded volume grows

    [NodeExpandVolume] of [pkg/csidriver/driver/node.go] by the commands it
    runs. *)

From S2P Require Import Prelude GoStrings Api GoRuntime Mutx Exec Utils Config NodeService HostPath Kube.
From S2P Require Import LogicVolumeService CsiController LvmParse Lvmd Bcache Partition PartitionCorrect Volume.
From S2P Require Import PartitionTheorems LvmSpec LvmTools LvmSim Filesystem FilesystemCorrect CsiNode NodeSim CsiNodeTheorems.

Import nodeService.

#[local] Open Scope string_scope.
#[local] Open Scope list_scope.
#[local] Open Scope Z_scope.

(** ** The commands a computation runs *)

Section traces.
Context {W : Type} `{OS W, Files W, FileSys W}.

(** Whatever [m] returns, it runs only commands that satisfy [P]. *)
Definition runs_only (P : command → Prop) {A} (m : M (Node W) A) : Prop :=
  ∀ n, ∃ t, nd_trace (m n).2 = nd_trace n ++ t ∧ Forall P t.

Lemma only_none P {A} (m : M (Node W) A) : (∀ n, nd_trace (m n).2 = nd_trace n) → runs_only P m.
Proof. intros Hm n. exists []. by rewrite app_nil_r. Qed.

Lemma only_ret P {A} (a : A) : runs_only P (mret a).
Proof. by apply only_none. Qed.

Lemma only_lift P {A} (o : outcome A) : runs_only P (lift_outcome o).
Proof. by apply only_none. Qed.

Lemma only_world P {A} (f : W → A * W) : runs_only P (on_world f).
Proof. apply only_none. intros n. unfold on_world. by destruct (f (nd_world n)). Qed.

Lemma only_of_world P {A} (f : W → A) : runs_only P (of_world f).
Proof. by apply only_none. Qed.

Lemma only_spawn (P : command → Prop) cmd args : P (cmd, args) → runs_only P (spawn cmd args).
Proof. intros HP n. exists [(cmd, args)]. unfold spawn. destruct (os_run _ _ _). split; [done|by constructor]. Qed.

Lemma only_bind P {A B} (m : M (Node W) A) (f : A → M (Node W) B) :
  runs_only P m → (∀ a, runs_only P (f a)) → runs_only P (m ≫= f).
Proof.
  intros Hm Hf n. unfold mbind, M_bind. destruct (Hm n) as (t & E & Ht). destruct (m n) as [[a|e] n'] eqn:En; cbn in *; [|eauto].
  destruct (Hf a n') as (t' & E' & Ht'). exists (t ++ t'). rewrite E', E, app_assoc. split; [done|]. by apply Forall_app.
Qed.

Lemma only_retry P {A} fuel (f : W → (A + errno) * W) : runs_only P (retry fuel f).
Proof.
  induction fuel as [|fuel IH]; [by apply only_none|]. apply only_bind; [apply only_world|].
  intros [a|[]]; try apply only_ret. apply IH.
Qed.

Lemma only_createDevice P `{UnixDev} fuel device major minor : runs_only P (createDeviceIfNeeded fuel device major minor).
Proof.
  assert (runs_only P (r ← Mknod fuel device devicePermission (Mkdev major minor);
    match r with
    | inr e => mret (internal ("mknod failed for " +:+ device +:+ ": error=" +:+ errno_text e))
    | inl _ => mret None
    end)) as Hmake by (apply only_bind; [apply only_retry|intros []; apply only_ret]).
  apply only_bind; [apply only_retry|]. intros [st|[]]; [|exact Hmake|apply only_ret|apply only_ret].
  destruct (right_device st major minor); [apply only_ret|]. apply only_bind; [apply only_world|].
  intros [e|]; [apply only_ret|exact Hmake].
Qed.

Lemma wp_only P {A} (m : M (Node W) A) (Q : A → Node W → Prop) n :
  runs_only P m → wp m Q n →
  wp m (λ a n', Q a n' ∧ ∃ t, nd_trace n' = nd_trace n ++ t ∧ Forall P t) n.
Proof. intros Hm. specialize (Hm n). unfold wp. by destruct (m n) as [[a|e] n']. Qed.
End traces.

(** ** Growing the file system of a volume *)

(** The programs that look. *)
Definition looks (c : command) : Prop := c.1 = "lvs" ∨ c.1 = findmntCmd.

(** The program for a file system of that format. *)
Definition grow_cmd (device vpath format : string) : option command :=
  if String.eqb format "ext3" || String.eqb format "ext4" then Some ("resize2fs", [device])
  else if String.eqb format "xfs" then Some ("xfs_growfs", ["-d"; vpath])
  else None.

Section expand.
Context {W K : Type} `{OS W, Files W, FileSys W, DiskoMethods, Disko W, Udev W, UnixDev}.
Context `{!LvmTools W, !DiskoLaws W, !FileSysLaws W} `{GoRuntimeLaws} `{KubeLaws K}.
Context (fuel : nat) (Hfuel : (attempts ≤ fuel)%nat).

Abbreviation Svc := (NodeSvc W K).

(** The commands between two states. *)
Definition ran (n n' : Node W) (t : list command) : Prop := nd_trace n' = nd_trace n ++ t.

Lemma ran_nil n : ran n n [].
Proof. unfold ran. by rewrite app_nil_r. Qed.

Definition looked (n n' : Node W) : Prop := ∃ t, ran n n' t ∧ Forall looks t.

Lemma looked_refl n : looked n n.
Proof. exists []. split; [apply ran_nil|done]. Qed.

Lemma looked_trans n n1 n2 : looked n n1 → looked n1 n2 → looked n n2.
Proof.
  intros (t & E & Ht) (t' & E' & Ht'). exists (t ++ t'). unfold ran in *. rewrite E', E, app_assoc.
  split; [done|by apply Forall_app].
Qed.

Lemma wp_looked {A} (m : M (Node W) A) (Q : A → Node W → Prop) n :
  runs_only looks m → wp m Q n → wp m (λ a n', Q a n' ∧ looked n n') n.
Proof. apply wp_only. Qed.

Lemma only_getLv group id : runs_only looks (getLvFromContext (W:=W) group id).
Proof.
  apply only_bind.
  - unfold LocalVolumeImplement.VolumeList, Lvm2Implement.LVS, ExecuteCommandWithOutput. cbv zeta.
    apply only_bind; [apply only_bind; [by apply only_spawn; left|intros; apply only_ret]|].
    intros [out [e|]]; [by destruct (Contains _ _); apply only_ret|]. apply only_bind; [apply only_lift|intros; apply only_ret].
  - intros [rows [e|]]; [apply only_ret|]. destruct (List.find _ rows); apply only_ret.
Qed.

Lemma only_second groups : runs_only looks (LocalPartitionImplement.second (W:=W) groups "/").
Proof. apply only_none. intros n. unfold LocalPartitionImplement.second. by destruct (Split groups "/") as [|? [|? ?]]. Qed.

Lemma only_ScanDisk groups : runs_only looks (LocalPartitionImplement.ScanDisk (W:=W) groups).
Proof.
  apply only_bind; [apply only_second|]. intros dev. apply only_none. intros n. unfold LocalPartitionImplement.sys.
  by destruct (sys_ScanDisk _ _).
Qed.

Lemma only_GetPartition name groups : runs_only looks (LocalPartitionImplement.GetPartition (W:=W) name groups).
Proof.
  apply only_bind; [apply only_second|]. intros _. apply only_bind; [apply only_ScanDisk|].
  intros [d [e|]]; [apply only_ret|]. destruct (List.find _ _); apply only_ret.
Qed.
(** The objects the client may answer with: the group of a volume is the name
    of a volume group, or names a disk after a slash. *)
Definition expandable (lvr : LogicVolume) : Prop :=
  let group := ls_DeviceGroup (lv_Spec lvr) in
  (volume_type lvr = LvmVolumeType → group ≠ "" ∧ valid_name group) ∧
  (volume_type lvr = RawVolumeType → ∃ a dev rest, Split group "/" = a :: dev :: rest).

(** [device] is the volume [id] with the object [lvr]: a device file with the
    numbers LVM has, the only thing that may have changed since [n], or the
    partition with the name of the volume. *)
Inductive volume_device (n : Node W) (f : Fs) (lvr : LogicVolume) (id : string) : string → Prop :=
| device_lvm lv :
    volume_type lvr = LvmVolumeType →
    l_lvs (lvm_of (nd_world n)) !! (ls_DeviceGroup (lv_Spec lvr), id) = Some lv →
    calm (eq (Join2 DeviceDirectory id)) (fs n) f →
    device_at f (Join2 DeviceDirectory id) (lvi_LVKernelMajor lv) (lvi_LVKernelMinor lv) →
    volume_device n f lvr id (Join2 DeviceDirectory id)
| device_raw a dev rest disk number part :
    volume_type lvr = RawVolumeType →
    Split (ls_DeviceGroup (lv_Spec lvr)) "/" = a :: dev :: rest →
    disks_of n !! ("/dev/" +:+ dev) = Some disk →
    dd_Partitions disk !! number = Some part → p_Name part = PartitionName id → f = fs n →
    volume_device n f lvr id (GetPartitionKname (dd_Path disk) (p_Number part)).

(** [on_node] leaves the rest of the service alone. *)
Lemma wp_node {A} (m : M (Node W) A) (Q : A → Node W → Prop) (R : A → Svc → Prop) s :
  wp m Q (sv_node s) → (∀ a s', Q a (sv_node s') → sv_mutex s' = sv_mutex s → sv_kube s' = sv_kube s → R a s') →
  wp (on_node m) R s.
Proof. intros Hm HR. apply wp_on_node. eapply wp_mono; [exact Hm|]. intros a n' Hq. by apply HR. Qed.

Lemma expand_device_ok lvr id (s : Svc) :
  expandable lvr → wf_lvm (lvm_of (nd_world (sv_node s))) → id ≠ "" → valid_name id →
  wp (expand_device fuel lvr id) (λ r s',
    sv_mutex s' = sv_mutex s ∧ sv_kube s' = sv_kube s ∧ looked (sv_node s) (sv_node s') ∧
    match r with
    | (_, Some _) => True
    | (None, None) => volume_type lvr = HostVolumeType
    | (Some device, None) => volume_device (sv_node s) (fs (sv_node s')) lvr id device
    end) s.
Proof.
  intros [Hlvm Hraw] Hwf Hid Hvid. unfold expand_device. cbv zeta.
  destruct (String.eqb_spec (volume_type lvr) LvmVolumeType) as [Ht|_].
  { destruct (Hlvm Ht) as [Hgne Hgv]. apply wp_bind.
    eapply wp_node; [apply wp_looked; [apply only_getLv|by apply (getLvFromContext_ok fuel)]|].
    intros [[lv|] [e|]] s1 [[Hf Hlv] Hl] Hm Hk; try by apply wp_ret.
    apply wp_bind. eapply wp_node; [apply wp_looked; [apply only_createDevice|by apply createDevice_ok]|].
    intros err s2 [[Hc Hd] Hl2] Hm2 Hk2. apply wp_ret. split_and!; [congruence|congruence|by eapply looked_trans|].
    destruct err; [done|]. eapply device_lvm; [done|done|by rewrite <- Hf|by apply Hd]. }
  destruct (String.eqb_spec (volume_type lvr) RawVolumeType) as [Ht|_].
  2: { destruct (String.eqb_spec (volume_type lvr) HostVolumeType); apply wp_ret; (split_and!; [done|done|apply looked_refl|done]). }
  destruct (Hraw Ht) as (a & dev & rest & Hsplit). apply wp_bind.
  eapply wp_node; [apply wp_looked; [apply only_GetPartition|by eapply raw_volume_ok]|].
  intros [part [e|]] s1 [(Hf & Hd & Hpart) Hl] Hm Hk; [by apply wp_ret|].
  destruct (String.eqb_spec (p_Name part) "") as [|Hne]; [by apply wp_ret|].
  cbn [fst] in Hpart. destruct Hpart as [->|(d & number & Hdd & Hp & Hname)]; [done|].
  apply wp_bind. eapply wp_node; [apply wp_looked; [apply only_ScanDisk|by eapply scan_ok]|].
  intros [disk [e|]] s2 [(Hf2 & Hd2 & Hdisk) Hl2] Hm2 Hk2; apply wp_ret;
    (split_and!; [congruence|congruence|by eapply looked_trans|]); [done|].
  specialize (Hdisk eq_refl). cbn [fst] in Hdisk. rewrite Hd, Hdd in Hdisk. injection Hdisk as <-.
  eapply device_raw; [done..|congruence].
Qed.

(** What a request has grown: nothing when it fails early, when the path is not
    a directory, for a host path and for a device without a file system; else
    the program for the format of the volume's device was the last to run. *)
Inductive grown_by (G : LogicVolume → Prop) (n : Node W) (id vpath : string) : list command → option error → Prop :=
| grown_error e : grown_by G n id vpath [] (Some e)
| grown_block : os_stat vpath (nd_world n) ≠ StatDir → grown_by G n id vpath [] None
| grown_host lvr : G lvr → volume_type lvr = HostVolumeType → grown_by G n id vpath [] None
| grown_blank lvr device w :
    G lvr → volume_device n (fs_of w) lvr id device → GetDiskFormat device w = ("", None) →
    grown_by G n id vpath [] None
| grown_fs lvr device w format c err :
    G lvr → volume_device n (fs_of w) lvr id device → GetDiskFormat device w = (format, None) →
    grow_cmd device vpath format = Some c → grown_by G n id vpath [c] err.

Lemma Resize_ok device vpath (n : Node W) :
  wp (Resize device vpath) (λ r n', ∃ g, ran n n' g ∧
    match g with
    | [] => r.2 = None → GetDiskFormat device (nd_world n) = ("", None)
    | _ => ∃ format c, GetDiskFormat device (nd_world n) = (format, None) ∧ grow_cmd device vpath format = Some c ∧ g = [c]
    end) n.
Proof.
  unfold Resize. apply wp_bind, wp_of_world. destruct (GetDiskFormat device (nd_world n)) as [format [e|]] eqn:Ef.
  { apply wp_ret. exists []. split; [apply ran_nil|done]. }
  destruct (String.eqb_spec format "") as [->|Hne].
  { apply wp_ret. exists []. split; [apply ran_nil|done]. }
  assert (∀ cmd args dev, grow_cmd device vpath format = Some (cmd, args) →
    wp (run_resize cmd args dev) (λ r n', ∃ g, ran n n' g ∧
    match g with
    | [] => r.2 = None → (format, None) = ("", None : option error)
    | _ => ∃ format' c, (format, None : option error) = (format', None) ∧ grow_cmd device vpath format' = Some c ∧ g = [c]
    end) n) as Hrun.
  { intros cmd args dev Hc. apply wp_bind. unfold spawn, wp. destruct (os_run cmd args (nd_world n)) as [r w].
    destruct (proc_error (pr_end r)); (exists [(cmd, args)]; split; [done|]); by exists format, (cmd, args). }
  destruct (String.eqb format "ext3" || String.eqb format "ext4") eqn:Eext.
  { apply Hrun. unfold grow_cmd. by rewrite Eext. }
  destruct (String.eqb format "xfs") eqn:Exfs.
  { apply Hrun. unfold grow_cmd. by rewrite Eext, Exfs. }
  apply wp_ret. exists []. split; [apply ran_nil|done].
Qed.

(** The commands of a request: some that look, then what grows. *)
Definition expand_result (G : LogicVolume → Prop) (s : Svc) (req : NodeExpandVolumeRequest) (err : option error) (s' : Svc) : Prop :=
  calls (sv_kube s') = calls (sv_kube s) ∧
  ∃ n g, looked (sv_node s) n ∧ ran n (sv_node s') g ∧ grown_by G (sv_node s) (ne_VolumeId req) (ne_VolumePath req) g err.

Lemma expand_looked G s req err s' :
  calls (sv_kube s') = calls (sv_kube s) → looked (sv_node s) (sv_node s') →
  grown_by G (sv_node s) (ne_VolumeId req) (ne_VolumePath req) [] err → expand_result G s req err s'.
Proof. intros Hc Hl Hg. split; [done|]. exists (sv_node s'), []. split; [done|]. split; [apply ran_nil|done]. Qed.

Lemma expand_mounted_ok (G : LogicVolume → Prop) (s s1 : Svc) req lvr device :
  calls (sv_kube s1) = calls (sv_kube s) → looked (sv_node s) (sv_node s1) → G lvr →
  volume_device (sv_node s) (fs (sv_node s1)) lvr (ne_VolumeId req) device →
  wp (expand_mounted (ne_VolumeId req) (ne_VolumePath req) device) (λ err s',
    get_locks s' = get_locks s1 ∧ expand_result G s req err s') s1.
Proof.
  intros Hc Hl HG Hdev. unfold expand_mounted. apply wp_bind.
  eapply (wp_node _ (λ r n', fs n' = fs (sv_node s1) ∧ looked (sv_node s1) n')).
  { eapply wp_mono; [apply wp_looked; [by apply only_spawn; right|apply (wp_kept _ (λ _ _, True))]|by intros r n' [[_ ?] ?]].
    - apply kept_spawn. unfold reports. set_solver.
    - unfold wp, spawn. by destruct (os_run _ _ _). }
  intros r s2 [Hf Hl2] Hm Hk. assert (looked (sv_node s) (sv_node s2)) as Hl3 by by eapply looked_trans.
  assert (calls (sv_kube s2) = calls (sv_kube s)) as Hc2 by congruence. rewrite <- Hf in Hdev.
  assert (∀ e, expand_result G s req (Some e) s2) as Herr by (intros e; apply expand_looked; [done|done|constructor]).
  assert (get_locks s2 = get_locks s1) as <- by exact Hm.
  destruct (proc_error (pr_end r)); [apply wp_ret; split; [done|apply Herr]|]. destruct (String.eqb _ ""); [apply wp_ret; split; [done|apply Herr]|].
  apply wp_volume_lock; [|by apply Herr| |done].
  { apply keeps_bind; [apply keeps_on_node|]. intros [? []]; apply keeps_ret. }
  intros s3 Hn3 Hk3. apply wp_bind. eapply wp_node; [apply Resize_ok|]. rewrite Hn3.
  intros b s4 (g & Hran & Hg) _ Hk4. assert (calls (sv_kube s4) = calls (sv_kube s)) as Hc4 by congruence.
  assert (∀ err, (err = None → b.2 = None) → expand_result G s req err s4) as Hres.
  { intros err He. split; [done|]. exists (sv_node s2), g. split; [done|]. split; [done|]. destruct g as [|c g].
    - destruct err as [e|]; [constructor|]. eapply grown_blank; [done|exact Hdev|by apply Hg, He].
    - destruct Hg as (format & c' & Hfmt & Hcmd & [= -> ->]). by eapply grown_fs. }
  destruct b as [b [e|]]; apply wp_ret, Hres; done.
Qed.

Lemma NodeExpandVolume_ok (G : LogicVolume → Prop) (HG : ∀ lvr, G lvr → expandable lvr) (req : NodeExpandVolumeRequest) (s : Svc)
    (Hobjects : objects_are (K:=K) G (ne_VolumeId req)) (Hwf : wf_lvm (lvm_of (nd_world (sv_node s))))
    (Hid : valid_name (ne_VolumeId req)) :
  wp (NodeExpandVolume fuel req) (λ err s', get_locks s' = get_locks s ∧ expand_result G s req err s') s.
Proof.
  assert (∀ (e : error) (s' : Svc), sv_node s' = sv_node s → calls (sv_kube s') = calls (sv_kube s) → expand_result G s req (Some e) s') as Herr.
  { intros e s' Hn Hc. apply expand_looked; [done|rewrite Hn; apply looked_refl|constructor]. }
  unfold NodeExpandVolume. cbv zeta. destruct (String.eqb_spec (ne_VolumeId req) "") as [|Hne]; [by apply wp_ret; split; [|apply Herr]|].
  destruct (String.eqb (ne_VolumePath req) ""); [by apply wp_ret; split; [|apply Herr]|].
  destruct (convertRequestCapacity _ _) as [_ [e|]]; [by apply wp_ret; split; [|apply Herr]|].
  apply wp_bind, wp_on_node, wp_of_world.
  destruct (os_stat (ne_VolumePath req) (nd_world (sv_node s))) eqn:Es;
    try (by apply wp_ret; split; [|apply Herr]);
    try (apply wp_ret; split; [done|]; apply expand_looked; [done|apply looked_refl|apply grown_block; by rewrite Es]).
  apply wp_bind. eapply wp_mono; [by apply find_lv_ok|]. cbn [sv_node sv_mutex sv_kube].
  intros [[lvr|] [e|]] s1 (Hn1 & Hm1 & Hc1 & Hr); try done; [by apply wp_ret; split; [|apply Herr]| |by apply wp_ret; split; [|apply Herr]].
  apply wp_bind. eapply wp_mono; [apply expand_device_ok; rewrite ?Hn1; auto|]. rewrite Hn1.
  intros [dev [e|]] s2 (Hm2 & Hk2 & Hl2 & Hd);
    assert (get_locks s2 = get_locks s) as Hlocks by (etransitivity; [exact Hm2|exact Hm1]);
    assert (calls (sv_kube s2) = calls (sv_kube s)) as Hc2 by congruence.
  { destruct dev; apply wp_ret; (split; [done|]); (apply expand_looked; [done|done|constructor]). }
  destruct dev as [device|]; [rewrite <- Hlocks; by eapply expand_mounted_ok|].
  apply wp_ret. split; [done|]. apply expand_looked; [done|done|by eapply grown_host].
Qed.

(** The volume is on LVM with a file system of its own, and mounted as a
    directory: its file system was the last thing to grow. *)
Definition volume_grown (G : LogicVolume → Prop) (s : Svc) (req : NodeExpandVolumeRequest) (s' : Svc) : Prop :=
  ∀ lvr lv, (∀ lvr', G lvr' → lvr' = lvr) → volume_type lvr = LvmVolumeType →
    l_lvs (lvm_of (nd_world (sv_node s))) !! (ls_DeviceGroup (lv_Spec lvr), ne_VolumeId req) = Some lv →
    let device := Join2 DeviceDirectory (ne_VolumeId req) in
    let d := Mkdev (lvi_LVKernelMajor lv) (lvi_LVKernelMinor lv) in
    format_of (fs (sv_node s)) d ≠ "" → ¬ hosts (fs (sv_node s)) d device →
    os_stat (ne_VolumePath req) (nd_world (sv_node s)) = StatDir →
    ∃ c, grow_cmd device (ne_VolumePath req) (format_of (fs (sv_node s)) d) = Some c ∧ last (nd_trace (sv_node s')) = Some c.

(** The format that is read is the one the volume had. *)
Lemma own_format (n : Node W) w lvr lv id device format :
  volume_device n (fs_of w) lvr id device → volume_type lvr = LvmVolumeType →
  l_lvs (lvm_of (nd_world n)) !! (ls_DeviceGroup (lv_Spec lvr), id) = Some lv →
  GetDiskFormat device w = (format, None) →
  let d := Mkdev (lvi_LVKernelMajor lv) (lvi_LVKernelMinor lv) in
  format_of (fs n) d ≠ "" → ¬ hosts (fs n) d (Join2 DeviceDirectory id) →
  device = Join2 DeviceDirectory id ∧ (format = format_of (fs n) d ∨ format = partitioned).
Proof.
  intros Hd Ht Hlv Hfmt d Hne Hh. destruct Hd as [lv' _ Hlv' [_ Hs] (st & Hst & Hr)|? ? ? ? ? ? Ht']; [|by rewrite Ht in Ht'].
  split; [done|]. rewrite Hlv in Hlv'. injection Hlv' as <-.
  apply andb_true_iff in Hr as [Hr%Z.eqb_eq _]. apply (GetDiskFormat_law _ _ _ st) in Hfmt; [|done]. rewrite Hr in Hfmt.
  fold d in Hfmt. rewrite (format_of_disks (fs n) (fs_of w) d) in Hfmt; [done|]. apply Hs; [done|]. by intros p <-.
Qed.

Lemma expanded_grown G (s : Svc) req s' : expand_result G s req None s' → volume_grown G s req s'.
Proof.
  intros (_ & n & g & _ & Hran & Hg) lvr lv Hone Ht Hlv device d Hne Hh Hdir.
  inversion Hg as [|Hno|lvr' HG Hhost|lvr' dev w HG Hd Hfmt|lvr' dev w format c ? HG Hd Hfmt Hc]; subst.
  - done.
  - rewrite (Hone _ HG), Ht in Hhost. done.
  - rewrite (Hone _ HG) in Hd. destruct (own_format _ _ _ _ _ _ _ Hd Ht Hlv Hfmt Hne Hh) as [_ [E|E]]; [by destruct Hne|done].
  - rewrite (Hone _ HG) in Hd. destruct (own_format _ _ _ _ _ _ _ Hd Ht Hlv Hfmt Hne Hh) as [-> [->| ->]]; [|done].
    exists c. split; [done|]. rewrite Hran. apply last_snoc.
Qed.

End expand.

(** ** A volume that grows *)

#[local] Existing Instance node_kube.

Definition expand_request : NodeExpandVolumeRequest := mkNodeExpand "volume-pvc-1" pod_target 0 0.

