(* ===== verification/VolumeTheorems.v ===== *)
(** * The volume manager on a node: the theorems

    The contracts of [VolumeCorrect] for the whole stack of the node agent
    (volume manager, lvm2 implementation, executor and parsers), over any
    operating system whose lvm2 tools behave as documented ([LvmTools]). *)

From S2P Require Import Prelude GoStrings Api GoRuntime Mutx Exec Utils LvmParse Lvmd Bcache Volume LvmSpec VolumeCorrect LvmTools LvmSim.

#[local] Open Scope string_scope.
#[local] Open Scope list_scope.
#[local] Open Scope Z_scope.

Import LocalVolumeImplement.

Section node.
Context {W : Type} `{OS W} `{!LvmTools W}.

(** [C1] Creating a volume, on every branch: the call never panics, gives its
    lock back, and leaves the lvm state well formed.  If the lock is taken,
    nothing happens.  Otherwise success means the volume existed already and
    nothing changed, or exactly one volume of the requested size (in whole
    GiB) was added to the group and its space taken from the group, which for
    a size in whole GiB keeps its 9 GiB reserve in spite of the wrap-around
    of the check; an error means nothing changed. *)
Theorem CreateVolume_refines (lv vg : string) (size ratio : Z) (n : Node W)
    (Hn : ok_names lv vg) (Hs : is_u64 size) (Hwf : wf_lvm (view n)) :
  refines (create_contract lv vg size) (CreateVolume lv vg size ratio) n.
Proof. by apply CreateVolume_ok. Qed.


(** [C2] Deleting a volume, on every branch: success means the volume is gone
    and its space is back in its group; nothing else goes except its own thin
    pool and what lives in it, no other group changes, and an error that
    comes before the removal changes nothing. *)
Theorem DeleteVolume_refines (lvName vg : string) (n : Node W)
    (Hl : has_char "/" lvName = false) (Hv : valid_name vg) (Hwf : wf_lvm (view n)) :
  refines (delete_contract lvName vg) (DeleteVolume lvName vg) n.
Proof. by apply DeleteVolume_ok. Qed.

(** [C20] Taking a disk out of a group never loses a logical volume, on success
    and on failure alike.  On success the disk carries no label any more, and
    either it was the last disk of a group without volumes, which is gone, or
    the group shrank by the size of the disk and, if it had its reserve, still
    has it. *)
Theorem RemoveDiskInVg_refines (disk vg : string) (n : Node W)
    (Hd : safe disk) (Hv : valid_name vg) (Hs : safe vg) (Hwf : wf_lvm (view n)) :
  refines (remove_contract disk vg) (RemoveDiskInVg disk vg) n.
Proof. by apply RemoveDiskInVg_ok. Qed.

(** [C21] Adding a disk: on success it belongs to the (lower case) group, which
    was made for it or grew by its size; a disk that belongs to a group is
    refused; volumes and other groups never change, and a failure changes no
    group. *)
Theorem AddNewDiskToVg_refines (disk vg : string) (n : Node W)
    (Hd : safe disk) (Hv : valid_name (ToLower vg)) (Hne : ToLower vg ≠ "") (Hs : safe (ToLower vg))
    (Hwf : wf_lvm (view n)) :
  refines (add_contract disk (ToLower vg)) (AddNewDiskToVg disk vg) n.
Proof. by apply AddNewDiskToVg_ok. Qed.

(** The inventory of the node: whatever order the runtime ranges over maps
    in, [GetCurrentVgStruct] returns every volume group once, with its row of
    the report and exactly the devices that name it as their group. *)
Theorem GetCurrentVgStruct_complete `{GoRuntimeLaws} (n : Node W)
    (Hwf : wf_lvm (view n)) (Hname : l_vgs (view n) !! "" = None) :
  wp GetCurrentVgStruct (λ r n',
    get_locks n' = get_locks n ∧ view n' = view n ∧
    match r with
    | (groups, None) => groups ≡ₚ group_row (view n) <$> (map_to_list (l_vgs (view n))).*2
    | (groups, Some e) => groups = [] ∧ exec_error e
    end) n.
Proof. by apply GetCurrentVgStruct_ok. Qed.
End node.

(** ** On the simulated node *)

Definition ssd := "carina-vg-ssd".

(** The free space of the group after a run. *)
Definition free_after {A} (r : A * Node lvm) : option Z := vg_VGFree <$> l_vgs (nd_world r.2) !! ssd.

(** A second disk joined the group of [sim_node]. *)
Definition sim_node2 : Node lvm := (AddNewDiskToVg "/dev/vdc" ssd sim_node).2.

Lemma sim_node2_wf : wf_lvm (view sim_node2).
Proof.
  apply (refines_wf (add_contract "/dev/vdc" (ToLower ssd)) (AddNewDiskToVg "/dev/vdc" ssd) sim_node).
  by apply AddNewDiskToVg_ok; [..|apply sim_node_wf].
Qed.

Lemma CreateVolume_refines_witness :
  (CreateVolume "pvc-2" ssd (5 * GiB) 1 sim_node).1 = Done None ∧
  refines (create_contract "pvc-2" ssd (5 * GiB)) (CreateVolume "pvc-2" ssd (5 * GiB) 1) sim_node.
Proof.
  split; [vm_compute; reflexivity|].
  apply (CreateVolume_refines "pvc-2" ssd (5 * GiB) 1 sim_node); [done|done|apply sim_node_wf].
Defined.


Lemma DeleteVolume_refines_witness :
  free_after (DeleteVolume "pvc-1" ssd sim_node) = Some (100 * GiB) ∧
  refines (delete_contract "pvc-1" ssd) (DeleteVolume "pvc-1" ssd) sim_node.
Proof.
  split; [vm_compute; reflexivity|].
  apply (DeleteVolume_refines "pvc-1" ssd sim_node); [done|done|apply sim_node_wf].
Defined.

Lemma RemoveDiskInVg_refines_witness :
  free_after (RemoveDiskInVg "/dev/vdc" ssd sim_node2) = Some (60 * GiB) ∧
  refines (remove_contract "/dev/vdc" ssd) (RemoveDiskInVg "/dev/vdc" ssd) sim_node2.
Proof.
  split; [vm_compute; reflexivity|].
  apply (RemoveDiskInVg_refines "/dev/vdc" ssd sim_node2); [done|done|done|apply sim_node2_wf].
Defined.

Lemma AddNewDiskToVg_refines_witness :
  free_after (AddNewDiskToVg "/dev/vdc" "Carina-VG-SSD" sim_node) = Some (160 * GiB) ∧
  refines (add_contract "/dev/vdc" (ToLower "Carina-VG-SSD"))
    (AddNewDiskToVg "/dev/vdc" "Carina-VG-SSD") sim_node.
Proof.
  split; [vm_compute; reflexivity|].
  apply (AddNewDiskToVg_refines "/dev/vdc" "Carina-VG-SSD" sim_node); [done..|apply sim_node_wf].
Defined.

Lemma GetCurrentVgStruct_complete_witness :
  wp GetCurrentVgStruct (λ r n',
    get_locks n' = get_locks sim_node ∧ view n' = view sim_node ∧
    match r with
    | (groups, None) => groups ≡ₚ group_row (view sim_node) <$> (map_to_list (l_vgs (view sim_node))).*2
    | (groups, Some e) => groups = [] ∧ exec_error e
    end) sim_node.
Proof. apply (GetCurrentVgStruct_complete sim_node); [apply sim_node_wf|reflexivity]. Defined.

(** The reservation check wraps around: asked for one byte more than the
    60 GiB that are free, [CreateVolume] passes the check, reports success and
    leaves the group without any free space, 9 GiB short of its reserve. *)
Theorem CreateVolume_reserve_underflow :
  let r := CreateVolume "pvc-2" ssd (60 * GiB + 1) 1 sim_node in
  r.1 = Done None ∧ free_after r = Some 0.
Proof. vm_compute. auto. Qed.
