(* ===== verification/VolumeHistory.v ===== *)
(** * Histories of the volume manager

    Any sequence of calls of the volume manager, whatever each of them returns:
    the lvm state stays well formed and no volume is lost, made or resized but
    by a call that names it. *)

From S2P Require Import Prelude GoStrings Api GoRuntime Mutx Exec Utils LvmParse Lvmd Bcache Volume LvmSpec VolumeCorrect LvmTools LvmSim.

#[local] Open Scope string_scope.
#[local] Open Scope list_scope.
#[local] Open Scope Z_scope.

(** ** Calls *)

(** The operations of [LocalVolume] that change the devices of the node. *)
Inductive request :=
| ReqCreate (lvName vgName : string) (size ratio : Z)
| ReqResize (lvName vgName : string) (size ratio : Z)
| ReqDelete (lvName vgName : string)
| ReqAddDisk (disk vgName : string)
| ReqRemoveDisk (disk vgName : string)
| ReqDeleteBcache (dev cacheDev : string).

(** Names Kubernetes and the configuration let through. *)
Definition valid_request (r : request) : Prop :=
  match r with
  | ReqCreate lv vg size _ | ReqResize lv vg size _ => ok_names lv vg ∧ is_u64 size
  | ReqDelete lv vg => has_char "/" lv = false ∧ valid_name vg
  | ReqAddDisk disk vg => safe disk ∧ valid_name (ToLower vg) ∧ ToLower vg ≠ "" ∧ safe (ToLower vg)
  | ReqRemoveDisk disk vg => safe disk ∧ valid_name vg ∧ safe vg
  | ReqDeleteBcache _ _ => True
  end.

Section serve.
Context {St : Type} `{HasLocks St, Lvm2 St, Bcache St, GoRuntime}.

Definition serve (r : request) : M St (option error) :=
  match r with
  | ReqCreate lv vg size ratio => LocalVolumeImplement.CreateVolume lv vg size ratio
  | ReqResize lv vg size ratio => LocalVolumeImplement.ResizeVolume lv vg size ratio
  | ReqDelete lv vg => LocalVolumeImplement.DeleteVolume lv vg
  | ReqAddDisk disk vg => LocalVolumeImplement.AddNewDiskToVg disk vg
  | ReqRemoveDisk disk vg => LocalVolumeImplement.RemoveDiskInVg disk vg
  | ReqDeleteBcache dev cacheDev => LocalVolumeImplement.DeleteBcache dev cacheDev
  end.

Fixpoint serve_all (rs : list request) : M St (list (option error)) :=
  match rs with
  | [] => mret []
  | r :: rs => e ← serve r; es ← serve_all rs; mret (e :: es)
  end.
End serve.

(** ** What a call may do to a volume *)

Definition creates (k : string * string) (r : request) : Prop :=
  match r with ReqCreate lv vg _ _ => k = (vg, VolumePrefix +:+ lv) | _ => False end.
Definition resizes (k : string * string) (r : request) : Prop :=
  match r with ReqResize lv vg _ _ => k = (vg, VolumePrefix +:+ lv) | _ => False end.
Definition deletes (k : string * string) (r : request) : Prop :=
  match r with ReqDelete lv vg => k = (vg, vol_name lv) | _ => False end.

(** No volume is in a thin pool, which only an earlier release made. *)
Definition plain (l : lvm) : Prop := ∀ k i, l_lvs l !! k = Some i → lvi_PoolLV i = "".

(** From [l] to [l'] by the calls [rs]. *)
Record kept (rs : list request) (l l' : lvm) : Prop := {
  kept_plain : plain l';
  kept_volumes k i : l_lvs l !! k = Some i →
    (∃ i', l_lvs l' !! k = Some i' ∧ (Forall (λ r, ¬ resizes k r) rs → i' = i)) ∨ Exists (deletes k) rs;
  kept_new k : is_Some (l_lvs l' !! k) → is_Some (l_lvs l !! k) ∨ Exists (creates k) rs;
  kept_devices dev : one_group l dev → one_group l' dev
}.

Lemma kept_same rs l l' :
  plain l → l_lvs l' = l_lvs l → (∀ dev, one_group l dev → one_group l' dev) → kept rs l l'.
Proof.
  intros Hp E Hd. split; [intros k i; rewrite E; apply Hp| |intros k; rewrite E; by left|done].
  intros k i Hk. left. exists i. by rewrite E.
Qed.

Lemma kept_refl rs l : plain l → kept rs l l.
Proof. intros. by apply kept_same. Qed.

Lemma kept_trans rs1 rs2 l1 l2 l3 : kept rs1 l1 l2 → kept rs2 l2 l3 → kept (rs1 ++ rs2) l1 l3.
Proof.
  intros [P1 V1 N1 D1] [P2 V2 N2 D2]. split; [done| | |auto].
  - intros k i Hk. rewrite Exists_app. destruct (V1 k i Hk) as [(i' & Hk' & E1)|?]; [|tauto].
    destruct (V2 k i' Hk') as [(i'' & Hk'' & E2)|?]; [|tauto]. left. exists i''. split; [done|].
    intros [F1 F2]%Forall_app. rewrite <- E1 by done. auto.
  - intros k Hk. rewrite Exists_app. destruct (N2 k Hk) as [Hk2|?]; [|tauto]. destruct (N1 k Hk2); tauto.
Qed.

Lemma create_kept lv vg size ratio l err l' :
  plain l → create_contract lv vg size l err l' → kept [ReqCreate lv vg size ratio] l l'.
Proof.
  intros Hp HC. destruct err as [e|]; [destruct HC as [-> _]; by apply kept_refl|].
  destruct HC as [(i & _ & ->)|(g & i & Hg & Hk & _ & Hi & El & _ & Hd & _)]; [by apply kept_refl|].
  split.
  - intros k j. rewrite El, lookup_insert_Some. intros [[_ <-]|[_ Hj]]; [done|by eapply Hp].
  - intros k j Hj. left. exists j. rewrite El, lookup_insert_ne; [done|congruence].
  - intros k. rewrite El, lookup_insert_is_Some'. intros [<-|?]; [right; by left|by left].
  - intros dev. apply (moves_one_group _ _ _ _ (moves_same_devices nobody nobody _ _ Hd)).
Qed.

(** A resize changes the size of one volume. *)
Lemma lvresize_kept lv vg gib l l' :
  lvm_step (CLvResize lv vg gib) l l' →
  ∃ i, l_lvs l !! (vg, lv) = Some i ∧ lvi_VGName (lv_sized i (gib * GiB)) = lvi_VGName i ∧
    l_lvs l' = <[(lvi_VGName i, lvi_LVName i) := lv_sized i (gib * GiB)]> (l_lvs l) ∧
    same_devices (l_pvs l) (l_pvs l').
Proof. inversion 1; subst. eexists. done. Qed.

Lemma resize_kept unknown lv vg size ratio l err l' :
  wf_lvm l → plain l → resize_contract unknown lv vg size ratio l err l' → kept [ReqResize lv vg size ratio] l l'.
Proof.
  intros Hwf Hp HC. destruct err as [e|].
  { destruct HC as [[->|(i & Hi & Hpool & _)] _]; [by apply kept_refl|]. by destruct (Hpool (Hp _ _ Hi)). }
  destruct HC as [[_ ->]|(g & i & Hg & Hi & [[_ ->]|(_ & (l1 & Hl1 & Hst) & _)])]; [by apply kept_refl..|].
  assert (l1 = l) as -> by (destruct Hl1 as [|[Hpool _]]; [done|by destruct (Hpool (Hp _ _ Hi))]).
  destruct (lvresize_kept _ _ _ _ _ Hst) as (j & Hj & _ & El & Hd).
  destruct (wf_lvs _ Hwf _ _ _ Hj) as (Hvg & Hn & _). rewrite Hvg, Hn in El. split.
  - intros k x. rewrite El, lookup_insert_Some. intros [[_ <-]|[_ Hx]]; [by apply (Hp _ _ Hj)|by eapply Hp].
  - intros k x Hx. left. rewrite El. destruct (decide (k = (vg, VolumePrefix +:+ lv))) as [->|Hne].
    + eexists. split; [apply lookup_insert_eq|]. intros HF%Forall_inv. destruct (HF eq_refl).
    + exists x. by rewrite lookup_insert_ne.
  - intros k. rewrite El, lookup_insert_is_Some'. intros [<-|?]; left; eauto.
  - intros dev. apply (moves_one_group _ _ _ _ (moves_same_devices nobody nobody _ _ Hd)).
Qed.

Lemma vol_name_nonempty lv : vol_name lv ≠ "".
Proof.
  unfold vol_name. destruct (HasPrefix lv VolumePrefix) eqn:E; cbn; [|done]. intros ->. done.
Qed.

Lemma delete_kept lv vg l err l' :
  plain l → delete_contract lv vg l err l' → kept [ReqDelete lv vg] l l'.
Proof.
  intros Hp [(Hid & Hsub & Hdoom & _) _]. split.
  - intros k i Hk. eapply Hp, lookup_weaken; done.
  - intros k i Hk. destruct (l_lvs l' !! k) as [j|] eqn:Hj.
    + left. exists j. split; [done|]. intros _. pose proof (lookup_weaken _ _ _ _ Hj Hsub). congruence.
    + right. left. destruct (Hdoom k i Hk Hj) as [Hvg [Hn|[Hn|(i0 & Hi0 & Hpool & _)]]].
      * destruct k. cbn in *. congruence.
      * rewrite (Hp _ _ Hk) in Hn. by destruct (vol_name_nonempty lv).
      * by destruct (Hpool (Hp _ _ Hi0)).
  - intros k [j Hj]. left. exists j. by eapply lookup_weaken.
  - intros dev. apply (moves_one_group _ _ _ _ (moves_same_ids nobody nobody _ _ Hid)).
Qed.

(** ** Histories *)

Section history.
Context {St : Type} `{HasLocks St} `{!HasLocksLaws St} `{!Lvm2 St} `{!Lvm2Laws St}.
Context `{!Bcache St} `{!BcacheLaws St} `{!GoRuntime}.

(** A call under the lock does what its contract says, or nothing. *)
Lemma refines_kept R (m : M St (option error)) r s :
  refines R m s → plain (view s) → (∀ err l', R (view s) err l' → kept [r] (view s) l') →
  wp m (λ _ s', get_locks s' = get_locks s ∧ wf_lvm (view s') ∧ kept [r] (view s) (view s')) s.
Proof.
  intros HR Hp HK. eapply wp_mono; [exact HR|]. intros err s' (HL & Hwf & Hd). split_and!; [done..|].
  case_decide; [|by eapply HK]. destruct Hd as [_ ->]. by apply kept_refl.
Qed.

Lemma serve_kept r s :
  valid_request r → wf_lvm (view s) → plain (view s) →
  wp (serve r) (λ _ s', get_locks s' = get_locks s ∧ wf_lvm (view s') ∧ kept [r] (view s) (view s')) s.
Proof.
  intros Hv Hwf Hp. destruct r as [lv vg size ratio|lv vg size ratio|lv vg|disk vg|disk vg|dev cacheDev]; cbn in Hv |- *.
  - destruct Hv as [Hn Hs]. eapply refines_kept; [by apply CreateVolume_ok|done|]. intros. by eapply create_kept.
  - destruct Hv as [Hn Hs]. eapply refines_kept; [by apply ResizeVolume_ok|done|]. intros. by eapply resize_kept.
  - destruct Hv as [Hl Hvg]. eapply refines_kept; [by apply DeleteVolume_ok|done|]. intros. by eapply delete_kept.
  - destruct Hv as (Hd & Hvg & Hne & Hs). eapply refines_kept; [by apply AddNewDiskToVg_ok|done|].
    intros err l' (El & _ & Hm & _). apply kept_same; [done..|]. intros dev. apply (moves_one_group _ _ _ _ Hm).
  - destruct Hv as (Hd & Hvg & Hs). eapply refines_kept; [by apply RemoveDiskInVg_ok|done|].
    intros err l' (El & _ & Hm & _). apply kept_same; [done..|]. intros dev. apply (moves_one_group _ _ _ _ Hm).
  - eapply wp_mono; [by apply DeleteBcache_quiet|]. intros _ s' [HL Hview]. rewrite Hview. split_and!; [done..|].
    by apply kept_refl.
Qed.

Lemma serve_all_kept rs : ∀ s,
  Forall valid_request rs → wf_lvm (view s) → plain (view s) →
  wp (serve_all rs) (λ es s', length es = length rs ∧ get_locks s' = get_locks s ∧ wf_lvm (view s') ∧
    kept rs (view s) (view s')) s.
Proof.
  induction rs as [|r rs IH]; intros s Hv Hwf Hp.
  { apply wp_ret. split_and!; [done..|by apply kept_refl]. }
  apply Forall_cons in Hv as [Hr Hrs]. cbn. apply wp_bind. eapply wp_mono; [by apply serve_kept|].
  intros e s1 (HL1 & Hwf1 & K1). apply wp_bind. eapply wp_mono; [apply IH; [done..|apply K1]|].
  intros es s2 (Hlen & HL2 & Hwf2 & K2). apply wp_ret. split_and!; [cbn; lia|congruence|done|].
  by apply (kept_trans [r] rs _ (view s1)).
Qed.
End history.

Section node.
Context {W : Type} `{OS W} `{!LvmTools W}.

End node.

Definition sample_history : list request :=
  [ReqCreate "pvc-2" "carina-vg-ssd" (5 * GiB) 1; ReqAddDisk "/dev/vdc" "carina-vg-ssd";
   ReqResize "pvc-2" "carina-vg-ssd" (7 * GiB) 1; ReqDelete "pvc-1" "carina-vg-ssd";
   ReqRemoveDisk "/dev/vdc" "carina-vg-ssd"].

