(* ===== verification/DebugServer.v ===== *)
(** * The debug server of the volume manager

    [debug/lvm-http-server]: the routes of [main.go] and the handlers of
    [server/node.go] over the volume manager.  Package echo is a parameter by
    the values a request carries; [net/http], which calls the handlers, takes a
    panic for a request without an answer. *)

From S2P Require Import Prelude GoStrings Api GoRuntime Mutx Exec Utils LvmParse Lvmd Bcache Volume LvmSpec VolumeCorrect.
From S2P Require Import LvmTools LvmSim VolumeHistory.

#[local] Open Scope string_scope.
#[local] Open Scope list_scope.
#[local] Open Scope Z_scope.

(** ** Requests and answers *)

(** [echo.Context], as far as the handlers read it. *)
Record Context := mkContext {
  FormValue : string → string;
  QueryParam : string → string
}.

(** What is encoded in an answer.  An error as it is, not its text, is encoded
    as an object without members. *)
Inductive payload :=
| JString (s : string)
| JVolumes (l : list LvInfo)
| JGroups (l : list VgGroup)
| JBcache (d : option Api.BcacheDeviceInfo)
| JError (e : error).

Record Response := mkResponse {
  rp_code : Z;
  rp_body : payload
}.

Definition StatusOK : Z := 200.
Definition StatusInternalServerError : Z := 500.

(** The handlers of [main]. *)
Inductive endpoint :=
| EStart | EStop | ECreateVolume | EResizeVolume | EDeleteVolume | EGetVolume | EGetVolumeGroup
| ECreateBcache | EDeleteBcache | EGetBcache.

(** The routes; another path or method is answered by echo. *)
Definition routes : list (string * string * endpoint) :=
  [("PUT", "/server/start", EStart); ("PUT", "/server/stop", EStop);
   ("POST", "/volume/create", ECreateVolume); ("PUT", "/volume/resize", EResizeVolume);
   ("DELETE", "/volume/delete", EDeleteVolume); ("GET", "/volume/list", EGetVolume);
   ("GET", "/volume/group", EGetVolumeGroup); ("POST", "/volume/bcache/create", ECreateBcache);
   ("DELETE", "/volume/bcache/delete", EDeleteBcache); ("GET", "/volume/bcache", EGetBcache)].

Module server.
Section handlers.
Context {St : Type} `{HasLocks St, Lvm2 St, Bcache St, GoRuntime}.

(** Whether [stopChan] is closed, and the node. *)
Abbreviation State := (bool * St)%type.

Definition json (code : Z) (body : payload) : M State Response := mret (mkResponse code body).

(** The device manager is made with a nil cache, and [GetNodeDiskSelectGroup]
    calls [Get] on it. *)
Definition Start (c : Context) : M State Response := panic nil_deref.

Definition Stop (c : Context) : M State Response := λ s,
  if s.1 then (Panic "close of closed channel", s) else json StatusOK (JString "") (true, s.2).

(** The answer after a call that returns an error: its text. *)
Definition reply (err : option error) : Response :=
  match err with
  | Some e => mkResponse StatusInternalServerError (JString (Error e))
  | None => mkResponse StatusOK (JString "")
  end.

Definition CreateVolume (c : Context) : M State Response :=
  let lvName := FormValue c "lv_name" in
  let vgName := FormValue c "vg_name" in
  let req := (ParseUint (FormValue c "size") 64).1 in
  err ← on_snd (LocalVolumeImplement.CreateVolume lvName vgName req 1);
  mret (reply err).

Definition ResizeVolume (c : Context) : M State Response :=
  let lvName := FormValue c "lv_name" in
  let vgName := FormValue c "vg_name" in
  let req := (ParseUint (FormValue c "size") 64).1 in
  err ← on_snd (LocalVolumeImplement.ResizeVolume lvName vgName req 1);
  mret (reply err).

Definition DeleteVolume (c : Context) : M State Response :=
  err ← on_snd (LocalVolumeImplement.DeleteVolume (FormValue c "lv_name") (FormValue c "vg_name"));
  mret (reply err).

Definition GetVolume (c : Context) : M State Response :=
  r ← on_snd (LocalVolumeImplement.VolumeList (QueryParam c "lv_name") (QueryParam c "vg_name"));
  match r with
  | (_, Some e) => json StatusInternalServerError (JString (Error e))
  | (lvInfo, None) => json StatusOK (JVolumes lvInfo)
  end.

Definition GetVolumeGroup (c : Context) : M State Response :=
  r ← on_snd LocalVolumeImplement.GetCurrentVgStruct;
  match r with
  | (_, Some e) => json StatusInternalServerError (JError e)
  | (info, None) => json StatusOK (JGroups info)
  end.

Definition CreateBcache (c : Context) : M State Response :=
  r ← on_snd (LocalVolumeImplement.CreateBcache (FormValue c "dev") (FormValue c "cache_dev") (FormValue c "block")
                (FormValue c "bucket") (FormValue c "mode"));
  match r with
  | (_, Some e) => json StatusInternalServerError (JError e)
  | (devicePath, None) => json StatusOK (JBcache devicePath)
  end.

Definition DeleteBcache (c : Context) : M State Response :=
  err ← on_snd (LocalVolumeImplement.DeleteBcache (FormValue c "dev") (FormValue c "cache_dev"));
  match err with
  | Some e => json StatusInternalServerError (JError e)
  | None => json StatusOK (JString "")
  end.

Definition GetBcache (c : Context) : M State Response :=
  r ← on_snd (LocalVolumeImplement.BcacheDeviceInfo (FormValue c "dev"));
  match r with
  | (_, Some e) => json StatusInternalServerError (JError e)
  | (info, None) => json StatusOK (JBcache info)
  end.

Definition handle (e : endpoint) : Context → M State Response :=
  match e with
  | EStart => Start
  | EStop => Stop
  | ECreateVolume => CreateVolume
  | EResizeVolume => ResizeVolume
  | EDeleteVolume => DeleteVolume
  | EGetVolume => GetVolume
  | EGetVolumeGroup => GetVolumeGroup
  | ECreateBcache => CreateBcache
  | EDeleteBcache => DeleteBcache
  | EGetBcache => GetBcache
  end.

(** [net/http]: a handler that panics leaves its request without an answer. *)
Definition serve_http (r : endpoint * Context) : M State (option Response) := λ s,
  match handle r.1 r.2 s with
  | (Done a, s') => (Done (Some a), s')
  | (Panic _, s') => (Done None, s')
  end.

Fixpoint serve_requests (rs : list (endpoint * Context)) : M State (list (option Response)) :=
  match rs with
  | [] => mret []
  | r :: rs => a ← serve_http r; as_ ← serve_requests rs; mret (a :: as_)
  end.
End handlers.
End server.

Import server.

(** ** What the server does to the node *)

(** The call of the volume manager a request stands for. *)
Definition managed (r : endpoint * Context) : list request :=
  let lv := FormValue r.2 "lv_name" in
  let vg := FormValue r.2 "vg_name" in
  let size := (ParseUint (FormValue r.2 "size") 64).1 in
  match r.1 with
  | ECreateVolume => [ReqCreate lv vg size 1]
  | EResizeVolume => [ReqResize lv vg size 1]
  | EDeleteVolume => [ReqDelete lv vg]
  | EDeleteBcache => [ReqDeleteBcache (FormValue r.2 "dev") (FormValue r.2 "cache_dev")]
  | _ => []
  end.

(** Names that can be names of volumes and groups, and no new cache. *)
Definition valid_http (r : endpoint * Context) : Prop :=
  let lv := FormValue r.2 "lv_name" in
  let vg := FormValue r.2 "vg_name" in
  match r.1 with
  | ECreateVolume | EResizeVolume => ok_names lv vg
  | EDeleteVolume => has_char "/" lv = false ∧ valid_name vg
  | EGetVolume => valid_name (QueryParam r.2 "lv_name") ∧ valid_name (QueryParam r.2 "vg_name")
  | ECreateBcache => False
  | _ => True
  end.

Section honest.
Context {St : Type} `{HasLocks St} `{!HasLocksLaws St} `{!Lvm2 St} `{!Lvm2Laws St}.
Context `{!Bcache St} `{!BcacheLaws St} `{GoRuntimeLaws}.

(** The answer of a call under the lock of the manager, with its contract. *)
Definition answers_call (R : lvm → option error → lvm → Prop) (L : GlobalLocks.t) (l : lvm) (a : option Response) (l' : lvm) : Prop :=
  ∃ err, a = Some (reply err) ∧
    if decide (LocalVolumeImplement.VOLUMEMUTEX ∈ L) then err = busy_error ∧ l' = l else R l err l'.

(** What the answer [a] to [r] says of the node before and after it. *)
Definition honest (closed : bool) (L : GlobalLocks.t) (l : lvm) (r : endpoint * Context) (a : option Response) (l' : lvm) : Prop :=
  let lv := FormValue r.2 "lv_name" in
  let vg := FormValue r.2 "vg_name" in
  let size := (ParseUint (FormValue r.2 "size") 64).1 in
  match r.1 with
  | EStart => a = None ∧ l' = l
  | EStop => a = (if closed then None else Some (reply None)) ∧ l' = l
  | ECreateVolume => answers_call (create_contract lv vg size) L l a l'
  | EResizeVolume => answers_call (resize_contract (display_fails (VolumePrefix +:+ lv) vg) lv vg size 1) L l a l'
  | EDeleteVolume => answers_call (delete_contract lv vg) L l a l'
  | EGetVolume =>
      let lv := QueryParam r.2 "lv_name" in
      let vg := QueryParam r.2 "vg_name" in
      l' = l ∧ ((∃ e, a = Some (reply (Some e))) ∨ ∃ rows, a = Some (mkResponse StatusOK (JVolumes rows)) ∧
        if String.eqb lv "" || String.eqb vg "" then rows ≡ₚ List.filter carina_lv (map_to_list (l_lvs l)).*2
        else ∀ i, i ∈ rows → l_lvs l !! (vg, lv) = Some i)
  | EGetVolumeGroup =>
      l' = l ∧ ((∃ e, a = Some (mkResponse StatusInternalServerError (JError e))) ∨
        ∃ groups, a = Some (mkResponse StatusOK (JGroups groups)) ∧
          (l_vgs l !! "" = None → groups ≡ₚ group_row l <$> (map_to_list (l_vgs l)).*2))
  | _ => l' = l ∧ a ≠ None
  end.

(** Request after request. *)
Inductive history (L : GlobalLocks.t) : bool → lvm → list (endpoint * Context) → list (option Response) → lvm → Prop :=
| history_nil closed l : history L closed l [] [] l
| history_cons closed l r rs a as_ l1 l2 :
    honest closed L l r a l1 → history L (closed || match r.1 with EStop => true | _ => false end) l1 rs as_ l2 →
    history L closed l (r :: rs) (a :: as_) l2.

(** One request is served from [s]. *)
Definition served (r : endpoint * Context) (s : bool * St) (a : option Response) (s' : bool * St) : Prop :=
  get_locks s'.2 = get_locks s.2 ∧ wf_lvm (view s'.2) ∧ kept (managed r) (view s.2) (view s'.2) ∧
  s'.1 = s.1 || match r.1 with EStop => true | _ => false end ∧ honest s.1 (get_locks s.2) (view s.2) r a (view s'.2).

Lemma wp_serve r (Q : option Response → bool * St → Prop) s :
  wp (handle r.1 r.2) (λ a s', Q (Some a) s') s → wp (serve_http r) Q s.
Proof. unfold wp, serve_http. by destruct (handle r.1 r.2 s) as [[a|e] s']. Qed.

(** A call under the lock of the manager. *)
Lemma call_served e c R (m : M St (option error)) q s :
  handle e c = (err ← on_snd m; mret (reply err)) → refines R m s.2 → plain (view s.2) →
  managed (e, c) = [q] → (∀ err l', R (view s.2) err l' → kept [q] (view s.2) l') →
  (∀ closed L l a l', answers_call R L l a l' → honest closed L l (e, c) a l') → e ≠ EStop →
  wp (serve_http (e, c)) (served (e, c) s) s.
Proof.
  intros Hh HR Hp Hq HK Hans Hne. apply wp_serve. cbn [fst snd]. rewrite Hh. apply wp_bind, wp_on_snd.
  eapply wp_mono; [exact HR|]. intros err s1 (HL & Hwf & Hd). apply wp_ret. unfold served. cbn [fst snd]. rewrite Hq.
  split_and!; [done|done| |destruct e, (s.1); done|].
  - case_decide; [|by eapply HK]. destruct Hd as [_ ->]. by apply kept_refl.
  - apply Hans. by exists err.
Qed.

(** A request that only looks. *)
Lemma look_served r s a s1 :
  get_locks s1 = get_locks s.2 → wf_lvm (view s.2) → plain (view s.2) → view s1 = view s.2 → r.1 ≠ EStop →
  honest s.1 (get_locks s.2) (view s.2) r a (view s.2) → served r s a (s.1, s1).
Proof.
  intros HL Hwf Hp Hv Hne Hh. unfold served. cbn [fst snd]. rewrite Hv. split_and!; [done|done|by apply kept_refl| |done].
  by destruct r as [[] c], (s.1).
Qed.

Lemma groups_quiet (s : St) : wf_lvm (view s) →
  wp LocalVolumeImplement.GetCurrentVgStruct (λ r s', get_locks s' = get_locks s ∧ view s' = view s ∧
    (r.2 = None → l_vgs (view s) !! "" = None → r.1 ≡ₚ group_row (view s) <$> (map_to_list (l_vgs (view s))).*2)) s.
Proof.
  intros Hwf. destruct (decide (l_vgs (view s) !! "" = None)) as [Hn|Hn].
  - eapply wp_mono; [by apply GetCurrentVgStruct_ok|]. intros [groups [e|]] s' (HL & Hv & Hg); by split_and!.
  - eapply (looks_bind _ _ _ _ _ (get_locks s) (view s)); [apply VGS_law|done|by split| |].
    2:{ intros groups e s1 _ [HL Hv] _. apply wp_ret. by split_and!. }
    intros rows s1 Hat Hrows. eapply looks_bind; [apply PVS_law|done|exact Hat| |].
    + intros pvs s2 [HL Hv] _. apply wp_ret. by split_and!.
    + intros groups e s2 _ [HL Hv] _. apply wp_ret. by split_and!.
Qed.

Lemma list_quiet lv vg (s : St) : wf_lvm (view s) → valid_name lv → valid_name vg →
  wp (LocalVolumeImplement.VolumeList lv vg) (λ r s', get_locks s' = get_locks s ∧ view s' = view s ∧
    (r.2 = None → if String.eqb lv "" || String.eqb vg "" then r.1 ≡ₚ List.filter carina_lv (map_to_list (l_lvs (view s))).*2
                  else ∀ i, i ∈ r.1 → l_lvs (view s) !! (vg, lv) = Some i)) s.
Proof.
  intros Hwf Hlv Hvg. unfold LocalVolumeImplement.VolumeList.
  pose proof (LVS_law St lv vg Hlv Hvg) as Hone. pose proof (LVS_all_law St) as Hall. specialize (Hone s Hwf). specialize (Hall s Hwf).
  destruct (String.eqb lv ""), (String.eqb vg ""); cbn [negb andb orb];
    (eapply wp_mono; [first [exact Hone|exact Hall]|]);
    intros [rows [e|]] s' (HL & Hv & Hr); by split_and!.
Qed.

Lemma serve_http_ok r s : valid_http r → wf_lvm (view s.2) → plain (view s.2) → wp (serve_http r) (served r s) s.
Proof.
  intros Hv Hwf Hp. destruct r as [[] c]; cbn in Hv.
  - unfold wp, serve_http. cbn. destruct s as [closed s]. by apply look_served.
  - unfold wp, serve_http. cbn. unfold Stop. destruct s as [[] s]; cbn; unfold served; cbn; (split_and!; try done; by apply kept_refl).
  - eapply call_served; [done|apply CreateVolume_ok; [done|apply ParseUint_range|done]|done|done| |done|done].
    intros. by eapply create_kept.
  - eapply call_served; [done|apply ResizeVolume_ok; [done|apply ParseUint_range|done]|done|done| |done|done].
    intros. by eapply resize_kept.
  - destruct Hv as [Hl Hvg]. eapply call_served; [done|by apply DeleteVolume_ok|done|done| |done|done].
    intros. by eapply delete_kept.
  - destruct Hv as [Hl Hvg]. apply wp_serve, wp_bind, wp_on_snd. eapply wp_mono; [by apply list_quiet|].
    intros [rows [e|]] s1 (HL & Hv & Hr); apply wp_ret, look_served; try done; (split; [done|]); [left; by exists e|right; exists rows; split; [done|exact (Hr eq_refl)]].
  - apply wp_serve, wp_bind, wp_on_snd. eapply wp_mono; [by apply groups_quiet|].
    intros [groups [e|]] s1 (HL & Hv' & Hr); apply wp_ret, look_served; try done; (split; [done|]); [left; by exists e|right; exists groups; split; [done|exact (Hr eq_refl)]].
  - done.
  - apply wp_serve, wp_bind, wp_on_snd. eapply wp_mono; [by apply (DeleteBcache_quiet _ _ (get_locks s.2) (view s.2))|].
    intros [e|] s1 [HL Hv']; apply wp_ret; unfold served; cbn; rewrite Hv'; (split_and!; [done|done|by apply kept_refl|by destruct (s.1)|done|done]).
  - apply wp_serve, wp_bind, wp_on_snd. eapply wp_mono; [by apply (BcacheDeviceInfo_quiet _ (get_locks s.2) (view s.2))|].
    intros [d [e|]] s1 [HL Hv']; apply wp_ret, look_served; done.
Qed.

Lemma serve_requests_ok rs : ∀ s, Forall valid_http rs → wf_lvm (view s.2) → plain (view s.2) →
  wp (serve_requests rs) (λ as_ s', get_locks s'.2 = get_locks s.2 ∧ wf_lvm (view s'.2) ∧
    kept (rs ≫= managed) (view s.2) (view s'.2) ∧ history (get_locks s.2) s.1 (view s.2) rs as_ (view s'.2)) s.
Proof.
  induction rs as [|r rs IH]; intros s Hv Hwf Hp.
  { apply wp_ret. split_and!; [done|done|by apply kept_refl|constructor]. }
  apply Forall_cons in Hv as [Hr Hrs]. cbn. apply wp_bind. eapply wp_mono; [by apply serve_http_ok|].
  intros a s1 (HL1 & Hwf1 & K1 & Hc1 & Hh1). apply wp_bind. eapply wp_mono; [apply IH; [done..|apply K1]|].
  intros as_ s2 (HL2 & Hwf2 & K2 & Hh2). apply wp_ret. split_and!; [congruence|done|by eapply kept_trans|].
  econstructor; [done|]. by rewrite <- Hc1, <- HL1.
Qed.
End honest.

Section node.
Context {W : Type} `{OS W} `{!LvmTools W} `{GoRuntimeLaws}.

End node.

Definition form (fields : list (string * string)) : Context :=
  let get k := default "" (list_to_map (M:=gmap string string) fields !! k) in mkContext get get.

Definition sample_requests : list (endpoint * Context) :=
  [(EStart, form []);
   (ECreateVolume, form [("lv_name", "pvc-2"); ("vg_name", "carina-vg-ssd"); ("size", "5368709120")]);
   (EDeleteVolume, form [("lv_name", "pvc-1"); ("vg_name", "carina-vg-ssd")]);
   (EStop, form []); (EStop, form [])].

Definition ok_answer : option Response := Some (mkResponse StatusOK (JString "")).

