(* ===== verification/Relay.v ===== *)
(** * The debug proxies

    [debug/node-proxy-client/client.go] and
    [debug/local-proxy-server/server.go]: both listen on one socket and pass
    every connection on to another, each direction by an [io.Copy] of its own.
    The two programs, the goroutines and the peers are a step relation. *)

From S2P Require Import Prelude.

#[local] Open Scope string_scope.
#[local] Open Scope list_scope.
#[local] Open Scope nat_scope.

(** ** One direction *)

(** A goroutine that runs [io.Copy(dst, src)], before its start, while it runs,
    and after it returned, at the end of the stream or with an error. *)
Inductive copy_state := Waiting | Copying | AtEnd | Failed.

(** All the peer at the source has sent, what of it was not read yet, what is in
    the buffer of the copy, and what the destination has got; and whether the
    peer has closed its end. *)
Record pipe := mkPipe {
  p_state : copy_state;
  p_sent : list Z;
  p_pending : list Z;
  p_buf : list Z;
  p_delivered : list Z;
  p_closed : bool
}.

Definition fresh_pipe : pipe := mkPipe Waiting [] [] [] [] false.
Definition start_copy (p : pipe) : pipe := mkPipe Copying (p_sent p) (p_pending p) (p_buf p) (p_delivered p) (p_closed p).

(** The buffer of [io.Copy]. *)
Definition buf_size : Z := 32 * 1024.

(** What the copy does. *)
Inductive copy_step : pipe → pipe → Prop :=
| copy_read s new rest d closed :
    new ≠ [] → (Z.of_nat (length new) <= buf_size)%Z →
    copy_step (mkPipe Copying s (new ++ rest) [] d closed) (mkPipe Copying s rest new d closed)
| copy_write s pending out buf d closed :
    out ≠ [] →
    copy_step (mkPipe Copying s pending (out ++ buf) d closed) (mkPipe Copying s pending buf (d ++ out) closed)
| copy_eof s d :
    copy_step (mkPipe Copying s [] [] d true) (mkPipe AtEnd s [] [] d true)
| copy_error s pending buf d closed :
    copy_step (mkPipe Copying s pending buf d closed) (mkPipe Failed s pending buf d closed).

(** What the peer at the source does. *)
Inductive peer_step : pipe → pipe → Prop :=
| peer_send st s pending buf d new :
    peer_step (mkPipe st s pending buf d false) (mkPipe st (s ++ new) (pending ++ new) buf d false)
| peer_close st s pending buf d :
    peer_step (mkPipe st s pending buf d false) (mkPipe st s pending buf d true).

(** ** A program *)

(** The network and address it listens on and those it dials. *)
Record proxy := mkProxy {
  listen_network : string;
  listen_address : string;
  dial_network : string;
  dial_address : string;
  (** The socket file is removed first. *)
  removes_socket : bool
}.

Definition node_proxy_client : proxy :=
  mkProxy "unix" "/var/lib/kubelet/plugins/csi.carina.com/csi.sock" "tcp" "0.0.0.0:8888" true.
Definition local_proxy_server : proxy := mkProxy "tcp" "0.0.0.0:8888" "unix" "/tmp/csi/csi-provisioner.sock" false.

(** What the client dials is what the server listens on. *)
Lemma proxies_meet :
  (dial_network node_proxy_client, dial_address node_proxy_client) =
  (listen_network local_proxy_server, listen_address local_proxy_server).
Proof. done. Qed.

(** An accepted connection in its goroutine: before [net.Dial], after it
    failed, and with its two copies, up to the remote end and down from it. *)
Inductive conn :=
| Accepted (up : pipe)
| Undialled (up : pipe)
| Linked (up down : pipe).

(** [main]: not listening yet, in the loop of [Accept], or returned, which ends
    the goroutines as well. *)
Inductive relay :=
| Starting
| Serving (cs : list conn)
| Returned (cs : list conn).

Inductive step : relay → relay → Prop :=
| listen_error : step Starting (Returned [])
| listen_ok : step Starting (Serving [])
| accept_error cs : step (Serving cs) (Returned cs)
| accept_ok cs : step (Serving cs) (Serving (cs ++ [Accepted fresh_pipe]))
| dial_error cs i up : cs !! i = Some (Accepted up) → step (Serving cs) (Serving (<[i := Undialled up]> cs))
| dial_ok cs i up : cs !! i = Some (Accepted up) →
    step (Serving cs) (Serving (<[i := Linked (start_copy up) (start_copy fresh_pipe)]> cs))
| client_moves cs i up up' : cs !! i = Some (Accepted up) → peer_step up up' →
    step (Serving cs) (Serving (<[i := Accepted up']> cs))
| up_moves cs i up up' down : cs !! i = Some (Linked up down) → peer_step up up' ∨ copy_step up up' →
    step (Serving cs) (Serving (<[i := Linked up' down]> cs))
| down_moves cs i up down down' : cs !! i = Some (Linked up down) → peer_step down down' ∨ copy_step down down' →
    step (Serving cs) (Serving (<[i := Linked up down']> cs)).

(** ** What arrives *)

(** Nothing is lost, doubled or out of order; a copy that is to start has read
    nothing, and one that returned at the end of the stream has passed on all. *)
Definition faithful (p : pipe) : Prop :=
  p_sent p = p_delivered p ++ p_buf p ++ p_pending p ∧
  match p_state p with
  | Waiting => p_delivered p = [] ∧ p_buf p = []
  | AtEnd => p_delivered p = p_sent p ∧ p_closed p = true
  | _ => True
  end.

Definition good_conn (c : conn) : Prop :=
  match c with
  | Accepted up | Undialled up => faithful up
  | Linked up down => faithful up ∧ faithful down
  end.

Definition conns (r : relay) : list conn :=
  match r with Starting => [] | Serving cs | Returned cs => cs end.

Lemma copy_faithful p p' : copy_step p p' → faithful p → faithful p'.
Proof.
  destruct 1; intros [Hs _]; cbn in *; (split; cbn; [|try done]); rewrite Hs; cbn;
    rewrite ?app_nil_r, <- ?app_assoc; done.
Qed.

Lemma peer_faithful p p' : peer_step p p' → faithful p → faithful p'.
Proof.
  destruct 1; intros [Hs Hst]; cbn in *; (split; cbn; [|by destruct st, Hst]); rewrite Hs; by rewrite <- ?app_assoc.
Qed.

Lemma moves_faithful p p' : peer_step p p' ∨ copy_step p p' → faithful p → faithful p'.
Proof. intros [?|?]; [by apply peer_faithful|by apply copy_faithful]. Qed.

Lemma start_faithful p : faithful p → faithful (start_copy p).
Proof. intros [Hs _]. by split. Qed.

Lemma step_good r r' : step r r' → Forall good_conn (conns r) → Forall good_conn (conns r').
Proof.
  destruct 1 as [| |cs|cs|cs i up Hi|cs i up Hi|cs i up up' Hi Hm|cs i up up' down Hi Hm|cs i up down down' Hi Hm];
    cbn; intros Hg; try done.
  - apply Forall_app. split; [done|]. by constructor.
  - pose proof (Forall_lookup_1 _ _ _ _ Hg Hi). by apply Forall_insert.
  - pose proof (Forall_lookup_1 _ _ _ _ Hg Hi). apply Forall_insert; [done|]. split; [by apply start_faithful|by split].
  - pose proof (Forall_lookup_1 _ _ _ _ Hg Hi). apply Forall_insert; [done|]. by eapply peer_faithful.
  - destruct (Forall_lookup_1 _ _ _ _ Hg Hi). apply Forall_insert; [done|]. split; [by eapply moves_faithful|done].
  - destruct (Forall_lookup_1 _ _ _ _ Hg Hi). apply Forall_insert; [done|]. split; [done|by eapply moves_faithful].
Qed.

Lemma reachable_good r : rtc step Starting r → Forall good_conn (conns r).
Proof. intros Hr. eapply (rtc_invariant step (λ r, Forall good_conn (conns r))); [apply step_good|done|constructor]. Qed.

(** *** The copies alone bring over what was sent *)

Definition drained (p : pipe) : pipe := mkPipe Copying (p_sent p) [] [] (p_delivered p ++ p_buf p ++ p_pending p) (p_closed p).

Lemma copy_drains p : p_state p = Copying → rtc copy_step p (drained p).
Proof.
  destruct p as [st s pending buf d closed]. cbn. intros ->.
  assert (∀ pending d, rtc copy_step (mkPipe Copying s pending [] d closed) (mkPipe Copying s [] [] (d ++ pending) closed)) as Hread.
  { clear. intros pending. induction pending as [|b pending IH]; intros d; [by rewrite app_nil_r|].
    eapply rtc_l; [apply (copy_read s [b] pending); [done|done]|].
    eapply rtc_l; [apply (copy_write s pending [b] []); done|]. specialize (IH (d ++ [b])). by rewrite <- app_assoc in IH. }
  unfold drained. cbn. destruct buf as [|b buf]; [apply Hread|].
  eapply rtc_l; [|rewrite app_assoc; apply Hread].
  pose proof (copy_write s pending (b :: buf) [] d closed) as Hw. rewrite app_nil_r in Hw. by apply Hw.
Qed.

Lemma lift_up cs i up up' down : cs !! i = Some (Linked up down) → rtc copy_step up up' →
  rtc step (Serving cs) (Serving (<[i := Linked up' down]> cs)).
Proof.
  intros Hi Hr. revert cs Hi. induction Hr as [up|up up1 up2 Hs _ IH]; intros cs Hi; [by rewrite list_insert_id|].
  eapply rtc_l; [eapply up_moves; [done|by right]|].
  rewrite <- (list_insert_insert_eq cs i (Linked up2 down) (Linked up1 down)). apply IH.
  apply list_lookup_insert_eq. by eapply lookup_lt_Some.
Qed.

Lemma lift_down cs i up down down' : cs !! i = Some (Linked up down) → rtc copy_step down down' →
  rtc step (Serving cs) (Serving (<[i := Linked up down']> cs)).
Proof.
  intros Hi Hr. revert cs Hi. induction Hr as [down|down down1 down2 Hs _ IH]; intros cs Hi; [by rewrite list_insert_id|].
  eapply rtc_l; [eapply down_moves; [done|by right]|].
  rewrite <- (list_insert_insert_eq cs i (Linked up down2) (Linked up down1)). apply IH.
  apply list_lookup_insert_eq. by eapply lookup_lt_Some.
Qed.

(** However the connections, their peers and the copies interleave, what
    one end of a connection has got is a prefix of what the other has sent, all
    of it once a copy has returned at the end of the stream; and as long as
    both copies of a connection run, they need nobody else to bring over all
    that was sent, in both directions. *)
Theorem relay_transparent (r : relay) (i : nat) (up down : pipe) (Hr : rtc step Starting r)
    (Hi : conns r !! i = Some (Linked up down)) :
  (∀ p, p = up ∨ p = down → p_delivered p `prefix_of` p_sent p ∧ (p_state p = AtEnd → p_delivered p = p_sent p)) ∧
  (∀ cs, r = Serving cs → p_state up = Copying → p_state down = Copying →
    ∃ up' down', rtc step r (Serving (<[i := Linked up' down']> cs)) ∧
      p_delivered up' = p_sent up ∧ p_delivered down' = p_sent down).
Proof.
  pose proof (Forall_lookup_1 _ _ _ _ (reachable_good _ Hr) Hi) as [Hup Hdown]. split.
  - intros p Hp. assert (faithful p) as [Hs Hst] by (destruct Hp; by subst). split; [rewrite Hs; by eexists|].
    intros E. rewrite E in Hst. apply Hst.
  - intros cs -> Hu Hd. cbn in Hi. exists (drained up), (drained down). split; [|split; [symmetry; apply Hup|symmetry; apply Hdown]].
    etransitivity; [eapply lift_up; [exact Hi|by apply copy_drains]|].
    rewrite <- (list_insert_insert_eq cs i (Linked (drained up) (drained down)) (Linked (drained up) down)).
    eapply lift_down; [|by apply copy_drains]. apply list_lookup_insert_eq. by eapply lookup_lt_Some.
Qed.

(** A request passes while the answer is on its way. *)
Definition busy_up : pipe := mkPipe Copying [1; 2; 3]%Z [3]%Z [2]%Z [1]%Z false.
Definition busy_down : pipe := mkPipe Copying [7]%Z [7]%Z [] [] false.

Lemma busy_reachable : rtc step Starting (Serving [Linked busy_up busy_down]).
Proof.
  eapply rtc_l; [apply listen_ok|]. eapply rtc_l; [apply accept_ok|].
  eapply rtc_l; [apply (client_moves _ 0 fresh_pipe); [done|apply (peer_send _ _ _ _ _ [1; 2; 3]%Z)]|].
  eapply rtc_l; [by eapply (dial_ok _ 0)|].
  eapply rtc_l; [eapply (up_moves _ 0); [done|right; by apply (copy_read _ [1; 2]%Z [3]%Z); [|done]]|].
  eapply rtc_l; [eapply (up_moves _ 0); [done|right; by apply (copy_write _ _ [1]%Z [2]%Z)]|].
  eapply rtc_l; [eapply (down_moves _ 0); [done|left; apply (peer_send _ _ _ _ _ [7]%Z)]|]. done.
Qed.

Lemma relay_transparent_witness :
  ∃ up' down', rtc step (Serving [Linked busy_up busy_down]) (Serving [Linked up' down']) ∧
    p_delivered up' = [1; 2; 3]%Z ∧ p_delivered down' = [7]%Z.
Proof.
  destruct (relay_transparent _ 0 busy_up busy_down busy_reachable eq_refl) as [_ H].
  exact (H _ eq_refl eq_refl eq_refl).
Defined.
