(* ===== verification/ReconcilerTheorems.v ===== *)
(** * The protocol between controller and node: theorems

    One pass of the node's reconciler, and what the controller makes of the
    status it writes. *)

From S2P Require Import Prelude GoStrings Api GoRuntime Mutx Exec Utils Config NodeService HostPath Kube.
From S2P Require Import LogicVolumeService LvmParse Lvmd Bcache Partition Volume Reconciler LvmSpec VolumeCorrect.
From S2P Require Import ReconcilerCorrect LvmTools LvmSim.

#[local] Open Scope string_scope.
#[local] Open Scope list_scope.
#[local] Open Scope Z_scope.

Import LogicVolumeReconciler.

Section theorems.
Context {N K : Type} `{HasLocks N} `{!HasLocksLaws N} `{!Lvm2 N} `{!Lvm2Laws N}.
Context `{!Bcache N} `{!BcacheLaws N} `{!GoRuntime} `{!PartitionManager N} `{!HostManager N}.
Context `{KubeClient K} `{!KubeLaws K} `{!Notifier K} `{!NoticeLaws K}.

(** What a write of the reconciler says, given the object it was started for
    and the lvm states before and after. *)
Definition truthful (lv : LogicVolume) (l l' : lvm) (c : api_call) : Prop :=
  let group := ls_DeviceGroup (lv_Spec lv) in
  match c with
  | ApiUpdateStatus o =>
      lv_Deleting lv = false ∧
      (st_VolumeID (lv_Status lv) = "" ∧ create_report lv o l l' ∨
       st_VolumeID (lv_Status lv) ≠ "" ∧
         expand_report (display_fails (St:=N) (VolumePrefix +:+ lv_Name lv) group) lv o l')
  | ApiPatch old new =>
      lv_Deleting lv = true ∧ old = lv ∧
      lv_Finalizers new = SliceRemoveString (lv_Finalizers lv) LogicVolumeFinalizer ∧
      l_lvs l' !! (group, vol_name (lv_Name lv)) = None
  | _ => False
  end.

Lemma Reconcile_ok (name : string) (s : N * K) (v : View) (k1 : K) (lv : LogicVolume)
    (Hlook : look s.2 = (Done v, k1)) (Hget : vw_cache_lv v name = (lv, None))
    (Htype : volume_type lv = LvmVolumeType)
    (Hnames : ok_names (lv_Name lv) (ls_DeviceGroup (lv_Spec lv)))
    (Hgroup : ls_DeviceGroup (lv_Spec lv) ≠ "") (Hsize : is_u64 (ls_Size (lv_Spec lv)))
    (Hwf : wf_lvm (view s.1)) :
  wp (Reconcile name) (λ _ s', get_locks s'.1 = get_locks s.1 ∧ wf_lvm (view s'.1) ∧
    (calls s'.2 = calls s.2 ∨
     ∃ c, calls s'.2 = calls s.2 ++ [c] ∧ truthful lv (view s.1) (view s'.1) c)) s.
Proof.
  destruct (wp_run _ _ _ _ _ (look_law s.2) Hlook) as [Hc1 _].
  unfold Reconcile. apply wp_bind, wp_on_snd. unfold wp at 1. rewrite Hlook, Hget.
  assert (∀ (m : M (N * K) (option error)), m = mret None →
    wp m (λ _ s', get_locks s'.1 = get_locks s.1 ∧ wf_lvm (view s'.1) ∧
    (calls s'.2 = calls s.2 ∨
     ∃ c, calls s'.2 = calls s.2 ++ [c] ∧ truthful lv (view s.1) (view s'.1) c)) (s.1, k1)) as Hnop.
  { intros m ->. apply wp_ret. simpl. auto. }
  destruct (lv_Deleting lv) eqn:Hdel; cbn [negb].
  - destruct (ContainsString _ _); cbn [negb]; [|by apply Hnop].
    eapply wp_mono; [apply removeLVIfExists_lvm; [done|apply Hnames|apply Hnames|done]|].
    intros _ s' (HL & Hw & _ & Hcs). simpl in *. rewrite Hc1 in Hcs. split; [done|]. split; [done|].
    destruct Hcs as [Hcs|[(lv' & Hcs & Hf) Hgone]]; [by left|]. right. eexists. split; [done|]. by simpl.
  - destruct (String.eqb_spec (st_VolumeID (lv_Status lv)) "") as [Hid|Hid].
    + destruct (decide (st_Code (lv_Status lv) = OK)) as [Hok|Hok].
      * eapply wp_mono; [by apply createLV_lvm|]. intros _ s' (HL & Hw & Hcs). simpl in *.
        rewrite Hc1 in Hcs. split; [done|]. split; [done|].
        destruct Hcs as [Hcs|(o & Hcs & Ho)]; [by left|]. right. eexists. split; [done|]. simpl. auto.
      * apply Hnop. unfold createLV. by rewrite bool_decide_eq_false_2.
    + destruct (st_CurrentSize (lv_Status lv)) as [cur|] eqn:Hcur.
      2:{ apply Hnop. unfold expandLV. by rewrite Hcur. }
      destruct (Z.leb_spec (ls_Size (lv_Spec lv)) cur) as [Hle|Hlt].
      { apply Hnop. unfold expandLV. rewrite Hcur. by destruct (Z.leb_spec (ls_Size (lv_Spec lv)) cur); [|lia]. }
      eapply wp_mono; [by eapply expandLV_lvm|]. intros _ s' (HL & Hw & Hcs). simpl in *.
      rewrite Hc1 in Hcs. split; [done|]. split; [done|].
      destruct Hcs as [Hcs|(o & Hcs & Ho)]; [by left|]. right. eexists. split; [done|]. simpl. auto.
Qed.


(** [C39] A failed expansion is never reported to the caller: the status the
    node writes keeps the old size, also when its code says that the disk is
    full, and the controller looks at the code only once the sizes agree; it
    polls until its deadline, however long that is. *)
Theorem failed_expansion_times_out (lv : LogicVolume) (e : error) (cur : Z) (ticks : nat) (ctxErr : error) (k : K)
    (Hcur : st_CurrentSize (lv_Status lv) = Some cur) (Hlt : cur < ls_Size (lv_Spec lv))
    (Hreads : ∀ k, wp (RetryGetter.Get_lv (lv_Name lv)) (λ r _, r = (expanded (Some e) lv, None)) k) :
  (Error e = ResourceExhausted → st_Code (lv_Status (expanded (Some e) lv)) = ResourceExhaustedCode) ∧
  wp (LogicVolumeService.wait_expanded ticks ctxErr (lv_Name lv)) (λ err _, err = Some ctxErr) k.
Proof.
  split. { intros He. unfold expanded, failed. rewrite He. by destruct lv. }
  revert k. induction ticks as [|ticks IH]; intros k; cbn [LogicVolumeService.wait_expanded]; [by apply wp_ret|].
  apply wp_bind. eapply wp_mono; [apply Hreads|]. intros r k' ->. cbv zeta.
  assert (st_CurrentSize (lv_Status (expanded (Some e) lv)) = Some cur) as -> by by destruct lv.
  assert (lv_Spec (expanded (Some e) lv) = lv_Spec lv) as -> by by destruct lv.
  destruct (Z.eqb_spec cur (ls_Size (lv_Spec lv))); [lia|]. apply IH.
Qed.
End theorems.

(** ** On the simulated node *)

(** A node without raw disks and host directories, whose capacity reporter
    always answers. *)
#[export] Instance no_raw_disks : PartitionManager (Node lvm) := {|
  CreatePartition _ _ _ := mret (Some (ErrString "no raw disk"));
  UpdatePartition _ _ _ := mret (Some (ErrString "no raw disk"));
  DeletePartition _ _ := mret (Some (ErrString "no raw disk"));
  DeletePartitionByPartNumber _ _ := mret (Some (ErrString "no raw disk"));
  ScanDisk _ := mret (zero_DiskoDisk, Some (ErrString "no raw disk"));
  ScanAllDisk _ := mret (∅, None);
  ListDevicesDetail _ := mret ([], None);
  ListDevicesDetailWithoutFilter _ := mret ([], None);
  GetDiskUsed _ := mret (0, None)
|}.

#[export] Instance no_host_paths : HostManager (Node lvm) := {|
  HostCreateVolume _ _ := mret (Some (ErrString "no host path"));
  HostDeleteVolume _ _ := mret (Some (ErrString "no host path"))
|}.

#[export] Instance prompt_reporter C : Notifier (Ctl C) := {| notice _ := mret true; notify _ := mret () |}.

#[export] Instance prompt_reporter_laws C `{Kube C} : NoticeLaws (Ctl C).
Proof. by split. Qed.

Definition requested (name : string) : LogicVolume :=
  LogicVolumeService.new_lv "default" "pvc" "n1" "carina-vg-ssd" name 5 (mkOwner "" "" "" "" None None)
    {[VolumeManagerType := LvmVolumeType]}.

Definition sim_agent (lvs : list LogicVolume) : Node lvm * Ctl (list LogicVolume) :=
  (sim_node, sample_ctl lvs).

(** The volumes and the status after a run. *)
Definition status_of {A} (r : A * (Node lvm * Ctl (list LogicVolume))) : list LogicVolumeStatus :=
  lv_Status <$> ct_world r.2.2.


(** A server that always answers with the same object. *)
Definition const_kube (lv : LogicVolume) : Kube unit := {|
  kube_view _ :=
    (mkView (λ _, (lv, None)) (λ _, (lv, None)) (λ _, ([lv], None)) (λ _, ([lv], None)) ([lv], None)
       (λ n, (sample_nsr n, None)) (λ n, (sample_nsr n, None))
       (λ n, (sample_node n, None)) (λ n, (sample_node n, None)) (λ _, ([], None))
       (λ _ _, (∅, None)) (λ _ _, (∅, None)) no_objects, ());
  kube_call _ _ := (None, ());
  kube_now _ := "now"
|}.

Definition grown (name : string) : LogicVolume :=
  set_lv_Status (mkLvStatus ("volume-" +:+ name) OK "" (Some (4 * GiB)) "Success" 252 0) (requested name).

Definition full_disk : error := ErrString ResourceExhausted.

Lemma failed_expansion_times_out_witness :
  (Error full_disk = ResourceExhausted →
    st_Code (lv_Status (expanded (Some full_disk) (grown "pvc-2"))) = ResourceExhaustedCode) ∧
  wp (LogicVolumeService.wait_expanded (H:=Ctl_client unit (H:=const_kube (expanded (Some full_disk) (grown "pvc-2"))))
        100 (ErrCtx "deadline") "pvc-2")
    (λ err _, err = Some (ErrCtx "deadline")) (mkCtl ∅ [] [] [] ()).
Proof.
  apply (failed_expansion_times_out (grown "pvc-2") full_disk (4 * GiB) 100 (ErrCtx "deadline")).
  - reflexivity.
  - vm_compute. reflexivity.
  - intros k. unfold wp. simpl. reflexivity.
Defined.
