(* ===== verification/TroubleShootTheorems.v ===== *)
(** * Cleaning up removes orphans only

    A pass of [cleanupOrphanVolume] removes no volume that has an object or a
    [PersistentVolume], and a pass of [cleanupOrphanPartition] no partition
    that has an object or that is not Carina's. *)

From S2P Require Import Prelude GoStrings Api GoRuntime Mutx Exec Utils Config NodeService HostPath Kube.
From S2P Require Import LogicVolumeService LvmParse Lvmd Bcache Partition PartitionCorrect PartitionTheorems Volume.
From S2P Require Import Reconciler Capacity DeviceCheck TroubleShoot LvmSpec VolumeCorrect ReconcilerCorrect LvmTools LvmSim.
From S2P Require Import ReconcilerTheorems.

#[local] Open Scope string_scope.
#[local] Open Scope list_scope.
#[local] Open Scope Z_scope.

Import troubleShoot.

(** ** The expected names *)

Lemma foldl_expected {A} (skip : A → bool) (f : A → string) (l : list A) m x :
  x ∈ foldl (λ m a, if skip a then m else {[f a]} ∪ m) m l ↔ x ∈ (m : gset string) ∨ ∃ a, a ∈ l ∧ skip a = false ∧ x = f a.
Proof.
  revert m. induction l as [|a l IH]; intros m; simpl.
  { split; [by left|]. intros [?|(a & []%not_elem_of_nil & _)]. done. }
  rewrite IH. clear IH. setoid_rewrite elem_of_cons.
  destruct (skip a) eqn:Hs; rewrite ?elem_of_union, ?elem_of_singleton; split.
  - intros [?|(b & ? & ?)]; eauto 6.
  - intros [?|(b & [->|?] & ? & ?)]; [auto|congruence|eauto].
  - intros [[->|?]|(b & ? & ?)]; eauto 6.
  - intros [?|(b & [->|?] & ? & ?)]; eauto.
Qed.

Lemma elem_of_expected_volumes items x :
  x ∈ expected_volumes items ↔
    ∃ lv, lv ∈ items ∧ LogicVolumeReconciler.volume_type lv ≠ RawVolumeType ∧ x = VolumePrefix +:+ lv_Name lv.
Proof.
  unfold expected_volumes. rewrite (foldl_expected (λ v, String.eqb (mget (lv_Annotations v) VolumeManagerType) RawVolumeType)
    (λ v, VolumePrefix +:+ lv_Name v)).
  setoid_rewrite String.eqb_neq. rewrite elem_of_empty.
  split; [intros [[]|?]; done|auto].
Qed.

Lemma elem_of_expected_partitions items x :
  x ∈ expected_partitions items ↔
    ∃ lv, lv ∈ items ∧ LogicVolumeReconciler.volume_type lv ≠ LvmVolumeType ∧ x = PartitionName (lv_Name lv).
Proof.
  unfold expected_partitions. rewrite (foldl_expected (λ v, String.eqb (mget (lv_Annotations v) VolumeManagerType) LvmVolumeType)
    (λ v, PartitionName (lv_Name v))).
  setoid_rewrite String.eqb_neq. rewrite elem_of_empty.
  split; [intros [[]|?]; done|auto].
Qed.

(** ** Volumes *)

Lemma listed_volume l rows : wf_lvm l → rows ≡ₚ List.filter carina_lv (map_to_list (l_lvs l)).*2 →
  ∀ v, v ∈ rows → l_lvs l !! (lvi_VGName v, lvi_LVName v) = Some v ∧ carina_lv v = true.
Proof.
  intros Hwf Hrows v. rewrite Hrows, list_elem_of_In, filter_In, <- list_elem_of_In, list_elem_of_fmap.
  intros [([[vg n] i] & -> & Hi%elem_of_map_to_list) Hca]. simpl in *.
  by destruct (wf_lvs _ Hwf _ _ _ Hi) as (-> & -> & _).
Qed.

Lemma listed_complete l rows : wf_lvm l → rows ≡ₚ List.filter carina_lv (map_to_list (l_lvs l)).*2 →
  ∀ vg n i, l_lvs l !! (vg, n) = Some i → carina_lv i = true → i ∈ rows ∧ lvi_VGName i = vg ∧ lvi_LVName i = n.
Proof.
  intros Hwf Hrows vg n i Hi Hca. destruct (wf_lvs _ Hwf _ _ _ Hi) as (Hvg & Hn & _). split; [|done].
  rewrite Hrows, list_elem_of_In, filter_In, <- list_elem_of_In, list_elem_of_fmap. split; [|done].
  exists ((vg, n), i). split; [done|]. by apply elem_of_map_to_list.
Qed.

Section volumes.
Context {N K : Type} `{HasLocks N} `{!HasLocksLaws N} `{!Lvm2 N} `{!Lvm2Laws N}.
Context `{!Bcache N} `{!BcacheLaws N} `{!GoRuntime} `{!PartitionManager N} `{!DiskSystem N}.
Context `{KubeClient K} `{!KubeLaws K} `{!Notifier K} `{!NoticeLaws K}.
Context (NodeName : string).

(** Among the [views] read, one lists no object for the volume, and one shows
    no [PersistentVolume] of its name. *)
Definition orphan (views : list View) (name : string) : Prop :=
  HasPrefix name VolumePrefix = true ∧
  (∃ v items, v ∈ views ∧ vw_cache_by_node v NodeName = (items, None) ∧ name ∉ expected_volumes items) ∧
  ∃ w, w ∈ views ∧ po_Name (ob_pv (vw_objects w) (pv_of name)).1 = "".

(** The write that gives a volume its object back. *)
Definition repair (views : list View) (name : string) (c : api_call) : Prop :=
  ∃ w pv handle attrs, w ∈ views ∧ (ob_pv (vw_objects w) (pv_of name)).1 = pv ∧ po_Name pv ≠ "" ∧
    po_CSI pv = Some (handle, attrs) ∧ c = ApiCreate (repaired pv handle attrs).

(** The state [s'] in the course of a pass that started in [s]. *)
Record cleaned (s s' : N * K) : Prop := {
  cl_locks : get_locks s'.1 = get_locks s.1;
  cl_wf : wf_lvm (view s'.1);
  cl_sub : l_lvs (view s'.1) ⊆ l_lvs (view s.1);
  cl_removed k i : l_lvs (view s.1) !! k = Some i → l_lvs (view s'.1) !! k = None →
    ∃ name, orphan (seen s'.2) name ∧ doomed (view s.1) k.1 name k i;
  cl_calls : ∃ cs, calls s'.2 = calls s.2 ++ cs ∧ Forall (λ c, ∃ name, repair (seen s'.2) name c) cs;
  cl_seen : ∃ vs, seen s'.2 = seen s.2 ++ vs
}.

(** The volume is expected, or it got its object back, or it is gone, or its
    deletion failed. *)
Definition settled (s' : N * K) (name vg : string) : Prop :=
  HasPrefix name VolumePrefix = false ∨
  (∃ v items, v ∈ seen s'.2 ∧ vw_cache_by_node v NodeName = (items, None) ∧ name ∈ expected_volumes items) ∨
  (∃ c, c ∈ calls s'.2 ∧ repair (seen s'.2) name c) ∨
  l_lvs (view s'.1) !! (vg, name) = None ∨
  ∃ (n n' : N) e, LocalVolumeImplement.DeleteVolume name vg n = (Done (Some e), n').

(** [cleaned] and [settled] survive what comes later. *)
Lemma orphan_mono vs vs' name : vs ⊆ vs' → orphan vs name → orphan vs' name.
Proof.
  intros Hsub (Hp & (v & items & Hv & Hitems) & w & Hw & Hpv).
  split; [done|]. split; [exists v, items; auto|exists w; auto].
Qed.
Lemma repair_mono vs vs' name c : vs ⊆ vs' → repair vs name c → repair vs' name c.
Proof. intros Hsub (w & pv & h & a & Hw & ?). exists w, pv, h, a. auto. Qed.

Lemma settled_mono s1 s2 name vg :
  seen s1.2 ⊆ seen s2.2 → calls s1.2 ⊆ calls s2.2 → l_lvs (view s2.1) ⊆ l_lvs (view s1.1) →
  settled s1 name vg → settled s2 name vg.
Proof.
  intros Hseen Hcalls Hlv [?|[(v & items & Hv & ?)|[(c & Hc & Hr)|[Hnone|?]]]].
  - by left.
  - right. left. exists v, items. auto.
  - do 2 right. left. exists c. split; [auto|]. by eapply repair_mono.
  - do 3 right. left. by eapply lookup_weaken_None.
  - by do 4 right.
Qed.

Lemma doomed_mono l l' vg name k i : l_lvs l ⊆ l_lvs l' → doomed l vg name k i → doomed l' vg name k i.
Proof.
  intros Hsub [Hk [?|[?|(i0 & Hi0 & ?)]]]; split; auto. right. right. exists i0. split; [|done].
  by eapply lookup_weaken.
Qed.

Lemma seen_sub (s s' : N * K) vs : seen s'.2 = seen s.2 ++ vs → seen s.2 ⊆ seen s'.2.
Proof. intros ->. set_solver. Qed.

(** Reading does not undo anything. *)
Lemma cleaned_reads s s1 s2 vs :
  get_locks s2.1 = get_locks s1.1 → view s2.1 = view s1.1 → calls s2.2 = calls s1.2 → seen s2.2 = seen s1.2 ++ vs →
  cleaned s s1 → cleaned s s2.
Proof.
  intros HL Hv Hc Hs [HL1 Hwf Hsub Hrm (cs & Hcs & Hrep) (vs1 & Hvs)].
  pose proof (seen_sub s1 s2 vs Hs) as Hseen.
  split; rewrite ?Hv; [congruence|done|done| | |].
  - intros k i Hk Hnone. destruct (Hrm k i Hk Hnone) as (name & Ho & Hd). exists name. split; [|done].
    by eapply orphan_mono.
  - exists cs. split; [congruence|]. eapply Forall_impl; [exact Hrep|]. intros c [name Hr]. exists name. by eapply repair_mono.
  - exists (vs1 ++ vs). rewrite Hs, Hvs. by rewrite app_assoc.
Qed.

(** A volume that is not expected and has no [PersistentVolume]. *)
Lemma cleaned_delete s s1 name vg :
  cleaned s s1 → orphan (seen s1.2) name → has_char "/" name = false → valid_name vg →
  wp (LocalVolumeImplement.DeleteVolume name vg) (λ err n', cleaned s (n', s1.2) ∧
    settled (n', s1.2) name vg ∧ l_lvs (view n') ⊆ l_lvs (view s1.1)) s1.1.
Proof.
  intros [HL1 Hwf Hsub Hrm Hcs Hvs] Ho Hslash Hvg. assert (vol_name name = name) as Hvn.
  { unfold vol_name. by destruct Ho as [-> _]. }
  pose proof (DeleteVolume_ok name vg Hslash Hvg s1.1 Hwf) as Hdel.
  apply wp_exists in Hdel as (err & n' & Hrun & HL & Hwf' & Hr). apply wp_exists. exists err, n'. split; [done|].
  assert (l_lvs (view n') ⊆ l_lvs (view s1.1) ∧
    (∀ k i, l_lvs (view s1.1) !! k = Some i → l_lvs (view n') !! k = None → doomed (view s1.1) vg name k i) ∧
    (err = None → l_lvs (view n') !! (vg, name) = None)) as (Hsub' & Hgone & Hok).
  { destruct (decide _); [destruct Hr as [-> ->]; split_and!; [done|congruence|by intros [=]]|].
    destruct Hr as ((_ & Hs & Hd & _) & He). rewrite Hvn in *. split_and!; [done|done|]. intros ->. apply He. }
  split_and!; [|destruct err as [e|]; [|do 3 right; left; by apply Hok]|done].
  - split; simpl; [congruence|done|by etrans| |done|done]. intros k i Hk Hnone.
    destruct (l_lvs (view s1.1) !! k) as [j|] eqn:Hj; [|by apply (Hrm k i)].
    assert (j = i) as -> by (eapply lookup_weaken in Hj; [|exact Hsub]; congruence).
    exists name. split; [done|]. pose proof (Hgone k i Hj Hnone) as Hd. destruct (Hd) as [-> _].
    eapply doomed_mono; [exact Hsub|done].
  - do 4 right. by exists s1.1, n', e.
Qed.

(** The names of volumes and groups are valid, and a volume's
    [PersistentVolume] is one of the CSI driver. *)
Definition csi_volumes : Prop := ∀ k v k' name, look k = (Done v, k') →
  po_Name (ob_pv (vw_objects v) name).1 ≠ "" → is_Some (po_CSI (ob_pv (vw_objects v) name).1).

Lemma check_volume_ok s s1 v items w b :
  csi_volumes → has_char "/" (lvi_LVName v) = false → valid_name (lvi_VGName v) →
  w ∈ seen s1.2 → vw_cache_by_node w NodeName = (items, None) → cleaned s s1 →
  wp (check_volume (expected_volumes items) v b) (λ _ s2, cleaned s s2 ∧ settled s2 (lvi_LVName v) (lvi_VGName v) ∧
    seen s1.2 ⊆ seen s2.2 ∧ calls s1.2 ⊆ calls s2.2 ∧ l_lvs (view s2.1) ⊆ l_lvs (view s1.1)) s1.
Proof.
  intros Hcsi Hslash Hvg Hw Hitems Hcl. unfold check_volume.
  destruct (decide (lvi_LVName v ∈ expected_volumes items)) as [Hin|Hout].
  { rewrite bool_decide_eq_true_2 by done. apply wp_ret. split_and!; [done| |done|done|done].
    right. left. by exists w, items. }
  rewrite bool_decide_eq_false_2 by done. cbn [negb andb].
  destruct (HasPrefix _ _) eqn:Hpre; [|apply wp_ret; split_and!; [done|by left|done|done|done]].
  apply wp_bind, wp_on_snd. pose proof (look_law s1.2) as Hl. apply wp_exists in Hl as (x & k & Hlook & Hc & Hs).
  apply wp_exists. exists x, k. split; [done|]. set (s2 := (s1.1, k)).
  assert (cleaned s s2) as Hcl2 by (by apply (cleaned_reads s s1 s2 [x])).
  assert (seen s1.2 ⊆ seen k) as Hsub by (rewrite Hs; set_solver).
  set (pv := (ob_pv (vw_objects x) (pv_of (lvi_LVName v))).1).
  destruct (String.eqb_spec (po_Name pv) "") as [Hnone|Hsome]; cbn [negb].
  - apply wp_bind, wp_on_fst.
    eapply wp_mono; [apply (cleaned_delete s s2); [done| |done|done]|].
    + split; [done|]. split; [exists w, items; auto|]. exists x. split; [|done]. unfold s2. simpl. rewrite Hs. set_solver.
    + intros err n' (Hc1 & Hset & Hlv).
      destruct err; apply wp_ret; (split_and!; [done|done|done|simpl; by rewrite Hc|done]).
  - destruct (Hcsi _ _ _ _ Hlook Hsome) as [[handle attrs] Hattr]. fold pv in Hattr. rewrite Hattr.
    apply wp_bind, wp_on_snd. eapply wp_mono; [apply call_law|]. intros e k' [Hc' Hs']. apply wp_ret.
    unfold s2 in *. simpl in Hc', Hs'.
    assert (repair (seen k') (lvi_LVName v) (ApiCreate (repaired pv handle attrs))) as Hrep.
    { exists x, pv, handle, attrs. split_and!; try done. rewrite Hs', Hs. set_solver. }
    simpl in *. split_and!.
    + destruct Hcl2 as [? ? ? Hrm (cs & Hcs & Hreps) (vs & Hvs)]. split; simpl in *; rewrite ?Hs'; try done; [|by exists vs].
      exists (cs ++ [ApiCreate (repaired pv handle attrs)]). rewrite Hc', Hcs, app_assoc. split; [done|].
      apply Forall_app. split; [done|]. apply Forall_singleton. rewrite <- Hs'. by eexists.
    + do 2 right. left. eexists. split; [|exact Hrep]. simpl. rewrite Hc'. set_solver.
    + by rewrite Hs'.
    + rewrite Hc', Hc. set_solver.
    + done.
Qed.

End volumes.

(** ** Partitions *)

Section partitions.
Context {W K : Type} `{DiskoLaws W, GoRuntimeLaws} `{KubeClient K} `{!KubeLaws K} `{!Notifier K} `{!NoticeLaws K}.
Context (NodeName : string).

(** Carina's, and not named by the objects of a view. *)
Definition stray (views : list View) (p : DiskoPartition) : Prop :=
  HasPrefix (p_Name p) CarinaPrefix = true ∧
  ∃ v items, v ∈ views ∧ vw_cache_by_node v NodeName = (items, None) ∧ p_Name p ∉ expected_partitions items.

(** The disks [ds'] are [ds] without some of the stray partitions. *)
Definition swept (views : list View) (ds ds' : gmap string DiskoDisk) : Prop :=
  ∀ path, match ds !! path with
          | None => ds' !! path = None
          | Some d => ∃ ps, ds' !! path = Some (set_parts ps d) ∧ ps ⊆ dd_Partitions d ∧
              ∀ n p, dd_Partitions d !! n = Some p → ps !! n = None → stray views p
          end.

Lemma swept_refl views ds : swept views ds ds.
Proof.
  intros path. destruct (ds !! path) as [d|]; [|done]. exists (dd_Partitions d). split_and!; [by destruct d|done|congruence].
Qed.

Lemma swept_mono vs vs' ds ds' : vs ⊆ vs' → swept vs ds ds' → swept vs' ds ds'.
Proof.
  intros Hsub Hs path. specialize (Hs path). destruct (ds !! path) as [d|]; [|done].
  destruct Hs as (ps & Hps & Hin & Hout). exists ps. split_and!; [done|done|]. intros n p Hp Hn.
  destruct (Hout n p Hp Hn) as (Hpre & v & items & Hv & ?). split; [done|]. exists v, items. auto.
Qed.

(** One more stray partition goes. *)
Lemma swept_delete views ds ds' path d n p :
  swept views ds ds' → ds !! path = Some d → dd_Partitions d !! n = Some p → stray views p →
  swept views ds (alter (λ d0, set_parts (delete n (dd_Partitions d0)) d0) path ds').
Proof.
  intros Hs Hd Hp Hst q. specialize (Hs q). destruct (decide (q = path)) as [->|Hne].
  - rewrite Hd in *. destruct Hs as (ps & Hps & Hin & Hout). exists (delete n ps).
    rewrite lookup_alter_eq, Hps. split_and!; [done|by etrans; [apply delete_subseteq|]|].
    intros m r Hr. destruct (decide (m = n)) as [->|Hmn]; [intros _; congruence|].
    rewrite lookup_delete_ne by done. by apply Hout.
  - by rewrite lookup_alter_ne.
Qed.

Lemma swept_ok views ds ds' : disks_ok ds → swept views ds ds' → disks_ok ds'.
Proof.
  intros Hok Hs path d' Hd'. specialize (Hs path). destruct (ds !! path) as [d|] eqn:Hd; [|congruence].
  destruct Hs as (ps & Hps & Hin & _). rewrite Hd' in Hps. injection Hps as ->.
  destruct (Hok _ _ Hd) as [Hpath Hwf]. split; [done|]. by apply wf_disk_sub.
Qed.

Lemma DeletePartitionByPartNumber_ok (disk : DiskoDisk) (num : Z) (n : Node W) :
  wp (LocalPartitionImplement.DeletePartitionByPartNumber disk num) (λ err n', nd_locks n' = nd_locks n ∧
    (err ≠ None ∧ disks_of n' = disks_of n ∨
     disks_of n' = alter (λ d0, set_parts (delete num (dd_Partitions d0)) d0) (dd_Path disk) (disks_of n))) n.
Proof.
  unfold LocalPartitionImplement.DeletePartitionByPartNumber. apply wp_locked; last first.
  { intros e n3 (Hl & _ & Hd). split; [done|]. by left. }
  intros n1 (Hl1 & _ & Hd1). simpl in Hl1. change (disks_of n1 = disks_of n) in Hd1.
  apply wp_bind, wp_sys. pose proof (DeletePartition_law disk num (nd_world n1)) as Hdel.
  destruct (sys_DeletePartition disk num (nd_world n1)) as [[e|] w]; cbn [fst snd] in *.
  - apply wp_ret. split; [done|]. intros n3 Hl3 _ Hd3. split; [done|]. left. split; [done|].
    rewrite Hd3. etrans; [exact Hdel|exact Hd1].
  - apply wp_bind, wp_set_cache. eapply wp_mono; [apply wp_PartProbe|]. intros e n2 (Hl2 & _ & Hd2).
    split; [by rewrite Hl2|]. intros n3 Hl3 _ Hd3. split; [done|]. right. rewrite Hd3, Hd2.
    etrans; [exact Hdel|]. by rewrite <- Hd1.
Qed.

(** What became of the partition number [num], [p], of the disk [path]: it is
    not Carina's, or has an object, or is gone, or its deletion failed. *)
Definition dealt (items : list LogicVolume) (ds' : gmap string DiskoDisk) (path : string) (num : Z) (p : DiskoPartition) : Prop :=
  HasPrefix (p_Name p) CarinaPrefix = false ∨ p_Name p ∈ expected_partitions items ∨
  (∀ d, ds' !! path = Some d → dd_Partitions d !! num = None) ∨
  ∃ disk (n n' : Node W) e, LocalPartitionImplement.DeletePartitionByPartNumber disk num n = (Done (Some e), n').

Section disk.
Context (items : list LogicVolume) (views : list View) (n0 : Node W) (Hok : disks_ok (disks_of n0)).
Context (Hread : ∃ v, v ∈ views ∧ vw_cache_by_node v NodeName = (items, None)).

Definition sweeping (n : Node W) : Prop := nd_locks n = nd_locks n0 ∧ swept views (disks_of n0) (disks_of n).

(** Later deletions keep what is gone gone. *)
Lemma dealt_mono (ds' : gmap string DiskoDisk) path q num m p :
  dealt items ds' path num p →
  dealt items (alter (λ d0, set_parts (delete m (dd_Partitions d0)) d0) q ds') path num p.
Proof.
  intros [?|[?|[Hgone|?]]]; [by left|by right; left| |by do 3 right]. do 2 right. left. intros d.
  destruct (decide (path = q)) as [->|Hne]; [|rewrite lookup_alter_ne by done; apply Hgone].
  rewrite lookup_alter_eq. destruct (ds' !! q) as [d0|] eqn:Hd0; [|done]. intros [= <-]. simpl.
  apply lookup_delete_None. right. by apply Hgone.
Qed.

Lemma check_partition_ok path d disk num p b n :
  disks_of n0 !! path = Some d → dd_Path disk = path → dd_Partitions d !! num = Some p → sweeping n →
  wp (check_partition (expected_partitions items) disk p b) (λ _ n', sweeping n' ∧
    dealt items (disks_of n') path num p ∧
    ∀ q m r, dealt items (disks_of n) q m r → dealt items (disks_of n') q m r) n.
Proof.
  intros Hd Hpath Hp [HL Hsw]. unfold check_partition.
  destruct (HasPrefix _ _) eqn:Hpre; cbn [negb]; [|apply wp_ret; split_and!; [done|by left|done]].
  destruct (decide (p_Name p ∈ expected_partitions items)) as [Hin|Hout].
  { rewrite bool_decide_eq_true_2 by done. apply wp_ret. split_and!; [done|by right; left|done]. }
  rewrite bool_decide_eq_false_2 by done.
  destruct (Hok _ _ Hd) as [_ Hwf]. destruct (wf_part _ Hwf _ _ Hp) as [Hnum _]. rewrite Hnum.
  assert (stray views p) as Hstray.
  { split; [done|]. destruct Hread as (v & Hv & Hi). by exists v, items. }
  pose proof (DeletePartitionByPartNumber_ok disk num n) as Hdel.
  apply wp_exists in Hdel as (err & n' & Hrun & HL' & Hds). eapply wp_bind_run; [exact Hrun|].
  assert (sweeping n' ∧ (err = None → ∀ d', disks_of n' !! path = Some d' → dd_Partitions d' !! num = None) ∧
    ∀ q m r, dealt items (disks_of n) q m r → dealt items (disks_of n') q m r) as (Hsw' & Hgone & Hmono).
  { destruct Hds as [[Hne Hds]|Hds]; rewrite Hds.
    - split_and!; [|done|done]. split; [congruence|]. by rewrite Hds.
    - rewrite Hpath in *. split_and!.
      + split; [congruence|]. rewrite Hds. by eapply swept_delete.
      + intros _ d'. rewrite lookup_alter_eq. destruct (disks_of n !! path); [|done]. intros [= <-]. simpl.
        apply lookup_delete_eq.
      + intros q m r. apply dealt_mono. }
  destruct err as [e|]; apply wp_ret; (split_and!; [done| |done]).
  - do 3 right. by exists disk, n, n', e.
  - do 2 right. left. by apply Hgone.
Qed.

(** All partitions of a disk, as a scan showed them. *)
Lemma check_disk_ok path d ps b n :
  disks_of n0 !! path = Some d → ps ⊆ dd_Partitions d → sweeping n →
  wp (for_acc (map_range 65 ps) b (λ kp, check_partition (expected_partitions items) (set_parts ps d) kp.2)) (λ _ n',
    sweeping n' ∧ (∀ num p, ps !! num = Some p → dealt items (disks_of n') path num p) ∧
    ∀ q m r, dealt items (disks_of n) q m r → dealt items (disks_of n') q m r) n.
Proof.
  intros Hd Hsub Hn. destruct (Hok _ _ Hd) as [Hpath _].
  eapply wp_mono; [apply (wp_for_acc_rest _ _ _ (λ rest _ n', sweeping n' ∧ (∀ x, x ∈ rest → x ∈ map_range 65 ps) ∧
    (∀ num p, ps !! num = Some p → (num, p) ∈ rest ∨ dealt items (disks_of n') path num p) ∧
    ∀ q m r, dealt items (disks_of n) q m r → dealt items (disks_of n') q m r))|].
  - split_and!; [done|done| |done]. intros num p Hp. left. by apply elem_of_map_range.
  - intros [num p] rest b' n1 (Hn1 & Hrest & Hall & Hmono). cbn [snd].
    assert (ps !! num = Some p) as Hp by (eapply elem_of_map_range, Hrest; by left).
    eapply wp_mono; [eapply (check_partition_ok path d _ num p); [done|done|by eapply lookup_weaken|done]|].
    intros b2 n2 (Hn2 & Hdealt & Hmono2). split_and!; [done|intros; apply Hrest; by right| |auto].
    intros num' p' Hp'. destruct (Hall num' p' Hp') as [[[= -> ->]|?]%elem_of_cons|?]; auto.
  - intros b' n1 (Hn1 & _ & Hall & Hmono). split_and!; [done| |done]. intros num p Hp.
    by destruct (Hall num p Hp) as [?%not_elem_of_nil|?].
Qed.
End disk.

(** What a complete pass has dealt with. *)
Definition all_dealt (rows : list LocalDisk) (items : list LogicVolume) (ds ds' : gmap string DiskoDisk) : Prop :=
  ∀ row d num p, row ∈ rows → ld_Type row ≠ "part" → ds !! ld_Name row = Some d →
    dd_Partitions d !! num = Some p → dealt items ds' (ld_Name row) num p.

Definition scan_failed (rows : list LocalDisk) : Prop :=
  ∃ row w disk e w', row ∈ rows ∧ sys_ScanDisk (ld_Name row) w = ((disk, Some e), w').

(** The loop over the disks. *)
Lemma sweep_rows_ok rows items k (n0 n1 : Node W) :
  disks_ok (disks_of n0) → (∃ v, v ∈ seen k ∧ vw_cache_by_node v NodeName = (items, None)) →
  nd_locks n1 = nd_locks n0 → disks_of n1 = disks_of n0 →
  wp (range rows false (sweep_row (expected_partitions items))) (λ r s', s'.2 = k ∧ sweeping (seen k) n0 s'.1 ∧
    match r with
    | inl _ => all_dealt rows items (disks_of n0) (disks_of s'.1)
    | inr _ => scan_failed rows
    end) (n1, k).
Proof.
  intros Hok Hread HL1 Hd1.
  apply (wp_range _ _ _ (λ rest _ s', s'.2 = k ∧ sweeping (seen k) n0 s'.1 ∧ (∀ x, x ∈ rest → x ∈ rows) ∧
    ∀ row d num p, row ∈ rows → ld_Type row ≠ "part" → disks_of n0 !! ld_Name row = Some d →
      dd_Partitions d !! num = Some p → row ∈ rest ∨ dealt items (disks_of s'.1) (ld_Name row) num p)).
  { split_and!; [done| |done|auto]. split; [done|]. simpl. rewrite Hd1. apply swept_refl. }
  2:{ intros b s' (Hk & Hsw & _ & Hall). split_and!; [done|done|]. intros row d num p Hrow Hty Hd Hp.
      by destruct (Hall row d num p Hrow Hty Hd Hp) as [?%not_elem_of_nil|?]. }
  intros row rest b [n k'] (Hk & Hsw & Hrest & Hall). simpl in Hk, Hsw, Hall. subst k'. unfold sweep_row.
  assert (∀ x, x ∈ rest → x ∈ rows) as Hrest' by (intros; apply Hrest; by right).
  destruct (String.eqb_spec (ld_Type row) "part") as [Hty|Hty].
  { apply wp_ret. split_and!; [done|done|done|]. intros row' d num p Hrow' Hty' Hd Hp.
    destruct (Hall _ _ _ _ Hrow' Hty' Hd Hp) as [[->|?]%elem_of_cons|?]; auto. done. }
  apply wp_bind, wp_on_fst, wp_sys. cbn [fst].
  destruct (ScanDisk_law (ld_Name row) (nd_world n)) as [Hd2 Hr].
  destruct (sys_ScanDisk (ld_Name row) (nd_world n)) as [[disk [e|]] w] eqn:Hscan; cbn [fst snd] in *.
  { apply wp_ret. split_and!; [done| |].
    - destruct Hsw as [HL Hsw]. split; [done|]. simpl. by change (disks_of (mkNode _ _ w _)) with (disks w); rewrite Hd2.
    - exists row, (nd_world n), disk, e, w. split; [apply Hrest; by left|done]. }
  set (n2 := mkNode _ _ w _). assert (disks_of n2 = disks_of n) as Hn2 by exact Hd2.
  assert (sweeping (seen k) n0 n2) as Hsw2.
  { destruct Hsw as [HL Hsw]. split; [done|]. by rewrite Hn2. }
  specialize (Hr eq_refl). change (disks (nd_world n)) with (disks_of n) in Hr.
  pose proof (proj2 Hsw (ld_Name row)) as Hat. rewrite Hr in Hat.
  destruct (disks_of n0 !! ld_Name row) as [d|] eqn:Hd; [|done]. destruct Hat as (ps & [= ->] & Hsub & Hgone).
  apply wp_bind, wp_on_fst. cbn [fst snd dd_Partitions set_parts].
  eapply wp_mono; [by eapply (check_disk_ok items (seen k) n0 Hok Hread (ld_Name row) d ps b)|].
  intros b' n3 (Hsw3 & Hall3 & Hmono). apply wp_ret. split_and!; [done|done|done|].
  intros row' d' num p Hrow' Hty' Hd' Hp. simpl. rewrite Hn2 in Hmono.
  destruct (Hall _ _ _ _ Hrow' Hty' Hd' Hp) as [[->|?]%elem_of_cons|?]; [|by left|by right; apply Hmono].
  right. rewrite Hd in Hd'. injection Hd' as <-. destruct (ps !! num) as [q|] eqn:Hq.
  - assert (q = p) as -> by (eapply lookup_weaken in Hq; [|exact Hsub]; congruence). by apply Hall3.
  - apply Hmono. do 2 right. left. rewrite Hr. by intros d2 [= <-].
Qed.

(** What a pass leaves behind. *)
Definition partitions_result (s : Node W * K) (rows : list LocalDisk) (s' : Node W * K) : Prop :=
  nd_locks s'.1 = nd_locks s.1 ∧ disks_ok (disks_of s'.1) ∧ calls s'.2 = calls s.2 ∧
  swept (seen s'.2) (disks_of s.1) (disks_of s'.1) ∧
  ∃ v, v ∈ seen s'.2 ∧
    match vw_cache_by_node v NodeName with
    | (_, Some _) => True
    | (items, None) => all_dealt rows items (disks_of s.1) (disks_of s'.1) ∨ scan_failed rows
    end.

(** A pass over the partitions, on every branch: it returns, gives its
    locks back, writes nothing to the API server, and the disks differ only by
    partitions that are Carina's and that no object listed for the node
    names.  When the objects were read and the disks could be scanned, every
    partition of the listed disks is dealt with: it is not Carina's, or has an
    object, or is gone, or its deletion reported an error. *)
Theorem orphan_partitions_safe (s : Node W * K) (rows : list LocalDisk) (err : option error) (n1 : Node W)
    (Hok : disks_ok (disks_of s.1)) (Hlist : ListDevicesDetail "" s.1 = (Done (rows, err), n1))
    (Hquiet : nd_locks n1 = nd_locks s.1 ∧ disks_of n1 = disks_of s.1) :
  wp (cleanupOrphanPartition NodeName) (λ _ s', partitions_result s rows s') s.
Proof.
  destruct Hquiet as [HL1 Hd1]. unfold cleanupOrphanPartition. apply wp_bind, wp_on_fst, wp_exists.
  exists (rows, err), n1. split; [done|]. cbn [fst]. apply wp_bind, wp_on_snd.
  eapply wp_mono; [apply look_law|]. intros v k [Hc Hs]. simpl in Hc, Hs.
  assert (v ∈ seen k) as Hv by (rewrite Hs; set_solver).
  destruct (vw_cache_by_node v NodeName) as [items [e|]] eqn:Hitems.
  { apply wp_ret. unfold partitions_result. simpl. rewrite Hd1. split_and!; [done|done|done|apply swept_refl|].
    exists v. by rewrite Hitems. }
  assert (∀ (s' : Node W * K) k', calls k' = calls k ∧ seen k' = seen k → sweeping (seen k) s.1 s'.1 →
    all_dealt rows items (disks_of s.1) (disks_of s'.1) ∨ scan_failed rows → partitions_result s rows (s'.1, k')) as Hend.
  { intros s' k' [Hck Hsk] [HL Hsw] Hd. unfold partitions_result. simpl. rewrite Hck, Hsk.
    split_and!; [done|by eapply swept_ok|done|done|]. exists v. by rewrite Hitems. }
  apply wp_bind. eapply wp_mono; [apply (sweep_rows_ok rows items k s.1); [done|by exists v|done|done]|].
  intros [b|[]] [n' k'] (Hk & Hsw & Hr); simpl in Hk; subst k'; [destruct b|].
  - apply wp_on_snd. eapply wp_mono; [apply notify_law|]. intros ? k' Hk'. simpl. apply (Hend (n', k)); [done|done|by left].
  - apply wp_ret, (Hend (n', k)); [done|done|by left].
  - apply wp_ret, (Hend (n', k)); [done|done|by right].
Qed.
End partitions.

(** ** On the simulated nodes *)


(** The partition of the sample disk has no object, and goes. *)
Lemma orphan_partitions_safe_witness :
  dd_Partitions <$> nd_world (cleanupOrphanPartition "n1" (sample_part_node, sample_ctl [])).2.1 !! "/dev/vdb" = Some ∅ ∧
  wp (cleanupOrphanPartition "n1") (λ _ s',
    partitions_result "n1" (sample_part_node, sample_ctl []) (sim_rows (nd_world sample_part_node)) s')
    (sample_part_node, sample_ctl []).
Proof.
  split; [vm_compute; reflexivity|].
  refine (orphan_partitions_safe "n1" (sample_part_node, sample_ctl []) _ None _ sample_disks_ok _ _).
  - vm_compute. reflexivity.
  - split; reflexivity.
Defined.
