(* ===== verification/CapacityCorrect.v ===== *)
(** * What a node advertises can be used

    The free space in the status of a node is computed by the reporter, spent
    by the controller and the scheduler, and checked by the volume manager of
    the node; the theorems relate the three. *)

From S2P Require Import Prelude GoStrings Api GoRuntime Mutx Exec Utils Config NodeService HostPath Kube.
From S2P Require Import LogicVolumeService LvmParse Lvmd Bcache Partition Volume Reconciler Capacity LvmSpec VolumeCorrect.
From S2P Require Import ReconcilerCorrect LvmTools LvmSim ReconcilerTheorems.

#[local] Open Scope string_scope.
#[local] Open Scope list_scope.
#[local] Open Scope Z_scope.

Import nodeStorageResourceReconciler.

(** ** The arithmetic *)

Lemma freeGb_spec g : is_u64 (vg_VGFree g) →
  0 <= freeGb g ∧
  (∀ req, 1 <= req <= freeGb g → reserve <= vg_VGFree g - req * GiB) ∧
  (DefaultReservedSpace < vg_VGFree g → ∀ req, freeGb g < req → vg_VGFree g - req * GiB < reserve).
Proof.
  intros Hu. unfold freeGb. rewrite reserve_eq.
  change DefaultReservedSpace with (10 * GiB). unfold is_u64, GiB in *.
  destruct (Z.ltb_spec (10 * 2^30) (vg_VGFree g)) as [Hlt|Hle].
  - rewrite u64_sub_fits by (unfold is_u64; lia).
    pose proof (shiftr30_spec (vg_VGFree g - 10 * 2^30)) as Hs. unfold GiB in Hs.
    set (q := Z.shiftr (vg_VGFree g - 10 * 2^30) 30) in *. unfold u64_add.
    rewrite u64_id by (unfold is_u64; lia). rewrite i64_id by (unfold is_i64; lia).
    split_and!; [lia| |]; intros; lia.
  - change (i64 0) with 0. split_and!; [lia| |]; intros; lia.
Qed.

(** ** The LVM part of the status *)

Definition group_key (vg : string) : string := DeviceCapacityKeyPrefix +:+ vg.

(** The entries for the groups of the node, of those that are configured. *)
Definition advertises (groups : gmap string DiskSelectorItem) (l : lvm) (nsr : NodeStorageResource) (vg : string) : Prop :=
  nsr_Allocatable nsr !! group_key vg = if groups !! vg then freeGb <$> l_vgs l !! vg else None.

Lemma foldl_advertise gs s vg :
  NoDup (vg_VGName <$> gs) →
  nsr_Allocatable (foldl advertise_vg s gs) !! group_key vg =
    match List.find (λ g, String.eqb (vg_VGName g) vg) gs with
    | Some g => Some (freeGb g)
    | None => nsr_Allocatable s !! group_key vg
    end.
Proof.
  revert s. induction gs as [|g gs IH]; intros s Hnd; [done|]. rewrite fmap_cons in Hnd.
  apply NoDup_cons in Hnd as [Hg Hnd]. cbn [foldl]. rewrite IH by done. cbn [List.find].
  unfold advertise_vg, advertise. cbn [nsr_Allocatable].
  change (DeviceCapacityKeyPrefix +:+ vg_VGName g) with (group_key (vg_VGName g)).
  destruct (String.eqb_spec (vg_VGName g) vg) as [<-|Hne].
  - destruct (List.find _ gs) as [h|] eqn:Hf; [|by rewrite lookup_insert_eq].
    apply find_some in Hf as [Hh%list_elem_of_In Hn%String.eqb_eq]. exfalso. apply Hg.
    rewrite <- Hn. by apply list_elem_of_fmap_2.
  - destruct (List.find _ gs); [done|]. rewrite lookup_insert_ne; [done|].
    by intros ?%sapp_inj_l.
Qed.

Lemma find_filter {A} (p q : A → bool) (l : list A) :
  (∀ x y, p x = true → p y = true → q x = q y) →
  List.find p (List.filter q l) = match List.find p l with Some x => if q x then Some x else None | None => None end.
Proof.
  intros Hpq. induction l as [|x l IH]; [done|]. cbn [List.filter List.find].
  destruct (p x) eqn:Hp, (q x) eqn:Hq; cbn [List.find]; rewrite ?Hp, ?IH; [done| |done|done].
  destruct (List.find p l) as [y|] eqn:Hf; [|done]. apply find_some in Hf as [_ Hy].
  by rewrite <- (Hpq x y Hp Hy), Hq.
Qed.

Lemma NoDup_names_filter (q : VgGroup → bool) (l : list VgGroup) :
  NoDup (vg_VGName <$> l) → NoDup (vg_VGName <$> List.filter q l).
Proof.
  induction l as [|x l IH]; intros Hnd; [done|]. rewrite fmap_cons in Hnd. apply NoDup_cons in Hnd as [Hx Hnd].
  cbn [List.filter]. destruct (q x); [|auto]. rewrite fmap_cons. apply NoDup_cons. split; [|auto].
  intros (y & Hxy & Hy)%list_elem_of_fmap. apply Hx.
  apply list_elem_of_In, filter_In in Hy as [Hy _]. rewrite Hxy. by apply list_elem_of_fmap_2, list_elem_of_In.
Qed.

(** The groups with their devices, read as rows by name. *)
Lemma find_group_row groups l vg :
  wf_lvm l → groups ≡ₚ group_row l <$> (map_to_list (l_vgs l)).*2 →
  NoDup (vg_VGName <$> groups) ∧
  List.find (λ g, String.eqb (vg_VGName g) vg) groups = group_row l <$> l_vgs l !! vg.
Proof.
  intros Hwf (rows & -> & Hrows)%Permutation_map_inv. symmetry in Hrows.
  destruct (find_row rows l vg Hwf Hrows) as [Hnd Hf]. split.
  { rewrite <- list_fmap_compose. exact Hnd. }
  rewrite <- Hf. clear. induction rows as [|g rows IH]; [done|]. cbn.
  by destruct (String.eqb _ _).
Qed.

Section usable.
Context {N K : Type} `{HasLocks N} `{!HasLocksLaws N} `{!Lvm2 N} `{!Lvm2Laws N}.
Context `{!Bcache N} `{!BcacheLaws N} `{GoRuntimeLaws} `{KubeClient K} `{!KubeLaws K}.
Context (cfg : Settings) (NodeName : string).

(** The groups configured for the node, as one view shows the node. *)
Definition groups_in (v : View) : gmap string DiskSelectorItem :=
  select_groups (DiskSelector cfg) (vw_cache_node v NodeName).

(** A read with the fallback to the API server. *)
Lemma Get_ok {A} (cache api : View → res A) (k : K) :
  wp (RetryGetter.Get cache api) (λ r k', calls k' = calls k ∧ (∃ vs, seen k' = seen k ++ vs) ∧
    match r with
    | (a, None) => ∃ v, v ∈ seen k' ∧ (cache v = (a, None) ∨ api v = (a, None))
    | (_, Some _) => True
    end) k.
Proof.
  apply wp_bind. eapply wp_mono; [apply look_law|]. intros v k1 [Hc Hs].
  destruct (cache v) as [a [e|]] eqn:Hcv.
  - destruct (IsNotFound e); cbn [negb]; [|apply wp_ret; eauto].
    apply wp_bind. eapply wp_mono; [apply look_law|]. intros w k2 [Hc2 Hs2]. apply wp_ret.
    rewrite Hc2, Hs2, Hs. split; [done|]. rewrite <- app_assoc. split; [by eexists|].
    destruct (api w) as [b [e'|]] eqn:Hw; [done|]. exists w. split; [set_solver|by right].
  - apply wp_ret. rewrite Hs. split; [done|]. split; [by eexists|]. exists v. split; [set_solver|by left].
Qed.

Lemma generateLvmStatus_ok (s : N * K) :
  wf_lvm (view s.1) → l_vgs (view s.1) !! "" = None →
  wp (generateLvmStatus cfg NodeName (empty_status NodeName)) (λ status s',
    view s'.1 = view s.1 ∧ calls s'.2 = calls s.2 ∧
    ∃ v, seen s'.2 = seen s.2 ++ [v] ∧
      ((∀ vg, advertises (groups_in v) (view s.1) status vg) ∨ (∀ vg, advertises ∅ (view s.1) status vg))) s.
Proof.
  intros Hwf Hempty. unfold generateLvmStatus, GetNodeDiskSelectGroup. apply wp_bind, wp_bind, wp_on_snd.
  eapply wp_mono; [apply look_law|]. intros v k [Hc Hs]. apply wp_ret, wp_bind, wp_on_fst.
  eapply wp_mono; [by apply GetCurrentVgStruct_ok|]. simpl.
  intros [groups [e|]] n (_ & Hv & Hgs); apply wp_ret; split; [done| |done|]; (split; [done|]);
    exists v; (split; [done|]); [right|left]; intros vg; unfold advertises; [by rewrite lookup_empty|].
  destruct (find_group_row _ _ vg Hwf Hgs) as [Hnd Hf].
  rewrite foldl_advertise by by apply NoDup_names_filter.
  rewrite find_filter, Hf.
  2:{ intros x y ->%String.eqb_eq Hy%String.eqb_eq. by rewrite Hy. }
  unfold groups_in. destruct (l_vgs (view s.1) !! vg) as [g|] eqn:Hg; cbn [fmap option_fmap option_map].
  - destruct (wf_vgs _ Hwf _ _ Hg) as (<- & _). cbn [group_row vg_VGName].
    destruct (select_groups _ _ !! vg_VGName g); [by rewrite bool_decide_eq_true_2|].
    rewrite bool_decide_eq_false_2 by (by intros []). cbn. by rewrite lookup_empty.
  - cbn. rewrite lookup_empty. by destruct (select_groups _ _ !! vg).
Qed.

(** *** The raw disks beside it *)

Context `{!PartitionManager N} `{!Regexp} `{!DiskoMethods} (Fill : DiskoDisk → NsrDisk).

(** Scanning the disks of the node returns. *)
Definition scans_return : Prop :=
  (∀ n, wp (ListDevicesDetail "") (λ _ _, True) (n : N)) ∧
  (∀ l n, wp (ScanAllDisk l) (λ _ _, True) (n : N)).

Lemma advertise_disk_keeps group st d vg :
  has_char "/" vg = false →
  nsr_Allocatable (advertise_disk group st d) !! group_key vg = nsr_Allocatable st !! group_key vg.
Proof.
  intros Hvg. unfold advertise_disk. destruct (sort_slice _ _) as [|f fs]; [done|].
  unfold advertise. cbn [nsr_Allocatable]. apply lookup_insert_ne.
  intros Hk%sapp_inj_l. rewrite <- Hk, !has_char_app in Hvg. simpl in Hvg. by rewrite orb_true_r in Hvg.
Qed.

Lemma generateDiskStatus_keeps status (s : N * K) vg :
  scans_return → has_char "/" vg = false →
  wp (generateDiskStatus Fill cfg NodeName status) (λ status' s',
    nsr_Allocatable status' !! group_key vg = nsr_Allocatable status !! group_key vg ∧
    calls s'.2 = calls s.2 ∧ ∃ v, seen s'.2 = seen s.2 ++ [v]) s.
Proof.
  intros [Hlist Hscan] Hvg. unfold generateDiskStatus, GetNodeDiskSelectGroup. apply wp_bind, wp_bind, wp_on_snd.
  eapply wp_mono; [apply look_law|]. intros v k [Hc Hs]. apply wp_ret, wp_bind, wp_on_fst.
  eapply wp_mono; [apply Hlist|]. intros [disks [e|]] n _; [apply wp_ret; eauto|].
  apply wp_bind.
  eapply wp_mono. 1: eapply (wp_range _ _ _ (λ _ acc s', nsr_Allocatable acc.1 !! group_key vg = nsr_Allocatable status !! group_key vg ∧ s'.2 = k)
    (λ r s', nsr_Allocatable (match r with inl a => a.1 | inr st => st end) !! group_key vg =
      nsr_Allocatable status !! group_key vg ∧ s'.2 = k)).
  - done.
  - intros [group names] l' [st m] [n' k'] [Ha Hk]. simpl in *. subst k'. apply wp_bind, wp_on_fst.
    eapply wp_mono; [apply Hscan|]. intros [set [e|]] n2 _; apply wp_ret; simpl; [done|].
    split; [|done]. rewrite <- Ha. generalize ((map_range 42 set).*2). intros ds. clear.
    revert st. induction ds as [|d ds IH]; intros st; [done|]. cbn [foldl]. by rewrite IH.
  - done.
  - intros [[st m]|st] [n' k'] [Ha Hk]; simpl in *; subst k'; apply wp_ret; simpl; eauto.
    split; [|eauto]. rewrite <- Ha. generalize (map_range 43 m). intros gs. clear - Hvg.
    revert st. induction gs as [|[g ds] gs IH]; intros st; [done|]. cbn [foldl fst snd]. rewrite IH. clear IH.
    revert st. induction ds as [|d ds IH]; intros st; [done|]. cbn [foldl]. rewrite IH.
    by apply advertise_disk_keeps.
Qed.


(** Whatever is advertised for a group, a volume of up to that many GiB passes
    the reservation check of the volume manager, although the reporter rounds
    up and the check keeps back 9 GiB in wrapping arithmetic. *)
Lemma advertised_usable (lv vg : string) (req : Z) (s : N * K)
    (Hnames : ok_names lv vg) (Hwf : wf_lvm (view s.1)) (Hempty : l_vgs (view s.1) !! "" = None) :
  wp (generateLvmStatus cfg NodeName (empty_status NodeName)) (λ status s',
    ∀ a, nsr_Allocatable status !! group_key vg = Some a → 1 <= req <= a →
      wp (LocalVolumeImplement.CreateVolume lv vg (req * GiB) 1)
        (λ err _, err ≠ Some (ErrString ResourceExhausted)) s'.1) s.
Proof.
  eapply wp_mono; [by apply generateLvmStatus_ok|].
  intros status [n k] (Hv & _ & v & _ & Hadv) a Ha Hreq. simpl in *.
  assert (∃ g, l_vgs (view s.1) !! vg = Some g ∧ a = freeGb g) as (g & Hg & ->).
  { destruct Hadv as [Hadv|Hadv]; specialize (Hadv vg); unfold advertises in Hadv; rewrite Ha in Hadv;
      [|by rewrite lookup_empty in Hadv].
    destruct (groups_in v !! vg); [|done]. symmetry in Hadv. apply fmap_Some in Hadv. naive_solver. }
  destruct (wf_vgs _ Hwf _ _ Hg) as (_ & (_ & _ & _ & _ & _ & Hfree & _) & _).
  destruct (freeGb_spec g Hfree) as (_ & Hfit & _). specialize (Hfit req Hreq).
  assert (is_u64 (req * GiB)) as Hu by (rewrite reserve_eq in Hfit; unfold is_u64, GiB in *; lia).
  rewrite <- Hv in Hg, Hwf. by eapply CreateVolume_fits.
Qed.
End usable.

(** ** On the simulated node *)

(** Patterns matched literally. *)
#[export] Instance literal_regexp : Regexp := {| Compile p := Some (λ s, Contains s p) |}.

(** Disks that are full. *)
Definition full_disks : DiskoMethods := {|
  FreeSpaces _ := [];
  FreeSpacesWithMin _ _ := [];
  FreeSpaceSize f := fs_Last f - fs_Start f;
  PartitionSize _ := 0;
  GetPartitionKname d n := d +:+ FormatInt n;
  partid_LinuxFS := ""
|}.
#[local] Existing Instance full_disks.

Definition sim_settings : Settings :=
  mkSettings (mkDiskConfig [mkSelector "carina-vg-ssd" ["/dev/vd"] "lvm" ""] 300 "binpack") 300 "binpack" [].

Definition plain_disk (d : DiskoDisk) : NsrDisk := mkNsrDisk (dd_Name d) [].

