(* ===== verification/Reporter.v ===== *)
(** * The event loop of the capacity reporter

    [NoticeUpdateCapacity] of [pkg/devicemanager/manager.go] sends events to the
    channel the reporter of [runners/nodestorageresource.go] registered; the
    reporter handles them one after the other.  The goroutines are the steps of
    a transition system. *)

From S2P Require Import Prelude GoStrings Api GoRuntime Mutx Exec Utils Config NodeService HostPath Kube.
From S2P Require Import LogicVolumeService LvmParse Lvmd Bcache Partition Volume Reconciler Capacity.
From S2P Require Import LvmSpec VolumeCorrect ReconcilerCorrect LvmTools LvmSim ReconcilerTheorems CapacityCorrect.

#[local] Open Scope string_scope.
#[local] Open Scope list_scope.

(** ** [manager.go] *)

Inductive Trigger := Dummy | ConfigModify | LVMCheck | CleanupOrphan | LogicVolumeController.

(** An event; its [Done] channel, if it has one, by a number.  The time of the
    event is only printed. *)
Record VolumeEvent := mkEvent {
  ve_Trigger : Trigger;
  ve_Done : option nat
}.

(** The buffer of the channel. *)
Definition channel_size : nat := 500.

(** Why a process ends: a send on a closed channel, a second [close], or a
    panic of the handler. *)
Inductive crash := SendOnClosed | CloseOfClosed | HandlerPanic.

(** Where the loop of [Start] is: before it, in its [select], in the send of
    [triggerReconcile], after it, or gone with the process. *)
Inductive phase :=
| NotStarted
| Selecting
| Triggering
| Stopped
| Crashed (why : crash).

Module eventLoop.
Section loop.
Context {N K : Type} `{Lvm2 N, Bcache N, HasLocks N, GoRuntime, PartitionManager N}.
Context `{KubeClient K, Regexp, DiskoMethods}.
Context (Fill : DiskoDisk → NsrDisk) (cfg : Settings) (NodeName : string).

Abbreviation reconcile := (nodeStorageResourceReconciler.reconcile (N:=N) (K:=K) Fill cfg NodeName).
Abbreviation deleteNodeStorageResource := (nodeStorageResourceReconciler.deleteNodeStorageResource (N:=N) (K:=K) NodeName).

(** [dummy] says that the goroutine of the first [triggerReconcile] has not
    sent yet; [sent], [taken] and [acknowledged] record what went into the
    channel, what was taken out, and which [Done] channels were closed. *)
Record state := mkState {
  at_phase : phase;
  queue : list VolumeEvent;
  dummy : bool;
  agent : N * K;
  sent : list VolumeEvent;
  taken : list VolumeEvent;
  acknowledged : list nat
}.

Definition init (a : N * K) : state := mkState NotStarted [] false a [] [] [].

Definition set_phase (p : phase) (s : state) : state :=
  mkState p (queue s) (dummy s) (agent s) (sent s) (taken s) (acknowledged s).
Definition set_agent (a : N * K) (s : state) : state :=
  mkState (at_phase s) (queue s) (dummy s) a (sent s) (taken s) (acknowledged s).
Definition set_dummy (b : bool) (s : state) : state :=
  mkState (at_phase s) (queue s) b (agent s) (sent s) (taken s) (acknowledged s).

(** A send that goes through. *)
Definition enqueue (e : VolumeEvent) (s : state) : state :=
  mkState (at_phase s) (queue s ++ [e]) (dummy s) (agent s) (sent s ++ [e]) (taken s) (acknowledged s).

(** A send that finds room, or panics because the channel is closed; it waits
    otherwise. *)
Inductive send (e : VolumeEvent) (s : state) : state → Prop :=
| send_ok : at_phase s ∈ [Selecting; Triggering] → (length (queue s) < channel_size)%nat → send e s (enqueue e s)
| send_closed : at_phase s = Stopped → send e s (set_phase (Crashed SendOnClosed) s).

(** [NoticeUpdateCapacity]: nothing is registered yet, the event is sent, or the
    channel is full for ten seconds. *)
Inductive notice (e : VolumeEvent) (s : state) : state → Prop :=
| notice_unregistered : at_phase s = NotStarted → notice e s s
| notice_sent s' : at_phase s ≠ NotStarted → send e s s' → notice e s s'
| notice_lost : length (queue s) = channel_size → notice e s s.

Definition trigger_event : VolumeEvent := mkEvent Dummy None.

(** [reconcile(event)] after it was taken from the channel. *)
Definition finish (e : VolumeEvent) (r : outcome nodeStorageResourceReconciler.handled) (s : state) : state :=
  match r with
  | Panic _ => set_phase (Crashed HandlerPanic) s
  | Done nodeStorageResourceReconciler.Dropped => s
  | Done nodeStorageResourceReconciler.Triggered => set_phase Triggering s
  | Done nodeStorageResourceReconciler.Acknowledged =>
      match ve_Done e with
      | None => s
      | Some d =>
          if decide (d ∈ acknowledged s) then set_phase (Crashed CloseOfClosed) s
          else mkState (at_phase s) (queue s) (dummy s) (agent s) (sent s) (taken s) (acknowledged s ++ [d])
      end
  end.

Definition take_event (e : VolumeEvent) (q : list VolumeEvent) (a : N * K) (s : state) : state :=
  mkState (at_phase s) q (dummy s) a (sent s) (taken s ++ [e]) (acknowledged s).

(** Every notice has a [Done] channel of its own, or none. *)
Definition fresh_event (e : VolumeEvent) (s : state) : Prop :=
  ∀ d e', ve_Done e = Some d → e' ∈ sent s → ve_Done e' ≠ Some d.

Inductive step : state → state → Prop :=
(** [Start] registers the channel and starts the goroutine of the first event. *)
| step_start s : at_phase s = NotStarted → step s (set_dummy true (set_phase Selecting s))
| step_first s s' : dummy s = true → send trigger_event (set_dummy false s) s' → step s s'
| step_notice s s' e : fresh_event e s → notice e s s' → step s s'
| step_event s e q o a' :
    at_phase s = Selecting → queue s = e :: q → reconcile (agent s) = (o, a') →
    step s (finish e o (take_event e q a' s))
| step_trigger s s' : at_phase s = Triggering → send trigger_event (set_phase Selecting s) s' → step s s'
(** The context is done. *)
| step_stop s : at_phase s = Selecting → step s (set_phase Stopped (set_agent (deleteNodeStorageResource (agent s)).2 s))
(** The rest of the node and the API server. *)
| step_environment s a : step s (set_agent a s).

(** ** Events are handled once, in order *)

Record invariant (s : state) : Prop := {
  inv_room : (length (queue s) ≤ channel_size)%nat;
  inv_order : sent s = taken s ++ queue s;
  inv_done : ∀ d, d ∈ acknowledged s → ∃ e, e ∈ taken s ∧ ve_Done e = Some d;
  inv_fresh : ∀ i j e1 e2 d, sent s !! i = Some e1 → sent s !! j = Some e2 →
    ve_Done e1 = Some d → ve_Done e2 = Some d → i = j;
  inv_once : NoDup (acknowledged s);
  inv_crash : at_phase s ≠ Crashed CloseOfClosed
}.

Lemma loop_invariant_init a : invariant (init a).
Proof. split; try done; cbn; first [unfold channel_size; lia | by constructor | set_solver]. Qed.

Lemma invariant_phase p s : p ≠ Crashed CloseOfClosed → invariant s → invariant (set_phase p s).
Proof. by intros ? []. Qed.

Lemma invariant_agent a s : invariant s → invariant (set_agent a s).
Proof. by intros []. Qed.

Lemma invariant_dummy b s : invariant s → invariant (set_dummy b s).
Proof. by intros []. Qed.

Lemma fresh_order e s :
  fresh_event e s →
  (∀ i j e1 e2 d, sent s !! i = Some e1 → sent s !! j = Some e2 →
    ve_Done e1 = Some d → ve_Done e2 = Some d → i = j) →
  ∀ i j e1 e2 d, (sent s ++ [e]) !! i = Some e1 → (sent s ++ [e]) !! j = Some e2 →
    ve_Done e1 = Some d → ve_Done e2 = Some d → i = j.
Proof.
  intros Hf Hs i j e1 e2 d.
  rewrite !lookup_snoc_Some. intros [[Hi Hi']|[-> <-]] [[Hj Hj']|[-> <-]] E1 E2; try done; [by eapply Hs|..].
  - by destruct (Hf d e1 E2 (list_elem_of_lookup_2 _ _ _ Hi')).
  - by destruct (Hf d e2 E1 (list_elem_of_lookup_2 _ _ _ Hj')).
Qed.

Lemma invariant_send e s s' : fresh_event e s → send e s s' → invariant s → invariant s'.
Proof.
  intros Hf [Hp Hl|Hp] HI; [|by apply invariant_phase].
  destruct HI as [Hr Ho Hd Hq Hn Hc]. split; cbn; try done.
  - rewrite length_app. cbn. lia.
  - by rewrite Ho, app_assoc.
  - by apply fresh_order.
Qed.

Lemma fresh_trigger s : fresh_event trigger_event s.
Proof. by intros d e'. Qed.

Lemma invariant_take e q a s :
  queue s = e :: q → invariant s → invariant (take_event e q a s).
Proof.
  intros Hq [Hr Ho Hd Hf Hn Hc]. rewrite Hq in *. split; cbn in *; try done.
  - lia.
  - by rewrite Ho, <- app_assoc.
  - intros d (e' & He & HD)%Hd. exists e'. by rewrite elem_of_app; auto.
Qed.

(** The event being handled has not been acknowledged before. *)
Lemma take_not_acknowledged e q s d :
  queue s = e :: q → ve_Done e = Some d → invariant s → d ∉ acknowledged s.
Proof.
  intros Hq HD [Hr Ho Hd Hf Hn Hc] Hin.
  destruct (Hd d Hin) as (e' & [i Hi]%list_elem_of_lookup_1 & HD').
  assert (i = length (taken s)) as ->.
  { eapply (Hf _ _ e' e d); rewrite ?Ho; [by apply lookup_app_l_Some| |done..].
    by rewrite lookup_app_r, Nat.sub_diag, Hq by lia. }
  apply lookup_lt_Some in Hi. lia.
Qed.

Lemma invariant_finish e q o a s :
  queue s = e :: q → at_phase s = Selecting → invariant s → invariant (finish e o (take_event e q a s)).
Proof.
  intros Hq Hp HI. pose proof (invariant_take e q a s Hq HI) as HT.
  destruct o as [[]|]; cbn; try done; try by apply invariant_phase.
  destruct (ve_Done e) as [d|] eqn:HD; [|done].
  pose proof (take_not_acknowledged e q s d Hq HD HI) as Hna.
  rewrite decide_False by done. destruct HT as [Hr Ho Hd Hf Hn Hc]. split; cbn in *; try done.
  - intros d' [?| ->%list_elem_of_singleton]%elem_of_app; [by apply Hd|].
    exists e. split; [|done]. rewrite elem_of_app, list_elem_of_singleton. auto.
  - apply NoDup_app. split_and!; [done|set_solver|apply NoDup_singleton].
Qed.

Lemma loop_invariant_step s s' : step s s' → invariant s → invariant s'.
Proof.
  destruct 1; intros HI; try done.
  - by apply invariant_dummy, invariant_phase.
  - eapply invariant_send; [apply fresh_trigger|done|by apply invariant_dummy].
  - match goal with Hn : notice _ _ _ |- _ => destruct Hn; [done| |done] end. by eapply invariant_send.
  - by eapply invariant_finish.
  - eapply invariant_send; [apply fresh_trigger|done|by apply invariant_phase].
  - by apply invariant_phase, invariant_agent.
  - by apply invariant_agent.
Qed.


(** ** When the loop stops for good *)

(** The loop waits for room in the channel it alone empties. *)
Definition stuck (s : state) : Prop := at_phase s = Triggering ∧ length (queue s) = channel_size.

Lemma stuck_step s s' :
  step s s' → stuck s → stuck s' ∧ taken s' = taken s ∧ acknowledged s' = acknowledged s.
Proof.
  intros Hs [Hp Hl]. destruct Hs as [|? ? ? []|? ? ? ? [| ? ? []|]| |? ? ? []| |]; cbn in *;
    try congruence; try lia; done.
Qed.

Lemma stuck_forever s s' :
  rtc step s s' → stuck s → stuck s' ∧ taken s' = taken s ∧ acknowledged s' = acknowledged s.
Proof.
  intros Hr Hs. refine (rtc_invariant _ (λ x, stuck x ∧ taken x = taken s ∧ acknowledged x = acknowledged s) _ _ _ Hr _); [|done].
  intros x y Hxy (Hx & <- & <-). by apply stuck_step.
Qed.

(** The steps of the loop itself. *)
Definition loop_moves (s s' : state) : Prop :=
  step s s' ∧ (taken s' ≠ taken s ∨ at_phase s' ≠ at_phase s).

Lemma taken_finish e o s : taken (finish e o s) = taken s.
Proof. destruct o as [[]|]; cbn; try done. destruct (ve_Done e); [|done]. by case_decide. Qed.

Lemma loop_progress s :
  (at_phase s = Selecting ∧ queue s ≠ []) ∨ (at_phase s = Triggering ∧ (length (queue s) < channel_size)%nat) →
  ∃ s', loop_moves s s'.
Proof.
  intros [[Hp Hq]|[Hp Hl]].
  - destruct (queue s) as [|e q] eqn:Eq; [done|]. destruct (reconcile (agent s)) as [o a'] eqn:Er.
    eexists. split; [by eapply step_event|]. left. rewrite taken_finish. cbn. intros Hc.
    apply (f_equal length) in Hc. rewrite length_app in Hc. cbn in Hc. lia.
  - eexists. split; [eapply step_trigger; [done|]; eapply send_ok; [cbn; set_solver|done]|].
    right. cbn. by rewrite Hp.
Qed.

Definition plain_notice : VolumeEvent := mkEvent ConfigModify None.

Lemma notice_step s :
  at_phase s ∈ [Selecting; Triggering] → (length (queue s) < channel_size)%nat →
  step s (enqueue plain_notice s).
Proof.
  intros Hp Hl. apply (step_notice _ _ plain_notice); [by intros d e'|]. apply notice_sent; [|by apply send_ok].
  intros E. rewrite E in Hp. by rewrite !elem_of_cons, elem_of_nil in Hp; destruct Hp as [|[|]].
Qed.

(** Notices fill the channel. *)
Lemma notices_fill n s :
  at_phase s ∈ [Selecting; Triggering] → (length (queue s) + n ≤ channel_size)%nat →
  ∃ s', rtc step s s' ∧ at_phase s' = at_phase s ∧ agent s' = agent s ∧
        length (queue s') = (length (queue s) + n)%nat.
Proof.
  revert s. induction n as [|n IH]; intros s Hp Hl; [exists s; split_and!; [done..|lia]|].
  destruct (IH (enqueue plain_notice s)) as (s' & ? & ? & ? & Hlen); [done|cbn; rewrite length_app; cbn; lia|].
  exists s'. split_and!; try done.
  - eapply rtc_l; [|done]. apply notice_step; [done|lia].
  - rewrite Hlen. cbn. rewrite length_app. cbn. lia.
Qed.

(** [C17] The loop of the reporter is the only reader of its channel and also
    sends to it.  With an event to take, or room for the one it sends, it
    moves.  While it waits to send with the channel full nothing ever moves it:
    no event is taken, no [Done] channel is closed and the shutdown is not seen,
    and this state is reached from the start of a node whose
    NodeStorageResource has to be created when the notices come in fast. *)
Theorem reporter_deadlock a a' :
  reconcile a = (Done nodeStorageResourceReconciler.Triggered, a') →
  (∀ s, (at_phase s = Selecting ∧ queue s ≠ []) ∨
        (at_phase s = Triggering ∧ (length (queue s) < channel_size)%nat) → ∃ s', loop_moves s s') ∧
  (∀ s s', rtc step s s' → stuck s → stuck s' ∧ taken s' = taken s ∧ acknowledged s' = acknowledged s) ∧
  (∃ s, rtc step (init a) s ∧ stuck s).
Proof.
  intros Ha. split_and!; [apply loop_progress|apply stuck_forever|].
  set (s1 := set_dummy true (set_phase Selecting (init a))).
  destruct (notices_fill 1 s1) as (s2 & R2 & P2 & A2 & L2); [set_solver|cbn; unfold channel_size; lia|].
  destruct (queue s2) as [|e [|? ?]] eqn:Q2; [done| |done].
  set (s3 := finish e (Done nodeStorageResourceReconciler.Triggered) (take_event e [] a' s2)).
  destruct (notices_fill channel_size s3) as (s4 & R4 & P4 & A4 & L4); [set_solver|done|].
  exists s4. split; [|split; [by rewrite P4|by rewrite L4]].
  eapply rtc_l; [by apply step_start|]. etrans; [exact R2|].
  eapply rtc_l; [|exact R4]. by apply step_event; [| |rewrite A2].
Qed.

(** A notice after the shutdown is a send on the closed channel. *)
Lemma notice_after_stop s e :
  at_phase s = Stopped → fresh_event e s → step s (set_phase (Crashed SendOnClosed) s).
Proof. intros Hp Hf. eapply step_notice; [done|]. apply notice_sent; [by rewrite Hp|by apply send_closed]. Qed.
End loop.
End eventLoop.

(** ** On the simulated node *)

#[local] Existing Instance full_disks.
#[local] Existing Instance literal_regexp.

(** A cluster that does not know the node yet. *)
Inductive new_cluster := NewCluster (registered : bool).

#[local] Instance new_cluster_kube : Kube new_cluster := {|
  kube_view c :=
    let '(NewCluster registered) := c in
    let none n := (LogicVolumeService.new_lv "" "" "" "" n 0%Z (mkOwner "" "" "" "" None None) ∅, Some (ErrApi ReasonNotFound "not found")) in
    let nsr n := (sample_nsr n, if registered then None else Some (ErrApi ReasonNotFound "not found")) in
    (mkView none none (λ _, ([], None)) (λ _, ([], None)) ([], None) nsr nsr
       (λ n, (sample_node n, None)) (λ n, (sample_node n, None)) (λ _, ([], None))
       (λ _ _, (∅, None)) (λ _ _, (∅, None)) no_objects, c);
  kube_call c w := match c with ApiNsrCreate _ => (None, NewCluster true) | _ => (None, w) end;
  kube_now _ := "now"
|}.

Definition new_agent : Node lvm * Ctl new_cluster := (sim_node, mkCtl ∅ [] [] [] (NewCluster false)).

Import eventLoop.


Lemma reporter_deadlock_witness :
  ∃ s, rtc (step plain_disk sim_settings "n1") (init new_agent) s ∧ stuck s.
Proof.
  pose proof (reporter_deadlock plain_disk sim_settings "n1" new_agent
    (nodeStorageResourceReconciler.reconcile plain_disk sim_settings "n1" new_agent).2) as Ht.
  destruct Ht as (_ & _ & Hs); [vm_compute; reflexivity|]. exact Hs.
Defined.
