(* ===== verification/Metrics.v ===== *)
(** * [pkg/metrics]: the Prometheus collectors of the node

    Two collectors, one for the volume groups and one for the I/O counters of
    the logic volumes, run concurrently and send samples to one channel. *)

From S2P Require Import Prelude GoFloat GoStrings Api GoRuntime Mutx Exec Utils Config NodeService HostPath Kube.
From S2P Require Import LogicVolumeService LvmParse Lvmd Bcache Partition Volume Reconciler Capacity LvmSpec VolumeCorrect.
From S2P Require Import ReconcilerCorrect LvmTools LvmSim ReconcilerTheorems CapacityCorrect.

#[local] Open Scope string_scope.
#[local] Open Scope list_scope.
#[local] Open Scope Z_scope.

(** ** Samples *)

Inductive ValueType := GaugeValue | CounterValue.

Record typedFactorDesc := mkDesc {
  d_name : string;
  d_type : ValueType
}.

(** A sample; the label with the name of the node is the same in all. *)
Record Metric := mkMetric {
  me_desc : typedFactorDesc;
  me_value : float64;
  me_labels : list string
}.

(** What a Prometheus registry tells samples apart by. *)
Definition series (m : Metric) : string * list string := (d_name (me_desc m), me_labels m).

(** [prometheus.BuildFQName]. *)
Definition BuildFQName (namespace subsystem name : string) : string :=
  namespace +:+ "_" +:+ subsystem +:+ "_" +:+ name.

Definition metrics_namespace := "carina".

Definition scrapeDurationDesc := mkDesc (BuildFQName metrics_namespace "scrape" "collector_duration_seconds") GaugeValue.
Definition scrapeSuccessDesc := mkDesc (BuildFQName metrics_namespace "scrape" "collector_success") GaugeValue.

(** The loop that pairs the values with the descriptors, by position. *)
Definition emit (descs : list typedFactorDesc) (vals : list float64) (labels : list string) : list Metric :=
  zip_with (λ d v, mkMetric d v labels) descs vals.

(** ** [vg_stats_collector.go] *)

Definition vg_desc (name : string) : typedFactorDesc :=
  mkDesc (BuildFQName metrics_namespace "volume_group_stats" name) GaugeValue.

Definition vg_descs : list typedFactorDesc :=
  [vg_desc "capacity_bytes_total"; vg_desc "capacity_bytes_used"; vg_desc "lv_total"; vg_desc "pv_total"].

Definition vg_values (vg : VgGroup) : list float64 :=
  [float_of_int (vg_VGSize vg);
   float_of_int (u64_sub (vg_VGSize vg) (vg_VGFree vg));
   float_of_int (vg_LVCount vg);
   float_of_int (vg_PVCount vg)].

(** ** [volume_stats_collector.go] *)

(** A row of [/proc/diskstats]. *)
Record Diskstats := mkDiskstats {
  ds_MajorNumber : Z;
  ds_MinorNumber : Z;
  ds_ReadIOs : Z;
  ds_ReadMerges : Z;
  ds_ReadSectors : Z;
  ds_ReadTicks : Z;
  ds_WriteIOs : Z;
  ds_WriteMerges : Z;
  ds_WriteSectors : Z;
  ds_WriteTicks : Z;
  ds_IOsInProgress : Z;
  ds_IOsTotalTicks : Z
}.

Definition volume_desc (t : ValueType) (name : string) : typedFactorDesc :=
  mkDesc (BuildFQName metrics_namespace "volume_stats" name) t.

Definition volume_descs : list typedFactorDesc :=
  [volume_desc CounterValue "reads_completed_total"; volume_desc CounterValue "reads_merged_total";
   volume_desc CounterValue "read_bytes_total"; volume_desc CounterValue "read_time_seconds_total";
   volume_desc CounterValue "writes_completed_total"; volume_desc CounterValue "writes_merged_total";
   volume_desc CounterValue "write_bytes_total"; volume_desc CounterValue "write_time_seconds_total";
   volume_desc GaugeValue "io_now"; volume_desc CounterValue "io_time_seconds_total"].

(** [1.0 / 1000.0] and [512.0]. *)
Definition secondsPerTick : float64 := f_div (float_of_int 1) (float_of_int 1000).
Definition unixSectorSize : float64 := float_of_int 512.

Definition volume_values (stats : Diskstats) : list float64 :=
  [float_of_int (ds_ReadIOs stats);
   float_of_int (ds_ReadMerges stats);
   f_mul (float_of_int (ds_ReadSectors stats)) unixSectorSize;
   f_mul (float_of_int (ds_ReadTicks stats)) secondsPerTick;
   float_of_int (ds_WriteIOs stats);
   float_of_int (ds_WriteMerges stats);
   f_mul (float_of_int (ds_WriteSectors stats)) unixSectorSize;
   f_mul (float_of_int (ds_WriteTicks stats)) secondsPerTick;
   float_of_int (ds_IOsInProgress stats);
   f_mul (float_of_int (ds_IOsTotalTicks stats)) secondsPerTick].

Definition volume_labels (lv : LogicVolume) : list string :=
  [ls_NameSpace (lv_Spec lv); ls_Pvc (lv_Spec lv); lv_Name lv; ls_DeviceGroup (lv_Spec lv)].

Definition same_device (lv : LogicVolume) (stats : Diskstats) : bool :=
  (ds_MajorNumber stats =? st_DeviceMajor (lv_Status lv)) && (ds_MinorNumber stats =? st_DeviceMinor (lv_Status lv)).

(** [blockdevice.FS] on the node. *)
Class DiskstatsSource (N : Type) := {
  ProcDiskstats : N → res (list Diskstats)
}.

Section collectors.
Context {N K : Type} `{Lvm2 N, Bcache N, HasLocks N, GoRuntime} `{DiskstatsSource N} `{KubeClient K}.
Context (cfg : Settings) (NodeName : string).

(** The samples sent to the channel, and the error. *)
Definition vg_Update : M (N * K) (res (list Metric)) :=
  diskSelectGroup ← nodeStorageResourceReconciler.GetNodeDiskSelectGroup cfg NodeName;
  r ← on_fst LocalVolumeImplement.GetCurrentVgStruct;
  match r with
  | (_, Some err) => mret ([], Some (ErrString ("couldn't get volume group:" +:+ Error err)))
  | (vgList, None) =>
      mret (mbind (M:=list) (λ vg,
        if bool_decide (is_Some (diskSelectGroup !! vg_VGName vg))
        then emit vg_descs (vg_values vg) [vg_VGName vg] else []) vgList, None)
  end.

Definition volume_Update : M (N * K) (res (list Metric)) :=
  d ← on_fst (λ n, (Done (ProcDiskstats n), n));
  match d with
  | (_, Some err) => mret ([], Some (ErrString ("couldn't get diskstats:" +:+ Error err)))
  | (diskStats, None) =>
      r ← on_snd (LogicVolumeService.GetLogicVolumesByNodeName NodeName false);
      match r with
      | (_, Some err) => mret ([], Some err)
      | (logicVolumes, None) =>
          mret (mbind (M:=list) (λ lv, mbind (M:=list) (λ stats,
            if same_device lv stats then emit volume_descs (volume_values stats) (volume_labels lv) else [])
            diskStats) logicVolumes, None)
      end
  end.

(** ** [collector.go] *)

(** [execute]: the samples of the collector, then how long it took and whether
    it succeeded.  [duration] is what the clock says. *)
Definition execute (duration : float64) (name : string) (Update : M (N * K) (res (list Metric))) : M (N * K) (list Metric) :=
  r ← Update;
  let '(samples, err) := r in
  let success := match err with Some _ => float_of_int 0 | None => float_of_int 1 end in
  mret (samples ++ [mkMetric scrapeDurationDesc duration [name]; mkMetric scrapeSuccessDesc success [name]]).

(** The samples of two goroutines in some order. *)
Inductive merges {A} : list A → list A → list A → Prop :=
| merges_nil : merges [] [] []
| merges_left x l1 l2 l : merges l1 l2 l → merges (x :: l1) l2 (x :: l)
| merges_right x l1 l2 l : merges l1 l2 l → merges l1 (x :: l2) (x :: l).

(** [Collect]: both collectors only read, so one may be taken to read before the
    other; what they send interleaves, and [out] is what the channel gets. *)
Inductive Collect (s : N * K) : list Metric → Prop :=
| Collect_vg_first d1 d2 o1 s1 o2 s2 out :
    execute d1 "vg_stats" vg_Update s = (Done o1, s1) →
    execute d2 "volume_stats" volume_Update s1 = (Done o2, s2) →
    merges o1 o2 out → Collect s out
| Collect_volume_first d1 d2 o1 s1 o2 s2 out :
    execute d2 "volume_stats" volume_Update s = (Done o2, s1) →
    execute d1 "vg_stats" vg_Update s1 = (Done o1, s2) →
    merges o1 o2 out → Collect s out.
End collectors.

(** ** Samples by series *)

Lemma NoDup_bind_key {A B C D} (f : A → list B) (g : B → D) (key : A → C) (out : D → C) l :
  NoDup (key <$> l) → (∀ x b, x ∈ l → b ∈ f x → out (g b) = key x) →
  (∀ x, x ∈ l → NoDup (g <$> f x)) → NoDup (g <$> (mbind (M:=list) f l)).
Proof.
  induction l as [|x l IH]; intros Hk Ho Hn; [constructor|]. rewrite fmap_cons in Hk. apply NoDup_cons in Hk as [Hx Hk].
  cbn. rewrite fmap_app. apply NoDup_app. split_and!; [apply Hn; left| |].
  - intros d (b & -> & Hb)%list_elem_of_fmap (b' & Hd & (y & Hb' & Hy)%list_elem_of_bind)%list_elem_of_fmap.
    apply Hx. apply list_elem_of_fmap. exists y. split; [|done].
    rewrite <- (Ho x b (list_elem_of_here _ _) Hb), <- (Ho y b' (list_elem_of_further _ _ _ Hy) Hb'). by rewrite Hd.
  - apply IH; [done| |]; intros; [apply Ho|apply Hn]; auto using list_elem_of_further.
Qed.

Lemma NoDup_emit descs vals labels :
  NoDup (d_name <$> descs) → NoDup (series <$> emit descs vals labels).
Proof.
  unfold emit. intros Hd. revert vals. induction descs as [|d descs IH]; intros [|v vals]; try constructor.
  - rewrite fmap_cons in Hd. apply NoDup_cons in Hd as [Hd _].
    intros (m & Hm & (d' & v' & -> & Hd' & _)%elem_of_zip_with)%list_elem_of_fmap. apply Hd.
    injection Hm as Hm. rewrite Hm. by apply list_elem_of_fmap_2.
  - apply IH. rewrite fmap_cons in Hd. by apply NoDup_cons in Hd as [_ Hd].
Qed.

Lemma vg_descs_distinct : NoDup (d_name <$> vg_descs).
Proof. apply (bool_decide_unpack _). vm_compute. exact I. Qed.

Lemma volume_descs_distinct : NoDup (d_name <$> volume_descs).
Proof. apply (bool_decide_unpack _). vm_compute. exact I. Qed.

(** The sample of a series, read as an integer. *)
Definition reads (ms : list Metric) (d : typedFactorDesc) (labels : list string) (z : Z) : Prop :=
  ∃ m, m ∈ ms ∧ series m = (d_name d, labels) ∧ int_of_float (me_value m) = Some z.

(** The order of the samples does not matter. *)
#[export] Instance reads_proper : Proper ((≡ₚ) ==> eq ==> eq ==> eq ==> iff) reads.
Proof. intros ms ms' Hp d ? <- labels ? <- z ? <-. unfold reads. by setoid_rewrite Hp. Qed.

Lemma reads_emit descs vals labels i d v z :
  descs !! i = Some d → vals !! i = Some v → int_of_float v = Some z → reads (emit descs vals labels) d labels z.
Proof.
  intros Hd Hv Hz. exists (mkMetric d v labels). split; [|done].
  apply elem_of_lookup_zip_with. by exists i, d, v.
Qed.

Lemma reads_bind {A} (f : A → list Metric) l x d labels z :
  x ∈ l → reads (f x) d labels z → reads (mbind (M:=list) f l) d labels z.
Proof. intros Hx (m & Hm & Hs). exists m. split; [|done]. apply list_elem_of_bind. eauto. Qed.

(** *** The volume groups *)

(** Numbers a [float64] holds exactly. *)
Definition exact_group (g : VgGroup) : Prop :=
  0 <= vg_VGFree g <= vg_VGSize g ∧ vg_VGSize g < 2^53 ∧ 0 <= vg_LVCount g < 2^53 ∧ 0 <= vg_PVCount g < 2^53.

Definition group_samples (groups : gmap string DiskSelectorItem) (vgs : list VgGroup) : list Metric :=
  mbind (M:=list) (λ vg, if bool_decide (is_Some (groups !! vg_VGName vg))
                         then emit vg_descs (vg_values vg) [vg_VGName vg] else []) vgs.

Lemma group_samples_series groups vgs :
  NoDup (vg_VGName <$> vgs) → NoDup (series <$> group_samples groups vgs).
Proof.
  intros Hn. apply (NoDup_bind_key _ _ (λ vg, [vg_VGName vg]) snd).
  - assert ((λ vg, [vg_VGName vg]) <$> vgs = (λ n, [n]) <$> (vg_VGName <$> vgs)) as ->
      by (rewrite <- list_fmap_compose; by apply list_fmap_ext).
    apply NoDup_fmap_2; [|done]. by intros ? ? [= ->].
  - intros vg m _ Hm. case_bool_decide; [|by apply not_elem_of_nil in Hm].
    by apply elem_of_zip_with in Hm as (d & v & -> & _).
  - intros vg _. case_bool_decide; [|constructor]. apply NoDup_emit, vg_descs_distinct.
Qed.

Lemma group_samples_reads groups vgs vg :
  vg ∈ vgs → is_Some (groups !! vg_VGName vg) → exact_group vg →
  reads (group_samples groups vgs) (vg_desc "capacity_bytes_total") [vg_VGName vg] (vg_VGSize vg) ∧
  reads (group_samples groups vgs) (vg_desc "capacity_bytes_used") [vg_VGName vg] (vg_VGSize vg - vg_VGFree vg) ∧
  reads (group_samples groups vgs) (vg_desc "lv_total") [vg_VGName vg] (vg_LVCount vg) ∧
  reads (group_samples groups vgs) (vg_desc "pv_total") [vg_VGName vg] (vg_PVCount vg).
Proof.
  intros Hin Hg (Hf & Hs & Hl & Hp).
  assert (∀ i d v z, vg_descs !! i = Some d → vg_values vg !! i = Some v → int_of_float v = Some z →
    reads (group_samples groups vgs) d [vg_VGName vg] z) as Hr.
  { intros i d v z Hd Hv Hz. eapply reads_bind; [done|]. cbv beta. rewrite bool_decide_eq_true_2 by done.
    by eapply reads_emit. }
  split_and!; [apply (Hr 0%nat _ _ _ eq_refl eq_refl)|apply (Hr 1%nat _ _ _ eq_refl eq_refl)|
    apply (Hr 2%nat _ _ _ eq_refl eq_refl)|apply (Hr 3%nat _ _ _ eq_refl eq_refl)];
    rewrite ?u64_sub_fits by (unfold is_u64; lia); apply float_of_int_exact; lia.
Qed.

(** *** The volumes *)

Definition device (st : Diskstats) : Z * Z := (ds_MajorNumber st, ds_MinorNumber st).

Definition volume_block (stats : list Diskstats) (lv : LogicVolume) : list Metric :=
  mbind (M:=list) (λ st, if same_device lv st
    then emit volume_descs (volume_values st) (volume_labels lv) else []) stats.

Lemma same_device_true lv st :
  same_device lv st = true → device st = (st_DeviceMajor (lv_Status lv), st_DeviceMinor (lv_Status lv)).
Proof. unfold same_device, device. intros [->%Z.eqb_eq ->%Z.eqb_eq]%andb_true_iff. done. Qed.

(** At most one row is about the device of a volume. *)
Lemma volume_block_find stats lv :
  NoDup (device <$> stats) →
  volume_block stats lv =
    match List.find (same_device lv) stats with
    | Some st => emit volume_descs (volume_values st) (volume_labels lv)
    | None => []
    end.
Proof.
  unfold volume_block. induction stats as [|st stats IH]; intros Hn; [done|].
  rewrite fmap_cons in Hn. apply NoDup_cons in Hn as [Hst Hn]. rewrite bind_cons. cbn [List.find].
  destruct (same_device lv st) eqn:Hs; [|by apply IH].
  rewrite IH by done. destruct (List.find (same_device lv) stats) as [st'|] eqn:Hf; [|by rewrite app_nil_r].
  apply find_some in Hf as [Hin%list_elem_of_In Hs']. exfalso. apply Hst.
  rewrite (same_device_true _ _ Hs), <- (same_device_true _ _ Hs'). by apply list_elem_of_fmap_2.
Qed.

Definition volume_samples (stats : list Diskstats) (lvs : list LogicVolume) : list Metric :=
  mbind (M:=list) (volume_block stats) lvs.

Lemma volume_samples_series stats lvs :
  NoDup (device <$> stats) → NoDup (lv_Name <$> lvs) → NoDup (series <$> volume_samples stats lvs).
Proof.
  intros Hs Hn. apply (NoDup_bind_key _ _ lv_Name (λ s, default "" (s.2 !! 2%nat))); [done| |].
  - intros lv m _ Hm. rewrite volume_block_find in Hm by done.
    destruct (List.find _ _) as [st|]; [|by apply not_elem_of_nil in Hm].
    by apply elem_of_zip_with in Hm as (d & v & -> & _).
  - intros lv _. rewrite volume_block_find by done. destruct (List.find _ _); [|constructor].
    apply NoDup_emit, volume_descs_distinct.
Qed.

(** Counters a [float64] holds exactly. *)
Definition exact_stats (st : Diskstats) : Prop :=
  0 <= ds_ReadIOs st < 2^53 ∧ 0 <= ds_ReadSectors st < 2^53 ∧
  0 <= ds_WriteIOs st < 2^53 ∧ 0 <= ds_WriteSectors st < 2^53 ∧ 0 <= ds_IOsInProgress st < 2^53.

(** The samples of a volume are its counters, its bytes in units of sectors. *)
Definition volume_reads (ms : list Metric) (lv : LogicVolume) (st : Diskstats) : Prop :=
  let r name := reads ms (volume_desc CounterValue name) (volume_labels lv) in
  r "reads_completed_total" (ds_ReadIOs st) ∧ r "read_bytes_total" (512 * ds_ReadSectors st) ∧
  r "writes_completed_total" (ds_WriteIOs st) ∧ r "write_bytes_total" (512 * ds_WriteSectors st) ∧
  reads ms (volume_desc GaugeValue "io_now") (volume_labels lv) (ds_IOsInProgress st).

Lemma volume_samples_reads stats lvs lv st :
  lv ∈ lvs → st ∈ stats → same_device lv st = true → exact_stats st → volume_reads (volume_samples stats lvs) lv st.
Proof.
  intros Hlv Hst Hs (H1 & H2 & H3 & H4 & H5).
  assert (∀ i d v z, volume_descs !! i = Some d → volume_values st !! i = Some v → int_of_float v = Some z →
    reads (volume_samples stats lvs) d (volume_labels lv) z) as Hr.
  { intros i d v z Hd Hv Hz. eapply reads_bind; [done|]. eapply (reads_bind _ _ st); [done|]. cbv beta. rewrite Hs.
    by eapply reads_emit. }
  split_and!; [apply (Hr 0%nat _ _ _ eq_refl eq_refl)|apply (Hr 2%nat _ _ _ eq_refl eq_refl)|
    apply (Hr 4%nat _ _ _ eq_refl eq_refl)|apply (Hr 6%nat _ _ _ eq_refl eq_refl)|
    apply (Hr 8%nat _ _ _ eq_refl eq_refl)]; by first [apply float_of_int_exact|apply f_mul_512_exact].
Qed.

(** ** One scrape *)

Section scrape.
Context {N K : Type} `{HasLocks N} `{!HasLocksLaws N} `{!Lvm2 N} `{!Lvm2Laws N}.
Context `{!Bcache N} `{!BcacheLaws N} `{GoRuntimeLaws} `{KubeClient K} `{!KubeLaws K} `{!DiskstatsSource N}.
Context (cfg : Settings) (NodeName : string).

Lemma vg_Update_ok (s : N * K) :
  wf_lvm (view s.1) → l_vgs (view s.1) !! "" = None →
  wp (vg_Update cfg NodeName) (λ r s', view s'.1 = view s.1 ∧
    match r with
    | (ms, Some _) => ms = []
    | (ms, None) => ∃ v vgs, v ∈ seen s'.2 ∧ ms = group_samples (groups_in cfg NodeName v) vgs ∧
        NoDup (vg_VGName <$> vgs) ∧
        vgs ≡ₚ group_row (view s.1) <$> (map_to_list (l_vgs (view s.1))).*2
    end) s.
Proof.
  intros Hwf Hempty. unfold vg_Update, nodeStorageResourceReconciler.GetNodeDiskSelectGroup.
  apply wp_bind, wp_bind, wp_on_snd. eapply wp_mono; [apply look_law|]. intros v k [Hc Hs]. apply wp_ret, wp_bind, wp_on_fst.
  eapply wp_mono; [by apply GetCurrentVgStruct_ok|]. simpl.
  intros [vgs [e|]] n (_ & Hv & Hgs); apply wp_ret; (split; [done|]); [done|].
  exists v, vgs. destruct (find_group_row _ _ "" Hwf Hgs) as [Hnd _].
  split_and!; [cbn; rewrite Hs; set_solver|done..].
Qed.

(** The samples of the groups, on success and on failure. *)
Lemma vg_samples_ok (s : N * K) :
  wf_lvm (view s.1) → l_vgs (view s.1) !! "" = None →
  wp (vg_Update cfg NodeName) (λ r s', view s'.1 = view s.1 ∧
    match r with
    | (ms, Some _) => ms = []
    | (ms, None) => ∃ v, v ∈ seen s'.2 ∧ NoDup (series <$> ms) ∧
        (∀ m, m ∈ ms → ∃ vg, me_labels m = [vg] ∧ is_Some (groups_in cfg NodeName v !! vg) ∧ is_Some (l_vgs (view s.1) !! vg)) ∧
        (∀ vg g, l_vgs (view s.1) !! vg = Some g → is_Some (groups_in cfg NodeName v !! vg) → exact_group g →
           reads ms (vg_desc "capacity_bytes_total") [vg] (vg_VGSize g) ∧
           reads ms (vg_desc "capacity_bytes_used") [vg] (vg_VGSize g - vg_VGFree g) ∧
           reads ms (vg_desc "lv_total") [vg] (lv_count vg (l_lvs (view s.1))) ∧
           reads ms (vg_desc "pv_total") [vg] (vg_PVCount g))
    end) s.
Proof.
  intros Hwf Hempty. eapply wp_mono; [by apply vg_Update_ok|].
  intros [ms [e|]] s' [Hv Hms]; (split; [done|]); [done|]. destruct Hms as (v & vgs & Hin & -> & Hnd & Hgs).
  exists v. split_and!; [done|by apply group_samples_series| |].
  - intros m (vg & Hm & Hvg)%list_elem_of_bind. case_bool_decide as Hg; [|by apply not_elem_of_nil in Hm].
    apply elem_of_zip_with in Hm as (d & x & -> & _). exists (vg_VGName vg). split_and!; [done..|].
    rewrite Hgs in Hvg. apply list_elem_of_fmap in Hvg as (g & -> & ((n & g') & -> & Hg')%list_elem_of_fmap).
    apply elem_of_map_to_list in Hg'. cbn. destruct (wf_vgs _ Hwf _ _ Hg') as (-> & _). eauto.
  - intros vg g Hg Hgr Hex. destruct (wf_vgs _ Hwf _ _ Hg) as (Hn & _ & Hcount). subst vg. rewrite <- Hcount.
    apply (group_samples_reads _ vgs (group_row (view s.1) g)); [|done|done].
    rewrite Hgs. apply list_elem_of_fmap_2, list_elem_of_fmap. exists (vg_VGName g, g). split; [done|].
    by apply elem_of_map_to_list.
Qed.

Lemma volume_Update_ok (s : N * K) (P : list LogicVolume → Prop) :
  (∀ k, wp look (λ v _, ∀ lvs, vw_cache_by_node v NodeName = (lvs, None) → P lvs) (k : K)) →
  wp (volume_Update NodeName) (λ r s', s'.1 = s.1 ∧
    match r with
    | (ms, Some _) => ms = []
    | (ms, None) => ∃ ds v lvs, ProcDiskstats s.1 = (ds, None) ∧ v ∈ seen s'.2 ∧
        vw_cache_by_node v NodeName = (lvs, None) ∧ P lvs ∧ ms = volume_samples ds lvs
    end) s.
Proof.
  intros Hl. unfold volume_Update. apply wp_bind, wp_on_fst. destruct s as [n k]. unfold wp at 1. cbn [fst snd].
  destruct (ProcDiskstats n) as [ds [e|]] eqn:Hd; [by apply wp_ret|].
  apply wp_bind, wp_on_snd. unfold LogicVolumeService.GetLogicVolumesByNodeName. apply wp_bind.
  eapply wp_mono; [apply wp_and; [apply (look_law k)|apply Hl]|]. cbn [fst snd]. intros v k' [[_ Hs] Hv].
  assert (v ∈ seen k') as Hin by (rewrite Hs; set_solver).
  destruct (vw_cache_by_node v NodeName) as [[|lv lvs] [e|]] eqn:Hc; apply wp_ret, wp_ret; (split; [done|]); try done;
    (eexists _, v, _; split_and!; [done|done|exact Hc|by apply Hv|done]).
Qed.

Lemma execute_ok d name (Update : M (N * K) (res (list Metric))) Q s :
  wp Update Q s →
  wp (execute d name Update) (λ out s', ∃ ms err, Q (ms, err) s' ∧
    out = ms ++ [mkMetric scrapeDurationDesc d [name];
                 mkMetric scrapeSuccessDesc (match err with Some _ => float_of_int 0 | None => float_of_int 1 end) [name]]) s.
Proof.
  intros HU. apply wp_bind. eapply wp_mono; [exact HU|]. intros [ms err] s' HQ. apply wp_ret. by exists ms, err.
Qed.

Lemma merges_perm {A} (l1 l2 l : list A) : merges l1 l2 l → l ≡ₚ l1 ++ l2.
Proof.
  induction 1 as [|x l1 l2 l _ IH|x l1 l2 l _ IH]; [done|by rewrite IH|].
  rewrite IH. by rewrite <- Permutation_middle.
Qed.

(** The samples of the volumes: every volume of the node whose device has a row
    of counters has its samples, exactly, and no series comes twice. *)
Lemma volume_samples_ok (s : N * K) :
  (∀ ds, ProcDiskstats s.1 = (ds, None) → NoDup (device <$> ds)) →
  (∀ k, wp look (λ v _, ∀ lvs, vw_cache_by_node v NodeName = (lvs, None) → NoDup (lv_Name <$> lvs)) (k : K)) →
  wp (volume_Update NodeName) (λ r s', s'.1 = s.1 ∧
    match r with
    | (ms, Some _) => ms = []
    | (ms, None) => ∃ ds v lvs, ProcDiskstats s.1 = (ds, None) ∧ v ∈ seen s'.2 ∧
        vw_cache_by_node v NodeName = (lvs, None) ∧ NoDup (series <$> ms) ∧
        (∀ lv st, lv ∈ lvs → st ∈ ds → same_device lv st = true → exact_stats st → volume_reads ms lv st) ∧
        (∀ m, m ∈ ms → ∃ lv st, lv ∈ lvs ∧ st ∈ ds ∧ same_device lv st = true ∧ me_labels m = volume_labels lv)
    end) s.
Proof.
  intros Hd Hl. eapply wp_mono; [apply (volume_Update_ok _ _ Hl)|].
  intros [ms [e|]] s' [Hs Hms]; (split; [done|]); [done|]. destruct Hms as (ds & v & lvs & Hds & Hin & Hc & Hnd & ->).
  exists ds, v, lvs. split_and!; [done|done|done|by apply volume_samples_series; [apply Hd|]|intros; by apply volume_samples_reads|].
  intros m (lv & (st & Hm & Hst)%list_elem_of_bind & Hlv)%list_elem_of_bind. exists lv, st.
  destruct (same_device lv st); [|by apply not_elem_of_nil in Hm].
  by apply elem_of_zip_with in Hm as (d & x & -> & _).
Qed.


(** What one collector sends: samples under its own names, then its result. *)
Definition part (names : list string) (name : string) (o : list Metric) : Prop :=
  ∃ ms d ok, o = ms ++ [mkMetric scrapeDurationDesc d [name]; mkMetric scrapeSuccessDesc (float_of_int (Z.b2z ok)) [name]] ∧
    NoDup (series <$> ms) ∧ (∀ m, m ∈ ms → d_name (me_desc m) ∈ names) ∧ (ok = false → ms = []).

Lemma emit_names descs vals labels m : m ∈ emit descs vals labels → d_name (me_desc m) ∈ d_name <$> descs.
Proof. intros (d & v & -> & Hd & _)%elem_of_zip_with. by apply list_elem_of_fmap_2. Qed.

Lemma vg_part d (s : N * K) :
  wf_lvm (view s.1) → l_vgs (view s.1) !! "" = None →
  wp (execute d "vg_stats" (vg_Update cfg NodeName)) (λ o s', view s'.1 = view s.1 ∧ part (d_name <$> vg_descs) "vg_stats" o) s.
Proof.
  intros Hwf He. eapply wp_mono; [by apply execute_ok, vg_Update_ok|].
  intros o s' (ms & [e|] & (Hv & Hms) & ->); (split; [done|]).
  - subst ms. exists [], d, false. split_and!; [done|constructor| |done]. by intros m ?%not_elem_of_nil.
  - destruct Hms as (v & vgs & _ & -> & Hnd & _). eexists _, d, true.
    split_and!; [done|by apply group_samples_series| |done].
    intros m (vg & Hm & _)%list_elem_of_bind. case_bool_decide; [|by apply not_elem_of_nil in Hm]. by eapply emit_names.
Qed.

Lemma volume_part d (s : N * K) :
  (∀ ds, ProcDiskstats s.1 = (ds, None) → NoDup (device <$> ds)) →
  (∀ k, wp look (λ v _, ∀ lvs, vw_cache_by_node v NodeName = (lvs, None) → NoDup (lv_Name <$> lvs)) (k : K)) →
  wp (execute d "volume_stats" (volume_Update NodeName)) (λ o s', s'.1 = s.1 ∧ part (d_name <$> volume_descs) "volume_stats" o) s.
Proof.
  intros Hd Hl. eapply wp_mono; [apply execute_ok, (volume_Update_ok _ _ Hl)|].
  intros o s' (ms & [e|] & (Hv & Hms) & ->); (split; [done|]).
  - subst ms. exists [], d, false. split_and!; [done|constructor| |done]. by intros m ?%not_elem_of_nil.
  - destruct Hms as (ds & v & lvs & Hds & _ & _ & Hnd & ->). eexists _, d, true.
    split_and!; [done|by apply volume_samples_series; [apply Hd|]| |done].
    intros m (lv & (st & Hm & _)%list_elem_of_bind & _)%list_elem_of_bind.
    destruct (same_device lv st); [|by apply not_elem_of_nil in Hm]. by eapply emit_names.
Qed.

Definition scrape_names : list string := [d_name scrapeDurationDesc; d_name scrapeSuccessDesc].

Lemma names_disjoint :
  NoDup ((d_name <$> vg_descs) ++ (d_name <$> volume_descs) ++ scrape_names).
Proof. apply (bool_decide_unpack _). vm_compute. exact I. Qed.

(** Samples under different names are different series. *)
Lemma series_disjoint (names1 names2 : list string) ms1 ms2 :
  names1 ## names2 → (∀ m, m ∈ ms1 → d_name (me_desc m) ∈ names1) → (∀ m, m ∈ ms2 → d_name (me_desc m) ∈ names2) →
  NoDup (series <$> ms1) → NoDup (series <$> ms2) → NoDup (series <$> ms1 ++ ms2).
Proof.
  intros Hd H1' H2' Hn1 Hn2. rewrite fmap_app. apply NoDup_app. split_and!; [done| |done].
  intros x (m1 & -> & Hm1)%list_elem_of_fmap (m2 & He & Hm2)%list_elem_of_fmap.
  apply (Hd (d_name (me_desc m1))); [by apply H1'|]. injection He as -> _. by apply H2'.
Qed.

Lemma parts_unique o1 o2 :
  part (d_name <$> vg_descs) "vg_stats" o1 → part (d_name <$> volume_descs) "volume_stats" o2 →
  NoDup (series <$> o1 ++ o2).
Proof.
  intros (ms1 & d1 & ok1 & -> & Hn1 & Hin1 & _) (ms2 & d2 & ok2 & -> & Hn2 & Hin2 & _).
  set (t1 := [mkMetric _ d1 _; _]). set (t2 := [mkMetric _ d2 _; _]).
  assert ((ms1 ++ t1) ++ ms2 ++ t2 ≡ₚ ms1 ++ ms2 ++ t1 ++ t2) as -> by solve_Permutation.
  pose proof names_disjoint as (_ & Hd1 & (_ & Hd2 & _)%NoDup_app)%NoDup_app.
  apply (series_disjoint (d_name <$> vg_descs) ((d_name <$> volume_descs) ++ scrape_names)); [exact Hd1|done| |done|].
  - intros m [Hm|Hm]%elem_of_app; rewrite elem_of_app; [left; by apply Hin2|right].
    repeat (apply elem_of_cons in Hm as [->|Hm]; [set_solver|]). by apply not_elem_of_nil in Hm.
  - apply (series_disjoint (d_name <$> volume_descs) scrape_names); [exact Hd2|done| |done|].
    + intros m Hm. repeat (apply elem_of_cons in Hm as [->|Hm]; [set_solver|]). by apply not_elem_of_nil in Hm.
    + apply (bool_decide_unpack _). vm_compute. exact I.
Qed.

(** The result a collector reports. *)
Definition reported (out : list Metric) (names : list string) (name : string) : Prop :=
  reads out scrapeSuccessDesc [name] 1 ∨
  reads out scrapeSuccessDesc [name] 0 ∧ ∀ m, m ∈ out → d_name (me_desc m) ∉ names.

#[local] Instance reported_proper : Proper ((≡ₚ) ==> eq ==> eq ==> iff) reported.
Proof. intros ms ms' Hp names ? <- name ? <-. unfold reported. rewrite Hp. by setoid_rewrite Hp. Qed.

Lemma part_names names name o m : part names name o → m ∈ o → d_name (me_desc m) ∈ names ++ scrape_names.
Proof.
  intros (ms & d & ok & -> & _ & Hin & _) [Hm|Hm]%elem_of_app; rewrite elem_of_app; [left; by apply Hin|right].
  repeat (apply elem_of_cons in Hm as [->|Hm]; [set_solver|]). by apply not_elem_of_nil in Hm.
Qed.

Lemma part_reported names names' name name' o o' out :
  part names name o → part names' name' o' → out ≡ₚ o ++ o' → names ## names' ++ scrape_names → reported out names name.
Proof.
  intros (ms & d & ok & -> & _ & _ & Hok) Ho' -> Hd. destruct ok; [left|right].
  - eexists. split; [apply elem_of_app; left; apply elem_of_app; right; right; left|done].
  - rewrite Hok by done. split; [eexists; split; [right; left|done]|].
    intros m [Hm|Hm]%elem_of_app Hin.
    + apply (Hd _ Hin), elem_of_app. right.
      repeat (apply elem_of_cons in Hm as [->|Hm]; [set_solver|]). by apply not_elem_of_nil in Hm.
    + apply (Hd _ Hin). by eapply part_names.
Qed.

(** A scrape of a well formed node sends no series twice, which would make
    Prometheus refuse all of it, however the two collectors interleave; and it
    says of each collector that it succeeded, or that it failed and then holds
    no sample of it.  Needed are one row per device in [/proc/diskstats] and one
    object per name in the cache. *)
Theorem scrape_unique (s : N * K) out :
  wf_lvm (view s.1) → l_vgs (view s.1) !! "" = None →
  (∀ n ds, ProcDiskstats (n : N) = (ds, None) → NoDup (device <$> ds)) →
  (∀ k, wp look (λ v _, ∀ lvs, vw_cache_by_node v NodeName = (lvs, None) → NoDup (lv_Name <$> lvs)) (k : K)) →
  Collect cfg NodeName s out →
  NoDup (series <$> out) ∧
  reported out (d_name <$> vg_descs) "vg_stats" ∧ reported out (d_name <$> volume_descs) "volume_stats".
Proof.
  intros Hwf He Hds Hl HC.
  assert (∃ o1 o2, part (d_name <$> vg_descs) "vg_stats" o1 ∧ part (d_name <$> volume_descs) "volume_stats" o2 ∧
    out ≡ₚ o1 ++ o2) as (o1 & o2 & Hp1 & Hp2 & Hout).
  { destruct HC as [d1 d2 o1 s1 o2 s2 out E1 E2 Hm|d1 d2 o1 s1 o2 s2 out E2 E1 Hm]; exists o1, o2;
      rewrite <- (merges_perm _ _ _ Hm).
    - pose proof (vg_part d1 s Hwf He) as H1'. unfold wp in H1'. rewrite E1 in H1'.
      pose proof (volume_part d2 s1 (Hds _) Hl) as H2'. unfold wp in H2'. rewrite E2 in H2'. naive_solver.
    - pose proof (volume_part d2 s (Hds _) Hl) as H2'. unfold wp in H2'. rewrite E2 in H2'. destruct H2' as [Hs1 H2'].
      pose proof (vg_part d1 s1) as H1'. rewrite Hs1 in H1'. specialize (H1' Hwf He). unfold wp in H1'.
      rewrite E1 in H1'. naive_solver. }
  split; [by rewrite Hout; apply parts_unique|].
  pose proof names_disjoint as (_ & Hd1 & (_ & Hd2 & _)%NoDup_app)%NoDup_app.
  split; [exact (part_reported _ _ _ _ _ _ _ Hp1 Hp2 Hout Hd1)|].
  rewrite Permutation_app_comm in Hout. refine (part_reported _ _ _ _ _ _ _ Hp2 Hp1 Hout _).
  intros n Hn [Hn'|Hn']%elem_of_app; [|by apply (Hd2 n)]. apply (Hd1 n Hn'). apply elem_of_app. by left.
Qed.
End scrape.

(** ** On the simulated node *)

#[local] Instance sim_diskstats : DiskstatsSource (Node lvm) := {|
  ProcDiskstats _ := ([mkDiskstats 252 0 10 0 2048 3 5 0 1024 2 0 5; mkDiskstats 8 0 1 1 1 1 1 1 1 1 1 1], None)
|}.

Definition samples_of (o : outcome (list Metric)) : list Metric := match o with Done l => l | Panic _ => [] end.

Lemma merges_app {A} (l1 l2 : list A) : merges l1 l2 (l1 ++ l2).
Proof. induction l1; [|by constructor]. induction l2; by constructor. Qed.

Lemma sim_rows_distinct (n : Node lvm) ds : ProcDiskstats n = (ds, None) → NoDup (device <$> ds).
Proof. intros [= <-]. apply (bool_decide_unpack _). vm_compute. exact I. Qed.

(** A cluster with one volume, on the device 252:0. *)
#[local] Instance one_volume : Kube unit := {|
  kube_view _ :=
    let vol := set_lv_Status (mkLvStatus "volume-pvc-1" OK "" (Some (40 * GiB)) "Success" 252 0)
      (LogicVolumeService.new_lv "prod" "data" "n1" "carina-vg-ssd" "pvc-1" 40 (mkOwner "" "" "" "" None None) ∅) in
    let lv (_ : string) := (vol, None) in
    (mkView lv lv (λ _, ([vol], None)) (λ _, ([vol], None)) ([vol], None)
       (λ n, (sample_nsr n, None)) (λ n, (sample_nsr n, None))
       (λ n, (sample_node n, None)) (λ n, (sample_node n, None)) (λ _, ([], None))
       (λ _ _, (∅, None)) (λ _ _, (∅, None)) no_objects, ());
  kube_call _ _ := (None, ());
  kube_now _ := "now"
|}.

Definition metrics_agent : Node lvm * Ctl unit := (sim_node, mkCtl ∅ [] [] [] ()).

Lemma one_volume_names (k : Ctl unit) :
  wp look (λ v _, ∀ lvs, vw_cache_by_node v "n1" = (lvs, None) → NoDup (lv_Name <$> lvs)) k.
Proof. intros lvs [= <-]. apply NoDup_singleton. Qed.


Definition vg_out := execute (float_of_int 2) "vg_stats" (vg_Update sim_settings "n1") metrics_agent.
Definition volume_out := execute (float_of_int 3) "volume_stats" (volume_Update "n1") vg_out.2.

Lemma scrape_unique_witness :
  NoDup (series <$> samples_of vg_out.1 ++ samples_of volume_out.1).
Proof.
  refine (proj1 (scrape_unique sim_settings "n1" metrics_agent (samples_of vg_out.1 ++ samples_of volume_out.1) _ _ _ _ _)).
  - apply sim_node_wf.
  - reflexivity.
  - exact sim_rows_distinct.
  - apply one_volume_names.
  - eapply (Collect_vg_first _ _ _ (float_of_int 2) (float_of_int 3) _ vg_out.2 _ volume_out.2);
      [vm_compute; reflexivity|vm_compute; reflexivity|apply merges_app].
Defined.
