(* ===== verification/DeviceCheckTheorems.v ===== *)
(** * The device scan never loses a volume

    The theorem on [addAndRemoveDevice]; the laws it needs of the block device
    tools, discharged for the partition manager on top of [lsblk]; and a run on
    the simulated node. *)

From S2P Require Import Prelude GoStrings Api GoRuntime Mutx Exec Utils Config NodeService HostPath Kube.
From S2P Require Import LogicVolumeService LvmParse Lvmd Bcache Partition PartitionCorrect Volume Reconciler Capacity.
From S2P Require Import DeviceCheck LvmSpec VolumeCorrect ReconcilerCorrect DeviceCheckCorrect LvmTools LvmSim.
From S2P Require Import ReconcilerTheorems CapacityCorrect.

#[local] Open Scope string_scope.
#[local] Open Scope list_scope.
#[local] Open Scope Z_scope.

Import deviceCheck.

(** ** The whole pass *)

Lemma select_groups_good node ds :
  Forall (λ d, good_group (ds_Name d) ∧ good_group (ToLower (ds_Name d))) ds → good_groups (select_groups ds node).
Proof.
  intros Hds. unfold select_groups. destruct node as [node [e|]]; [intros k d; by rewrite lookup_empty|].
  assert (good_groups ∅) as Hm by (intros k d; by rewrite lookup_empty). revert Hm.
  generalize (∅ : gmap string DiskSelectorItem). induction Hds as [|d ds Hd _ IH]; intros m Hm; simpl; [done|].
  apply IH. assert (∀ m, good_groups m → good_groups (<[ds_Name d := d]> m)) as Hins.
  { intros m' Hm' k d'. destruct (decide (ds_Name d = k)) as [<-|Hne].
    - rewrite lookup_insert_eq. intros [= <-]. by destruct Hd.
    - rewrite lookup_insert_ne by done. apply Hm'. }
  destruct (kn_Labels node); [destruct (bool_decide _)|]; destruct (String.eqb _ _); auto.
Qed.

Section theorem.
Context {N K : Type} `{HasLocks N} `{!HasLocksLaws N} `{!Lvm2 N} `{!Lvm2Laws N}.
Context `{!Bcache N} `{!BcacheLaws N} `{GoRuntimeLaws} `{!PartitionManager N} `{!DiskScanLaws N} `{!Regexp}.
Context `{KubeClient K} `{!KubeLaws K} `{!Notifier K} `{!NoticeLaws K}.
Context (cfg : Settings) (NodeName : string).

Definition node_groups (v : View) : gmap string DiskSelectorItem :=
  select_groups (DiskSelector cfg) (vw_cache_node v NodeName).

(** What a pass leaves behind. *)
Definition scan_result (s s' : N * K) : Prop :=
  calls s'.2 = calls s.2 ∧ ∃ v, seen s'.2 = seen s.2 ++ [v] ∧
    scanned (node_groups v) (get_locks s.1) (view s.1) s'.1.

(** [C22] A pass of the device scan, on every branch and whatever fails: it
    returns, gives its locks back, writes nothing to the API server and leaves
    the lvm state well formed with every logical volume as it was.  A device
    joins a group only if the selector of that group matches it and it is an
    unused, unpartitioned block device or a physical volume without a group;
    it leaves a group only if the selector does not match it, it is missing,
    or the group holds no volume. *)
Theorem device_scan_safe (s : N * K)
    (Hwf : wf_lvm (view s.1)) (Hempty : l_vgs (view s.1) !! "" = None)
    (Hnames : Forall (λ d, good_group (ds_Name d) ∧ good_group (ToLower (ds_Name d))) (DiskSelector cfg)) :
  wp (addAndRemoveDevice cfg NodeName) (λ _ s', scan_result s s') s.
Proof.
  unfold addAndRemoveDevice, nodeStorageResourceReconciler.GetNodeDiskSelectGroup. apply wp_bind, wp_bind, wp_on_snd.
  eapply wp_mono; [apply look_law|]. intros v k [Hcalls Hseen]. apply wp_ret. fold (node_groups v).
  apply (select_groups_good (vw_cache_node v NodeName)) in Hnames. fold (node_groups v) in Hnames.
  set (groups := node_groups v) in *.
  set (ok := scanned groups (get_locks s.1) (view s.1)).
  assert (∀ n, ok n → scan_result s (n, k)) as Hdone by (intros n Hn; split; [done|]; by exists v).
  assert (ok s.1) as Hok by (split; try done; apply moves_refl).
  assert (∀ n (f : res (list VgGroup) → M (N * K) unit), ok n →
    (∀ gs e n', ok n' → wp (f (gs, Some e)) (λ _ s', scan_result s s') (n', k)) →
    (∀ gs n', ok n' → view n' = view n → gs ≡ₚ group_row (view n) <$> (map_to_list (l_vgs (view n))).*2 →
      wp (f (gs, None)) (λ _ s', scan_result s s') (n', k)) →
    wp (on_fst LocalVolumeImplement.GetCurrentVgStruct ≫= f) (λ _ s', scan_result s s') (n, k)) as Hread.
  { intros n f Hn Herr Hgs. apply wp_bind, wp_on_fst. eapply wp_mono; [apply GetCurrentVgStruct_ok; apply Hn|].
    intros [gs [e|]] n' (HL & Hv & Hr); [apply Herr|apply Hgs]; try done; by apply (scanned_view _ _ _ n). }
  apply Hread; [done|intros; apply wp_ret; auto|]. intros before n1 Hn1 Hv1 _.
  apply wp_bind, wp_on_fst. eapply wp_mono; [by apply discoverDisk_ok|].
  intros [new [e|]] n2 (Hn2 & Hv2 & Hnew); [apply wp_ret; auto|].
  apply wp_bind, wp_on_fst. eapply wp_mono; [by apply discoverPv_ok|].
  intros [newPv [e|]] n3 (Hn3 & Hpv); [apply wp_ret; auto|].
  apply wp_bind, wp_on_fst. eapply wp_mono; [apply add_disks_ok; [done|by apply all_in_merge|done]|].
  intros ? n4 Hn4. apply Hread; [done|intros; apply wp_ret; auto|]. intros gs n5 Hn5 Hv5 Hgs.
  apply wp_bind, wp_on_fst. eapply wp_mono; [apply (remove_disks_ok groups (get_locks s.1) (view s.1) Hnames gs (view n4)); try done; apply Hn4|].
  intros [?|?] n6 Hn6; [|apply wp_ret; auto].
  apply Hread; [done|intros; apply wp_ret; auto|]. intros after n7 Hn7 Hv7 _.
  destruct (decide _); [apply wp_ret; auto|]. apply wp_on_snd. eapply wp_mono; [apply notify_law|].
  intros ? k' [Hc' Hs']. simpl in Hc', Hs'. split; [simpl; congruence|]. exists v. split; [simpl; congruence|done].
Qed.
End theorem.

(** ** The tools on block devices *)

Definition lsblk_args (dev : string) : list string :=
  ["--pairs"; "--paths"; "--bytes"; "--output"; "NAME,FSTYPE,MOUNTPOINT,SIZE,STATE,TYPE,ROTA,RO,PKNAME,MAJ:MIN"] ++
  (if String.eqb dev "" then [] else [dev]).

(** lsblk(8) with [--pairs]: a line for each device. *)
Class Lsblk (W : Type) `{OS W} : Prop := {
  lsblk_law dev w : let r := (os_run "lsblk" (lsblk_args dev) w).1 in
    pr_end r = ExitOk → ∃ ds, Forall wf_local_disk ds ∧ TrimSpace (pr_stdout r) = lsblk_pairs ds
}.

Section implementation.
Context {W : Type} `{OS W} `{!LvmTools W} `{!Lsblk W} `{DiskoMethods} `{!Disko W} `{!GoRuntime}.

Lemma list_devices dev (n : Node W) :
  wp (LocalPartitionImplement.ListDevicesDetailWithoutFilter dev) (λ r n',
    get_locks n' = get_locks n ∧ view n' = view n ∧ ∀ d, d ∈ r.1 → safe (ld_Name d)) n.
Proof.
  unfold LocalPartitionImplement.ListDevicesDetailWithoutFilter. fold (lsblk_args dev).
  apply wp_bind, wp_ExecuteCommandWithOutput. pose proof (lsblk_law dev (nd_world n)) as Hl. cbv zeta in Hl.
  assert (no_lvm_command ("lsblk", lsblk_args dev)) as Hno by (left; set_solver).
  pose proof (tool_other _ (nd_world n) Hno) as Ht. cbn [fst snd] in Ht.
  destruct (os_run _ _ _) as [r w]. cbn [fst snd] in *. unfold runCommandWithOutput.
  assert (view (mkNode (nd_locks n) (nd_parts n) w (nd_trace n ++ [("lsblk", lsblk_args dev)])) = view n) as Hv by exact Ht.
  destruct (pr_end r) as [|m|m]; cbn [proc_error].
  2,3: apply wp_ret; split_and!; [done|exact Hv|by intros d ?%not_elem_of_nil].
  destruct (Hl eq_refl) as (ds & Hds & ->). destruct (decide (ds = [])) as [->|Hne].
  { apply wp_ret. split_and!; [done|exact Hv|by intros d ?%not_elem_of_nil]. }
  rewrite parseDiskString_report by done. apply wp_ret. split_and!; [done|exact Hv|].
  intros d (e & -> & He)%list_elem_of_fmap. rewrite Forall_forall in Hds. apply Hds in He as [Hf _ _].
  apply Forall_cons in Hf as [[Hs _] _]. by destruct e.
Qed.

#[export] Instance Partition_scan_laws : DiskScanLaws (Node W).
Proof.
  split.
  - intros n. apply wp_bind. eapply wp_mono; [apply list_devices|]. intros [rows [e|]] n' (HL & Hv & Hs); apply wp_ret;
      split_and!; try done; [by intros d ?%not_elem_of_nil|]. intros d Hd. apply Hs. cbn [fst] in Hd.
    unfold filter_disks in Hd. rewrite list_elem_of_In, filter_In in Hd. by apply list_elem_of_In, Hd.
  - apply list_devices.
  - intros dev n. unfold wp, GetDiskUsed, PartitionManager_Node, LocalPartitionImplement.GetDiskUsed.
    destruct (os_stat _ _); try done; by destruct (sys_Statfs _ _).
Qed.
End implementation.

(** ** On the simulated node *)

(** Its disks have no partitions. *)
#[local] Instance blank_disks : Disko lvm := {|
  sys_ScanDisks _ _ l := ((∅, None), l);
  sys_ScanAllDisks _ l := ((∅, None), l);
  sys_ScanDisk _ l := ((zero_DiskoDisk, None), l);
  sys_CreatePartition _ _ l := (Some (ErrString "read only"), l);
  sys_DeletePartition _ _ l := (Some (ErrString "read only"), l);
  sys_Wipe _ l := (Some (ErrString "read only"), l);
  sys_Statfs _ _ := (0, 0)
|}.

#[local] Instance blank_methods : DiskoMethods := {|
  FreeSpaces _ := [];
  FreeSpacesWithMin _ _ := [];
  FreeSpaceSize f := fs_Last f - fs_Start f;
  PartitionSize _ := 0;
  GetPartitionKname d n := d +:+ FormatInt n;
  partid_LinuxFS := ""
|}.

#[local] Instance sim_partitions : PartitionManager (Node lvm) := PartitionManager_Node lvm.

Lemma sim_block_devices_wf l : Forall wf_local_disk (sim_block_devices l).
Proof.
  unfold sim_block_devices. repeat constructor; cbn [disk_fields ld_Filesystem fst snd]; try (by destruct (existsb _ _)); try done.
Qed.

#[local] Instance sim_lsblk_tool : Lsblk lvm.
Proof.
  split. intros dev l. unfold lsblk_args. destruct (String.eqb dev ""); intros _.
  - exists (sim_block_devices l). split; [apply sim_block_devices_wf|].
    change (os_run "lsblk" _ l).1 with (exit_ok (lsblk_pairs (sim_block_devices l))). unfold sim_block_devices. simpl fmap.
    by destruct (existsb _ _), (existsb _ _).
  - exists (List.filter (λ d, String.eqb (ld_Name d) dev) (sim_block_devices l)). split.
    { apply Forall_forall. intros d Hd. apply list_elem_of_In, filter_In in Hd as [Hd%list_elem_of_In _].
      pose proof (sim_block_devices_wf l) as Hwf. rewrite Forall_forall in Hwf. auto. }
    change (os_run "lsblk" _ l).1 with
      (exit_ok (lsblk_pairs (List.filter (λ d, String.eqb (ld_Name d) dev) (sim_block_devices l)))).
    unfold sim_block_devices. simpl fmap. cbn [List.filter ld_Name].
    destruct (String.eqb "/dev/vdb" dev), (String.eqb "/dev/vdc" dev); repeat destruct (existsb _ _); done.
Qed.

Definition free_after_scan : option Z :=
  vg_VGFree <$> l_vgs (nd_world (addAndRemoveDevice sim_settings "n1" (sim_agent [])).2.1) !! "carina-vg-ssd".

(** The second disk joins the group. *)
Lemma device_scan_safe_witness :
  free_after_scan = Some (160 * GiB) ∧
  wp (addAndRemoveDevice sim_settings "n1") (λ _ s', scan_result sim_settings "n1" (sim_agent []) s') (sim_agent []).
Proof.
  split; [vm_compute; reflexivity|].
  refine (device_scan_safe sim_settings "n1" (sim_agent []) _ _ _).
  - apply sim_node_wf.
  - reflexivity.
  - repeat constructor; discriminate.
Defined.
