(* ===== verification/EndToEnd.v ===== *)
(** * From the pod to the volume group

    The scheduler, the reporter of the node and the volume manager of the node
    computed free space independently; together they agree. *)

From S2P Require Import Prelude GoStrings Api GoRuntime Mutx Exec Utils Config NodeService Scheduler SchedulerTheorems.
From S2P Require Import Kube LogicVolumeService CsiController CsiControllerTheorems Lvmd Bcache Partition Volume Reconciler.
From S2P Require Import Capacity LvmSpec VolumeCorrect LvmTools LvmSim ReconcilerTheorems CapacityCorrect.

#[local] Open Scope string_scope.
#[local] Open Scope list_scope.
#[local] Open Scope Z_scope.

(** The controller and the scheduler round the same way. *)
Lemma convert_request_gb b : 1 <= b < 2^63 → convertRequestCapacity b 0 = (request_gb b, None).
Proof.
  intros Hb. unfold convertRequestCapacity, request_gb.
  destruct (Z.ltb_spec b 0); [lia|]. cbn [Z.ltb Z.eqb negb andb Z.compare].
  destruct (Z.eqb_spec b 0); [lia|done].
Qed.

Lemma request_gb_mono a b : 0 <= a <= b → b < 2^63 → request_gb a <= request_gb b.
Proof.
  intros Hab Hb. destruct (request_gb_spec a) as [_ Ha]; [lia|]. destruct (request_gb_spec b) as [_ Hb']; [lia|].
  unfold GiB in *. nia.
Qed.

Lemma group_name_plain g : has_char "/" g = false → group_name g = g.
Proof. intros Hg. unfold group_name. by rewrite Split_none. Qed.

Lemma sumZ_member {A} (f : A → Z) l x : Forall (λ x, 0 <= f x) l → x ∈ l → f x <= sumZ (f <$> l).
Proof.
  induction 1 as [|y l Hy Hl IH]; intros Hx; [by apply not_elem_of_nil in Hx|].
  rewrite fmap_cons, sumZ_cons. pose proof (sumZ_fmap_nonneg f l Hl). apply elem_of_cons in Hx as [->|Hx]; [lia|].
  specialize (IH Hx). lia.
Qed.

Section end_to_end.
Context {N K : Type} `{HasLocks N} `{!HasLocksLaws N} `{!Lvm2 N} `{!Lvm2Laws N}.
Context `{!Bcache N} `{!BcacheLaws N} `{GoRuntimeLaws} `{KubeClient K} `{!KubeLaws K}.
Context (cfg : Settings) (NodeName : string).

(** [C5] A pod that the scheduler puts on a node on account of the status the
    node reported gets its LVM volume there: the size the controller requests
    for any claim the filter counted passes the reservation check of the node,
    as long as nothing else used the space meanwhile. *)
Theorem scheduled_volume_fits (li : Listers) (pod : Pod) (nodeName : string) (useRaw : bool)
    (m : gmap string (list pvcRequest)) (vg lv : string) (reqs : list pvcRequest) (r : pvcRequest) (s : N * K)
    (Hreq : getPvcRequestMap cfg li pod = Done ((m, nodeName, useRaw), None))
    (Hm : m !! vg = Some reqs) (Hr : r ∈ reqs) (Hpos : 1 <= rq_request r)
    (Hsizes : Forall (λ r, 0 <= rq_request r) reqs) (Hsum : sumZ (rq_request <$> reqs) < 2^63)
    (Hlvm : SchedulerConfig.CheckRawDeviceGroup cfg vg = false)
    (Hslash : has_char "/" vg = false)
    (Hnames : ok_names lv vg) (Hwf : wf_lvm (view s.1)) (Hempty : l_vgs (view s.1) !! "" = None) :
  wp (nodeStorageResourceReconciler.generateLvmStatus cfg NodeName (empty_status NodeName)) (λ status s',
    getNodeStorageResource li NodeName = (status, None) →
    Filter cfg li pod NodeName = Done Success →
    ∃ gb, convertRequestCapacity (rq_request r) 0 = (gb, None) ∧
      wp (LocalVolumeImplement.CreateVolume lv vg (gb * GiB) 1)
        (λ err _, err ≠ Some (ErrString ResourceExhausted)) s'.1) s.
Proof.
  pose proof (sumZ_member rq_request reqs r Hsizes Hr) as Hle. cbv beta in Hle.
  eapply wp_mono; [by apply (advertised_usable cfg NodeName lv vg (request_gb (rq_request r)))|].
  intros status s' Husable Hn Hf. exists (request_gb (rq_request r)). split; [apply convert_request_gb; lia|].
  destruct (Filter_success _ _ _ _ _ _ _ Hreq Hf) as [_ [->|(alloc & Ha & Hall)]]; [by rewrite lookup_empty in Hm|].
  pose proof (group_fits_lvm _ _ _ _ Hlvm Hsizes Hsum (Hall _ _ Hm)) as Hfit.
  rewrite (allocatable_lvm _ _ _ _ _ _ vg Hn Ha) in Hfit by by rewrite group_name_plain.
  assert (request_gb (rq_request r) <= request_gb (sumZ (rq_request <$> reqs))) as Hmono by (apply request_gb_mono; [split|]; lia).
  destruct (request_gb_spec (rq_request r)) as [_ Hgb]; [lia|]. unfold GiB in Hgb.
  change (DeviceCapacityKeyPrefix +:+ vg) with (group_key vg) in Hfit.
  destruct (nsr_Allocatable status !! group_key vg) as [a|] eqn:Hal; cbv [default from_option id] in Hfit; [|lia].
  apply (Husable a); [done|lia].
Qed.
End end_to_end.

(** ** Witness: the simulated node and a pod with one claim *)

(** The status the simulated node reports. *)
Definition sim_status : NodeStorageResource :=
  match (nodeStorageResourceReconciler.generateLvmStatus sim_settings "n1" (empty_status "n1") (sim_agent [])).1 with
  | Done status => status
  | Panic _ => empty_status ""
  end.

Definition sim_listers : Listers :=
  mkListers (λ _ _, (mkPvc (Some "csi-carina") false "" (50 * GiB + 1), None)) (λ _, (ssd_class, None))
    (λ _, (mkPersistentVolume None, Some (ErrApi ReasonNotFound "not found"))) ([], None) ([], None)
    (λ n, ((sim_status, None), None))
    (λ n, (empty_status n, Some (ErrApi ReasonNotFound "not found"))).

Definition single_pod : Pod := mkPod "p" "default" [Some "a"].

Lemma scheduled_volume_fits_witness :
  (nodeStorageResourceReconciler.generateLvmStatus sim_settings "n1" (empty_status "n1") (sim_agent [])).1 =
    Done sim_status ∧
  nsr_Allocatable sim_status !! group_key "carina-vg-ssd" = Some 51 ∧
  Filter sim_settings sim_listers single_pod "n1" = Done Success ∧
  wp (nodeStorageResourceReconciler.generateLvmStatus sim_settings "n1" (empty_status "n1")) (λ status s',
    getNodeStorageResource sim_listers "n1" = (status, None) →
    Filter sim_settings sim_listers single_pod "n1" = Done Success →
    ∃ gb, convertRequestCapacity (50 * GiB + 1) 0 = (gb, None) ∧
      wp (LocalVolumeImplement.CreateVolume "pvc-2" "carina-vg-ssd" (gb * GiB) 1)
        (λ err _, err ≠ Some (ErrString ResourceExhausted)) s'.1) (sim_agent []).
Proof.
  do 3 (split; [vm_compute; reflexivity|]).
  refine (scheduled_volume_fits sim_settings "n1" sim_listers single_pod "" false
    {["carina-vg-ssd" := [mkRequest false (50 * GiB + 1)]]} "carina-vg-ssd" "pvc-2"
    [mkRequest false (50 * GiB + 1)] (mkRequest false (50 * GiB + 1)) (sim_agent []) _ _ _ _ _ _ _ _ _ _ _).
  - vm_compute. reflexivity.
  - reflexivity.
  - left.
  - vm_compute. discriminate.
  - repeat constructor. vm_compute. discriminate.
  - vm_compute. reflexivity.
  - reflexivity.
  - reflexivity.
  - repeat split; reflexivity.
  - apply sim_node_wf.
  - reflexivity.
Defined.
