(* ===== verification/Provision.v ===== *)
(** * From the request for a volume to the mount of a pod

    The controller turns the bytes of a request into an object, the reconciler
    of the node into a logical volume, and the node service mounts a device.
    Together: the device is that volume, and it holds the bytes. *)

From S2P Require Import Prelude GoStrings Api GoRuntime Mutx Exec Utils Config NodeService HostPath Kube.
From S2P Require Import LogicVolumeService CsiController CsiControllerTheorems LvmParse Lvmd Bcache Partition PartitionCorrect Volume.
From S2P Require Import Reconciler LvmSpec VolumeCorrect ReconcilerCorrect LvmTools LvmSim ReconcilerTheorems.
From S2P Require Import PartitionTheorems Filesystem FilesystemCorrect CsiNode NodeSim CsiNodeTheorems.

Import nodeService.

#[local] Open Scope string_scope.
#[local] Open Scope list_scope.
#[local] Open Scope Z_scope.

Section provision.
Context {W K K2 : Type} `{OS W, Files W, FileSys W, DiskoMethods, Disko W, Udev W, UnixDev}.
Context `{!LvmTools W, !DiskoLaws W, !FileSysLaws W} `{GoRuntimeLaws}.
Context `{KubeLaws K} `{!Notifier K} `{!NoticeLaws K} `{KubeLaws K2} `{!HostManager (Node W)}.
Context (fuel : nat) (Hfuel : (attempts ≤ fuel)%nat) (cfg : Settings).

(** The objects of the volume once the node has written its status. *)
Definition same_volume (lv lvr : LogicVolume) : Prop := volume_type lvr = LvmVolumeType ∧ lv_Spec lvr = lv_Spec lv.

(** The size of the object the controller makes. *)
Lemma new_lv_size ns pvc node group pv gb owner ann required limit :
  is_i64 required → is_i64 limit → convertRequestCapacity required limit = (gb, None) → gb < 2^33 →
  ls_Size (lv_Spec (LogicVolumeService.new_lv ns pvc node group pv gb owner ann)) = gb * GiB ∧ 1 <= gb ∧ required <= gb * GiB.
Proof.
  intros Hr Hl Hc Hgb. destruct (convert_exact required limit Hr Hl) as [Hx _]. rewrite Hc in Hx.
  destruct Hx as (_ & _ & _ & Hone & Hle & _). split; [|done]. cbn. rewrite Z.shiftl_mul_pow2 by lia.
  unfold GiB. rewrite i64_id; [done|]. unfold is_i64. lia.
Qed.

Lemma published_lvm G lvr (s s' : NodeSvc W K2) req FsType flags :
  (∀ lvr', G lvr' → same_volume lvr lvr') → publish_result G s req (Mount FsType flags) None s' →
  ∃ i, l_lvs (lvm_of (nd_world (sv_node s))) !! (ls_DeviceGroup (lv_Spec lvr), np_VolumeId req) = Some i ∧
    published (Mount FsType flags) (np_TargetPath req) (Join2 DeviceDirectory (np_VolumeId req))
      (lvi_LVKernelMajor i) (lvi_LVKernelMinor i) (fs (sv_node s)) (fs (sv_node s')).
Proof.
  intros HG (_ & _ & _ & Hdone). destruct (Hdone eq_refl) as (lvr' & device & major & minor & Hg & Hb & Hp).
  destruct (HG _ Hg) as [Hlvm Hspec]. destruct Hb as [i _ Hi|? ? ? ? ? ? ? ? Hraw]; [|by rewrite Hraw in Hlvm].
  rewrite Hspec in Hi. eauto.
Qed.

(** What a truthful report of success says of a fresh object. *)
Lemma success_created lv o l l' :
  lv_Deleting lv = false → lv_Status lv = zero_LvStatus → 0 <= ls_Size (lv_Spec lv) →
  l_lvs l !! (ls_DeviceGroup (lv_Spec lv), VolumePrefix +:+ lv_Name lv) = None →
  truthful (N:=Node W) lv l l' (ApiUpdateStatus o) → st_Status (lv_Status o) = "Success" →
  st_VolumeID (lv_Status o) = VolumePrefix +:+ lv_Name lv ∧
  ∃ i, l_lvs l' !! (ls_DeviceGroup (lv_Spec lv), VolumePrefix +:+ lv_Name lv) = Some i ∧
    lvi_LVSize i = Z.shiftr (ls_Size (lv_Spec lv)) 30 * GiB.
Proof.
  intros Hdel Hst Hpos Hfree [_ [[_ Hrep]|[Hid _]]] Hok; [|by rewrite Hst in Hid].
  destruct Hrep as (_ & _ & [(_ & Hid & _ & _ & Hc)|(Hbad & _)]); [|by rewrite Hbad in Hok].
  split; [done|]. destruct Hc as [(i & Hi & _)|(g & i & _ & _ & Hsz & _ & Hl & _)]; [by rewrite Hi in Hfree|].
  exists i. rewrite Hl, lookup_insert_eq. done.
Qed.

(** [C7] A pod gets the volume that was asked for.  The controller makes an
    object from the bytes of a request; when the reconciler of the node has
    reported success for it, the volume group holds a volume of at least that
    many bytes, in whole GiB, and a later publication of the volume id that was
    reported, if it succeeds, mounts the device of exactly that volume at the
    target and spares every other file system. *)
Theorem provisioned_volume_published (required limit gb : Z) (ns pvc node group pv : string) (owner : OwnerReference)
    (ann : gmap string string) (lv : LogicVolume) (s : Node W * K) (v : View) (k1 : K)
    (Hreq : is_i64 required) (Hlim : is_i64 limit) (Hconv : convertRequestCapacity required limit = (gb, None)) (Hgb : gb < 2^33)
    (Hlv : lv = LogicVolumeService.new_lv ns pvc node group pv gb owner ann) (Htype : volume_type lv = LvmVolumeType)
    (Hlook : look s.2 = (Done v, k1)) (Hget : vw_cache_lv v pv = (lv, None))
    (Hnames : ok_names pv group) (Hgroup : group ≠ "") (Hwf : wf_lvm (view s.1))
    (Hfree : l_lvs (view s.1) !! (group, VolumePrefix +:+ pv) = None) :
  wp (LogicVolumeReconciler.Reconcile pv) (λ _ s', ∀ o, calls s'.2 = calls s.2 ++ [ApiUpdateStatus o] → st_Status (lv_Status o) = "Success" →
    ∃ i, l_lvs (view s'.1) !! (group, st_VolumeID (lv_Status o)) = Some i ∧ lvi_LVSize i = gb * GiB ∧ required <= lvi_LVSize i ∧
      ∀ (svc : NodeSvc W K2) req FsType flags mode,
        lvm_of (nd_world (sv_node svc)) = view s'.1 → np_VolumeId req = st_VolumeID (lv_Status o) →
        objects_are (same_volume lv) (np_VolumeId req) → canonical (np_TargetPath req) →
        np_Capability req = Some (Mount FsType flags, mode) → mget (np_VolumeContext req) VolumeCacheId = "" →
        wp (NodePublishVolume fuel cfg req) (λ err svc',
          spared (volume_paths (sv_node svc) (np_VolumeId req) (np_TargetPath req)) (fs (sv_node svc)) (fs (sv_node svc')) ∧
          (err = None → published (Mount FsType flags) (np_TargetPath req) (Join2 DeviceDirectory (np_VolumeId req))
            (lvi_LVKernelMajor i) (lvi_LVKernelMinor i) (fs (sv_node svc)) (fs (sv_node svc')))) svc) s.
Proof.
  destruct (new_lv_size ns pvc node group pv gb owner ann required limit Hreq Hlim Hconv Hgb) as (Hsz & Hpos & Hle).
  rewrite <- Hlv in Hsz.
  assert (lv_Name lv = pv ∧ ls_DeviceGroup (lv_Spec lv) = group ∧ lv_Deleting lv = false ∧ lv_Status lv = zero_LvStatus)
    as (Hname & Hgr & Hdel & Hst) by by rewrite Hlv.
  assert (is_u64 (gb * GiB)) as Hu by (unfold is_u64, GiB; lia).
  eapply wp_mono; [apply (Reconcile_ok pv s v k1 lv Hlook Hget Htype); rewrite ?Hname, ?Hgr, ?Hsz; done|].
  intros _ s' (_ & Hwf' & Hcs) o Ho Hok. destruct Hcs as [Hcs|(c & Hcs & Htrue)].
  { rewrite Ho in Hcs. by apply (f_equal length) in Hcs; rewrite length_app in Hcs; simpl in Hcs; lia. }
  rewrite Ho in Hcs. apply app_inv_head in Hcs. injection Hcs as <-.
  destruct (success_created lv o (view s.1) (view s'.1) Hdel Hst) as (Hid & i & Hi & His); [unfold is_u64 in Hu; lia|by rewrite Hgr, Hname|done..|].
  rewrite Hgr, Hname in *. rewrite Hid. exists i.
  assert (lvi_LVSize i = gb * GiB) as Hbytes by (rewrite His, Hsz, Z.shiftr_div_pow2 by lia; unfold GiB; by rewrite Z.div_mul by lia).
  split_and!; [done|done|lia|]. intros svc req FsType flags mode Hsame Hvol Hobj Htgt Hcap Hplain.
  assert (∀ lvr, same_volume lv lvr → good_object lvr) as Hgood.
  { intros lvr [Hty Hsp]. unfold good_object. rewrite Hty, Hsp, Hgr. by split_and!; [split; [|apply Hnames]|..]. }
  eapply wp_mono; [apply (NodePublishVolume_ok fuel Hfuel cfg _ Hgood req (Mount FsType flags) mode svc Hobj); try done|].
  - by rewrite Hsame.
  - rewrite Hvol. by apply prefixed_valid, Hnames.
  - intros err svc' [_ Hp]. split; [apply Hp|]. intros ->.
    destruct (published_lvm _ lv svc svc' req FsType flags (λ _ H, H) Hp) as (i' & Hi' & Hpub).
    rewrite Hsame, Hgr, Hvol, Hi in Hi'. by injection Hi' as <-.
Qed.
End provision.

(** ** A request of just under 5 GiB, on the simulated node *)

#[local] Instance sim_no_host_paths : HostManager (Node sim) := {|
  HostCreateVolume _ _ := mret (Some (ErrString "no host path"));
  HostDeleteVolume _ _ := mret (Some (ErrString "no host path"))
|}.

#[local] Instance requested_kube : Kube unit := const_kube (requested "pvc-2").

Definition asked : Node sim * Ctl (list LogicVolume) := (sv_node fresh_node, sample_ctl [requested "pvc-2"]).
Definition publish_new : NodePublishVolumeRequest :=
  mkPublish "volume-pvc-2" pod_target (Some (Mount "" [], Some SINGLE_NODE_WRITER)) false ∅.

(** The node service on the node the reconciler left. *)
Definition svc_on (n : Node sim) : NodeSvc sim (Ctl unit) := mkSvc ∅ n (mkCtl ∅ [] [] [] ()).

Lemma requested_objects id : objects_are (K:=Ctl unit) (same_volume (requested "pvc-2")) id.
Proof. intros k k' v lvr [= <- <-] [[= <-]|(items & [= <-] & Hl)]; [done|]. by injection Hl as <-. Qed.

Lemma provisioned_volume_published_witness :
  (NodePublishVolume 1 ssd_cfg publish_new (svc_on (LogicVolumeReconciler.Reconcile "pvc-2" asked).2.1)).1 = Done None ∧
  lv_Status <$> ct_world (LogicVolumeReconciler.Reconcile "pvc-2" asked).2.2 =
    [mkLvStatus "volume-pvc-2" OK "" (Some (5 * GiB)) "Success" 252 0] ∧
  wp (LogicVolumeReconciler.Reconcile "pvc-2") (λ _ s', ∀ o, calls s'.2 = [ApiUpdateStatus o] → st_Status (lv_Status o) = "Success" →
    st_VolumeID (lv_Status o) = "volume-pvc-2" →
    ∃ i, l_lvs (view s'.1) !! ("carina-vg-ssd", "volume-pvc-2") = Some i ∧ lvi_LVSize i = 5 * GiB ∧
      wp (NodePublishVolume 1 ssd_cfg publish_new) (λ err svc', err = None →
        published (Mount "" []) pod_target "/dev/carina/volume-pvc-2" (lvi_LVKernelMajor i) (lvi_LVKernelMinor i)
          (fs s'.1) (fs (sv_node svc'))) (svc_on s'.1)) asked.
Proof.
  split; [vm_compute; reflexivity|]. split; [vm_compute; reflexivity|].
  eapply wp_mono; [refine (provisioned_volume_published (K2:=Ctl unit) 1 _ ssd_cfg (5 * GiB - 1) 0 5 "default" "pvc" "n1" "carina-vg-ssd"
    "pvc-2" (mkOwner "" "" "" "" None None) {[VolumeManagerType := LvmVolumeType]} (requested "pvc-2") asked _ _ _ _ _ _ eq_refl _ eq_refl _ _ _ _ _)|].
  - reflexivity.
  - vm_compute. split; [discriminate|reflexivity].
  - vm_compute. split; [discriminate|reflexivity].
  - reflexivity.
  - reflexivity.
  - reflexivity.
  - reflexivity.
  - repeat split; reflexivity.
  - discriminate.
  - apply sim_node_wf.
  - reflexivity.
  - intros r s' Hall o Ho Hok Hid. destruct (Hall o Ho Hok) as (i & Hi & Hsz & _ & Hp). rewrite Hid in Hi, Hp.
    exists i. split; [exact Hi|]. split; [exact Hsz|].
    eapply wp_mono; [apply (Hp (svc_on s'.1) publish_new "" [] (Some SINGLE_NODE_WRITER)); try reflexivity|].
    + apply requested_objects.
    + intros err svc' [_ Hpub]. exact Hpub.
Defined.
