(* ===== verification/GrpcRunner.v ===== *)
(** * The runner of the gRPC server

    [runners/grpc.go]: the socket file is cleared, the server listens on it and
    runs until the context of the program ends.  The server and the listener
    are of libraries: a listener is the class [Listener], and the calls on the
    server are recorded. *)

From S2P Require Import Prelude GoStrings Api GoRuntime Mutx Exec Utils Config HostPath LvmParse Lvmd Bcache.
From S2P Require Import Partition PartitionCorrect PartitionTheorems Volume LvmSpec LvmTools LvmSim.
From S2P Require Import Filesystem FilesystemCorrect CsiNode NodeSim.

#[local] Open Scope string_scope.
#[local] Open Scope list_scope.
#[local] Open Scope Z_scope.

(** [net.Listen("unix", path)]. *)
Class Listener (W : Type) := { net_Listen : string → W → option error * W }.

(** The bind of a socket fails on a path that exists, and makes only that file. *)
Class ListenerLaws (W : Type) `{FileSysLaws W, !Listener W} := {
  Listen_law path w :
    match (net_Listen path w).1 with
    | Some _ => fs_of (net_Listen path w).2 = fs_of w
    | None => f_files (fs_of w) !! path = None ∧
        ∃ st, ¬ is_dir st ∧ fs_of (net_Listen path w).2 = set_file path st (fs_of w)
    end
}.

(** [os.ModeSocket]. *)
Definition ModeSocket : Z := 2^24.

Inductive server_call := Serve | GracefulStop.

Module gRPCServerRunner.
Record t := mk {
  sockFile : string;
  leaderElection : bool
}.

Definition NewGRPCRunner (sockFile : string) (leaderElection : bool) : t := mk sockFile leaderElection.

Definition NeedLeaderElection (r : t) : bool := leaderElection r.

Section impl.
Context {W : Type} `{OS W, Files W, FileSys W, Listener W}.

Abbreviation Program := (Node W * list server_call)%type.

Definition server (c : server_call) : M Program unit := λ s, (Done (), (s.1, s.2 ++ [c])).

(** What is done before the server runs. *)
Definition bind_socket (r : t) : M (Node W) (option error) :=
  there ← FileExists (sockFile r);
  (if negb there then _ ← file_op (os_MkdirAll (sockFile r) ModeSocket); mret () else mret ()) ;;
  _ ← on_world (os_Remove (sockFile r));
  file_op (net_Listen (sockFile r)).

(** The server closes its listener, which unlinks the socket. *)
Definition close_listener (r : t) : M (Node W) unit :=
  _ ← on_world (os_Remove (sockFile r));
  mret ().

(** [Start], in a context that ends. *)
Definition Start (r : t) : M Program (option error) :=
  err ← on_fst (bind_socket r);
  match err with
  | Some _ => mret err
  | None =>
      server Serve ;;
      server GracefulStop ;;
      on_fst (close_listener r) ;;
      mret None
  end.
End impl.
End gRPCServerRunner.

(** ** The start *)

Section theorems.
Context {W : Type} `{OS W, Files W, FileSys W, Disko W} `{!FileSysLaws W, !Listener W, !ListenerLaws W}.
Import gRPCServerRunner.

(** Only the socket file goes or comes, and directories. *)
Definition socket_kept (path : string) (f f' : Fs) : Prop :=
  same_mounts f f' ∧ (∀ d, ¬ hosts f d path → f_disks f' !! d = f_disks f !! d) ∧
  ∀ q st, q ≠ path → f_files f !! q = Some st → f_files f' !! q = Some st.

Lemma socket_kept_refl path f : socket_kept path f f.
Proof. by split_and!. Qed.

Lemma socket_kept_trans path f1 f2 f3 : socket_kept path f1 f2 → socket_kept path f2 f3 → socket_kept path f1 f3.
Proof.
  intros ([Hm1 Hb1] & Hd1 & Hf1) ([Hm2 Hb2] & Hd2 & Hf2). split_and!; [split; congruence| |by eauto].
  intros d Hd. rewrite Hd2; [by apply Hd1|]. unfold hosts in *. by rewrite Hm1.
Qed.

Lemma made_kept path f f' : directories_made f f' → socket_kept path f f'.
Proof. intros (Hm & Hd & Hf). split_and!; [done|by rewrite Hd|]. intros q st _ Hq. by eapply lookup_weaken. Qed.

Lemma removed_kept path f f' : removed path f f' → socket_kept path f f'.
Proof.
  intros (Hm & Hf & Hd & _). split_and!; [done|done|]. intros q st Hq Hst. by rewrite Hf, lookup_delete_ne.
Qed.

Lemma set_file_kept path st f : socket_kept path f (set_file path st f).
Proof. split_and!; [done|done|]. intros q st' Hq Hst. cbn. by rewrite lookup_insert_ne. Qed.

Lemma Remove_kept path (n n1 : Node W) Q : socket_kept path (fs n) (fs n1) →
  (∀ e n2, socket_kept path (fs n) (fs n2) → Q e n2) → wp (on_world (os_Remove path)) Q n1.
Proof.
  intros Hk HQ. apply wp_on_world, HQ. eapply socket_kept_trans; [exact Hk|].
  pose proof (os_Remove_law path (nd_world n1)) as Hr. unfold fs. cbn [nd_world].
  destruct (os_Remove path (nd_world n1)) as [[e|] w]; cbn [fst snd] in *; [|by apply removed_kept].
  destruct Hr as [-> _]. apply socket_kept_refl.
Qed.

Lemma bind_socket_ok r (n : Node W) : os_stat (sockFile r) (nd_world n) ≠ StatError →
  wp (bind_socket r) (λ err n', socket_kept (sockFile r) (fs n) (fs n') ∧
    (err = None → ∃ st, f_files (fs n') !! sockFile r = Some st ∧ ¬ is_dir st)) n.
Proof.
  intros Hstat. unfold bind_socket. apply wp_bind. set (path := sockFile r) in *.
  assert (wp (FileExists path) (λ _ n1, n1 = n) n) as Hex.
  { unfold FileExists, exists_, wp, mbind, M_bind. simpl. by destruct (os_stat path (nd_world n)). }
  eapply wp_mono; [exact Hex|]. intros there n1 ->. apply wp_bind.
  apply (wp_mono _ (λ _ n1, socket_kept path (fs n) (fs n1))).
  { destruct there; cbn [negb]; [apply wp_ret, socket_kept_refl|]. apply wp_bind, wp_file_op, wp_ret.
    apply made_kept, os_MkdirAll_law. }
  intros _ n1 Hk1. apply wp_bind. eapply Remove_kept; [exact Hk1|]. intros _ n2 Hk2.
  apply wp_file_op. pose proof (Listen_law path (nd_world n2)) as Hl. fold (fs n2) in Hl.
  destruct (net_Listen path (nd_world n2)) as [[e|] w]; cbn [fst snd nd_world fs] in *.
  - split; [|done]. unfold fs at 2. cbn. by rewrite Hl.
  - destruct Hl as (_ & st & Hdir & Hw). unfold fs at 2 3. cbn. rewrite Hw. split.
    + eapply socket_kept_trans; [exact Hk2|apply set_file_kept].
    + intros _. exists st. split; [apply lookup_insert_eq|done].
Qed.

(** The server runs only with its socket bound ([bind_socket_ok]), whatever was
    left at the path, and it is stopped before [Start] returns; no other file,
    no mount and no disk that does not hold the socket is touched. *)
Theorem runner_started r (n : Node W) (log : list server_call) :
  os_stat (sockFile r) (nd_world n) ≠ StatError →
  wp (Start r) (λ err s', socket_kept (sockFile r) (fs n) (fs s'.1) ∧
    s'.2 = log ++ (if err then [] else [Serve; GracefulStop])) (n, log).
Proof.
  intros Hstat. unfold Start. apply wp_bind, wp_on_fst. eapply wp_mono; [by apply bind_socket_ok|].
  intros [e|] n' [Hk _]; [apply wp_ret; by rewrite app_nil_r|]. apply wp_bind. unfold server, wp at 1. simpl.
  apply wp_bind. unfold wp at 1. simpl. apply wp_bind, wp_on_fst, wp_bind. eapply Remove_kept; [exact Hk|].
  intros _ n2 Hk2. apply wp_ret, wp_ret. split; [done|]. by rewrite <- app_assoc.
Qed.
End theorems.

(** ** On the simulated node *)

#[local] Instance sim_listener : Listener sim := {|
  net_Listen path w :=
    match f_files (sim_fs w) !! path with
    | Some _ => (Some (ErrString "bind: address already in use"), w)
    | None => (None, set_files (<[path := mkStat 49152 0 0]> (sw_files w)) w)
    end
|}.

#[local] Instance sim_listener_laws : ListenerLaws sim.
Proof.
  split. intros path w. cbn [net_Listen sim_listener]. destruct (f_files (sim_fs w) !! path) as [st|] eqn:E; [done|].
  split; [done|]. eexists. split; [|apply sim_insert]. by intros ?.
Qed.

(** A node with the socket an earlier run left behind. *)
Definition stale_socket : Node sim :=
  mkNode ∅ ∅ (mkSim (nd_world sim_node) {["/run/csi.sock" := mkStat 49152 0 0]} [] ∅) [].

Lemma runner_started_run :
  let r := gRPCServerRunner.NewGRPCRunner "/run/csi.sock" false in
  (gRPCServerRunner.bind_socket r stale_socket).1 = Done None ∧
  (gRPCServerRunner.Start r (stale_socket, [])).1 = Done None ∧
  wp (gRPCServerRunner.Start r) (λ err s', socket_kept "/run/csi.sock" (fs stale_socket) (fs s'.1) ∧
    s'.2 = if err then [] else [Serve; GracefulStop]) (stale_socket, []).
Proof.
  split; [vm_compute; reflexivity|]. split; [vm_compute; reflexivity|].
  by apply (runner_started (gRPCServerRunner.NewGRPCRunner "/run/csi.sock" false) stale_socket []).
Qed.
